(* ===== verification/_CoqProject ===== *)
-Q . S2P
Prelude.v
Checked.v
GoSlice.v
VmProgram.v
VmProgramSpec.v
VmMachine.v
VmOps.v
EvmTransition.v
EvmBase.v
EvmAnalysis.v
EvmInstr.v
EvmGas.v
EvmPrecompiled.v
EvmRun.v
EvmLogic.v
EvmSafeOps.v
EvmSafeGas.v
EvmSafeCalls.v
EvmSafety.v
EvmFlow.v
EvmExamples.v
EvmResults.v
EvmEffects.v
EvmArith.v
EvmEnv.v
VmEvmOps.v
StdPrograms.v
VmRun.v
VmLogic.v
VmGas.v
VmAlias.v
VmPredicate.v
VmSpec.v
VmRefine.v
VmSimulation.v
VmAccounts.v
Encoding.v
Bc.v
EntryHash.v
Merkle.v
MerkleSpec.v
TxMap.v
Wire.v
WireSpec.v
TxMapSpec.v
Sm3.v
Primes.v
Fe25519.v
Fe25519Spec.v
Edwards.v
Sc25519.v
UtxoKeeper.v
UtxoKeeperSpec.v
TxValidation.v
TxConservation.v
UtxoView.v
Difficulty.v
BlockValidation.v
BlockSpec.v
BlockExamples.v
TxPool.v
TxPoolSpec.v
BlockIndex.v
Orphans.v
Chain.v
ChainSpec.v
LevelDB.v
LevelDBSpec.v
ChainSetup.v
ChainExamples.v
Mining.v
MiningSpec.v
MiningExamples.v
NetPeer.v
NetSync.v
NetHandle.v
NetSyncSpec.v
NetRelay.v
NetNode.v
NetExamples.v
