(* ===== verification/Prelude.v ===== *)
(** * Verification of the doslink node's consensus core

    doslink is a proof-of-work blockchain node in Go.  Transactions spend
    outputs guarded by programs for a stack machine (protocol/vm), which can
    also move value into and out of an account database run by an embedded
    EVM.  A transaction is mapped to entries (protocol/bc/types/map.go) and
    validated (protocol/validation/tx.go); a block is validated with its
    transactions (validation/block.go) and indexed in a tree of headers ordered
    by work (consensus/difficulty, protocol/state); the chain (protocol/block.go)
    moves along the best branch, keeps a set of unspent outputs
    (protocol/state/utxo_view.go), a pool of waiting transactions and orphan
    blocks, and stores everything in a key-value database (database/leveldb).
    Miners extend the best block (mining), a wallet reserves outputs for its
    payments (core/account), and a block keeper and handlers of messages
    exchange blocks and transactions with peers (net/netsync); signatures rest
    on the ed25519 arithmetic of basis/crypto.  This library models that core
    and proves what makes it correct.  Where the code does not do what it means
    to, the failure is a theorem, about all inputs of a kind or about a concrete
    one.

    ** Conventions

    - A w-bit Go integer is a [Z] with its wrap-around written out ([wrapU],
      [wrapS] below); big.Int is [Z]; bytes are [Z] in [0, 255].
    - Go code that can fail returns an [outcome]: a result, an error value, a
      run-time panic, or [Fuel] when a loop run with a bound reached the bound.
    - Code that mutates a structure is a function on an explicit state, in a
      state-and-error monad where many calls thread it ([VmMachine.M],
      [TxMap.MM], [TxValidation.V], [Chain.C]); errors keep the state reached,
      since callers look at it.
    - Byte slices on the machine's stacks are windows on shared arrays
      ([GoSlice]), because append may write into an array other slices see.
      Entries under construction are objects in a store ([TxMap]), and pointers
      to hashes that the code compares have addresses ([Orphans], [TxPool]).
    - Functions of other packages are fields of classes: [VmEnv] (hashes,
      signatures, the account database and the EVM, the growth policy of
      append), [EvmHost] (the account database and the cryptography the EVM
      calls), [BlockDB] and [EvmDisk] (go-ethereum's StateDB and its disk),
      [GoRange], [GoRangeId], [GoRangePeers] (the order in which Go iterates over
      a map), [GoSort], [AmountSort] (sorts that leave equal elements in any
      order), [GoFloat], [SetPop], [Prque], [Network] (what the connections take
      and what arrives in answer), or section variables.  [EvmOk], [HostOk],
      [ReadLaws], [BalanceLaws], [GoRangeOk], [GoSortOk] and the like state what
      is assumed of them.  [toy_env], [ledger_env], [map_host], [toy_range] and
      the instances of the example files are for witnesses.
    - The stack machine and the state transition are proved against [EvmOk], a
      promise about the gas the EVM hands back; [EvmEnv.evm_env] runs the
      modelled EVM behind that interface and keeps the promise
      ([evm_meets_the_transition]).
    - The chain is proved against two interfaces, [Chain.Store] (the Go
      interface of that name) and [Chain.BlockValidator], with the laws
      [StoreOk] and [BlockValidatorOk]; [LevelDBSpec] and [ChainSetup] discharge
      them for the modelled store and the modelled validation.
    - The network code is proved against [NetSync.NetChain] (the Go interface
      Chain of net/netsync) with the laws [NetChainOk] and [PoolLaws];
      [NetNode] discharges them for the chain.
    - A theorem that depends on the hash function holds for every function
      with 32 byte results.  Where it needs the function to be collision
      resistant, its conclusion has an alternative ([EntryHash.collision]): two
      different strings with the same hash in an explicit list of the strings
      that the code hashed ([entry_inputs], [block_inputs], [tx_inputs]).

    ** Files and the code they model

    - [Prelude]: machine integers, outcomes, byte strings, the cache of
      groupcache/lru, tactics, hints.
    - [Checked]: basis/math/checked.  Every operation is exact or reports overflow.
    - [GoSlice]: slices, reslicing and append over a heap of byte arrays.
    - [VmProgram], [VmProgramSpec]: the instruction format of protocol/vm
      (ops.go, pushdata.go, types.go); the parser against a reference decoder,
      round trips of pushed data and of integers (C5, C6).
    - [VmMachine], [VmOps], [VmEvmOps], [VmRun]: the machine state and its
      primitives (vm.go, context.go), one definition per opcode function
      (stack, numeric, bitwise, splice, pushdata, control, crypto,
      introspection, create, call, contract, vaab), the opcode table, step,
      run and Verify.
    - [EvmTransition]: protocol/vm/state, the application of a message around
      the EVM run.
    - [EvmBase], [EvmAnalysis], [EvmInstr], [EvmGas], [EvmPrecompiled],
      [EvmRun]: protocol/vm/evm.  Words, memory, stack, contracts; the analysis
      of jump destinations (C18); one definition per instruction and per gas
      function; the precompiled contracts; the jump tables, the interpreter
      loop, calls and creations.
    - [EvmLogic], [EvmSafeOps], [EvmSafeGas], [EvmSafeCalls], [EvmSafety]: a
      safety logic for the interpreter.  Under the invariant [frame_ok] no
      instruction reads outside its stack or memory, and every step pays.
    - [EvmResults]: a call or a creation returns, with no more gas than it got
      (C1).
    - [EvmFlow], [EvmEffects]: relations on the database that every write of
      the interpreter respects; a static call leaves the database as it was
      (C11), calls and creations make no money (C24).
    - [EvmArith]: the arithmetic instructions compute on 256 bit words what
      they should, but for one case (C14); the price of memory, and where it wraps
      ([memory_price_wraps_around]).
    - [EvmExamples], [EvmEnv]: a concrete host; the EVM as the environment of
      the stack machine (C7) and the money of a whole message (C16).
    - [StdPrograms]: protocol/vmutil and consensus/segwit, the builder of
      programs, the standard programs and their recognisers
      ([standard_programs_recognised]).
    - [VmLogic], [VmGas]: a program logic for gas.  Every opcode but
      CHECKPREDICATE uses up gas whatever its outcome, so gas bounds the steps
      and the main loop returns (C2).
    - [VmPredicate]: symbolic execution of a program that gains gas with
      CHECKPREDICATE (C4).
    - [VmAlias]: which opcodes leave existing bytes alone, by a frame logic
      over an arbitrary relation (C8); what CAT overwrites (C9).
    - [VmSpec], [VmRefine], [VmSimulation]: a specification of the data
      opcodes over byte strings and mathematical integers, the refinement of
      each opcode, of a step (C12) and of straight-line programs (C13).
    - [VmAccounts]: deposits, withdrawals (C15) and messages (C17).
    - [Encoding]: basis/encoding/blockchain, with round trips.
    - [Bc], [EntryHash]: the entries of protocol/bc, lookups, transaction
      status, identifiers: an identifier stands for one entry (C31).
    - [Merkle], [MerkleSpec]: types/merkle.go.  The root is the hash of the
      tree, it commits to the identifiers of the transactions, proofs of
      membership are exact (C34 to C36).
    - [TxMap], [TxMapSpec]: types/map.go, the entries of a transaction.
    - [Wire], [WireSpec]: the serialisation of transactions, headers and
      blocks in protocol/bc/types, with round trips (C40).
    - [TxValidation], [TxConservation]: validation/tx.go and vmcontext.go; a
      logic for its monad; a valid transaction conserves every asset up to its
      fee (C33).
    - [UtxoView]: protocol/state/utxo_view.go and its storage: a transaction
      spends what is unspent (C20), so a block spends an output no more often
      than there is one (C21); what detaching a block restores, and what it
      brings back that was not there (C22, [reorganisation_creates_money]).
    - [Difficulty]: consensus/difficulty, nodes of blockindex.go and header
      validation: targets survive their compact form (C27),
      a timestamp that halts the chain (C30).
    - [BlockValidation], [BlockSpec], [BlockExamples]: validation/block.go; the
      coinbase of a valid block pays exactly what is due (C37); two ways around
      the rules (C38, [duplicated_input_creates_money]).
    - [TxPool], [TxPoolSpec]: protocol/txpool.go; the pool stays well formed
      and adopting orphans ends (C10).
    - [BlockIndex], [Orphans]: the index of nodes with the main chain array
      (state/blockindex.go), orphan blocks (protocol/orphan_manage.go).
    - [Chain], [ChainSpec]: block processing of protocol/block.go and
      protocol.go; the index stays a tree, the main chain array the path to the
      best node, and the best chain never loses height or work (C3); the nodes
      of a reorganisation (C19); saving orphans ends (C25).
    - [LevelDB], [LevelDBSpec]: database/leveldb; a restart finds the same
      index and best chain (C26).
    - [ChainSetup], [ChainExamples]: the chain on the modelled store and
      validation; orphans that crash the node ([expired_siblings_crash_the_node]).
    - [Sm3]: basis/crypto/sm3.  However a message is cut into writes, the hash
      is that of the standard ([sm3_streams_the_standard_hash]).
    - [Primes]: primality of 2^255 - 19 by certificates of Pocklington's
      criterion.
    - [Fe25519], [Fe25519Spec]: basis/crypto/ed25519/internal/edwards25519, the
      field GF(2^255 - 19) on ten limbs and the coordinates of points, and the
      points of ecmath; the field operations compute in the field, with the
      bounds on limbs that keep int32 and int64 from overflowing.
    - [Edwards]: the group of the curve.  Sums, differences, doublings and
      encodings of points compute on it (C23).
    - [Sc25519]: the scalars of edwards25519.go and ecmath.  An interval
      analysis of the straight-line code bounds every limb; the results are the
      residues modulo the order of the base point (C28).
    - [UtxoKeeper], [UtxoKeeperSpec]: core/account/utxo_keeper.go, the outputs
      that the wallet reserves for its payments.  No output is reserved twice
      (C29); a reservation is exact or refused with the right error
      ([reservations_are_exact]).
    - [Mining], [MiningSpec], [MiningExamples]: core/txbuilder/builder.go and
      finalize.go, protocol/tx.go, mining/mining.go, cpuminer and miningpool.  A
      template extends the best block and keeps the rules (C32), a solved one
      has a valid header ([solved_templates_have_valid_headers]); what stops all
      miners ([higher_version_stops_the_miners]), and how a node mines a block
      that only it accepts ([doubled_size_forks_the_miner_off]).
    - [NetPeer], [NetSync], [NetHandle]: net/netsync and the ban score of
      net/p2p/trust.  Peers and broadcasts; the block keeper; the fetcher of
      announced blocks, the feed of transactions and the handlers of messages.
    - [NetSyncSpec]: a fast synchronisation follows the checkpoint whatever the
      peer sends (C39), an honest peer completes the headers
      ([honest_peers_complete_the_headers]), a block locator ends
      ([block_locator_reaches_the_first_block]); a node off the main chain
      drops honest peers.
    - [NetRelay]: two honest nodes that relay transactions end with a ban
      ([relaying_bans_the_honest_receiver]).
    - [NetNode], [NetExamples]: the chain behind the network; blocks keep the
      laws; a synchronisation that never returns
      ([lighter_branch_stalls_the_sync]); concrete nodes.

    ** Bounds

    [run_loop] takes the number of rounds it may make.  [run_loop_terminates]
    shows that one more than the gas is enough for every execution that does
    not reach a CHECKPREDICATE, and [run_loop_fuel_irrelevant] that a larger
    bound changes nothing.  For programs with CHECKPREDICATE no such bound
    exists, which is what [CHECKPREDICATE_defeats_the_gas_limit] shows.
    [ParseProgram] uses one round per byte and one more, and is proved total.
    [retarget_node] needs at most eleven ancestors, the retarget interval.
    The EVM's loop [EvmRun.loop] takes a bound shared by the loop and the depth
    of calls; the gas plus one is enough, since every step costs gas and a call
    is given less than is left ([evm_call_returns_within_gas]).
    The gas proofs assume that run limit, deferred cost and stack cost stay
    below 2^60 ([VmLogic.BOUND]), far above what a block allows.
    [checkValid] takes the depth of its recursion, which for a mapped
    transaction is four: header, result, mux, input.  [processOrphans] makes at most
    one round per waiting orphan and [saveSubBlock] goes no deeper than there
    are orphan blocks ([pool_stays_well_formed], [saving_orphans_ends]).
    [blockLocator] makes at most 80 rounds and needs ten more than the binary
    logarithm of the height ([block_locator_reaches_the_first_block]).  The
    loops of a synchronisation take a bound: with an honest peer one round for
    2048 headers and one more is enough ([honest_peers_complete_the_headers]);
    with another there need be no bound ([lighter_branch_stalls_the_sync]).
    [opt_loop] makes at most one round per output ([reservations_are_exact]),
    [format_digits] prints the twenty digits that 64 bits need.  The miner's
    loop runs as long as signals are supplied.

    ** Not modelled

    The EVM's database and the cryptographic primitives other than SM3 and the
    arithmetic of ed25519, which are parameters: hashes, the signing and
    verification of signatures, sm2, scrypt.  Of ed25519, the windowed
    multiplications of points (GeScalarMultBase, GeDoubleScalarMultVartime,
    slide, selectPoint) and the tables of multiples of the base point.
    Connections and peer discovery (net/p2p), the coding of messages by go-wire and JSON, timers and
    the scheduling of goroutines; the wallet beyond reservations (keys, signing,
    annotated indexes over a JSON database); the API, commands, configuration
    and the assembler, which hold no rules of the chain.  Of the miners, the
    goroutines that start and stop workers.  Of the EVM, the recycling of
    integers in intPool (every operation makes a fresh one), the tracer, the
    abort flag, the recording of hash preimages and the limits of allocation.
    A Go panic inside a nested call ends the whole execution; the model sets
    the ghost field [panicked] to the contract that ran, and the theorems show
    that a panic needs two executed codes with the same hash ([clash]).  What
    CALL and CONTRACT push is a fresh array in the model, although the identity
    precompile returns its input.  The program and the arguments of an input
    are copied for each run of the machine, where the code passes its slices.
    Of the pool, the channel of messages: the model records them and never
    blocks when it is full.  Of the chain, writing the genesis block
    (initChainStatus) and the notification of waiting goroutines. *)

From stdpp Require Export prelude.
From Stdlib Require Export ZArith Lia.
#[export] Set Default Goal Selector "!".

Declare Scope go_scope.
Delimit Scope go_scope with go.
#[global] Open Scope Z_scope.

(** ** Machine integers: a w-bit Go integer is a [Z], its wrap-around written out *)

Definition wrapU (w x : Z) : Z := x mod 2 ^ w.
Definition wrapS (w x : Z) : Z := (x + 2 ^ (w - 1)) mod 2 ^ w - 2 ^ (w - 1).

Definition uint8 (x : Z) : Z := wrapU 8 x.
Definition uint16 (x : Z) : Z := wrapU 16 x.
Definition uint32 (x : Z) : Z := wrapU 32 x.
Definition uint64 (x : Z) : Z := wrapU 64 x.
Definition int32 (x : Z) : Z := wrapS 32 x.
Definition int64 (x : Z) : Z := wrapS 64 x.

Abbreviation MaxInt32 := 2147483647.
Abbreviation MinInt32 := (-2147483648).
Abbreviation MaxUint32 := 4294967295.
Abbreviation MaxInt64 := 9223372036854775807.
Abbreviation MinInt64 := (-9223372036854775808).
Abbreviation MaxUint64 := 18446744073709551615.

Definition is_int64 (x : Z) : Prop := MinInt64 <= x <= MaxInt64.
Definition is_int32 (x : Z) : Prop := MinInt32 <= x <= MaxInt32.
Definition is_uint64 (x : Z) : Prop := 0 <= x <= MaxUint64.
Definition is_uint32 (x : Z) : Prop := 0 <= x <= MaxUint32.
Definition is_byte (b : Z) : Prop := 0 <= b <= 255.

(** ** Outcomes of Go code: a result, an error value, a run-time panic, or
    (for loops run with a bound on their iterations) the bound reached *)

Inductive outcome (E A : Type) : Type :=
| Ok (a : A)
| Err (e : E)
| Panic
| Fuel.
Arguments Ok {E A} a.
Arguments Err {E A} e.
Arguments Panic {E A}.
Arguments Fuel {E A}.

Definition obind {E A B : Type} (m : outcome E A) (k : A → outcome E B) : outcome E B :=
  match m with
  | Ok a => k a
  | Err e => Err e
  | Panic => Panic
  | Fuel => Fuel
  end.

Notation "'let?' x ':=' m 'in' k" := (obind m (λ x, k))
  (at level 10, x pattern, m at level 100, k at level 200) : go_scope.

Lemma Ok_inj {E A} (a b : A) : Ok (E:=E) a = Ok b → a = b.
Proof. congruence. Qed.

(** ** Little-endian and big-endian byte strings *)

Fixpoint le_bytes (n : nat) (z : Z) : list Z :=
  match n with
  | O => []
  | S n => z mod 256 :: le_bytes n (z / 256)
  end.

Fixpoint le_value (bs : list Z) : Z :=
  match bs with
  | [] => 0
  | b :: r => b + 256 * le_value r
  end.

(** [big.Int.SetBytes]: a big-endian unsigned number *)
Definition be_value (bs : list Z) : Z := fold_left (λ acc b, 256 * acc + b) bs 0.

(** Length of a byte string or stack as a Go [int] *)
Definition len {A} (l : list A) : Z := Z.of_nat (length l).

(** ** Automation *)

Create HintDb go.
Create Rewrite HintDb go_rw.

(** Case analysis on every integer comparison of the goal or the hypotheses. *)
Ltac zcases :=
  repeat match goal with
  | |- context [?a <? ?b] => destruct (Z.ltb_spec a b)
  | |- context [?a <=? ?b] => destruct (Z.leb_spec a b)
  | |- context [?a =? ?b] => destruct (Z.eqb_spec a b)
  | |- context [?a >? ?b] => rewrite (Z.gtb_ltb a b)
  | |- context [?a >=? ?b] => rewrite (Z.geb_leb a b)
  end.

Ltac zcases_in H :=
  repeat match type of H with
  | context [?a <? ?b] => destruct (Z.ltb_spec a b)
  | context [?a <=? ?b] => destruct (Z.leb_spec a b)
  | context [?a =? ?b] => destruct (Z.eqb_spec a b)
  | context [?a >? ?b] => rewrite (Z.gtb_ltb a b) in H
  | context [?a >=? ?b] => rewrite (Z.geb_leb a b) in H
  end.

Ltac ranges := unfold is_int64, is_int32, is_uint64, is_uint32, is_byte in *.

(** ** Wrap-around lemmas *)

Lemma int64_id x : is_int64 x → int64 x = x.
Proof. unfold is_int64, int64, wrapS. intros H. rewrite Z.mod_small by lia. lia. Qed.

Lemma int32_id x : is_int32 x → int32 x = x.
Proof. unfold is_int32, int32, wrapS. intros H. rewrite Z.mod_small by lia. lia. Qed.

Lemma uint64_id x : is_uint64 x → uint64 x = x.
Proof. unfold is_uint64, uint64, wrapU. intros H. by rewrite Z.mod_small by lia. Qed.

Lemma uint32_id x : is_uint32 x → uint32 x = x.
Proof. unfold is_uint32, uint32, wrapU. intros H. by rewrite Z.mod_small by lia. Qed.

Lemma int64_range x : is_int64 (int64 x).
Proof.
  unfold is_int64, int64, wrapS.
  pose proof (Z.mod_pos_bound (x + 2 ^ (64 - 1)) (2 ^ 64)). lia.
Qed.

Lemma uint64_range x : is_uint64 (uint64 x).
Proof. unfold is_uint64, uint64, wrapU. pose proof (Z.mod_pos_bound x (2 ^ 64)). lia. Qed.

Lemma uint32_range x : is_uint32 (uint32 x).
Proof. unfold is_uint32, uint32, wrapU. pose proof (Z.mod_pos_bound x (2 ^ 32)). lia. Qed.

(** Converting int64 to uint64 and back loses nothing. *)
Lemma int64_uint64 x : is_int64 x → int64 (uint64 x) = x.
Proof.
  intros H. unfold int64, uint64, wrapS, wrapU.
  rewrite Zplus_mod_idemp_l. rewrite Z.mod_small; unfold is_int64 in H; lia.
Qed.

Lemma uint64_int64 x : is_uint64 x → uint64 (int64 x) = x.
Proof.
  intros H. unfold int64, uint64, wrapS, wrapU.
  rewrite Zminus_mod_idemp_l. unfold is_uint64 in H.
  rewrite Z.add_simpl_r. rewrite Z.mod_small; lia.
Qed.

#[export] Hint Resolve int64_range uint64_range uint32_range : go.

(** ** Byte-string lemmas *)

Lemma length_le_bytes n z : length (le_bytes n z) = n.
Proof. revert z; induction n; intros z; simpl; auto. Qed.

Lemma le_bytes_range n z : Forall is_byte (le_bytes n z).
Proof.
  revert z; induction n; intros z; simpl; constructor; [|done].
  unfold is_byte. pose proof (Z.mod_pos_bound z 256). lia.
Qed.

Lemma le_value_bytes n z : le_value (le_bytes n z) = z mod 256 ^ Z.of_nat n.
Proof.
  revert z; induction n as [|n IH]; intros z; simpl.
  - by rewrite Z.mod_1_r.
  - rewrite IH, Nat2Z.inj_succ, Z.pow_succ_r by lia.
    rewrite Z.rem_mul_r by lia. lia.
Qed.

Lemma le_value_bound bs : Forall is_byte bs → 0 <= le_value bs < 256 ^ len bs.
Proof.
  unfold len. induction 1 as [|b bs Hb _ IH]; cbn [le_value length]; [simpl; lia|].
  rewrite Nat2Z.inj_succ, Z.pow_succ_r by lia. unfold is_byte in Hb. lia.
Qed.

Lemma le_bytes_value bs : Forall is_byte bs → le_bytes (length bs) (le_value bs) = bs.
Proof.
  induction 1 as [|b bs Hb _ IH]; cbn [le_value le_bytes length]; [done|].
  unfold is_byte in Hb. rewrite (Z.mul_comm 256).
  rewrite Z_mod_plus_full, Z.mod_small by lia.
  rewrite Z_div_plus_full, Z.div_small by lia. by rewrite Z.add_0_l, IH.
Qed.

Lemma le_value_app a b : le_value (a ++ b) = le_value a + 256 ^ len a * le_value b.
Proof.
  unfold len. induction a as [|x a IH]; cbn [le_value length app]; [simpl; lia|].
  rewrite Nat2Z.inj_succ, Z.pow_succ_r by lia. rewrite IH. lia.
Qed.

Lemma le_value_zeros n : le_value (replicate n 0) = 0.
Proof. induction n; simpl; lia. Qed.

Lemma len_nonneg {A} (l : list A) : 0 <= len l.
Proof. unfold len. lia. Qed.

Lemma len_cons {A} (x : A) l : len (x :: l) = 1 + len l.
Proof. unfold len. simpl. lia. Qed.

Lemma len_app {A} (l k : list A) : len (l ++ k) = len l + len k.
Proof. unfold len. rewrite length_app. lia. Qed.

#[export] Hint Resolve len_nonneg le_bytes_range : go.
#[export] Hint Rewrite @len_app length_le_bytes le_value_bytes le_value_app le_value_zeros : go_rw.

(** ** The cache of [groupcache/lru], as the node uses it

    A list with the most recent entry first.  [Get] moves the entry it finds to
    the front; [Add] of a new key drops the oldest entry of a full cache. *)

Section lru.
Context {K V : Type} `{EqDecision K} (maxEntries : nat).

Definition lru : Type := list (K * V).

Definition lru_find (key : K) (c : lru) : option V := snd <$> List.find (λ p, bool_decide (p.1 = key)) c.
Definition lru_drop (key : K) (c : lru) : lru := List.filter (λ p, negb (bool_decide (p.1 = key))) c.

Definition lru_Add (key : K) (value : V) (c : lru) : lru :=
  match lru_find key c with
  | Some _ => (key, value) :: lru_drop key c
  | None => take maxEntries ((key, value) :: c)
  end.

Definition lru_Get (key : K) (c : lru) : option V * lru :=
  match lru_find key c with
  | Some v => (Some v, (key, v) :: lru_drop key c)
  | None => (None, c)
  end.

(** ** What is kept of the entries *)

Lemma lru_find_in key c v : lru_find key c = Some v → (key, v) ∈ c.
Proof.
  induction c as [|[k x] c IH]; [done|]. unfold lru_find. cbn. case_bool_decide as Hk.
  - intros [= ->]. subst k. by left.
  - intros Hv. right. by apply IH.
Qed.

Lemma lru_find_None key c : lru_find key c = None ↔ key ∉ c.*1.
Proof.
  induction c as [|[k x] c IH]; [split; [intros _; apply not_elem_of_nil|done]|]. unfold lru_find in *. cbn.
  case_bool_decide as Hk; cbn.
  - split; [done|]. intros Hn. exfalso. apply Hn. subst k. by left.
  - rewrite IH. rewrite not_elem_of_cons. naive_solver.
Qed.

Lemma lru_Add_Forall (P : K * V → Prop) key v c : P (key, v) → Forall P c → Forall P (lru_Add key v c).
Proof.
  intros Hv Hc. unfold lru_Add. destruct (lru_find key c).
  - constructor; [done|]. apply Forall_forall. intros p Hp%list_elem_of_In. apply List.filter_In in Hp as [Hp _].
    rewrite Forall_forall in Hc. by apply Hc, list_elem_of_In.
  - by apply Forall_take, Forall_cons.
Qed.

Lemma lru_Get_Forall (P : K * V → Prop) key c : Forall P c → Forall P (lru_Get key c).2.
Proof.
  intros Hc. unfold lru_Get. destruct (lru_find key c) as [v|] eqn:Hf; [|done]. cbn.
  constructor; [by eapply Forall_forall, lru_find_in|]. apply Forall_forall.
  intros p Hp%list_elem_of_In. apply List.filter_In in Hp as [Hp _]. rewrite Forall_forall in Hc. by apply Hc, list_elem_of_In.
Qed.

Lemma lru_Add_find key v c : (0 < maxEntries)%nat → lru_find key (lru_Add key v c) = Some v.
Proof.
  intros Hm. unfold lru_Add. destruct (lru_find key c); [|destruct maxEntries; [lia|]];
    unfold lru_find; cbn; by rewrite bool_decide_true.
Qed.
End lru.
Arguments lru : clear implicits.
