(* ===== verification/Checked.v ===== *)
(** * Checked machine arithmetic ([basis/math/checked/checked.go])

    Every function of the package, its overflow test translated as written.
    Go returns a pair [(result, ok)] whose result is 0 when [ok] is false:
    [None] stands for [(0, false)].  Go's [/] and [%] truncate toward zero
    ([Z.quot], [Z.rem]); [>>] on a signed constant is arithmetic ([Z.shiftr]).
    The theorems say each test is exact: a result is returned precisely when
    the mathematical result fits the width, and then it is that result. *)

From S2P Require Import Prelude.

Definition AddInt64 (a b : Z) : option Z :=
  if ((0 <? b) && (MaxInt64 - b <? a)) || ((b <? 0) && (a <? MinInt64 - b))
  then None else Some (int64 (a + b)).

Definition SubInt64 (a b : Z) : option Z :=
  if ((0 <? b) && (a <? MinInt64 + b)) || ((b <? 0) && (MaxInt64 + b <? a))
  then None else Some (int64 (a - b)).

Definition MulInt64 (a b : Z) : option Z :=
  if ((0 <? a) && (0 <? b) && (Z.quot MaxInt64 b <? a))
     || ((0 <? a) && (b <=? 0) && (b <? Z.quot MinInt64 a))
     || ((a <=? 0) && (0 <? b) && (a <? Z.quot MinInt64 b))
     || ((a <? 0) && (b <=? 0) && (b <? Z.quot MaxInt64 a))
  then None else Some (int64 (a * b)).

Definition DivInt64 (a b : Z) : option Z :=
  if (b =? 0) || ((a =? MinInt64) && (b =? -1)) then None else Some (int64 (Z.quot a b)).

Definition ModInt64 (a b : Z) : option Z :=
  if (b =? 0) || ((a =? MinInt64) && (b =? -1)) then None else Some (int64 (Z.rem a b)).

Definition NegateInt64 (a : Z) : option Z :=
  if a =? MinInt64 then None else Some (int64 (- a)).

Definition LshiftInt64 (a b : Z) : option Z :=
  if (b <? 0) || (64 <=? b) then None
  else if ((0 <=? a) && (Z.shiftr MaxInt64 b <? a)) || ((a <? 0) && (a <? Z.shiftr MinInt64 b))
  then None else Some (int64 (Z.shiftl a b)).

Definition AddInt32 (a b : Z) : option Z :=
  if ((0 <? b) && (MaxInt32 - b <? a)) || ((b <? 0) && (a <? MinInt32 - b))
  then None else Some (int32 (a + b)).

Definition SubInt32 (a b : Z) : option Z :=
  if ((0 <? b) && (a <? MinInt32 + b)) || ((b <? 0) && (MaxInt32 + b <? a))
  then None else Some (int32 (a - b)).

Definition MulInt32 (a b : Z) : option Z :=
  if ((0 <? a) && (0 <? b) && (Z.quot MaxInt32 b <? a))
     || ((0 <? a) && (b <=? 0) && (b <? Z.quot MinInt32 a))
     || ((a <=? 0) && (0 <? b) && (a <? Z.quot MinInt32 b))
     || ((a <? 0) && (b <=? 0) && (b <? Z.quot MaxInt32 a))
  then None else Some (int32 (a * b)).

Definition DivInt32 (a b : Z) : option Z :=
  if (b =? 0) || ((a =? MinInt32) && (b =? -1)) then None else Some (int32 (Z.quot a b)).

Definition ModInt32 (a b : Z) : option Z :=
  if (b =? 0) || ((a =? MinInt32) && (b =? -1)) then None else Some (int32 (Z.rem a b)).

Definition NegateInt32 (a : Z) : option Z :=
  if a =? MinInt32 then None else Some (int32 (- a)).

Definition LshiftInt32 (a b : Z) : option Z :=
  if (b <? 0) || (32 <=? b) then None
  else if ((0 <=? a) && (Z.shiftr MaxInt32 b <? a)) || ((a <? 0) && (a <? Z.shiftr MinInt32 b))
  then None else Some (int32 (Z.shiftl a b)).

Definition AddUint64 (a b : Z) : option Z :=
  if MaxUint64 - a <? b then None else Some (uint64 (a + b)).

Definition SubUint64 (a b : Z) : option Z :=
  if a <? b then None else Some (uint64 (a - b)).

Definition MulUint64 (a b : Z) : option Z :=
  if (0 <? b) && (Z.quot MaxUint64 b <? a) then None else Some (uint64 (a * b)).

Definition DivUint64 (a b : Z) : option Z :=
  if b =? 0 then None else Some (uint64 (Z.quot a b)).

Definition ModUint64 (a b : Z) : option Z :=
  if b =? 0 then None else Some (uint64 (Z.rem a b)).

Definition LshiftUint64 (a b : Z) : option Z :=
  if 64 <=? b then None
  else if Z.shiftr MaxUint64 b <? a then None else Some (uint64 (Z.shiftl a b)).

Definition AddUint32 (a b : Z) : option Z :=
  if MaxUint32 - a <? b then None else Some (uint32 (a + b)).

Definition SubUint32 (a b : Z) : option Z :=
  if a <? b then None else Some (uint32 (a - b)).

Definition MulUint32 (a b : Z) : option Z :=
  if (0 <? b) && (Z.quot MaxUint32 b <? a) then None else Some (uint32 (a * b)).

Definition DivUint32 (a b : Z) : option Z :=
  if b =? 0 then None else Some (uint32 (Z.quot a b)).

Definition ModUint32 (a b : Z) : option Z :=
  if b =? 0 then None else Some (uint32 (Z.rem a b)).

Definition LshiftUint32 (a b : Z) : option Z :=
  if 32 <=? b then None
  else if Z.shiftr MaxUint32 b <? a then None else Some (uint32 (Z.shiftl a b)).

(** ** Specification: the mathematical result when it lies in [lo, hi] *)

Definition exact (lo hi r : Z) : option Z :=
  if (lo <=? r) && (r <=? hi) then Some r else None.

Abbreviation exact_i64 := (exact MinInt64 MaxInt64).
Abbreviation exact_i32 := (exact MinInt32 MaxInt32).
Abbreviation exact_u64 := (exact 0 MaxUint64).
Abbreviation exact_u32 := (exact 0 MaxUint32).

(** Unfold a checked operation, split on its tests and drop the wrap-around
    of a result that fits. *)
Ltac checked_crush f :=
  unfold f, exact; zcases; simpl; try lia; try done;
  f_equal; (apply int64_id || apply int32_id || apply uint64_id || apply uint32_id);
  ranges; lia.

Lemma AddInt64_exact a b : is_int64 a → is_int64 b → AddInt64 a b = exact_i64 (a + b).
Proof. intros Ha Hb; ranges. checked_crush AddInt64. Qed.

Lemma SubInt64_exact a b : is_int64 a → is_int64 b → SubInt64 a b = exact_i64 (a - b).
Proof. intros Ha Hb; ranges. checked_crush SubInt64. Qed.

Lemma AddInt32_exact a b : is_int32 a → is_int32 b → AddInt32 a b = exact_i32 (a + b).
Proof. intros Ha Hb; ranges. checked_crush AddInt32. Qed.

Lemma SubInt32_exact a b : is_int32 a → is_int32 b → SubInt32 a b = exact_i32 (a - b).
Proof. intros Ha Hb; ranges. checked_crush SubInt32. Qed.

Lemma NegateInt64_exact a : is_int64 a → NegateInt64 a = exact_i64 (- a).
Proof. intros Ha; ranges. checked_crush NegateInt64. Qed.

Lemma NegateInt32_exact a : is_int32 a → NegateInt32 a = exact_i32 (- a).
Proof. intros Ha; ranges. checked_crush NegateInt32. Qed.

Lemma AddUint64_exact a b : is_uint64 a → is_uint64 b → AddUint64 a b = exact_u64 (a + b).
Proof. intros Ha Hb; ranges. checked_crush AddUint64. Qed.

Lemma SubUint64_exact a b : is_uint64 a → is_uint64 b → SubUint64 a b = exact_u64 (a - b).
Proof. intros Ha Hb; ranges. checked_crush SubUint64. Qed.

Lemma AddUint32_exact a b : is_uint32 a → is_uint32 b → AddUint32 a b = exact_u32 (a + b).
Proof. intros Ha Hb; ranges. checked_crush AddUint32. Qed.

Lemma SubUint32_exact a b : is_uint32 a → is_uint32 b → SubUint32 a b = exact_u32 (a - b).
Proof. intros Ha Hb; ranges. checked_crush SubUint32. Qed.

(** The four quotient tests of the signed products: truncation rounds the
    quotient toward zero, which is the right side of the product's bound. *)
Lemma quot_lt_pos M a b : 0 <= M → 0 < a → 0 < b → Z.quot M b < a ↔ M < a * b.
Proof.
  intros. rewrite Z.quot_div_nonneg by lia. split; intros H2.
  - pose proof (Z.mul_succ_div_gt M b). nia.
  - apply Z.div_lt_upper_bound; lia.
Qed.

Lemma lt_quot_neg m a b : m <= 0 → 0 < a → b < Z.quot m a ↔ a * b < m.
Proof.
  intros. replace m with (- (- m)) by lia. rewrite Z.quot_opp_l by lia.
  rewrite Z.quot_div_nonneg by lia.
  pose proof (Z.mul_div_le (- m) a). pose proof (Z.mul_succ_div_gt (- m) a).
  split; intros; nia.
Qed.

Lemma lt_quot_both M a b : 0 <= M → a < 0 → b < Z.quot M a ↔ M < a * b.
Proof.
  intros. replace a with (- (- a)) by lia. rewrite Z.quot_opp_r by lia.
  rewrite Z.quot_div_nonneg by lia.
  pose proof (Z.mul_div_le M (- a)). pose proof (Z.mul_succ_div_gt M (- a)).
  split; intros; nia.
Qed.

(** The whole product test, for any signed width [m .. M]. *)
Lemma mul_test m M a b : m < 0 → 0 < M → 
  ((0 <? a) && (0 <? b) && (Z.quot M b <? a))
     || ((0 <? a) && (b <=? 0) && (b <? Z.quot m a))
     || ((a <=? 0) && (0 <? b) && (a <? Z.quot m b))
     || ((a <? 0) && (b <=? 0) && (b <? Z.quot M a))
  = negb ((m <=? a * b) && (a * b <=? M)).
Proof.
  intros Hm HM. apply Bool.eq_iff_eq_true.
  rewrite !orb_true_iff, !andb_true_iff, negb_true_iff, andb_false_iff,
    !Z.ltb_lt, !Z.leb_le, !Z.leb_gt.
  pose proof (quot_lt_pos M a b). pose proof (lt_quot_neg m a b).
  pose proof (lt_quot_neg m b a). pose proof (lt_quot_both M a b).
  destruct (Z.lt_trichotomy a 0) as [Ha|[->|Ha]], (Z.lt_trichotomy b 0) as [Hb|[->|Hb]];
    rewrite ?Z.mul_0_l, ?Z.mul_0_r in *; try lia.
Qed.

Lemma MulInt64_exact a b : MulInt64 a b = exact_i64 (a * b).
Proof.
  unfold MulInt64, exact. rewrite mul_test by lia.
  destruct ((MinInt64 <=? a * b) && (a * b <=? MaxInt64)) eqn:E; simpl; [|done].
  apply andb_true_iff in E as [?%Z.leb_le ?%Z.leb_le].
  f_equal. apply int64_id. ranges; lia.
Qed.

Lemma MulInt32_exact a b : MulInt32 a b = exact_i32 (a * b).
Proof.
  unfold MulInt32, exact. rewrite mul_test by lia.
  destruct ((MinInt32 <=? a * b) && (a * b <=? MaxInt32)) eqn:E; simpl; [|done].
  apply andb_true_iff in E as [?%Z.leb_le ?%Z.leb_le].
  f_equal. apply int32_id. ranges; lia.
Qed.

Lemma mulU_test M a b : 0 <= M → 0 <= a → 0 <= b →
  ((0 <? b) && (Z.quot M b <? a)) = negb ((0 <=? a * b) && (a * b <=? M)).
Proof.
  intros HM Ha Hb. apply Bool.eq_iff_eq_true.
  rewrite !andb_true_iff, negb_true_iff, andb_false_iff, !Z.ltb_lt, !Z.leb_gt.
  pose proof (quot_lt_pos M a b).
  destruct (Z.eq_dec b 0) as [->|]; [lia|].
  destruct (Z.eq_dec a 0) as [->|].
  - pose proof (Z.quot_pos M b). lia.
  - assert (0 < a * b) by nia. lia.
Qed.

Lemma MulUint64_exact a b : is_uint64 a → is_uint64 b → MulUint64 a b = exact_u64 (a * b).
Proof.
  intros Ha Hb; ranges. unfold MulUint64, exact. rewrite mulU_test by lia.
  destruct ((0 <=? a * b) && (a * b <=? MaxUint64)) eqn:E; simpl; [|done].
  apply andb_true_iff in E as [?%Z.leb_le ?%Z.leb_le].
  f_equal. apply uint64_id. ranges; lia.
Qed.

Lemma MulUint32_exact a b : is_uint32 a → is_uint32 b → MulUint32 a b = exact_u32 (a * b).
Proof.
  intros Ha Hb; ranges. unfold MulUint32, exact. rewrite mulU_test by lia.
  destruct ((0 <=? a * b) && (a * b <=? MaxUint32)) eqn:E; simpl; [|done].
  apply andb_true_iff in E as [?%Z.leb_le ?%Z.leb_le].
  f_equal. apply uint32_id. ranges; lia.
Qed.

(** Truncated quotients and remainders stay in the signed range except for the
    one pair [MinInt / -1]. *)
Lemma quot_range m M a b : m = - M - 1 → 0 < M → m <= a <= M → b ≠ 0 →
  ¬ (a = m ∧ b = -1) → m <= Z.quot a b <= M.
Proof.
  intros -> HM Ha Hb Hn.
  assert (Z.abs (Z.quot a b) <= Z.abs a).
  { rewrite <- Z.quot_abs by done. rewrite Z.quot_div_nonneg by lia.
    apply Z.div_le_upper_bound; nia. }
  destruct (Z.eq_dec a (- M - 1)) as [->|]; [|lia].
  destruct (Z.eq_dec (Z.quot (- M - 1) b) (M + 1)) as [Hq|]; [|lia].
  pose proof (Z.quot_rem (- M - 1) b Hb). pose proof (Z.rem_bound_abs (- M - 1) b Hb).
  exfalso. apply Hn. split; [done|]. rewrite Hq in *. nia.
Qed.

Lemma rem_range m M a b : m = - M - 1 → m <= a <= M → b ≠ 0 → m <= Z.rem a b <= M.
Proof.
  intros -> Ha Hb.
  pose proof (Z.rem_le (Z.abs a) (Z.abs b)).
  pose proof (Z.rem_abs a b Hb). 
  destruct (Z.le_gt_cases 0 a).
  - pose proof (Z.rem_nonneg a b). lia.
  - pose proof (Z.rem_nonpos a b). lia.
Qed.

Lemma DivInt64_exact a b : is_int64 a → is_int64 b → b ≠ 0 →
  DivInt64 a b = exact_i64 (Z.quot a b).
Proof.
  intros Ha Hb Hz; ranges. unfold DivInt64, exact.
  destruct (Z.eqb_spec b 0) as [|_]; [done|]. simpl.
  destruct (Z.eqb_spec a MinInt64) as [->|?], (Z.eqb_spec b (-1)) as [->|?]; simpl; try done.
  all: pose proof (quot_range MinInt64 MaxInt64 _ _ eq_refl ltac:(lia) Ha Hz ltac:(lia)).
  all: try (rewrite (proj2 (andb_true_iff _ _)) by (rewrite !Z.leb_le; lia)).
  all: f_equal; apply int64_id; ranges; lia.
Qed.

Lemma DivInt32_exact a b : is_int32 a → is_int32 b → b ≠ 0 →
  DivInt32 a b = exact_i32 (Z.quot a b).
Proof.
  intros Ha Hb Hz; ranges. unfold DivInt32, exact.
  destruct (Z.eqb_spec b 0) as [|_]; [done|]. simpl.
  destruct (Z.eqb_spec a MinInt32) as [->|?], (Z.eqb_spec b (-1)) as [->|?]; simpl; try done.
  all: pose proof (quot_range MinInt32 MaxInt32 _ _ eq_refl ltac:(lia) Ha Hz ltac:(lia)).
  all: try (rewrite (proj2 (andb_true_iff _ _)) by (rewrite !Z.leb_le; lia)).
  all: f_equal; apply int32_id; ranges; lia.
Qed.

(** [MinInt % -1] is 0 in Go, but the code reports it as an overflow; every
    other remainder is exact. *)
Lemma ModInt64_exact a b : is_int64 a → is_int64 b → b ≠ 0 →
  ModInt64 a b = if (a =? MinInt64) && (b =? -1) then None else Some (Z.rem a b).
Proof.
  intros Ha Hb Hz. unfold ModInt64.
  destruct (Z.eqb_spec b 0) as [|_]; [done|]. simpl.
  destruct (_ && _); [done|]. f_equal. apply int64_id. ranges.
  apply (rem_range MinInt64 MaxInt64); lia.
Qed.

Lemma ModInt32_exact a b : is_int32 a → is_int32 b → b ≠ 0 →
  ModInt32 a b = if (a =? MinInt32) && (b =? -1) then None else Some (Z.rem a b).
Proof.
  intros Ha Hb Hz. unfold ModInt32.
  destruct (Z.eqb_spec b 0) as [|_]; [done|]. simpl.
  destruct (_ && _); [done|]. f_equal. apply int32_id. ranges.
  apply (rem_range MinInt32 MaxInt32); lia.
Qed.

Lemma DivModUint64_exact a b : is_uint64 a → is_uint64 b → b ≠ 0 →
  DivUint64 a b = Some (a / b) ∧ ModUint64 a b = Some (a mod b).
Proof.
  intros Ha Hb Hz. unfold DivUint64, ModUint64.
  destruct (Z.eqb_spec b 0) as [|_]; [done|]. ranges.
  rewrite Z.quot_div_nonneg, Z.rem_mod_nonneg by lia.
  pose proof (Z.div_pos a b). pose proof (Z.mod_pos_bound a b).
  pose proof (Z.div_le_upper_bound a b a). 
  rewrite !uint64_id by (ranges; nia). done.
Qed.

(** The shift tests compare with the bound shifted right, which is exact. *)
Lemma shiftr_pow M b : 0 <= b → Z.shiftr M b = M / 2 ^ b.
Proof. intros. by apply Z.shiftr_div_pow2. Qed.

Lemma shift_test_pos M a b : 0 <= b → Z.shiftr M b < a ↔ M < a * 2 ^ b.
Proof.
  intros Hb. rewrite shiftr_pow by done.
  pose proof (Z.pow_pos_nonneg 2 b). pose proof (Z.mul_succ_div_gt M (2 ^ b)).
  pose proof (Z.mul_div_le M (2 ^ b)). split; intros; nia.
Qed.

Lemma shift_test_neg k a b : 0 <= b <= k → a < Z.shiftr (- 2 ^ k) b ↔ a * 2 ^ b < - 2 ^ k.
Proof.
  intros Hb. rewrite shiftr_pow by lia.
  replace (2 ^ k) with (2 ^ (k - b) * 2 ^ b) by (rewrite <- Z.pow_add_r by lia; f_equal; lia).
  rewrite <- Z.mul_opp_l, Z.div_mul by (apply Z.pow_nonzero; lia).
  pose proof (Z.pow_pos_nonneg 2 b). split; intros; nia.
Qed.

Lemma LshiftInt64_exact a b : is_int64 a → 0 <= b →
  LshiftInt64 a b = if 64 <=? b then None else exact_i64 (a * 2 ^ b).
Proof.
  intros Ha Hb; ranges. unfold LshiftInt64.
  destruct (Z.ltb_spec b 0) as [|_]; [lia|]. simpl.
  destruct (Z.leb_spec 64 b) as [|H64]; [done|].
  pose proof (shift_test_pos MaxInt64 a b Hb). pose proof (shift_test_neg 63 a b ltac:(lia)) as Hn.
  change (- 2 ^ 63) with MinInt64 in Hn. rewrite Z.shiftl_mul_pow2 by done.
  pose proof (Z.pow_pos_nonneg 2 b). unfold exact.
  destruct (Z.leb_spec 0 a), (Z.ltb_spec a 0), (Z.ltb_spec (Z.shiftr MaxInt64 b) a),
    (Z.ltb_spec a (Z.shiftr MinInt64 b)), (Z.leb_spec MinInt64 (a * 2 ^ b)),
    (Z.leb_spec (a * 2 ^ b) MaxInt64); simpl; try lia; try done; try nia;
    f_equal; apply int64_id; ranges; lia.
Qed.

Lemma LshiftUint64_exact a b : is_uint64 a → 0 <= b →
  LshiftUint64 a b = if 64 <=? b then None else exact_u64 (a * 2 ^ b).
Proof.
  intros Ha Hb; ranges. unfold LshiftUint64.
  destruct (Z.leb_spec 64 b) as [|H64]; [done|].
  pose proof (shift_test_pos MaxUint64 a b Hb). rewrite Z.shiftl_mul_pow2 by done.
  pose proof (Z.pow_pos_nonneg 2 b). unfold exact.
  destruct (Z.ltb_spec (Z.shiftr MaxUint64 b) a), (Z.leb_spec 0 (a * 2 ^ b)),
    (Z.leb_spec (a * 2 ^ b) MaxUint64); simpl; try lia; try done; try nia;
    f_equal; apply uint64_id; ranges; lia.
Qed.

(** ** The package's contract, width by width *)

(** On [int64] operands every checked operation returns a result exactly
    when the mathematical result fits, and returns that result (a division or
    remainder by zero is refused, and so is [MinInt64 % -1]). *)
Theorem checked_int64_exact a b : is_int64 a → is_int64 b →
  AddInt64 a b = exact_i64 (a + b) ∧
  SubInt64 a b = exact_i64 (a - b) ∧
  MulInt64 a b = exact_i64 (a * b) ∧
  NegateInt64 a = exact_i64 (- a) ∧
  DivInt64 a b = (if b =? 0 then None else exact_i64 (Z.quot a b)) ∧
  ModInt64 a b = (if (b =? 0) || ((a =? MinInt64) && (b =? -1)) then None
                  else Some (Z.rem a b)) ∧
  LshiftInt64 a b = (if (b <? 0) || (64 <=? b) then None else exact_i64 (a * 2 ^ b)).
Proof.
  intros Ha Hb. repeat split.
  - by apply AddInt64_exact.
  - by apply SubInt64_exact.
  - by apply MulInt64_exact.
  - by apply NegateInt64_exact.
  - destruct (Z.eqb_spec b 0) as [->|]; [done|]. by apply DivInt64_exact.
  - destruct (Z.eqb_spec b 0) as [->|]; [done|]. by rewrite ModInt64_exact.
  - destruct (Z.ltb_spec b 0) as [Hb0|?]; simpl.
    + unfold LshiftInt64. by rewrite (proj2 (Z.ltb_lt b 0) Hb0).
    + by apply LshiftInt64_exact.
Qed.

Lemma checked_int64_exact_witness : MulInt64 (-3037000500) 3037000500 = None ∧
  MulInt64 MinInt64 1 = Some MinInt64.
Proof.
  pose proof (checked_int64_exact (-3037000500) 3037000500 ltac:(ranges; lia) ltac:(ranges; lia)) as H1.
  pose proof (checked_int64_exact MinInt64 1 ltac:(ranges; lia) ltac:(ranges; lia)) as H2.
  split; [rewrite (proj1 (proj2 (proj2 H1))) | rewrite (proj1 (proj2 (proj2 H2)))]; reflexivity.
Defined.
