(* ===== verification/GoSlice.v ===== *)
(** * Go byte slices and the arrays they share

    A Go [[]byte] is a window (offset, length, capacity) on a backing array.
    [append] writes into the backing array when the capacity allows it, and
    every other slice of that array sees the write.  The virtual machine keeps
    slices on its stacks, so this sharing is part of its state: [heap] is the
    list of the arrays allocated so far, a slice names its array by position.
    [None] as the array of a slice is Go's [nil]. *)

From S2P Require Import Prelude.

Abbreviation heap := (list (list Z)).

Record slice := mkSlice {
  sl_arr : option nat;
  sl_off : nat;
  sl_len : nat;
  sl_cap : nat;
}.

#[global] Instance slice_eq_dec : EqDecision slice.
Proof. solve_decision. Defined.

Definition nil_slice : slice := mkSlice None 0 0 0.

Definition arr (h : heap) (a : nat) : list Z := default [] (h !! a).

(** The contents of a slice *)
Definition bytes (h : heap) (s : slice) : list Z :=
  match sl_arr s with
  | None => []
  | Some a => take (sl_len s) (drop (sl_off s) (arr h a))
  end.

(** [len(s)] as an int64 *)
Definition slen (s : slice) : Z := Z.of_nat (sl_len s).

(** A fresh array of capacity [cap] whose first bytes are [bs]:
    [make([]byte, len(bs), cap)] followed by a copy *)
Definition alloc (h : heap) (bs : list Z) (cap : nat) : slice * heap :=
  (mkSlice (Some (length h)) 0 (length bs) (Nat.max cap (length bs)),
   h ++ [bs ++ replicate (cap - length bs) 0]).

(** The slice expression [s[i:j]]; out of range is a run-time panic *)
Definition reslice (s : slice) (i j : nat) : option slice :=
  if decide (i <= j <= sl_cap s)%nat
  then Some (mkSlice (sl_arr s) (sl_off s + i) (j - i) (sl_cap s - i))
  else None.

Definition overwrite (l : list Z) (i : nat) (bs : list Z) : list Z :=
  take i l ++ bs ++ drop (i + length bs) l.

(** [append(a, bs...)]: in place when the capacity suffices, otherwise into a
    new array.  The capacity of the new array is the runtime's choice
    ([growcap old needed], at least the needed length). *)
Definition go_append (growcap : nat → nat → nat) (h : heap) (a : slice) (bs : list Z)
    : slice * heap :=
  if decide (sl_len a + length bs <= sl_cap a)%nat then
    match sl_arr a with
    | None => (a, h)
    | Some k => (mkSlice (Some k) (sl_off a) (sl_len a + length bs) (sl_cap a),
                 <[k := overwrite (arr h k) (sl_off a + sl_len a) bs]> h)
    end
  else alloc h (bytes h a ++ bs) (growcap (sl_cap a) (sl_len a + length bs)%nat).

(** ** Well-formed slices *)

Definition slice_ok (h : heap) (s : slice) : Prop :=
  match sl_arr s with
  | None => s = nil_slice
  | Some a => ∃ l, h !! a = Some l ∧ (sl_off s + sl_cap s <= length l)%nat
                   ∧ (sl_len s <= sl_cap s)%nat
  end.

(** [heap_grow h h']: arrays may have been written to and new ones added, but
    every array of [h] is still there with its size. *)
Definition heap_grow (h h' : heap) : Prop :=
  ∀ a l, h !! a = Some l → ∃ l', h' !! a = Some l' ∧ length l' = length l.

#[global] Instance heap_grow_preorder : PreOrder heap_grow.
Proof.
  split.
  - intros h a l H. eauto.
  - intros h1 h2 h3 H12 H23 a l H. destruct (H12 a l H) as (l2 & H2 & E2).
    destruct (H23 a l2 H2) as (l3 & H3 & E3). exists l3. split; [done|lia].
Qed.

Lemma prefix_heap_grow (h h' : heap) : h `prefix_of` h' → heap_grow h h'.
Proof. intros [k ->] a l H. exists l. split; [|done]. by apply lookup_app_l_Some. Qed.

Lemma slice_ok_grow h h' s : heap_grow h h' → slice_ok h s → slice_ok h' s.
Proof.
  intros Hg. unfold slice_ok. destruct (sl_arr s) as [a|]; [|done].
  intros (l & Hl & ? & ?). destruct (Hg a l Hl) as (l' & Hl' & Heq).
  exists l'. split; [done|]. lia.
Qed.

Lemma length_bytes h s : slice_ok h s → length (bytes h s) = sl_len s.
Proof.
  unfold slice_ok, bytes, arr. destruct (sl_arr s) as [a|].
  - intros (l & Hl & ? & ?). rewrite Hl. simpl. rewrite length_take, length_drop. lia.
  - by intros ->.
Qed.

Lemma len_bytes h s : slice_ok h s → len (bytes h s) = slen s.
Proof. intros H. unfold len, slen. by rewrite length_bytes. Qed.

(** Growing the heap with new arrays only keeps the contents of every slice. *)
Lemma bytes_prefix h h' s : h `prefix_of` h' → slice_ok h s → bytes h' s = bytes h s.
Proof.
  intros [k ->]. unfold slice_ok, bytes, arr. destruct (sl_arr s) as [a|]; [|done].
  intros (l & Hl & _ & _). by rewrite (lookup_app_l_Some _ _ _ _ Hl), Hl.
Qed.

Lemma slen_nonneg s : 0 <= slen s.
Proof. unfold slen. lia. Qed.
#[export] Hint Resolve slen_nonneg : go.

(** ** Allocation *)

Lemma alloc_prefix h bs c : h `prefix_of` (alloc h bs c).2.
Proof. unfold alloc; simpl. by eexists. Qed.

Lemma alloc_ok h bs c : slice_ok (alloc h bs c).2 (alloc h bs c).1.
Proof.
  unfold alloc, slice_ok; simpl. eexists. split.
  - rewrite lookup_app_r by lia. by rewrite Nat.sub_diag.
  - rewrite length_app, length_replicate. lia.
Qed.

Lemma alloc_bytes h bs c : bytes (alloc h bs c).2 (alloc h bs c).1 = bs.
Proof.
  unfold alloc, bytes, arr; simpl. rewrite lookup_app_r by lia.
  rewrite Nat.sub_diag; simpl. by rewrite drop_0, take_app_length.
Qed.

Lemma alloc_slen h bs c : slen (alloc h bs c).1 = len bs.
Proof. done. Qed.

(** ** Slice expressions *)

Lemma reslice_ok h s i j s' : slice_ok h s → reslice s i j = Some s' → slice_ok h s'.
Proof.
  unfold reslice. case_decide as Hd; [|done]. intros Hok [= <-]. revert Hok.
  unfold slice_ok; simpl. destruct (sl_arr s) as [a|].
  - intros (l & Hl & ? & ?). exists l. split; [done|]. lia.
  - intros ->. unfold nil_slice; simpl in *. f_equal; lia.
Qed.

Lemma reslice_bytes h s i j s' : slice_ok h s → (j <= sl_len s)%nat →
  reslice s i j = Some s' → bytes h s' = take (j - i) (drop i (bytes h s)).
Proof.
  unfold reslice, bytes. case_decide as Hd; [|done]. intros Hok Hj [= <-]; simpl.
  destruct (sl_arr s) as [a|]; [|by rewrite drop_nil, take_nil].
  rewrite <- drop_drop, !(take_drop_commute _ (j - i) i), take_take.
  do 2 f_equal. lia.
Qed.

(** ** Append *)

Lemma length_overwrite l i bs :
  (i + length bs <= length l)%nat → length (overwrite l i bs) = length l.
Proof. intros. unfold overwrite. rewrite !length_app, length_take, length_drop. lia. Qed.

Section append.
Context (growcap : nat → nat → nat).

Lemma go_append_grow h a bs : slice_ok h a → heap_grow h (go_append growcap h a bs).2.
Proof.
  intros Hok. unfold go_append. case_decide as Hc; simpl.
  - unfold slice_ok in Hok. destruct (sl_arr a) as [k|]; simpl; [|done].
    destruct Hok as (l & Hl & ? & ?). intros k' l' Hk'.
    destruct (decide (k' = k)) as [->|Hne].
    + exists (overwrite (arr h k) (sl_off a + sl_len a) bs). split.
      * apply list_lookup_insert_eq. by eapply lookup_lt_Some.
      * unfold arr. rewrite Hl; simpl. simplify_eq. apply length_overwrite. lia.
    + exists l'. by rewrite list_lookup_insert_ne.
  - apply prefix_heap_grow, alloc_prefix.
Qed.

Lemma go_append_ok h a bs : slice_ok h a →
  slice_ok (go_append growcap h a bs).2 (go_append growcap h a bs).1.
Proof.
  intros Hok. pose proof (go_append_grow h a bs Hok) as Hg. revert Hg.
  unfold go_append. case_decide as Hc; simpl; [|intros _; apply alloc_ok].
  unfold slice_ok in *. destruct (sl_arr a) as [k|] eqn:Ek; simpl; [|by rewrite Ek].
  intros Hg. destruct Hok as (l & Hl & ? & ?).
  destruct (Hg k l Hl) as (l' & Hl' & Heq). exists l'. split; [done|]. lia.
Qed.

Lemma go_append_bytes h a bs : slice_ok h a →
  bytes (go_append growcap h a bs).2 (go_append growcap h a bs).1 = bytes h a ++ bs.
Proof.
  intros Hok. unfold go_append. case_decide as Hc; simpl; [|apply alloc_bytes].
  unfold slice_ok, bytes in *. destruct (sl_arr a) as [k|] eqn:Ek; simpl.
  - destruct Hok as (l & Hl & ? & ?). unfold arr. rewrite Hl; simpl.
    rewrite list_lookup_insert_eq by (by eapply lookup_lt_Some); simpl.
    unfold overwrite. rewrite drop_app_le by (rewrite length_take; lia).
    rewrite <- take_drop_commute, app_assoc, take_app_le by (rewrite !length_app, length_take, length_drop; lia).
    rewrite take_ge; [done|]. rewrite !length_app, length_take, length_drop. lia.
  - rewrite Ek. subst a. simpl in Hc. destruct bs; [done|simpl in Hc; lia].
Qed.

(** [append] leaves the other slices alone when it allocates: in particular
    when the appended-to slice has no spare capacity and something is added. *)
Lemma go_append_fresh h a bs : sl_cap a = sl_len a → bs ≠ [] →
  h `prefix_of` (go_append growcap h a bs).2.
Proof.
  intros Hc Hb. unfold go_append. case_decide as Hd; [|apply alloc_prefix].
  destruct bs; [done|]. simpl in Hd. lia.
Qed.

Lemma overwrite_nil l i : overwrite l i [] = l.
Proof. unfold overwrite. simpl. by rewrite Nat.add_0_r, take_drop. Qed.

(** No spare capacity: the other slices keep their contents. *)
Lemma go_append_full h a bs : slice_ok h a → sl_cap a = sl_len a →
  h `prefix_of` (go_append growcap h a bs).2.
Proof.
  intros Hok Hc. destruct bs as [|b bs]; [|by apply go_append_fresh].
  unfold go_append. case_decide as Hd; [|apply alloc_prefix]. unfold slice_ok in Hok.
  destruct (sl_arr a) as [k|]; simpl; [|done]. destruct Hok as (l & Hl & _ & _).
  rewrite overwrite_nil, list_insert_id; [done|]. unfold arr. by rewrite Hl.
Qed.
End append.
