(* ===== verification/VmProgram.v ===== *)
(** * Programs of the virtual machine: values, opcodes, instructions

    [protocol/vm/errors.go] (error values), [types.go] (the byte-string
    encodings of booleans and integers), [ops.go] (opcodes, [ParseOp],
    [ParseProgram]) and [pushdata.go] (the encoders of push instructions).
    A program is its bytes here; the machine reads them from the heap. *)

From S2P Require Import Prelude Checked.

Inductive evm_error :=
| ErrOutOfGas
| ErrInsufficientBalance
| ErrNonceTooHigh
| ErrNonceTooLow
| ErrGasLimitReached
| errInsufficientBalanceForGas
| ErrExecution (code : Z).

(** Errors are compared by their root: the wrapping text of [wrapErr] and
    [errors.Wrapf] carries no decision. *)
Inductive error :=
| ErrAltStackUnderflow
| ErrBadValue
| ErrContext
| ErrDataStackUnderflow
| ErrDisallowedOpcode
| ErrDivZero
| ErrFalseVMResult
| ErrLongProgram
| ErrRange
| ErrReturn
| ErrRunLimitExceeded
| ErrShortProgram
| ErrToken
| ErrUnexpected
| ErrUnsupportedVM
| ErrVerifyFailed
| ErrOverflow
| ErrMissingEntry
| ErrUnknownVmType
| ErrUnknownVersion
| ErrEvm (e : evm_error).

#[global] Instance evm_error_eq_dec : EqDecision evm_error.
Proof. solve_decision. Defined.
#[global] Instance error_eq_dec : EqDecision error.
Proof. solve_decision. Defined.

(** ** Values ([types.go]) *)

Definition AsBool (bs : list Z) : bool := existsb (λ b, negb (b =? 0)) bs.

(** [for len(res) > 0 && res[len(res)-1] == 0 { res = res[:len(res)-1] }] *)
Fixpoint trim_zeros (bs : list Z) : list Z :=
  match bs with
  | [] => []
  | b :: r => match trim_zeros r with
              | [] => if b =? 0 then [] else [b]
              | r' => b :: r'
              end
  end.

(** The contents of [Int64Bytes(n)]; the machine adds its capacity of 8 *)
Definition Int64Bytes (n : Z) : list Z :=
  if n =? 0 then [] else trim_zeros (le_bytes 8 (uint64 n)).

Definition AsInt64 (b : list Z) : outcome error Z :=
  if len b =? 0 then Ok 0
  else if 8 <? len b then Err ErrBadValue
  else Ok (int64 (le_value (b ++ replicate (8 - length b) 0))).

(** ** Opcodes ([ops.go]) *)

Abbreviation OP_FALSE := 0x00.
Abbreviation OP_0 := 0x00.
Abbreviation OP_DATA_1 := 0x01.
Abbreviation OP_DATA_20 := 0x14.
Abbreviation OP_DATA_32 := 0x20.
Abbreviation OP_DATA_75 := 0x4b.
Abbreviation OP_PUSHDATA1 := 0x4c.
Abbreviation OP_PUSHDATA2 := 0x4d.
Abbreviation OP_PUSHDATA4 := 0x4e.
Abbreviation OP_1NEGATE := 0x4f.
Abbreviation OP_1 := 0x51.
Abbreviation OP_TRUE := 0x51.
Abbreviation OP_16 := 0x60.
Abbreviation OP_NOP := 0x61.
Abbreviation OP_JUMP := 0x63.
Abbreviation OP_JUMPIF := 0x64.
Abbreviation OP_VERIFY := 0x69.
Abbreviation OP_FAIL := 0x6a.
Abbreviation OP_TOALTSTACK := 0x6b.
Abbreviation OP_FROMALTSTACK := 0x6c.
Abbreviation OP_2DROP := 0x6d.
Abbreviation OP_2DUP := 0x6e.
Abbreviation OP_3DUP := 0x6f.
Abbreviation OP_2OVER := 0x70.
Abbreviation OP_2ROT := 0x71.
Abbreviation OP_2SWAP := 0x72.
Abbreviation OP_IFDUP := 0x73.
Abbreviation OP_DEPTH := 0x74.
Abbreviation OP_DROP := 0x75.
Abbreviation OP_DUP := 0x76.
Abbreviation OP_NIP := 0x77.
Abbreviation OP_OVER := 0x78.
Abbreviation OP_PICK := 0x79.
Abbreviation OP_ROLL := 0x7a.
Abbreviation OP_ROT := 0x7b.
Abbreviation OP_SWAP := 0x7c.
Abbreviation OP_TUCK := 0x7d.
Abbreviation OP_CAT := 0x7e.
Abbreviation OP_SUBSTR := 0x7f.
Abbreviation OP_LEFT := 0x80.
Abbreviation OP_RIGHT := 0x81.
Abbreviation OP_SIZE := 0x82.
Abbreviation OP_INVERT := 0x83.
Abbreviation OP_AND := 0x84.
Abbreviation OP_OR := 0x85.
Abbreviation OP_XOR := 0x86.
Abbreviation OP_EQUAL := 0x87.
Abbreviation OP_EQUALVERIFY := 0x88.
Abbreviation OP_CATPUSHDATA := 0x89.
Abbreviation OP_1ADD := 0x8b.
Abbreviation OP_1SUB := 0x8c.
Abbreviation OP_2MUL := 0x8d.
Abbreviation OP_2DIV := 0x8e.
Abbreviation OP_NEGATE := 0x8f.
Abbreviation OP_ABS := 0x90.
Abbreviation OP_NOT := 0x91.
Abbreviation OP_0NOTEQUAL := 0x92.
Abbreviation OP_ADD := 0x93.
Abbreviation OP_SUB := 0x94.
Abbreviation OP_MUL := 0x95.
Abbreviation OP_DIV := 0x96.
Abbreviation OP_MOD := 0x97.
Abbreviation OP_LSHIFT := 0x98.
Abbreviation OP_RSHIFT := 0x99.
Abbreviation OP_BOOLAND := 0x9a.
Abbreviation OP_BOOLOR := 0x9b.
Abbreviation OP_NUMEQUAL := 0x9c.
Abbreviation OP_NUMEQUALVERIFY := 0x9d.
Abbreviation OP_NUMNOTEQUAL := 0x9e.
Abbreviation OP_LESSTHAN := 0x9f.
Abbreviation OP_GREATERTHAN := 0xa0.
Abbreviation OP_LESSTHANOREQUAL := 0xa1.
Abbreviation OP_GREATERTHANOREQUAL := 0xa2.
Abbreviation OP_MIN := 0xa3.
Abbreviation OP_MAX := 0xa4.
Abbreviation OP_WITHIN := 0xa5.
Abbreviation OP_SHA256 := 0xa8.
Abbreviation OP_SHA3 := 0xaa.
Abbreviation OP_HASH160 := 0xab.
Abbreviation OP_CHECKSIG := 0xac.
Abbreviation OP_CHECKMULTISIG := 0xad.
Abbreviation OP_TXSIGHASH := 0xae.
Abbreviation OP_CHECKPREDICATE := 0xc0.
Abbreviation OP_CHECKOUTPUT := 0xc1.
Abbreviation OP_ASSET := 0xc2.
Abbreviation OP_AMOUNT := 0xc3.
Abbreviation OP_PROGRAM := 0xc4.
Abbreviation OP_TXDATA := 0xc7.
Abbreviation OP_ENTRYDATA := 0xc8.
Abbreviation OP_INDEX := 0xc9.
Abbreviation OP_ENTRYID := 0xca.
Abbreviation OP_OUTPUTID := 0xcb.
Abbreviation OP_BLOCKHEIGHT := 0xcd.
Abbreviation OP_CREATE := 0xe1.
Abbreviation OP_CALL := 0xe2.
Abbreviation OP_CONTRACT := 0xe3.
Abbreviation OP_DEPOSIT := 0xe4.
Abbreviation OP_WITHDRAW := 0xe5.

Record Instruction := mkInst { Op : Z; Len : Z; Data : list Z }.

#[global] Instance Instruction_eq_dec : EqDecision Instruction.
Proof. solve_decision. Defined.

(** [prog[i:j]] with Go's bounds check *)
Definition sub_bytes (prog : list Z) (i j : Z) : outcome error (list Z) :=
  if (i <=? j) && (j <=? len prog)
  then Ok (take (Z.to_nat (j - i)) (drop (Z.to_nat i) prog))
  else Panic.

Definition byte_at (prog : list Z) (i : Z) : outcome error Z :=
  match prog !! Z.to_nat i with
  | Some b => Ok b
  | None => Panic
  end.

Local Open Scope go_scope.

(** [ParseOp] branch by branch: each early [return] of the code is the end of a
    branch.  [l] is [uint32(len(prog))].  In the PUSHDATA1 branch the overflow
    test sets the error and falls through: [end] is then 0, the failed sum. *)
Definition parse_DATA (prog : list Z) (pc opcode : Z) : outcome error Instruction :=
  let l := uint32 (len prog) in
  let ln := 1 + (opcode - OP_DATA_1 + 1) in
  match AddUint32 pc ln with
  | None => Err ErrOverflow
  | Some e =>
      if l <? e then Err ErrShortProgram
      else let? d := sub_bytes prog (uint32 (pc + 1)) e in Ok (mkInst opcode ln d)
  end.

Definition parse_PUSHDATA1 (prog : list Z) (pc opcode : Z) : outcome error Instruction :=
  let l := uint32 (len prog) in
  if pc =? uint32 (l - 1) then Err ErrShortProgram
  else
    let? n := byte_at prog (uint32 (pc + 1)) in
    let ln := 1 + (n + 1) in
    let ok := AddUint32 pc ln in
    let e := default 0 ok in
    if l <? e then Err ErrShortProgram
    else
      let? d := sub_bytes prog (uint32 (pc + 2)) e in
      match ok with
      | None => Err ErrOverflow
      | Some _ => Ok (mkInst opcode ln d)
      end.

Definition parse_PUSHDATA2 (prog : list Z) (pc opcode : Z) : outcome error Instruction :=
  let l := uint32 (len prog) in
  if (len prog <? 3) || (uint32 (l - 3) <? pc) then Err ErrShortProgram
  else
    let? nb := sub_bytes prog (uint32 (pc + 1)) (uint32 (pc + 3)) in
    let ln := 1 + (le_value nb + 2) in
    match AddUint32 pc ln with
    | None => Err ErrOverflow
    | Some e =>
        if l <? e then Err ErrShortProgram
        else let? d := sub_bytes prog (uint32 (pc + 3)) e in Ok (mkInst opcode ln d)
    end.

Definition parse_PUSHDATA4 (prog : list Z) (pc opcode : Z) : outcome error Instruction :=
  let l := uint32 (len prog) in
  if (len prog <? 5) || (uint32 (l - 5) <? pc) then Err ErrShortProgram
  else
    let? nb := sub_bytes prog (uint32 (pc + 1)) (uint32 (pc + 5)) in
    match AddUint32 (1 + 4) (le_value nb) with
    | None => Err ErrOverflow
    | Some ln =>
        match AddUint32 pc ln with
        | None => Err ErrOverflow
        | Some e =>
            if l <? e then Err ErrShortProgram
            else let? d := sub_bytes prog (uint32 (pc + 5)) e in Ok (mkInst opcode ln d)
        end
    end.

Definition parse_JUMP (prog : list Z) (pc opcode : Z) : outcome error Instruction :=
  let l := uint32 (len prog) in
  let ln := 1 + 4 in
  match AddUint32 pc ln with
  | None => Err ErrOverflow
  | Some e =>
      if l <? e then Err ErrShortProgram
      else let? d := sub_bytes prog (uint32 (pc + 1)) e in Ok (mkInst opcode ln d)
  end.

Definition parse_body (prog : list Z) (pc : Z) : outcome error Instruction :=
  let l := uint32 (len prog) in
  if l <=? pc then Err ErrShortProgram
  else
    let? opcode := byte_at prog pc in
    if (OP_1 <=? opcode) && (opcode <=? OP_16) then
      Ok (mkInst opcode 1 [opcode - OP_1 + 1])
    else if (OP_DATA_1 <=? opcode) && (opcode <=? OP_DATA_75) then parse_DATA prog pc opcode
    else if opcode =? OP_PUSHDATA1 then parse_PUSHDATA1 prog pc opcode
    else if opcode =? OP_PUSHDATA2 then parse_PUSHDATA2 prog pc opcode
    else if opcode =? OP_PUSHDATA4 then parse_PUSHDATA4 prog pc opcode
    else if (opcode =? OP_JUMP) || (opcode =? OP_JUMPIF) then parse_JUMP prog pc opcode
    else Ok (mkInst opcode 1 []).

(** [ErrLongProgram] is assigned before the parse and survives every branch
    that does not assign another error. *)
Definition ParseOp (prog : list Z) (pc : Z) : outcome error Instruction :=
  let? inst := parse_body prog pc in
  if MaxInt32 <? len prog then Err ErrLongProgram else Ok inst.

Fixpoint parse_loop (fuel : nat) (prog : list Z) (pc : Z) : outcome error (list Instruction) :=
  match fuel with
  | O => Fuel
  | S fuel =>
      if pc <? uint32 (len prog) then
        let? inst := ParseOp prog pc in
        match AddUint32 pc (Len inst) with
        | None => Err ErrOverflow
        | Some pc' => let? rest := parse_loop fuel prog pc' in Ok (inst :: rest)
        end
      else Ok []
  end.

(** Each round consumes at least one byte, so one round per byte and a last
    one are enough ([ParseProgram_total]). *)
Definition ParseProgram (prog : list Z) : outcome error (list Instruction) :=
  parse_loop (S (length prog)) prog 0.

(** [Instruction.IsPushdata]: the opcodes bound to [opPushdata] or [opFalse] *)
Definition IsPushdata (inst : Instruction) : bool :=
  ((OP_0 <=? Op inst) && (Op inst <=? OP_PUSHDATA4))
  || ((OP_1 <=? Op inst) && (Op inst <=? OP_16)).

(** ** Encoders ([pushdata.go]) *)

Definition PushdataBytes (d : list Z) : list Z :=
  let l := len d in
  if l =? 0 then [OP_0]
  else if l <=? 75 then uint8 (OP_DATA_1 + uint8 l - 1) :: d
  else if l <? 2 ^ 8 then OP_PUSHDATA1 :: uint8 l :: d
  else if l <? 2 ^ 16 then OP_PUSHDATA2 :: le_bytes 2 (uint16 l) ++ d
  else OP_PUSHDATA4 :: le_bytes 4 (uint32 l) ++ d.

Definition PushdataInt64 (n : Z) : list Z :=
  if n =? 0 then [OP_0]
  else if (1 <=? n) && (n <=? 16) then [uint8 (OP_1 + uint8 n - 1)]
  else PushdataBytes (Int64Bytes n).
