(* ===== verification/VmProgramSpec.v ===== *)
(** * Properties of program encoding and parsing

    [ParseOp] against a reference decoder on the remaining bytes, totality of
    [ParseProgram], the round trip of the push encoders and of the integer
    encoding. *)

From S2P Require Import Prelude Checked VmProgram.

(** ** A reference decoder: the instruction at the head of a byte string *)

Definition decode_data (op hdr n : Z) (r : list Z) : option Instruction :=
  if n <=? len r then Some (mkInst op (hdr + n) (take (Z.to_nat n) r)) else None.

Definition decode (s : list Z) : option Instruction :=
  match s with
  | [] => None
  | op :: r =>
      if (OP_1 <=? op) && (op <=? OP_16) then Some (mkInst op 1 [op - 0x50])
      else if (OP_DATA_1 <=? op) && (op <=? OP_DATA_75) then decode_data op 1 op r
      else if op =? OP_PUSHDATA1 then
        match r with [] => None | n :: r => decode_data op 2 n r end
      else if op =? OP_PUSHDATA2 then
        if len r <? 2 then None else decode_data op 3 (le_value (take 2 r)) (drop 2 r)
      else if op =? OP_PUSHDATA4 then
        if len r <? 4 then None else decode_data op 5 (le_value (take 4 r)) (drop 4 r)
      else if (op =? OP_JUMP) || (op =? OP_JUMPIF) then decode_data op 1 4 r
      else Some (mkInst op 1 [])
  end.

(** A program the node can hold: bytes, shorter than 2 GiB. *)
Definition prog_ok (prog : list Z) : Prop := Forall is_byte prog ∧ len prog <= MaxInt32.

Lemma len_drop {A} (l : list A) (n : nat) : len (drop n l) = Z.max 0 (len l - Z.of_nat n).
Proof. unfold len. rewrite length_drop. lia. Qed.

Lemma len_take {A} (l : list A) (n : nat) : len (take n l) = Z.min (Z.of_nat n) (len l).
Proof. unfold len. rewrite length_take. lia. Qed.

Lemma sub_bytes_eq prog i j : 0 <= i <= j → j <= len prog →
  sub_bytes prog i j = Ok (take (Z.to_nat (j - i)) (drop (Z.to_nat i) prog)).
Proof. intros. unfold sub_bytes. by rewrite (proj2 (Z.leb_le _ _)), (proj2 (Z.leb_le _ _)) by lia. Qed.

Lemma byte_at_drop prog i : 0 <= i < len prog →
  ∃ b, byte_at prog i = Ok b ∧ drop (Z.to_nat i) prog = b :: drop (Z.to_nat (i + 1)) prog.
Proof.
  unfold len. intros Hi. unfold byte_at.
  destruct (lookup_lt_is_Some_2 prog (Z.to_nat i)) as [b Hb]; [lia|].
  exists b. rewrite Hb. split; [done|].
  rewrite (drop_S _ _ _ Hb). do 2 f_equal. lia.
Qed.

Lemma is_byte_drop prog i b r : Forall is_byte prog → drop i prog = b :: r → is_byte b.
Proof. intros H E. apply (Forall_drop _ i) in H. rewrite E in H. by inversion H. Qed.

(** The tail shared by the branches that carry data: [hdr] bytes of header at
    [pc], then [n] bytes of data. *)
Definition fetch (prog : list Z) (pc op hdr n : Z) : outcome error Instruction :=
  match AddUint32 pc (hdr + n) with
  | None => Err ErrOverflow
  | Some e =>
      if uint32 (len prog) <? e then Err ErrShortProgram
      else obind (sub_bytes prog (uint32 (pc + hdr)) e) (λ d, Ok (mkInst op (hdr + n) d))
  end.

Definition agrees (o : outcome error Instruction) (d : option Instruction) : Prop :=
  match d with
  | Some i => o = Ok i
  | None => ∃ e, o = Err e
  end.

Lemma fetch_agrees prog pc op hdr n : len prog <= MaxInt32 → 0 <= pc → 0 <= hdr → 0 <= n <= MaxUint32 →
  pc + hdr <= len prog →
  agrees (fetch prog pc op hdr n) (decode_data op hdr n (drop (Z.to_nat (pc + hdr)) prog)).
Proof.
  intros Hl Hpc Hh Hn Hb. unfold fetch, decode_data.
  pose proof (len_nonneg prog). rewrite (uint32_id (len prog)), (uint32_id (pc + hdr)) by (ranges; lia).
  rewrite len_drop. unfold AddUint32.
  destruct (Z.ltb_spec (MaxUint32 - pc) (hdr + n)).
  { rewrite (proj2 (Z.leb_gt _ _)) by lia. simpl. eauto. }
  rewrite uint32_id by (ranges; lia).
  destruct (Z.ltb_spec (len prog) (pc + (hdr + n))); destruct (Z.leb_spec n (Z.max 0 (len prog - Z.of_nat (Z.to_nat (pc + hdr)))));
    simpl; try lia; eauto.
  rewrite sub_bytes_eq by lia. simpl. do 4 f_equal. lia.
Qed.

Lemma le_value_take_range k (r : list Z) : Forall is_byte r →
  0 <= le_value (take k r) < 256 ^ Z.of_nat k.
Proof.
  intros H. pose proof (le_value_bound (take k r) (Forall_take _ _ _ H)) as Hb.
  split; [lia|]. eapply Z.lt_le_trans; [apply Hb|].
  apply Z.pow_le_mono_r; [lia|]. unfold len. rewrite length_take. lia.
Qed.

(** Discharge the wrap-around of the positions of a program below 2 GiB. *)
Ltac pos_norm := repeat match goal with
  | |- context [uint32 ?x] => rewrite (uint32_id x) by (ranges; lia) end.
Ltac pos_norm_in H := repeat match type of H with
  | context [uint32 ?x] => rewrite (uint32_id x) in H by (ranges; lia) end.

Lemma parse_DATA_agrees prog pc op : prog_ok prog → 0 <= pc < len prog → 0 <= op <= 255 →
  agrees (parse_DATA prog pc op) (decode_data op 1 op (drop (Z.to_nat (pc + 1)) prog)).
Proof.
  intros [Hb Hl] Hpc Hop. unfold parse_DATA. replace (op - OP_DATA_1 + 1) with op by lia.
  apply (fetch_agrees prog pc op 1 op); lia.
Qed.

Lemma parse_JUMP_agrees prog pc op : prog_ok prog → 0 <= pc < len prog →
  agrees (parse_JUMP prog pc op) (decode_data op 1 4 (drop (Z.to_nat (pc + 1)) prog)).
Proof. intros [Hb Hl] Hpc. apply (fetch_agrees prog pc op 1 4); lia. Qed.

Lemma parse_PUSHDATA1_agrees prog pc op : prog_ok prog → 0 <= pc < len prog →
  agrees (parse_PUSHDATA1 prog pc op)
    (match drop (Z.to_nat (pc + 1)) prog with [] => None | n :: r => decode_data op 2 n r end).
Proof.
  intros [Hb Hl] Hpc. unfold parse_PUSHDATA1. pos_norm.
  destruct (Z.eqb_spec pc (len prog - 1)) as [He|Hne].
  { rewrite drop_ge by (unfold len in *; lia). simpl. eauto. }
  destruct (byte_at_drop prog (pc + 1)) as (n & -> & Hd1); [lia|]. rewrite Hd1. simpl.
  pose proof (is_byte_drop _ _ _ _ Hb Hd1) as Hn. unfold is_byte in Hn.
  pose proof (fetch_agrees prog pc op 2 n) as HF. unfold fetch in HF. pos_norm_in HF.
  replace (pc + 1 + 1) with (pc + 2) by lia. replace (1 + (n + 1)) with (2 + n) by lia.
  destruct (AddUint32 pc (2 + n)) as [e|] eqn:Ea; simpl; [apply HF; lia|].
  unfold AddUint32 in Ea. destruct (Z.ltb_spec (MaxUint32 - pc) (2 + n)); [lia|done].
Qed.

Lemma parse_PUSHDATA2_agrees prog pc op : prog_ok prog → 0 <= pc < len prog →
  agrees (parse_PUSHDATA2 prog pc op)
    (let r := drop (Z.to_nat (pc + 1)) prog in
     if len r <? 2 then None else decode_data op 3 (le_value (take 2 r)) (drop 2 r)).
Proof.
  intros [Hb Hl] Hpc. unfold parse_PUSHDATA2. cbv zeta. rewrite len_drop.
  destruct (Z.ltb_spec (Z.max 0 (len prog - Z.of_nat (Z.to_nat (pc + 1)))) 2).
  { destruct (Z.ltb_spec (len prog) 3); simpl; [eauto|]. pos_norm.
    destruct (Z.ltb_spec (len prog - 3) pc); [eauto|lia]. }
  rewrite (proj2 (Z.ltb_ge _ _)) by lia. pos_norm. simpl.
  rewrite (proj2 (Z.ltb_ge _ _)) by lia. rewrite sub_bytes_eq by lia. simpl.
  replace (Z.to_nat (pc + 3 - (pc + 1))) with 2%nat by lia.
  pose proof (le_value_take_range 2 (drop (Z.to_nat (pc + 1)) prog) (Forall_drop _ _ _ Hb)).
  rewrite drop_drop. replace (Z.to_nat (pc + 1) + 2)%nat with (Z.to_nat (pc + 3)) by lia.
  set (n := le_value _) in *. replace (1 + (n + 2)) with (3 + n) by lia.
  pose proof (fetch_agrees prog pc op 3 n) as HF. unfold fetch in HF. pos_norm_in HF. apply HF; lia.
Qed.

Lemma parse_PUSHDATA4_agrees prog pc op : prog_ok prog → 0 <= pc < len prog →
  agrees (parse_PUSHDATA4 prog pc op)
    (let r := drop (Z.to_nat (pc + 1)) prog in
     if len r <? 4 then None else decode_data op 5 (le_value (take 4 r)) (drop 4 r)).
Proof.
  intros [Hb Hl] Hpc. unfold parse_PUSHDATA4. cbv zeta. rewrite len_drop.
  destruct (Z.ltb_spec (Z.max 0 (len prog - Z.of_nat (Z.to_nat (pc + 1)))) 4).
  { destruct (Z.ltb_spec (len prog) 5); simpl; [eauto|]. pos_norm.
    destruct (Z.ltb_spec (len prog - 5) pc); [eauto|lia]. }
  rewrite (proj2 (Z.ltb_ge _ _)) by lia. pos_norm. simpl.
  rewrite (proj2 (Z.ltb_ge _ _)) by lia. rewrite sub_bytes_eq by lia. simpl.
  replace (Z.to_nat (pc + 5 - (pc + 1))) with 4%nat by lia.
  pose proof (le_value_take_range 4 (drop (Z.to_nat (pc + 1)) prog) (Forall_drop _ _ _ Hb)).
  rewrite drop_drop. replace (Z.to_nat (pc + 1) + 4)%nat with (Z.to_nat (pc + 5)) by lia.
  set (n := le_value _) in *.
  pose proof (fetch_agrees prog pc op 5 n) as HF. unfold fetch in HF. pos_norm_in HF.
  unfold AddUint32 at 1. change (1 + 4) with 5.
  destruct (Z.ltb_spec (MaxUint32 - 5) n).
  - unfold decode_data. rewrite len_drop, (proj2 (Z.leb_gt _ _)) by lia. simpl. eauto.
  - pos_norm. apply HF; lia.
Qed.

Lemma parse_body_agrees prog pc : prog_ok prog → 0 <= pc →
  agrees (parse_body prog pc) (decode (drop (Z.to_nat pc) prog)).
Proof.
  intros Hok Hpc. pose proof Hok as [Hb Hl]. unfold parse_body. pose proof (len_nonneg prog). pos_norm.
  destruct (Z.leb_spec (len prog) pc) as [Hge|Hlt].
  { rewrite drop_ge by (unfold len in *; lia). simpl. eauto. }
  destruct (byte_at_drop prog pc) as (op & -> & Hd); [lia|]. simpl.
  pose proof (is_byte_drop _ _ _ _ Hb Hd) as Hop. unfold is_byte in Hop. rewrite Hd. unfold decode.
  destruct ((OP_1 <=? op) && (op <=? OP_16)); [simpl; do 3 f_equal; lia|].
  destruct ((OP_DATA_1 <=? op) && (op <=? OP_DATA_75)); [by apply parse_DATA_agrees|].
  destruct (op =? OP_PUSHDATA1); [by apply parse_PUSHDATA1_agrees|].
  destruct (op =? OP_PUSHDATA2); [by apply parse_PUSHDATA2_agrees|].
  destruct (op =? OP_PUSHDATA4); [by apply parse_PUSHDATA4_agrees|].
  destruct ((op =? OP_JUMP) || (op =? OP_JUMPIF)); [|done].
  by apply parse_JUMP_agrees.
Qed.

(** ** Consequences for [ParseOp] and [ParseProgram] *)

Lemma ParseOp_agrees prog pc : prog_ok prog → 0 <= pc →
  agrees (ParseOp prog pc) (decode (drop (Z.to_nat pc) prog)).
Proof.
  intros Hok Hpc. pose proof (parse_body_agrees prog pc Hok Hpc) as H.
  destruct Hok as [_ Hl]. unfold ParseOp, agrees in *.
  destruct (decode _) as [i|]; [|destruct H as [e H]]; rewrite H; simpl; [|eauto].
  by rewrite (proj2 (Z.ltb_ge _ _)) by lia.
Qed.

Lemma decode_data_len op hdr n r i : 0 <= n → decode_data op hdr n r = Some i →
  Len i = hdr + n ∧ n <= len r ∧ len (Data i) = n ∧ Op i = op.
Proof.
  intros Hn. unfold decode_data. destruct (Z.leb_spec n (len r)); [|done].
  intros [= <-]; simpl. rewrite len_take. lia.
Qed.

Lemma decode_len s i : Forall is_byte s → decode s = Some i → 1 <= Len i <= len s.
Proof.
  intros Hs. destruct s as [|op r]; simpl; [done|]. inversion_clear Hs as [|? ? Ho Hr].
  assert (len (op :: r) = 1 + len r) as -> by (unfold len; simpl; lia).
  pose proof (len_nonneg r). unfold is_byte in Ho.
  destruct ((OP_1 <=? op) && (op <=? OP_16)); [intros [= <-]; simpl; lia|].
  destruct ((OP_DATA_1 <=? op) && (op <=? OP_DATA_75)); [intros ?%decode_data_len; lia|].
  destruct (op =? OP_PUSHDATA1).
  { destruct r as [|n r]; [done|]. inversion_clear Hr as [|? ? Hn _]. unfold is_byte in Hn.
    intros ?%decode_data_len; [|lia]. unfold len in *. simpl in *. lia. }
  destruct (op =? OP_PUSHDATA2).
  { pose proof (le_value_take_range 2 r Hr). destruct (Z.ltb_spec (len r) 2); [done|].
    intros Hd%decode_data_len; [|lia]. rewrite len_drop in Hd. lia. }
  destruct (op =? OP_PUSHDATA4).
  { pose proof (le_value_take_range 4 r Hr). destruct (Z.ltb_spec (len r) 4); [done|].
    intros Hd%decode_data_len; [|lia]. rewrite len_drop in Hd. lia. }
  destruct (_ || _); [intros ?%decode_data_len; lia|]. intros [= <-]; simpl. lia.
Qed.

(** The instructions of a program, laid end to end. *)
Inductive Tiles : list Z → list Instruction → Prop :=
| Tiles_nil : Tiles [] []
| Tiles_cons s i ins : decode s = Some i → Tiles (drop (Z.to_nat (Len i)) s) ins → Tiles s (i :: ins).

Lemma parse_loop_spec fuel prog pc : prog_ok prog → 0 <= pc <= len prog →
  (len prog - pc < Z.of_nat fuel) →
  match parse_loop fuel prog pc with
  | Ok ins => Tiles (drop (Z.to_nat pc) prog) ins
  | Err _ => ∀ ins, ¬ Tiles (drop (Z.to_nat pc) prog) ins
  | _ => False
  end.
Proof.
  intros Hok. revert pc. induction fuel as [|fuel IH]; intros pc Hpc Hf; [lia|].
  simpl. pose proof Hok as [Hb Hl]. pos_norm.
  destruct (Z.ltb_spec pc (len prog)) as [Hlt|Hge].
  2: { rewrite drop_ge by (unfold len in *; lia). constructor. }
  pose proof (ParseOp_agrees prog pc Hok ltac:(lia)) as HA. unfold agrees in HA.
  destruct (byte_at_drop prog pc) as (b & _ & Hd); [lia|].
  destruct (decode (drop (Z.to_nat pc) prog)) as [i|] eqn:Ed.
  - rewrite HA. simpl. pose proof (decode_len _ _ (Forall_drop _ _ _ Hb) Ed) as Hi.
    rewrite len_drop in Hi. unfold AddUint32. rewrite (proj2 (Z.ltb_ge _ _)) by lia. pos_norm.
    specialize (IH (pc + Len i) ltac:(lia) ltac:(lia)).
    replace (Z.to_nat (pc + Len i)) with (Z.to_nat pc + Z.to_nat (Len i))%nat in IH by lia.
    rewrite <- drop_drop in IH.
    destruct (parse_loop fuel prog (pc + Len i)); simpl; try done.
    + by econstructor.
    + intros ins Ht. inversion Ht as [E|? ? ? Ed']; subst; [congruence|].
      rewrite Ed in Ed'. simplify_eq. by eapply IH.
  - destruct HA as [e ->]. simpl. intros ins Ht. inversion Ht; congruence.
Qed.

Lemma ParseProgram_cases prog : prog_ok prog →
  match ParseProgram prog with
  | Ok ins => Tiles prog ins
  | Err _ => ∀ ins, ¬ Tiles prog ins
  | _ => False
  end.
Proof.
  intros Hok. pose proof (parse_loop_spec (S (length prog)) prog 0 Hok) as H.
  pose proof (len_nonneg prog). unfold len in *. apply H; lia.
Qed.

Lemma Tiles_fun s ins1 ins2 : Tiles s ins1 → Tiles s ins2 → ins1 = ins2.
Proof.
  intros H. revert ins2. induction H as [|s i ins Hd _ IH]; intros ins2 H2.
  - inversion H2; [done|]. simplify_eq.
  - inversion H2 as [|s' i' ins' Hd' Ht']; subst; [done|]. simplify_eq. f_equal. by apply IH.
Qed.

Lemma decode_app s t i : Forall is_byte s → decode s = Some i → decode (s ++ t) = Some i.
Proof.
  intros Hs. destruct s as [|op r]; [done|]. simpl. inversion_clear Hs as [|? ? Ho Hr].
  assert (HD : ∀ hdr n q j, 0 <= n → decode_data op hdr n q = Some j →
                 decode_data op hdr n (q ++ t) = Some j).
  { intros hdr n q j Hn. unfold decode_data. destruct (Z.leb_spec n (len q)); [|done].
    intros [= <-]. pose proof (len_nonneg t). rewrite len_app, (proj2 (Z.leb_le _ _)) by lia.
    rewrite take_app_le by (unfold len in *; lia). done. }
  unfold is_byte in Ho.
  destruct ((OP_1 <=? op) && (op <=? OP_16)); [done|].
  destruct ((OP_DATA_1 <=? op) && (op <=? OP_DATA_75)); [apply HD; lia|].
  destruct (op =? OP_PUSHDATA1).
  { destruct r as [|n r]; [done|]. inversion_clear Hr as [|? ? Hn _]. unfold is_byte in Hn.
    apply HD; lia. }
  pose proof (len_nonneg t). rewrite len_app.
  destruct (op =? OP_PUSHDATA2).
  { pose proof (le_value_take_range 2 r Hr). destruct (Z.ltb_spec (len r) 2); [done|].
    rewrite (proj2 (Z.ltb_ge _ _)) by lia. intros Hd%HD; [|lia].
    rewrite take_app_le, drop_app_le by (unfold len in *; lia). done. }
  destruct (op =? OP_PUSHDATA4).
  { pose proof (le_value_take_range 4 r Hr). destruct (Z.ltb_spec (len r) 4); [done|].
    rewrite (proj2 (Z.ltb_ge _ _)) by lia. intros Hd%HD; [|lia].
    rewrite take_app_le, drop_app_le by (unfold len in *; lia). done. }
  destruct (_ || _); [apply HD; lia|done].
Qed.

Lemma Tiles_app s t ins js : Forall is_byte s → Tiles s ins → Tiles t js → Tiles (s ++ t) (ins ++ js).
Proof.
  intros Hs H Ht. induction H as [|s i ins Hd _ IH]; simpl; [done|].
  pose proof (decode_len _ _ Hs Hd). econstructor; [by apply decode_app|].
  rewrite drop_app_le by (unfold len in *; lia). apply IH. by apply Forall_drop.
Qed.

Lemma Tiles_ParseProgram prog ins : prog_ok prog → Tiles prog ins → ParseProgram prog = Ok ins.
Proof.
  intros Hok Ht. pose proof (ParseProgram_cases prog Hok) as H.
  destruct (ParseProgram prog); try done.
  - f_equal. by eapply Tiles_fun.
  - by destruct (H ins).
Qed.

(** ** Integer and boolean values *)

Lemma trim_zeros_pad bs : trim_zeros bs ++ replicate (length bs - length (trim_zeros bs)) 0 = bs.
Proof.
  induction bs as [|b r IH]; [done|]. simpl.
  destruct (trim_zeros r) as [|c r'] eqn:E.
  - simpl in IH. rewrite Nat.sub_0_r in IH.
    destruct (Z.eqb_spec b 0) as [->|]; simpl; [by rewrite <- IH at 2|].
    by rewrite Nat.sub_0_r, IH.
  - simpl in *. f_equal. apply IH.
Qed.

Lemma length_trim_zeros bs : (length (trim_zeros bs) <= length bs)%nat.
Proof.
  pose proof (f_equal length (trim_zeros_pad bs)) as H.
  rewrite length_app, length_replicate in H. lia.
Qed.

Lemma trim_zeros_nil bs : trim_zeros bs = [] → le_value bs = 0.
Proof. intros E. rewrite <- (trim_zeros_pad bs), E. simpl. apply le_value_zeros. Qed.

Lemma AsBool_app a b : AsBool (a ++ b) = AsBool a || AsBool b.
Proof. apply existsb_app. Qed.

Lemma AsBool_zeros k : AsBool (replicate k 0) = false.
Proof. by induction k. Qed.

Lemma AsBool_value bs : Forall is_byte bs → AsBool bs = negb (le_value bs =? 0).
Proof.
  induction 1 as [|b r Hb Hr IH]; [done|].
  change (AsBool (b :: r)) with (negb (b =? 0) || AsBool r). rewrite IH. cbn [le_value].
  pose proof (le_value_bound r Hr). unfold is_byte in Hb. zcases; simpl; lia || done.
Qed.

Lemma Int64Bytes_pad n : is_int64 n → n ≠ 0 →
  Int64Bytes n ++ replicate (8 - length (Int64Bytes n)) 0 = le_bytes 8 (uint64 n).
Proof.
  intros Hn Hz. unfold Int64Bytes. rewrite (proj2 (Z.eqb_neq _ _) Hz).
  pose proof (trim_zeros_pad (le_bytes 8 (uint64 n))) as H.
  by rewrite length_le_bytes in H.
Qed.

Lemma uint64_zero n : is_int64 n → uint64 n = 0 → n = 0.
Proof. intros Hn H. rewrite <- (int64_uint64 n Hn), H. done. Qed.

Lemma le_value_uint64 n : le_value (le_bytes 8 (uint64 n)) = uint64 n.
Proof.
  rewrite le_value_bytes. change (256 ^ Z.of_nat 8) with (2 ^ 64). rewrite Z.mod_small; [done|].
  pose proof (uint64_range n). ranges. lia.
Qed.

Lemma AsInt64_Int64Bytes n : is_int64 n → AsInt64 (Int64Bytes n) = Ok n.
Proof.
  intros Hn. destruct (Z.eq_dec n 0) as [->|Hz]; [done|].
  pose proof (Int64Bytes_pad n Hn Hz) as Hp. pose proof (f_equal length Hp) as Hlen.
  rewrite length_app, length_replicate, length_le_bytes in Hlen.
  unfold AsInt64, len. rewrite (proj2 (Z.ltb_ge _ _)) by lia.
  rewrite Hp, le_value_uint64, int64_uint64 by done.
  destruct (Z.eqb_spec (Z.of_nat (length (Int64Bytes n))) 0) as [E|]; [|done].
  exfalso. apply Hz, (uint64_zero n Hn). rewrite <- le_value_uint64, <- Hp.
  destruct (Int64Bytes n); [|simpl in E; lia]. done.
Qed.

Lemma Int64Bytes_bytes n : Forall is_byte (Int64Bytes n).
Proof.
  unfold Int64Bytes. destruct (n =? 0); [constructor|].
  pose proof (le_bytes_range 8 (uint64 n)) as H.
  rewrite <- (trim_zeros_pad (le_bytes 8 (uint64 n))) in H. by apply Forall_app in H as [H _].
Qed.

Lemma length_Int64Bytes n : (length (Int64Bytes n) <= 8)%nat.
Proof.
  unfold Int64Bytes. destruct (n =? 0); simpl; [lia|].
  pose proof (length_trim_zeros (le_bytes 8 (uint64 n))) as H. by rewrite length_le_bytes in H.
Qed.

Lemma AsBool_Int64Bytes n : is_int64 n → AsBool (Int64Bytes n) = negb (n =? 0).
Proof.
  intros Hn. destruct (Z.eq_dec n 0) as [->|Hz]; [done|].
  transitivity (AsBool (le_bytes 8 (uint64 n))).
  - by rewrite <- (Int64Bytes_pad n Hn Hz), AsBool_app, AsBool_zeros, orb_false_r.
  - rewrite AsBool_value by apply le_bytes_range. rewrite le_value_uint64.
    pose proof (uint64_zero n Hn). destruct (Z.eqb_spec (uint64 n) 0), (Z.eqb_spec n 0); tauto.
Qed.

(** ** Push encoders *)

Lemma decode_data_exact op hdr d t : decode_data op hdr (len d) (d ++ t) = Some (mkInst op (hdr + len d) d).
Proof.
  unfold decode_data. pose proof (len_nonneg t). rewrite len_app, (proj2 (Z.leb_le _ _)) by lia.
  unfold len. by rewrite Nat2Z.id, take_app_length.
Qed.

Lemma decode_wide2 d t : len d < 2 ^ 16 →
  decode (OP_PUSHDATA2 :: le_bytes 2 (len d) ++ d ++ t) = Some (mkInst OP_PUSHDATA2 (3 + len d) d).
Proof.
  intros. pose proof (len_nonneg d). pose proof (len_nonneg (d ++ t)).
  change (decode _) with
    (if len (le_bytes 2 (len d) ++ d ++ t) <? 2 then None
     else decode_data OP_PUSHDATA2 3 (le_value (take 2 (le_bytes 2 (len d) ++ d ++ t)))
            (drop 2 (le_bytes 2 (len d) ++ d ++ t))).
  rewrite len_app, (proj2 (Z.ltb_ge _ _)) by (change (len (le_bytes 2 (len d))) with 2; lia).
  rewrite take_app_length', drop_app_length' by done. rewrite le_value_bytes.
  rewrite Z.mod_small by lia. apply decode_data_exact.
Qed.

Lemma decode_wide4 d t : len d < 2 ^ 32 →
  decode (OP_PUSHDATA4 :: le_bytes 4 (len d) ++ d ++ t) = Some (mkInst OP_PUSHDATA4 (5 + len d) d).
Proof.
  intros. pose proof (len_nonneg d). pose proof (len_nonneg (d ++ t)).
  change (decode _) with
    (if len (le_bytes 4 (len d) ++ d ++ t) <? 4 then None
     else decode_data OP_PUSHDATA4 5 (le_value (take 4 (le_bytes 4 (len d) ++ d ++ t)))
            (drop 4 (le_bytes 4 (len d) ++ d ++ t))).
  rewrite len_app, (proj2 (Z.ltb_ge _ _)) by (change (len (le_bytes 4 (len d))) with 4; lia).
  rewrite take_app_length', drop_app_length' by done. rewrite le_value_bytes.
  rewrite Z.mod_small by lia. apply decode_data_exact.
Qed.

Lemma decode_PushdataBytes d t : Forall is_byte d → len d <= MaxInt32 →
  ∃ op, decode (PushdataBytes d ++ t) = Some (mkInst op (len (PushdataBytes d)) d)
        ∧ IsPushdata (mkInst op (len (PushdataBytes d)) d) = true.
Proof.
  intros Hd Hl. unfold PushdataBytes. pose proof (len_nonneg d).
  destruct (Z.eqb_spec (len d) 0) as [E|E].
  { exists 0. destruct d; [done|unfold len in E; simpl in E; lia]. }
  unfold uint8, uint16, uint32, wrapU.
  destruct (Z.leb_spec (len d) 75).
  { exists (len d). rewrite (Z.mod_small (len d)), Z.mod_small by lia. replace (OP_DATA_1 + len d - 1) with (len d) by lia.
    simpl. unfold IsPushdata; simpl. change (len (len d :: d)) with (Z.of_nat (S (length d))).
    replace (Z.of_nat (S (length d))) with (1 + len d) by (unfold len; lia).
    rewrite decode_data_exact.
    destruct (Z.leb_spec OP_1 (len d)), (Z.leb_spec OP_DATA_1 (len d)), (Z.leb_spec (len d) OP_DATA_75),
      (Z.leb_spec OP_0 (len d)), (Z.leb_spec (len d) OP_PUSHDATA4); simpl; try lia; done. }
  destruct (Z.ltb_spec (len d) (2 ^ 8)).
  { exists OP_PUSHDATA1. rewrite !Z.mod_small by lia. simpl. rewrite decode_data_exact.
    split; [|done]. do 2 f_equal. unfold len. simpl length. lia. }
  destruct (Z.ltb_spec (len d) (2 ^ 16)).
  { exists OP_PUSHDATA2. rewrite !Z.mod_small by lia.
    rewrite <- app_comm_cons, <- app_assoc, decode_wide2 by lia. split; [|done].
    do 2 f_equal. unfold len. cbn [length]. rewrite length_app, length_le_bytes. lia. }
  exists OP_PUSHDATA4. rewrite !Z.mod_small by lia.
  rewrite <- app_comm_cons, <- app_assoc, decode_wide4 by lia. split; [|done].
  do 2 f_equal. unfold len. cbn [length]. rewrite length_app, length_le_bytes. lia.
Qed.

Lemma PushdataBytes_bytes d : Forall is_byte d → Forall is_byte (PushdataBytes d).
Proof.
  intros Hd. unfold PushdataBytes.
  assert (HB : ∀ x, is_byte (uint8 x)).
  { intros x. unfold is_byte, uint8, wrapU. pose proof (Z.mod_pos_bound x (2 ^ 8)). lia. }
  repeat case_match; repeat constructor; try apply HB; try done; try (unfold is_byte; lia);
    apply Forall_app; split; auto using le_bytes_range.
Qed.

Lemma decode_PushdataInt64 n t : is_int64 n →
  ∃ op, decode (PushdataInt64 n ++ t) = Some (mkInst op (len (PushdataInt64 n)) (Int64Bytes n))
        ∧ IsPushdata (mkInst op (len (PushdataInt64 n)) (Int64Bytes n)) = true.
Proof.
  intros Hn. unfold PushdataInt64.
  destruct (Z.eqb_spec n 0) as [->|Hz]; [by exists 0|].
  destruct ((1 <=? n) && (n <=? 16)) eqn:E.
  - apply andb_true_iff in E as [?%Z.leb_le ?%Z.leb_le].
    assert (n ∈ seqZ 1 16) as Hin by (apply elem_of_seqZ; lia).
    repeat (apply elem_of_cons in Hin as [->|Hin]; [by eexists|]). by apply elem_of_nil in Hin.
  - apply decode_PushdataBytes; [apply Int64Bytes_bytes|].
    pose proof (length_Int64Bytes n). unfold len. lia.
Qed.

Lemma Tiles_sum s ins : Forall is_byte s → Tiles s ins → foldr (λ i acc, Len i + acc) 0 ins = len s.
Proof.
  intros Hs H. induction H as [|s i ins Hd _ IH]; [done|]. simpl.
  pose proof (decode_len _ _ Hs Hd). rewrite IH by (by apply Forall_drop). rewrite len_drop. lia.
Qed.

Lemma Tiles_single s i : decode s = Some i → Len i = len s → Tiles s [i].
Proof.
  intros Hd Hl. econstructor; [done|]. rewrite Hl, drop_ge by (unfold len; lia). constructor.
Qed.

Lemma len_PushdataBytes d : len d <= len (PushdataBytes d).
Proof.
  unfold PushdataBytes. destruct (Z.eqb_spec (len d) 0) as [->|]; [done|]. unfold len.
  repeat case_match; cbn [length]; rewrite ?length_app, ?length_le_bytes; lia.
Qed.

Lemma len_PushdataBytes_le d : len (PushdataBytes d) <= len d + 5.
Proof.
  unfold PushdataBytes. pose proof (len_nonneg d). unfold len in *.
  repeat case_match; cbn [length]; rewrite ?length_app, ?length_le_bytes; lia.
Qed.

Lemma pushes_len ds : len (concat (PushdataBytes <$> ds)) <= MaxInt32 →
  Forall (λ d, len d <= MaxInt32) ds.
Proof.
  induction ds as [|d ds IH]; [constructor|].
  rewrite fmap_cons. cbn [concat]. rewrite len_app. intros H.
  pose proof (len_PushdataBytes d). pose proof (len_nonneg (PushdataBytes d)).
  pose proof (len_nonneg (concat (PushdataBytes <$> ds))). constructor; [lia|]. apply IH. lia.
Qed.

Lemma Tiles_pushes ds : Forall (Forall is_byte) ds → Forall (λ d, len d <= MaxInt32) ds →
  ∃ ins, Tiles (concat (PushdataBytes <$> ds)) ins ∧ Data <$> ins = ds ∧ Forall (λ i, IsPushdata i = true) ins.
Proof.
  induction ds as [|d ds IH]; intros Hb Hl; [exists []; repeat constructor|].
  inversion_clear Hb. inversion_clear Hl. destruct IH as (ins & Ht & Hd & Hp); [done..|].
  destruct (decode_PushdataBytes d []) as (op & Hdec & Hpush); [done..|].
  rewrite app_nil_r in Hdec. eexists (_ :: ins). split; [|split].
  - simpl. apply (Tiles_app _ _ [_]); [by apply PushdataBytes_bytes| |done].
    by apply Tiles_single.
  - simpl. by f_equal.
  - by constructor.
Qed.

(** ** Properties *)

(** C5: on a program of bytes below 2 GiB [ParseProgram] always ends with a
    result or an error (no panic, no unbounded loop); it succeeds exactly when
    the bytes split into instructions of the reference decoder, returns those
    instructions, and their lengths add up to the program's. *)
Theorem ParseProgram_decodes prog : prog_ok prog →
  (∃ ins, ParseProgram prog = Ok ins ∧ Tiles prog ins
          ∧ foldr (λ i acc, Len i + acc) 0 ins = len prog)
  ∨ (∃ e, ParseProgram prog = Err e ∧ ∀ ins, ¬ Tiles prog ins).
Proof.
  intros Hok. pose proof (ParseProgram_cases prog Hok) as H.
  destruct (ParseProgram prog) as [ins|e| |]; try done; [left|right]; [|eauto].
  exists ins. split; [done|]. split; [done|]. apply Tiles_sum; [apply Hok|done].
Qed.

Lemma ParseProgram_decodes_witness :
  prog_ok [0x52; 0x53; 0x93] ∧ ParseProgram [0x52; 0x53; 0x93]
    = Ok [mkInst 0x52 1 [2]; mkInst 0x53 1 [3]; mkInst OP_ADD 1 []].
Proof.
  assert (prog_ok [0x52; 0x53; 0x93]) as Hok.
  { split; [repeat constructor; unfold is_byte; lia|]. cbv. discriminate. }
  split; [done|]. destruct (ParseProgram_decodes _ Hok) as [(ins & E & _)|(e & E & _)].
  - rewrite E. vm_compute in E. done.
  - vm_compute in E. discriminate.
Defined.

(** C6: a program made of push instructions built with [PushdataBytes] parses
    back to the pushed byte strings, every instruction being a push. *)
Theorem pushdata_roundtrip ds :
  Forall (Forall is_byte) ds → len (concat (PushdataBytes <$> ds)) <= MaxInt32 →
  ∃ ins, ParseProgram (concat (PushdataBytes <$> ds)) = Ok ins
         ∧ Data <$> ins = ds ∧ Forall (λ i, IsPushdata i = true) ins.
Proof.
  intros Hb Hl. destruct (Tiles_pushes ds Hb (pushes_len ds Hl)) as (ins & Ht & Hd & Hp).
  exists ins. split; [|done]. apply Tiles_ParseProgram; [|done]. split; [|done].
  apply Forall_concat. apply Forall_fmap. eapply Forall_impl; [exact Hb|].
  intros d. apply PushdataBytes_bytes.
Qed.

Lemma pushdata_roundtrip_witness :
  ParseProgram (concat (PushdataBytes <$> [[]; [7]; replicate 100 9; replicate 300 1]))
    = Ok [mkInst 0 1 []; mkInst 1 2 [7]; mkInst OP_PUSHDATA1 102 (replicate 100 9);
          mkInst OP_PUSHDATA2 303 (replicate 300 1)].
Proof.
  destruct (pushdata_roundtrip [[]; [7]; replicate 100 9; replicate 300 1]) as (ins & E & _).
  - repeat constructor; try (unfold is_byte; lia); apply Forall_replicate; unfold is_byte; lia.
  - vm_compute. discriminate.
  - rewrite E. vm_compute in E. done.
Defined.

(** Every [int64] survives its encoding as a machine value: [AsInt64]
    inverts [Int64Bytes], the encoding has at most 8 bytes, it is true as a
    boolean exactly when the number is not zero, and the instruction
    [PushdataInt64] builds pushes that encoding. *)
Theorem int64_roundtrip n : is_int64 n →
  AsInt64 (Int64Bytes n) = Ok n ∧ (length (Int64Bytes n) <= 8)%nat
  ∧ AsBool (Int64Bytes n) = negb (n =? 0)
  ∧ ∃ op ln, ParseProgram (PushdataInt64 n) = Ok [mkInst op ln (Int64Bytes n)]
             ∧ IsPushdata (mkInst op ln (Int64Bytes n)) = true.
Proof.
  intros Hn. split; [by apply AsInt64_Int64Bytes|]. split; [apply length_Int64Bytes|].
  split; [by apply AsBool_Int64Bytes|].
  destruct (decode_PushdataInt64 n [] Hn) as (op & Hd & Hp). rewrite app_nil_r in Hd.
  do 2 eexists. split; [|done]. apply Tiles_ParseProgram; [|by apply Tiles_single].
  assert (Forall is_byte (PushdataInt64 n) ∧ len (PushdataInt64 n) <= 9) as [HB HL].
  { pose proof (length_Int64Bytes n). unfold PushdataInt64.
    destruct (n =? 0); [split; [repeat constructor; unfold is_byte; lia|done]|].
    destruct (_ && _).
    - split; [constructor; [|constructor]|done]. unfold is_byte, uint8, wrapU.
      pose proof (Z.mod_pos_bound (OP_1 + n mod 2 ^ 8 - 1) (2 ^ 8)). lia.
    - split; [apply PushdataBytes_bytes, Int64Bytes_bytes|]. unfold PushdataBytes.
      destruct (Z.eqb_spec (len (Int64Bytes n)) 0); [done|].
      rewrite (proj2 (Z.leb_le _ _)) by (unfold len; lia). unfold len. cbn [length]. lia. }
  split; [done|]. lia.
Qed.

Lemma int64_roundtrip_witness : AsInt64 (Int64Bytes MinInt64) = Ok MinInt64
  ∧ Int64Bytes 256 = [0; 1].
Proof. split; [apply (int64_roundtrip MinInt64); ranges; lia|reflexivity]. Defined.
