(* ===== verification/VmMachine.v ===== *)
(** * The machine state and its primitives ([protocol/vm/vm.go], [context.go])

    [virtualMachine] with its two stacks of byte slices (top at the end, as in
    the code), the shared heap of byte arrays and the account database, threaded
    through a state-and-error monad [M].  An error keeps the state it happened
    in, since [CHECKPREDICATE] looks at the child machine after an error.  Gas
    ([runLimit], [deferredCost]) is int64 with its wrap-around. *)

From S2P Require Import Prelude Checked GoSlice VmProgram.

(** ** What the machine uses of other packages

    Hash functions and signatures, the account database with its EVM
    ([StateDB], [evm.Create], [evm.Call]), the contract address derivation and
    the runtime's choice of capacity in [append]. *)

Abbreviation Address := (list Z).

(** Results of [evm.Create] and [evm.Call]: returned bytes ([None] for nil)
    with the spare capacity behind them, gas left, error. *)
Record EvmResult (DB : Type) := mkEvmResult {
  er_ret : option (list Z * nat);
  er_gas : Z;
  er_err : option evm_error;
  er_db : DB;
}.
Arguments mkEvmResult {DB}.
Arguments er_ret {DB}.
Arguments er_gas {DB}.
Arguments er_err {DB}.
Arguments er_db {DB}.

(** The block-level fields of [evm.Context] ([NewEVMContext]) *)
Record EvmContext := mkEvmContext {
  ec_origin : Address;
  ec_coinbase : Address;
  ec_height : Z;
  ec_timestamp : Z;
  ec_difficulty : Z;
}.

Class VmEnv := {
  growcap : nat → nat → nat;
  sha256_Sum : list Z → list Z;
  sha3_Sum256 : list Z → list Z;
  Ripemd160 : list Z → list Z;
  ed25519_Verify : list Z → list Z → list Z → bool;
  StateDB : Type;
  GetBalance : StateDB → Address → Z;
  AddBalance : StateDB → Address → Z → StateDB;
  SubBalance : StateDB → Address → Z → StateDB;
  GetNonce : StateDB → Address → Z;
  SetNonce : StateDB → Address → Z → StateDB;
  GetRefund : StateDB → Z;
  evm_Create : EvmContext → StateDB → Address → list Z → Z → Z → EvmResult StateDB;
  evm_Call : EvmContext → StateDB → Address → Address → list Z → Z → Z → EvmResult StateDB;
  CreateAddress : Address → Z → Address;
}.

Section machine.
Context `{E : VmEnv}.

(** [vm.Context]; an absent pointer is [None].  [TxSigHash] is a memoised
    closure: every call returns the same slice. *)
Record Context := mkContext {
  BestBlockInfo : Z * Z * Z;
  VMVersion : Z;
  Code : slice;
  Arguments_ : list slice;
  EntryID : slice;
  TxVersion : option Z;
  BlockHeight : option Z;
  NumResults : option Z;
  AssetID : option slice;
  Amount : option Z;
  TxData : option slice;
  EntryData : option slice;
  DestPos : option Z;
  SpentOutputID : option slice;
  TxSigHash : option slice;
  CheckOutput : option (Z → Z → list Z → Z → list Z → bool → outcome error bool);
}.

Record virtualMachine := mkVM {
  context : Context;
  program : slice;
  pc : Z;
  nextPC : Z;
  runLimit : Z;
  deferredCost : Z;
  expansionReserved : bool;
  data : list Z;
  depth : Z;
  dataStack : list slice;
  altStack : list slice;
}.

Record State := mkState {
  vm : virtualMachine;
  hp : heap;
  db : StateDB;
}.

Definition set_vm (v : virtualMachine) (s : State) : State := mkState v (hp s) (db s).
Definition set_hp (h : heap) (s : State) : State := mkState (vm s) h (db s).
Definition set_db (d : StateDB) (s : State) : State := mkState (vm s) (hp s) d.

Definition set_pc (x : Z) (s : State) : State :=
  let v := vm s in
  set_vm (mkVM (context v) (program v) x (nextPC v) (runLimit v) (deferredCost v)
            (expansionReserved v) (data v) (depth v) (dataStack v) (altStack v)) s.
Definition set_nextPC (x : Z) (s : State) : State :=
  let v := vm s in
  set_vm (mkVM (context v) (program v) (pc v) x (runLimit v) (deferredCost v)
            (expansionReserved v) (data v) (depth v) (dataStack v) (altStack v)) s.
Definition set_runLimit (x : Z) (s : State) : State :=
  let v := vm s in
  set_vm (mkVM (context v) (program v) (pc v) (nextPC v) x (deferredCost v)
            (expansionReserved v) (data v) (depth v) (dataStack v) (altStack v)) s.
Definition set_deferredCost (x : Z) (s : State) : State :=
  let v := vm s in
  set_vm (mkVM (context v) (program v) (pc v) (nextPC v) (runLimit v) x
            (expansionReserved v) (data v) (depth v) (dataStack v) (altStack v)) s.
Definition set_data (x : list Z) (s : State) : State :=
  let v := vm s in
  set_vm (mkVM (context v) (program v) (pc v) (nextPC v) (runLimit v) (deferredCost v)
            (expansionReserved v) x (depth v) (dataStack v) (altStack v)) s.
Definition set_dataStack (x : list slice) (s : State) : State :=
  let v := vm s in
  set_vm (mkVM (context v) (program v) (pc v) (nextPC v) (runLimit v) (deferredCost v)
            (expansionReserved v) (data v) (depth v) x (altStack v)) s.
Definition set_altStack (x : list slice) (s : State) : State :=
  let v := vm s in
  set_vm (mkVM (context v) (program v) (pc v) (nextPC v) (runLimit v) (deferredCost v)
            (expansionReserved v) (data v) (depth v) (dataStack v) x) s.

(** ** The monad *)

Definition M (A : Type) : Type := State → outcome error A * State.

Definition ret {A} (a : A) : M A := λ s, (Ok a, s).
Definition throw {A} (e : error) : M A := λ s, (Err e, s).
Definition panic {A} : M A := λ s, (Panic, s).
Definition bind {A B} (m : M A) (k : A → M B) : M B := λ s,
  match m s with
  | (Ok a, s') => k a s'
  | (Err e, s') => (Err e, s')
  | (Panic, s') => (Panic, s')
  | (Fuel, s') => (Fuel, s')
  end.
Definition gets {A} (f : State → A) : M A := λ s, (Ok (f s), s).
Definition modify (f : State → State) : M unit := λ s, (Ok tt, f s).
Definition lift {A} (o : outcome error A) : M A := λ s, (o, s).
End machine.

Declare Scope vm_scope.
Delimit Scope vm_scope with vm.
Notation "x <- m ;; k" := (bind m (λ x, k))
  (at level 100, m at next level, right associativity) : vm_scope.
Notation "m ;; k" := (bind m (λ _, k))
  (at level 100, right associativity) : vm_scope.

(** ** Primitives *)

Section primitives.
Context `{E : VmEnv}.
Local Open Scope vm_scope.

(** positive cost decreases runlimit, negative cost increases it *)
Definition applyCost (n : Z) : M unit := λ s,
  if runLimit (vm s) <? n then (Err ErrRunLimitExceeded, set_runLimit 0 s)
  else (Ok tt, set_runLimit (int64 (runLimit (vm s) - n)) s).

Definition deferCost (n : Z) : M unit :=
  modify (λ s, set_deferredCost (int64 (deferredCost (vm s) + n)) s).

(** Allocation of a byte array with the given contents and capacity *)
Definition new_bytes (bs : list Z) (cap : nat) : M slice := λ s,
  let '(sl, h) := alloc (hp s) bs cap in (Ok sl, set_hp h s).

(** [append(a, bs...)] *)
Definition append_bytes (a : slice) (bs : list Z) : M slice := λ s,
  let '(sl, h) := go_append growcap (hp s) a bs in (Ok sl, set_hp h s).

(** The contents of a slice at this point of the execution *)
Definition read (sl : slice) : M (list Z) := gets (λ s, bytes (hp s) sl).

Definition push (d : slice) (deferred : bool) : M unit :=
  let cost := 8 + slen d in
  (if deferred then deferCost cost else applyCost cost) ;;
  modify (λ s, set_dataStack (dataStack (vm s) ++ [d]) s).

(** [var trueBytes = []byte{1}], one array shared by the whole process: the
    heap keeps it at position 0. *)
Definition trueBytes : slice := mkSlice (Some 0%nat) 0 1 1.

Definition BoolBytes (b : bool) : M slice := if b then ret trueBytes else new_bytes [] 0.

Definition pushBool (b : bool) (deferred : bool) : M unit :=
  d <- BoolBytes b ;; push d deferred.

(** [Int64Bytes] makes 8 bytes and cuts the trailing zeros off by reslicing,
    so its result keeps a capacity of 8 *)
Definition Int64Slice (n : Z) : M slice :=
  if n =? 0 then new_bytes [] 0
  else res <- new_bytes (le_bytes 8 (uint64 n)) 8 ;;
       match reslice res 0 (length (Int64Bytes n)) with
       | Some r => ret r
       | None => panic
       end.

Definition pushInt64 (n : Z) (deferred : bool) : M unit :=
  d <- Int64Slice n ;; push d deferred.

Definition pop (deferred : bool) : M slice :=
  ds <- gets (λ s, dataStack (vm s)) ;;
  match last ds with
  | None => throw ErrDataStackUnderflow
  | Some res =>
      let cost := 8 + slen res in
      (if deferred then deferCost cost else applyCost cost) ;;
      modify (set_dataStack (take (length ds - 1) ds)) ;;
      ret res
  end.

Definition popInt64 (deferred : bool) : M Z :=
  sl <- pop deferred ;; bs <- read sl ;; lift (AsInt64 bs).

Definition top : M slice :=
  ds <- gets (λ s, dataStack (vm s)) ;;
  match last ds with
  | None => throw ErrDataStackUnderflow
  | Some res => ret res
  end.

Definition stackCost (stack : list slice) : Z :=
  int64 (8 * len stack + foldr (λ item acc, slen item + acc) 0 stack).

(** falseResult returns true iff the stack is empty or the top item is false *)
Definition falseResult (s : State) : bool :=
  match last (dataStack (vm s)) with
  | None => true
  | Some t => negb (AsBool (bytes (hp s) t))
  end.

(** [dataStack[i]] with Go's bounds check *)
Definition stack_at (i : Z) : M slice :=
  ds <- gets (λ s, dataStack (vm s)) ;;
  if i <? 0 then panic
  else match ds !! Z.to_nat i with
       | Some x => ret x
       | None => panic
       end.

Definition get_stack : M (list slice) := gets (λ s, dataStack (vm s)).
Definition put_stack (ds : list slice) : M unit := modify (set_dataStack ds).
End primitives.
