(* ===== verification/VmOps.v ===== *)
(** * The opcodes of the virtual machine

    One definition per opcode function of [stack.go], [numeric.go],
    [bitwise.go], [splice.go], [pushdata.go], [control.go], [crypto.go] and
    [introspection.go], in the order of those files.  A [return err] is the
    error of the monad; the state reached so far is kept.  The hash and
    signature functions are those of the environment. *)

From S2P Require Import Prelude Checked GoSlice VmProgram VmMachine.

Section ops.
Context `{E : VmEnv}.
Local Open Scope vm_scope.

(** Loop [n] times *)
Fixpoint repeatM (n : nat) (body : M unit) : M unit :=
  match n with
  | O => ret tt
  | S n => body ;; repeatM n body
  end.

(** ** stack.go *)

Definition opToAltStack : M unit :=
  applyCost 2 ;;
  ds <- get_stack ;;
  match last ds with
  | None => throw ErrDataStackUnderflow
  | Some x =>
      modify (λ s, set_altStack (altStack (vm s) ++ [x]) s) ;;
      put_stack (take (length ds - 1) ds)
  end.

Definition opFromAltStack : M unit :=
  applyCost 2 ;;
  alt <- gets (λ s, altStack (vm s)) ;;
  match last alt with
  | None => throw ErrAltStackUnderflow
  | Some x =>
      modify (λ s, set_dataStack (dataStack (vm s) ++ [x]) s) ;;
      modify (set_altStack (take (length alt - 1) alt))
  end.

Definition op2Drop : M unit :=
  applyCost 2 ;; repeatM 2 (pop false ;; ret tt).

Definition nDup (n : nat) : M unit :=
  applyCost (Z.of_nat n) ;;
  ds <- get_stack ;;
  if len ds <? Z.of_nat n then throw ErrDataStackUnderflow
  else repeatM n (cur <- get_stack ;; x <- stack_at (len cur - Z.of_nat n) ;; push x false).

Definition op2Dup : M unit := nDup 2.
Definition op3Dup : M unit := nDup 3.

Definition op2Over : M unit :=
  applyCost 2 ;;
  ds <- get_stack ;;
  if len ds <? 4 then throw ErrDataStackUnderflow
  else repeatM 2 (cur <- get_stack ;; x <- stack_at (len cur - 4) ;; push x false).

Definition op2Rot : M unit :=
  applyCost 2 ;;
  ds <- get_stack ;;
  if len ds <? 6 then throw ErrDataStackUnderflow
  else
    a <- stack_at (len ds - 6) ;;
    b <- stack_at (len ds - 5) ;;
    put_stack (take (length ds - 6) ds ++ drop (length ds - 4) ds ++ [a] ++ [b]).

Definition op2Swap : M unit :=
  applyCost 2 ;;
  ds <- get_stack ;;
  if len ds <? 4 then throw ErrDataStackUnderflow
  else
    a <- stack_at (len ds - 4) ;;
    b <- stack_at (len ds - 3) ;;
    put_stack (take (length ds - 4) ds ++ drop (length ds - 2) ds ++ [a] ++ [b]).

Definition opIfDup : M unit :=
  applyCost 1 ;;
  item <- top ;;
  bs <- read item ;;
  if AsBool bs then push item false else ret tt.

Definition opDepth : M unit :=
  applyCost 1 ;;
  ds <- get_stack ;;
  pushInt64 (len ds) false.

Definition opDrop : M unit :=
  applyCost 1 ;; pop false ;; ret tt.

Definition opDup : M unit := nDup 1.

Definition opNip : M unit :=
  applyCost 1 ;;
  t <- top ;;
  ds <- get_stack ;;
  put_stack (take (length ds - 1) ds) ;;
  pop false ;;
  modify (λ s, set_dataStack (dataStack (vm s) ++ [t]) s).

Definition opOver : M unit :=
  applyCost 1 ;;
  ds <- get_stack ;;
  if len ds <? 2 then throw ErrDataStackUnderflow
  else x <- stack_at (len ds - 2) ;; push x false.

Definition opPick : M unit :=
  applyCost 2 ;;
  n <- popInt64 false ;;
  if n <? 0 then throw ErrBadValue
  else
    match AddInt64 n 1 with
    | None => throw ErrBadValue
    | Some off =>
        ds <- get_stack ;;
        if len ds <? off then throw ErrDataStackUnderflow
        else x <- stack_at (len ds - off) ;; push x false
    end.

Definition rot (n : Z) : M unit :=
  if n <? 1 then throw ErrBadValue
  else
    ds <- get_stack ;;
    if len ds <? n then throw ErrDataStackUnderflow
    else
      let index := len ds - n in
      x <- stack_at index ;;
      put_stack (take (Z.to_nat index) ds ++ drop (Z.to_nat (index + 1)) ds ++ [x]).

Definition opRoll : M unit :=
  applyCost 2 ;;
  n <- popInt64 false ;;
  if n <? 0 then throw ErrBadValue
  else
    match AddInt64 n 1 with
    | None => throw ErrBadValue
    | Some off => rot off
    end.

Definition opRot : M unit := applyCost 2 ;; rot 3.

Definition opSwap : M unit :=
  applyCost 1 ;;
  ds <- get_stack ;;
  let l := len ds in
  if l <? 2 then throw ErrDataStackUnderflow
  else
    a <- stack_at (l - 2) ;;
    b <- stack_at (l - 1) ;;
    put_stack (<[Z.to_nat (l - 2) := b]> (<[Z.to_nat (l - 1) := a]> ds)).

Definition opTuck : M unit :=
  applyCost 1 ;;
  ds <- get_stack ;;
  if len ds <? 2 then throw ErrDataStackUnderflow
  else
    a <- stack_at (len ds - 2) ;;
    b <- stack_at (len ds - 1) ;;
    put_stack (take (length ds - 2) ds) ;;
    push b false ;;
    modify (λ s, set_dataStack (dataStack (vm s) ++ [a; b]) s).

(** ** pushdata.go *)

Definition opFalse : M unit := applyCost 1 ;; pushBool false false.

Definition opPushdata : M unit :=
  applyCost 1 ;;
  d <- gets (λ s, data (vm s)) ;;
  sl <- new_bytes d (length d) ;;
  push sl false.

Definition op1Negate : M unit := applyCost 1 ;; pushInt64 (-1) false.

Definition opNop : M unit := applyCost 1.

(** ** numeric.go *)

(** [if !ok { return ErrRange }; return vm.pushInt64(res, true)] *)
Definition push_checked (o : option Z) : M unit :=
  match o with
  | None => throw ErrRange
  | Some res => pushInt64 res true
  end.

Definition op1Add : M unit :=
  applyCost 2 ;; n <- popInt64 true ;; push_checked (AddInt64 n 1).

Definition op1Sub : M unit :=
  applyCost 2 ;; n <- popInt64 true ;; push_checked (SubInt64 n 1).

Definition op2Mul : M unit :=
  applyCost 2 ;; n <- popInt64 true ;; push_checked (MulInt64 n 2).

Definition op2Div : M unit :=
  applyCost 2 ;; n <- popInt64 true ;; pushInt64 (Z.shiftr n 1) true.

Definition opNegate : M unit :=
  applyCost 2 ;; n <- popInt64 true ;; push_checked (NegateInt64 n).

Definition opAbs : M unit :=
  applyCost 2 ;;
  n <- popInt64 true ;;
  if n =? MinInt64 then throw ErrRange
  else pushInt64 (if n <? 0 then int64 (- n) else n) true.

Definition opNot : M unit :=
  applyCost 2 ;; n <- popInt64 true ;; pushBool (n =? 0) true.

Definition op0NotEqual : M unit :=
  applyCost 2 ;; n <- popInt64 true ;; pushBool (negb (n =? 0)) true.

Definition opAdd : M unit :=
  applyCost 2 ;; y <- popInt64 true ;; x <- popInt64 true ;; push_checked (AddInt64 x y).

Definition opSub : M unit :=
  applyCost 2 ;; y <- popInt64 true ;; x <- popInt64 true ;; push_checked (SubInt64 x y).

Definition opMul : M unit :=
  applyCost 8 ;; y <- popInt64 true ;; x <- popInt64 true ;; push_checked (MulInt64 x y).

Definition opDiv : M unit :=
  applyCost 8 ;;
  y <- popInt64 true ;;
  x <- popInt64 true ;;
  if y =? 0 then throw ErrDivZero else push_checked (DivInt64 x y).

Definition opMod : M unit :=
  applyCost 8 ;;
  y <- popInt64 true ;;
  x <- popInt64 true ;;
  if y =? 0 then throw ErrDivZero
  else
    match ModInt64 x y with
    | None => throw ErrRange
    | Some res =>
        pushInt64 (if negb (res =? 0) && negb (Bool.eqb (0 <=? x) (0 <=? y))
                   then int64 (res + y) else res) true
    end.

Definition opLshift : M unit :=
  applyCost 8 ;;
  y <- popInt64 true ;;
  if y <? 0 then throw ErrBadValue
  else
    x <- popInt64 true ;;
    if (x =? 0) || (y =? 0) then pushInt64 x true
    else push_checked (LshiftInt64 x y).

Definition opRshift : M unit :=
  applyCost 8 ;;
  y <- popInt64 true ;;
  x <- popInt64 true ;;
  if y <? 0 then throw ErrBadValue
  else pushInt64 (Z.shiftr x y) true.

Definition opBoolAnd : M unit :=
  applyCost 2 ;;
  b <- pop true ;;
  a <- pop true ;;
  bs <- read b ;;
  as_ <- read a ;;
  pushBool (AsBool as_ && AsBool bs) true.

Definition opBoolOr : M unit :=
  applyCost 2 ;;
  b <- pop true ;;
  a <- pop true ;;
  bs <- read b ;;
  as_ <- read a ;;
  pushBool (AsBool as_ || AsBool bs) true.

Inductive cmp := cmpLess | cmpLessEqual | cmpGreater | cmpGreaterEqual | cmpEqual | cmpNotEqual.

Definition doNumCompare (op : cmp) : M unit :=
  applyCost 2 ;;
  y <- popInt64 true ;;
  x <- popInt64 true ;;
  let res := match op with
             | cmpLess => x <? y
             | cmpLessEqual => x <=? y
             | cmpGreater => x >? y
             | cmpGreaterEqual => x >=? y
             | cmpEqual => x =? y
             | cmpNotEqual => negb (x =? y)
             end in
  pushBool res true.

Definition opNumEqual : M unit := doNumCompare cmpEqual.

Definition opNumEqualVerify : M unit :=
  applyCost 2 ;;
  y <- popInt64 true ;;
  x <- popInt64 true ;;
  if x =? y then ret tt else throw ErrVerifyFailed.

Definition opNumNotEqual : M unit := doNumCompare cmpNotEqual.
Definition opLessThan : M unit := doNumCompare cmpLess.
Definition opGreaterThan : M unit := doNumCompare cmpGreater.
Definition opLessThanOrEqual : M unit := doNumCompare cmpLessEqual.
Definition opGreaterThanOrEqual : M unit := doNumCompare cmpGreaterEqual.

Definition opMin : M unit :=
  applyCost 2 ;;
  y <- popInt64 true ;;
  x <- popInt64 true ;;
  pushInt64 (if x >? y then y else x) true.

Definition opMax : M unit :=
  applyCost 2 ;;
  y <- popInt64 true ;;
  x <- popInt64 true ;;
  pushInt64 (if x <? y then y else x) true.

Definition opWithin : M unit :=
  applyCost 4 ;;
  max <- popInt64 true ;;
  min <- popInt64 true ;;
  x <- popInt64 true ;;
  pushBool ((x >=? min) && (x <? max)) true.

(** ** bitwise.go *)

Definition opInvert : M unit :=
  applyCost 1 ;;
  t <- top ;;
  applyCost (slen t) ;;
  bs <- read t ;;
  sl <- new_bytes ((λ b, Z.lxor b 255) <$> bs) (length bs) ;;
  ds <- get_stack ;;
  put_stack (take (length ds - 1) ds ++ [sl]).

Definition opAnd : M unit :=
  applyCost 1 ;;
  b <- pop true ;;
  a <- pop true ;;
  let min := Nat.min (sl_len a) (sl_len b) in
  applyCost (Z.of_nat min) ;;
  xs <- read a ;;
  ys <- read b ;;
  sl <- new_bytes (zip_with Z.land xs ys) min ;;
  push sl true.

(** The longer operand's length, the shorter one read as zeros past its end *)
Fixpoint zip_long (f : Z → Z → Z) (xs ys : list Z) : list Z :=
  match xs, ys with
  | [], _ => f 0 <$> ys
  | _, [] => (λ x, f x 0) <$> xs
  | x :: xs, y :: ys => f x y :: zip_long f xs ys
  end.

Definition doOr (xor : bool) : M unit :=
  applyCost 1 ;;
  b <- pop true ;;
  a <- pop true ;;
  let max := Nat.max (sl_len a) (sl_len b) in
  applyCost (Z.of_nat max) ;;
  xs <- read a ;;
  ys <- read b ;;
  sl <- new_bytes (zip_long (if xor then Z.lxor else Z.lor) xs ys) max ;;
  push sl true.

Definition opOr : M unit := doOr false.
Definition opXor : M unit := doOr true.

Definition doEqual : M bool :=
  applyCost 1 ;;
  b <- pop true ;;
  a <- pop true ;;
  applyCost (Z.of_nat (Nat.min (sl_len a) (sl_len b))) ;;
  xs <- read a ;;
  ys <- read b ;;
  ret (bool_decide (xs = ys)).

Definition opEqual : M unit := res <- doEqual ;; pushBool res true.

Definition opEqualVerify : M unit :=
  res <- doEqual ;; if (res : bool) then ret tt else throw ErrVerifyFailed.

(** ** splice.go *)

(** [vm.push(str[i:j], true)] *)
Definition push_reslice (str : slice) (i j : Z) : M unit :=
  match reslice str (Z.to_nat i) (Z.to_nat j) with
  | Some r => push r true
  | None => panic
  end.

Definition opCat : M unit :=
  applyCost 4 ;;
  b <- pop true ;;
  a <- pop true ;;
  let lens := slen a + slen b in
  applyCost lens ;;
  deferCost (- lens) ;;
  bs <- read b ;;
  sl <- append_bytes a bs ;;
  push sl true.

Definition opSubstr : M unit :=
  applyCost 4 ;;
  size <- popInt64 true ;;
  if size <? 0 then throw ErrBadValue
  else
    applyCost size ;;
    deferCost (- size) ;;
    offset <- popInt64 true ;;
    if offset <? 0 then throw ErrBadValue
    else
      str <- pop true ;;
      match AddInt64 offset size with
      | None => throw ErrBadValue
      | Some end_ =>
          if slen str <? end_ then throw ErrBadValue
          else push_reslice str offset end_
      end.

Definition opLeft : M unit :=
  applyCost 4 ;;
  size <- popInt64 true ;;
  if size <? 0 then throw ErrBadValue
  else
    applyCost size ;;
    deferCost (- size) ;;
    str <- pop true ;;
    if slen str <? size then throw ErrBadValue
    else push_reslice str 0 size.

Definition opRight : M unit :=
  applyCost 4 ;;
  size <- popInt64 true ;;
  if size <? 0 then throw ErrBadValue
  else
    applyCost size ;;
    deferCost (- size) ;;
    str <- pop true ;;
    let lstr := slen str in
    if lstr <? size then throw ErrBadValue
    else push_reslice str (lstr - size) lstr.

Definition opSize : M unit :=
  applyCost 1 ;; str <- top ;; pushInt64 (slen str) true.

Definition opCatpushdata : M unit :=
  applyCost 4 ;;
  b <- pop true ;;
  a <- pop true ;;
  let lens := slen a + slen b in
  applyCost lens ;;
  deferCost (- lens) ;;
  bs <- read b ;;
  sl <- append_bytes a (PushdataBytes bs) ;;
  push sl true.

(** ** control.go *)

Definition opVerify : M unit :=
  applyCost 1 ;;
  p <- pop true ;;
  bs <- read p ;;
  if AsBool bs then ret tt else throw ErrVerifyFailed.

Definition opFail : M unit := applyCost 1 ;; throw ErrReturn.

(** [binary.LittleEndian.Uint32(vm.data)] *)
Definition jump_address : M Z :=
  d <- gets (λ s, data (vm s)) ;;
  if len d <? 4 then panic else ret (le_value (take 4 d)).

Definition opJump : M unit :=
  applyCost 1 ;; address <- jump_address ;; modify (set_nextPC address).

Definition opJumpIf : M unit :=
  applyCost 1 ;;
  p <- pop true ;;
  bs <- read p ;;
  if AsBool bs then address <- jump_address ;; modify (set_nextPC address) else ret tt.

(** The child machine of CHECKPREDICATE: same context, fresh counters, the
    top [n] items of the parent's stack. *)
Definition childVM (v : virtualMachine) (predicate : slice) (limit : Z) (items : list slice)
    : virtualMachine :=
  mkVM (context v) predicate 0 0 limit 0 false [] (depth v + 1) items [].

(** Run the child to its end and come back to the parent's machine; the child
    and the parent share the heap and the database. *)
Definition run_child (childRun : M unit) (child : virtualMachine) : M (bool * virtualMachine) :=
  λ s,
  match childRun (set_vm child s) with
  | (Ok _, s') => (Ok (negb (falseResult s'), vm s'), mkState (vm s) (hp s') (db s'))
  | (Err _, s') => (Ok (false, vm s'), mkState (vm s) (hp s') (db s'))
  | (Panic, s') => (Panic, mkState (vm s) (hp s') (db s'))
  | (Fuel, s') => (Fuel, mkState (vm s) (hp s') (db s'))
  end.

Definition opCheckPredicate (childRun : M unit) : M unit :=
  applyCost 256 ;;
  deferCost (-256 + 64) ;;
  limit <- popInt64 true ;;
  predicate <- pop true ;;
  n <- popInt64 true ;;
  if limit <? 0 then throw ErrBadValue
  else
    ds <- get_stack ;;
    let l := len ds in
    let n := if n <? 0 then l else n in
    if l <? n then throw ErrDataStackUnderflow
    else
      rl <- gets (λ s, runLimit (vm s)) ;;
      let limit := if limit =? 0 then rl else limit in
      applyCost limit ;;
      v <- gets vm ;;
      put_stack (take (Z.to_nat (l - n)) ds) ;;
      r <- run_child childRun (childVM v predicate limit (drop (Z.to_nat (l - n)) ds)) ;;
      deferCost (- runLimit (snd r)) ;;
      deferCost (- stackCost (dataStack (snd r))) ;;
      deferCost (- stackCost (altStack (snd r))) ;;
      pushBool (fst r) true.

(** ** crypto.go *)

(** [h.Sum(nil)] appends the digest to nil *)
Definition doHash (sum : list Z → list Z) : M unit :=
  x <- pop false ;;
  let cost := if slen x <? 64 then 64 else slen x in
  applyCost cost ;;
  bs <- read x ;;
  sl <- append_bytes nil_slice (sum bs) ;;
  push sl false.

Definition opSha256 : M unit := doHash sha256_Sum.
Definition opSha3 : M unit := doHash sha3_Sum256.

Definition opCheckSig : M unit :=
  applyCost 1024 ;;
  pubkeyBytes <- pop true ;;
  msg <- pop true ;;
  sig <- pop true ;;
  if negb (slen msg =? 32) then throw ErrBadValue
  else if negb (slen pubkeyBytes =? 32) then pushBool false true
  else
    k <- read pubkeyBytes ;;
    m <- read msg ;;
    sg <- read sig ;;
    pushBool (ed25519_Verify k m sg) true.

Fixpoint popN (n : nat) : M (list slice) :=
  match n with
  | O => ret []
  | S n => x <- pop true ;; rest <- popN n ;; ret (x :: rest)
  end.

Definition read_all (l : list slice) : M (list (list Z)) := gets (λ s, bytes (hp s) <$> l).

(** The signatures left when the keys run out: each key may consume the first
    remaining signature. *)
Fixpoint match_sigs (pubkeys : list (list Z)) (msg : list Z) (sigs : list (list Z))
    : list (list Z) :=
  match pubkeys, sigs with
  | [], _ => sigs
  | _, [] => []
  | k :: ks, sg :: rest =>
      if ed25519_Verify k msg sg then match_sigs ks msg rest else match_sigs ks msg sigs
  end.

Definition opCheckMultiSig : M unit :=
  numPubkeys <- popInt64 true ;;
  match (if numPubkeys <? 0 then None else MulInt64 numPubkeys 1024) with
  | None => throw ErrBadValue
  | Some pubCost =>
      applyCost pubCost ;;
      numSigs <- popInt64 true ;;
      if (numSigs <? 0) || (numPubkeys <? numSigs) || ((0 <? numPubkeys) && (numSigs =? 0))
      then throw ErrBadValue
      else
        pubkeyByteses <- popN (Z.to_nat numPubkeys) ;;
        msg <- pop true ;;
        if negb (slen msg =? 32) then throw ErrBadValue
        else
          sigs <- popN (Z.to_nat numSigs) ;;
          if existsb (λ p, negb (slen p =? 32)) pubkeyByteses then pushBool false true
          else
            ks <- read_all pubkeyByteses ;;
            m <- read msg ;;
            sgs <- read_all sigs ;;
            pushBool (len (match_sigs ks m sgs) =? 0) true
  end.

Definition opTxSigHash : M unit :=
  applyCost 256 ;;
  h <- gets (λ s, TxSigHash (context (vm s))) ;;
  match h with
  | None => throw ErrContext
  | Some sl => push sl false
  end.

Definition opHash160 : M unit :=
  d <- pop false ;;
  applyCost (slen d + 64) ;;
  bs <- read d ;;
  sl <- append_bytes nil_slice (Ripemd160 bs) ;;
  push sl false.

(** ** introspection.go *)

Definition opCheckOutput : M unit :=
  applyCost 16 ;;
  code <- pop true ;;
  vmVersion <- popInt64 true ;;
  if vmVersion <? 0 then throw ErrBadValue
  else
    assetID <- pop true ;;
    amount <- popInt64 true ;;
    if amount <? 0 then throw ErrBadValue
    else
      index <- popInt64 true ;;
      if index <? 0 then throw ErrBadValue
      else
        v <- gets vm ;;
        match CheckOutput (context v) with
        | None => throw ErrContext
        | Some check =>
            aid <- read assetID ;;
            cd <- read code ;;
            ok <- lift (check (uint64 index) (uint64 amount) aid (uint64 vmVersion) cd
                          (expansionReserved v)) ;;
            pushBool ok true
        end.

(** [ErrContext] for a nil pointer, otherwise a deferred push of its target *)
Definition push_field (f : Context → option slice) : M unit :=
  applyCost 1 ;;
  p <- gets (λ s, f (context (vm s))) ;;
  match p with
  | None => throw ErrContext
  | Some sl => push sl true
  end.

(** The same for a pointer to a uint64, pushed as an int64 *)
Definition push_uint_field (f : Context → option Z) : M unit :=
  applyCost 1 ;;
  p <- gets (λ s, f (context (vm s))) ;;
  match p with
  | None => throw ErrContext
  | Some n => pushInt64 (int64 n) true
  end.

Definition opAsset : M unit := push_field AssetID.
Definition opAmount : M unit := push_uint_field Amount.
Definition opProgram : M unit := push_field (λ c, Some (Code c)).
Definition opTxData : M unit := push_field TxData.
Definition opEntryData : M unit := push_field EntryData.
Definition opIndex : M unit := push_uint_field DestPos.
Definition opEntryID : M unit := push_field (λ c, Some (EntryID c)).
Definition opOutputID : M unit := push_field SpentOutputID.
Definition opBlockHeight : M unit := push_uint_field BlockHeight.
End ops.

Create HintDb vm_ops.
#[export] Hint Unfold opToAltStack opFromAltStack op2Drop nDup op2Dup op3Dup op2Over op2Rot op2Swap
  opIfDup opDepth opDrop opDup opNip opOver opPick opRoll opRot opSwap opTuck opFalse opPushdata
  op1Negate opNop op1Add op1Sub op2Mul op2Div opNegate opAbs opNot op0NotEqual opAdd opSub opMul
  opDiv opMod opLshift opRshift opBoolAnd opBoolOr doNumCompare opNumEqual opNumEqualVerify
  opNumNotEqual opLessThan opGreaterThan opLessThanOrEqual opGreaterThanOrEqual opMin opMax opWithin
  opInvert opAnd doOr opOr opXor opEqual opEqualVerify opCat opSubstr opLeft opRight opSize
  opCatpushdata opVerify opFail opJump opJumpIf opCheckPredicate doHash opSha256 opSha3 opCheckSig
  opCheckMultiSig opTxSigHash opHash160 opCheckOutput push_field push_uint_field opAsset opAmount
  opProgram opTxData opEntryData opIndex opEntryID opOutputID opBlockHeight : vm_ops.
