(* ===== verification/EvmTransition.v ===== *)
(** * The message transition around the EVM ([protocol/vm/state])

    [state_transition.go] and [gaspool.go]: nonce check, gas purchase,
    intrinsic gas, the call into the EVM, refund and gas accounting.  The EVM
    itself ([evm.Create], [evm.Call]) and the account database are the
    environment's.  Gas is uint64 with its wrap-around, balances are [big.Int]. *)

From S2P Require Import Prelude VmProgram VmMachine.

Abbreviation TxGas := 21000.
Abbreviation TxGasContractCreation := 53000.
Abbreviation TxDataZeroGas := 4.
Abbreviation TxDataNonZeroGas := 68.

Record Message := mkMessage {
  msgFrom : Address;
  msgTo : option Address;
  msgNonce : Z;
  msgValue : Z;
  msgGas : Z;
  msgGasPrice : Z;
  msgData : list Z;
  msgCheckNonce : bool;
}.

(** Non-zero bytes of the data, counted in a uint64 *)
Definition count_nonzero (d : list Z) : Z := len (filter (λ b, b ≠ 0) d).

Definition IntrinsicGas (d : list Z) (contractCreation : bool) : outcome evm_error Z :=
  let gas := if contractCreation then TxGasContractCreation else TxGas in
  if 0 <? len d then
    let nz := count_nonzero d in
    if Z.quot (MaxUint64 - gas) TxDataNonZeroGas <? nz then Err ErrOutOfGas
    else
      let gas := uint64 (gas + uint64 (nz * TxDataNonZeroGas)) in
      let z := uint64 (len d - nz) in
      if Z.quot (MaxUint64 - gas) TxDataZeroGas <? z then Err ErrOutOfGas
      else Ok (uint64 (gas + uint64 (z * TxDataZeroGas)))
  else Ok gas.

(** [GasPool.AddGas]: panics when the pool would pass uint64 *)
Definition AddGas (gp amount : Z) : outcome evm_error Z :=
  if MaxUint64 - amount <? gp then Panic else Ok (uint64 (gp + amount)).

Definition SubGas (gp amount : Z) : outcome evm_error Z :=
  if gp <? amount then Err ErrGasLimitReached else Ok (uint64 (gp - amount)).

Section transition.
Context `{E : VmEnv}.
Local Open Scope go_scope.

Record StateTransition := mkST {
  st_gp : Z;
  st_msg : Message;
  st_gas : Z;
  st_initialGas : Z;
  st_state : StateDB;
}.

Definition NewStateTransition (msg : Message) (gp : Z) (db : StateDB) : StateTransition :=
  mkST gp msg 0 0 db.

Definition useGas (st : StateTransition) (amount : Z) : outcome evm_error StateTransition :=
  if st_gas st <? amount then Err ErrOutOfGas
  else Ok (mkST (st_gp st) (st_msg st) (uint64 (st_gas st - amount)) (st_initialGas st) (st_state st)).

Definition buyGas (st : StateTransition) : outcome evm_error StateTransition :=
  let msg := st_msg st in
  let mgval := msgGas msg * msgGasPrice msg in
  if GetBalance (st_state st) (msgFrom msg) <? mgval then Err errInsufficientBalanceForGas
  else
    let? gp := SubGas (st_gp st) (msgGas msg) in
    Ok (mkST gp msg (uint64 (st_gas st + msgGas msg)) (msgGas msg)
          (SubBalance (st_state st) (msgFrom msg) mgval)).

Definition preCheck (st : StateTransition) : outcome evm_error StateTransition :=
  let msg := st_msg st in
  if msgCheckNonce msg then
    let nonce := GetNonce (st_state st) (msgFrom msg) in
    if nonce <? msgNonce msg then Err ErrNonceTooHigh
    else if msgNonce msg <? nonce then Err ErrNonceTooLow
    else buyGas st
  else buyGas st.

Definition gasUsed (st : StateTransition) : Z := uint64 (st_initialGas st - st_gas st).

Definition refundGas (st : StateTransition) : outcome evm_error StateTransition :=
  let refund := Z.quot (gasUsed st) 2 in
  let refund := if GetRefund (st_state st) <? refund then GetRefund (st_state st) else refund in
  let gas := uint64 (st_gas st + refund) in
  let remaining := gas * msgGasPrice (st_msg st) in
  let db := AddBalance (st_state st) (msgFrom (st_msg st)) remaining in
  let? gp := AddGas (st_gp st) gas in
  Ok (mkST gp (st_msg st) gas (st_initialGas st) db).

(** The EVM call of [TransitionDb]: creation when the message has no recipient,
    otherwise the sender's nonce is bumped and the recipient called. *)
Definition evm_execute (ctx : EvmContext) (st : StateTransition) : EvmResult StateDB :=
  let msg := st_msg st in
  match msgTo msg with
  | None => evm_Create ctx (st_state st) (msgFrom msg) (msgData msg) (st_gas st) (msgValue msg)
  | Some to =>
      let db := SetNonce (st_state st) (msgFrom msg)
                  (uint64 (GetNonce (st_state st) (msgFrom msg) + 1)) in
      evm_Call ctx db (msgFrom msg) to (msgData msg) (st_gas st) (msgValue msg)
  end.

(** [TransitionDb]: the returned bytes, the used gas and the error of the EVM
    run, with the final database.  A core error is [Err] with the database as
    it was left. *)
Definition TransitionDb (ctx : EvmContext) (st : StateTransition)
    : outcome evm_error (option (list Z * nat) * Z) * StateDB :=
  match preCheck st with
  | Ok st1 =>
      match IntrinsicGas (msgData (st_msg st1)) (bool_decide (msgTo (st_msg st1) = None)) with
      | Ok gas =>
          match useGas st1 gas with
          | Ok st2 =>
              let r := evm_execute ctx st2 in
              let st3 := mkST (st_gp st2) (st_msg st2) (er_gas r) (st_initialGas st2) (er_db r) in
              if bool_decide (er_err r = Some ErrInsufficientBalance)
              then (Err ErrInsufficientBalance, er_db r)
              else
                match refundGas st3 with
                | Ok st4 =>
                    let db := AddBalance (st_state st4) (ec_coinbase ctx)
                                (gasUsed st4 * msgGasPrice (st_msg st4)) in
                    (match er_err r with
                     | Some e => Err e
                     | None => Ok (er_ret r, gasUsed st4)
                     end, db)
                | Err e => (Err e, er_db r)
                | Panic => (Panic, er_db r)
                | Fuel => (Fuel, er_db r)
                end
          | Err e => (Err e, st_state st1)
          | Panic => (Panic, st_state st1)
          | Fuel => (Fuel, st_state st1)
          end
      | Err e => (Err e, st_state st1)
      | Panic => (Panic, st_state st1)
      | Fuel => (Fuel, st_state st1)
      end
  | Err e => (Err e, st_state st)
  | Panic => (Panic, st_state st)
  | Fuel => (Fuel, st_state st)
  end.

Definition ApplyMessage (ctx : EvmContext) (db : StateDB) (msg : Message) (gp : Z)
    : outcome evm_error (option (list Z * nat) * Z) * StateDB :=
  TransitionDb ctx (NewStateTransition msg gp db).

(** What [evm.Create] and [evm.Call] promise: they return at most the gas they
    were given, and the refund counter is a uint64. *)
Class EvmOk : Prop := {
  evm_Create_gas : ∀ ctx db from d gas value, is_uint64 gas →
    0 <= er_gas (evm_Create ctx db from d gas value) <= gas;
  evm_Call_gas : ∀ ctx db from to d gas value, is_uint64 gas →
    0 <= er_gas (evm_Call ctx db from to d gas value) <= gas;
  GetRefund_range : ∀ db, is_uint64 (GetRefund db);
}.

(** ** Gas accounting *)

Lemma count_nonzero_range d : 0 <= count_nonzero d <= len d.
Proof.
  unfold count_nonzero, len. pose proof (length_filter (λ b, b ≠ 0) d). lia.
Qed.

Lemma IntrinsicGas_range d c g : IntrinsicGas d c = Ok g → is_uint64 g.
Proof.
  unfold IntrinsicGas. destruct (0 <? len d).
  - repeat case_match; intros; simplify_eq; apply uint64_range.
  - intros [= <-]. destruct c; ranges; lia.
Qed.

Lemma uint64_sub a b : 0 <= b <= a → is_uint64 a → uint64 (a - b) = a - b.
Proof. intros. apply uint64_id. ranges; lia. Qed.

Context `{HE : !EvmOk}.

Lemma evm_execute_gas ctx st : is_uint64 (st_gas st) →
  0 <= er_gas (evm_execute ctx st) <= st_gas st.
Proof.
  intros H. unfold evm_execute. destruct (msgTo (st_msg st));
    [by apply evm_Call_gas|by apply evm_Create_gas].
Qed.

(** With the pool the opcodes use (the maximum), the refund never overflows it. *)
Lemma refundGas_ok st : is_uint64 (st_initialGas st) → 0 <= st_gas st <= st_initialGas st →
  st_gp st = MaxUint64 - st_initialGas st →
  ∃ st', refundGas st = Ok st' ∧ st_initialGas st' = st_initialGas st ∧ st_msg st' = st_msg st
         ∧ st_gas st <= st_gas st' <= st_initialGas st.
Proof.
  intros Hi Hg Hp. unfold refundGas, gasUsed. rewrite uint64_sub by done.
  set (q := Z.quot (st_initialGas st - st_gas st) 2).
  assert (0 <= q <= st_initialGas st - st_gas st) as Hq.
  { unfold q. rewrite Z.quot_div_nonneg by lia. split; [apply Z.div_pos; lia|].
    apply Z.div_le_upper_bound; lia. }
  pose proof (GetRefund_range (st_state st)) as Hr.
  set (refund := if GetRefund (st_state st) <? q then GetRefund (st_state st) else q).
  assert (0 <= refund <= q) as Hf by (unfold refund; destruct (Z.ltb_spec (GetRefund (st_state st)) q); ranges; lia).
  rewrite (uint64_id (st_gas st + refund)) by (ranges; lia).
  unfold AddGas. rewrite Hp, (proj2 (Z.ltb_ge _ _)) by lia. simpl.
  eexists. split; [done|]. simpl. split_and!; done || lia.
Qed.

Lemma buyGas_ok msg db st1 : is_uint64 (msgGas msg) →
  preCheck (NewStateTransition msg MaxUint64 db) = Ok st1 →
  st_msg st1 = msg ∧ st_gas st1 = msgGas msg ∧ st_initialGas st1 = msgGas msg
  ∧ st_gp st1 = MaxUint64 - msgGas msg.
Proof.
  intros Hg. unfold preCheck, NewStateTransition. simpl.
  assert (HB : ∀ st', buyGas (mkST MaxUint64 msg 0 0 db) = Ok st' →
    st_msg st' = msg ∧ st_gas st' = msgGas msg ∧ st_initialGas st' = msgGas msg
    ∧ st_gp st' = MaxUint64 - msgGas msg).
  { intros st'. unfold buyGas, SubGas. simpl. destruct (_ <? _); [done|].
    rewrite (proj2 (Z.ltb_ge _ _)) by (ranges; lia). simpl. intros [= <-]. simpl.
    rewrite !uint64_id by (ranges; lia). split_and!; done || lia. }
  repeat case_match; try done; apply HB.
Qed.

Lemma useGas_ok st amount st' : is_uint64 (st_gas st) → is_uint64 amount → useGas st amount = Ok st' →
  st_msg st' = st_msg st ∧ st_initialGas st' = st_initialGas st ∧ st_gp st' = st_gp st
  ∧ st_gas st' = st_gas st - amount ∧ amount <= st_gas st.
Proof.
  intros Hg Ha. unfold useGas. destruct (Z.ltb_spec (st_gas st) amount); [done|].
  intros [= <-]. simpl. rewrite uint64_id by (ranges; lia). split_and!; done.
Qed.

(** The used gas reported by [ApplyMessage] never exceeds the message's gas,
    and no accounting step panics, when the pool starts at its maximum. *)
Lemma ApplyMessage_gas ctx db msg : is_uint64 (msgGas msg) →
  match (ApplyMessage ctx db msg MaxUint64).1 with
  | Ok (_, used) => 0 <= used <= msgGas msg
  | Err _ => True
  | _ => False
  end.
Proof.
  intros Hg. unfold ApplyMessage, TransitionDb.
  destruct (preCheck _) as [st1|e| |] eqn:Ep; simpl; try done.
  2,3: revert Ep; unfold preCheck, buyGas, SubGas; simpl; repeat case_match; done.
  apply buyGas_ok in Ep as (Hm & Hgas & Hini & Hgp); [|done].
  destruct (IntrinsicGas _ _) as [ig|e| |] eqn:Ei; simpl; try done.
  2,3: revert Ei; unfold IntrinsicGas; repeat case_match; done.
  apply IntrinsicGas_range in Ei.
  destruct (useGas st1 ig) as [st2|e| |] eqn:Eu; simpl; try done.
  2,3: revert Eu; unfold useGas; repeat case_match; done.
  apply useGas_ok in Eu as (Hm2 & Hi2 & Hgp2 & Hg2 & Hle); [|by rewrite Hgas|done].
  pose proof (evm_execute_gas ctx st2 ltac:(ranges; lia)) as Hex.
  destruct (bool_decide _); simpl; [done|].
  edestruct refundGas_ok as (st4 & Hr & Hi4 & Hm4 & Hg4); [| | |rewrite Hr]; simpl.
  1-3: ranges; lia.
  simpl in *. destruct (er_err _); simpl; [done|].
  unfold gasUsed. rewrite uint64_sub by (ranges; lia). ranges; lia.
Qed.
End transition.
