(* ===== verification/EvmBase.v ===== *)
(** * The EVM: words, stack, memory, contracts ([protocol/vm/evm])

    The data of the interpreter: [common.go], [stack.go], [memory.go],
    [contract.go], [opcodes.go], [gas.go], [errors.go], [interface.go].
    big.Int is [Z]; the integers of the stack are values, the pool they are
    recycled through ([intpool.go]) is not modelled: no instruction returns an
    integer to the pool that it leaves on the stack.  The stack is a list from
    the top down. *)

From S2P Require Import Prelude Checked.
#[local] Open Scope Z_scope.

Inductive evm_err :=
| ErrOutOfGas
| ErrCodeStoreOutOfGas
| ErrDepth
| ErrInsufficientBalance
| ErrContractAddressCollision
| errWriteProtection
| errReturnDataOutOfBounds
| errExecutionReverted
| errMaxCodeSizeExceeded
| errGasUintOverflow
| ErrInvalidOpcode
| ErrStackUnderflow
| ErrStackLimit
| ErrInvalidJump
| errBadPairingInput
| ErrCurvePoint.

#[global] Instance evm_err_eq_dec : EqDecision evm_err.
Proof. solve_decision. Defined.

(** ** Operation codes ([opcodes.go]) *)

Inductive OpCode :=
| STOP | ADD | MUL | SUB | DIV | SDIV | MOD | SMOD | ADDMOD | MULMOD | EXP | SIGNEXTEND
| LT | GT | SLT | SGT | EQ | ISZERO | AND | OR | XOR | NOT | BYTE | SHL | SHR | SAR
| SHA3
| ADDRESS | BALANCE | ORIGIN | CALLER | CALLVALUE | CALLDATALOAD | CALLDATASIZE | CALLDATACOPY
| CODESIZE | CODECOPY | GASPRICE | EXTCODESIZE | EXTCODECOPY | RETURNDATASIZE | RETURNDATACOPY | EXTCODEHASH
| BLOCKHASH | COINBASE | TIMESTAMP | NUMBER | DIFFICULTY | GASLIMIT
| POP | MLOAD | MSTORE | MSTORE8 | SLOAD | SSTORE | JUMP | JUMPI | PC | MSIZE | GAS | JUMPDEST
| PUSH (n : nat) | DUP (n : nat) | SWAP (n : nat) | LOG (n : nat)
| CREATE | CALL | CALLCODE | RETURN | DELEGATECALL | CREATE2 | STATICCALL | REVERT | SELFDESTRUCT.

Definition op_row (row : Z) (ops : list OpCode) (b : Z) : option OpCode :=
  if row <=? b then ops !! Z.to_nat (b - row) else None.

(** The codes of the constants; the others are not in the jump table. *)
Definition opcode_of (b : Z) : option OpCode :=
  if b <? 0x10 then
    op_row 0 [STOP; ADD; MUL; SUB; DIV; SDIV; MOD; SMOD; ADDMOD; MULMOD; EXP; SIGNEXTEND] b
  else if b <? 0x20 then
    op_row 0x10 [LT; GT; SLT; SGT; EQ; ISZERO; AND; OR; XOR; NOT; BYTE; SHL; SHR; SAR] b
  else if b =? 0x20 then Some SHA3
  else if b <? 0x40 then
    op_row 0x30 [ADDRESS; BALANCE; ORIGIN; CALLER; CALLVALUE; CALLDATALOAD; CALLDATASIZE; CALLDATACOPY;
                 CODESIZE; CODECOPY; GASPRICE; EXTCODESIZE; EXTCODECOPY; RETURNDATASIZE; RETURNDATACOPY;
                 EXTCODEHASH] b
  else if b <? 0x50 then
    op_row 0x40 [BLOCKHASH; COINBASE; TIMESTAMP; NUMBER; DIFFICULTY; GASLIMIT] b
  else if b <? 0x60 then
    op_row 0x50 [POP; MLOAD; MSTORE; MSTORE8; SLOAD; SSTORE; JUMP; JUMPI; PC; MSIZE; GAS; JUMPDEST] b
  else if b <? 0x80 then Some (PUSH (Z.to_nat (b - 0x60 + 1)))
  else if b <? 0x90 then Some (DUP (Z.to_nat (b - 0x80 + 1)))
  else if b <? 0xa0 then Some (SWAP (Z.to_nat (b - 0x90 + 1)))
  else if b <? 0xa5 then Some (LOG (Z.to_nat (b - 0xa0)))
  else if b <? 0xf0 then None
  else if b =? 0xfa then Some STATICCALL
  else if b =? 0xfd then Some REVERT
  else if b =? 0xff then Some SELFDESTRUCT
  else op_row 0xf0 [CREATE; CALL; CALLCODE; RETURN; DELEGATECALL; CREATE2] b.

(** ** Gas prices ([gas.go]) *)

Abbreviation GasQuickStep := 2.
Abbreviation GasFastestStep := 3.
Abbreviation GasFastStep := 5.
Abbreviation GasMidStep := 8.
Abbreviation GasSlowStep := 10.
Abbreviation GasExtStep := 20.
Abbreviation CallValueTransferGas := 9000.
Abbreviation CallNewAccountGas := 25000.
Abbreviation QuadCoeffDiv := 512.
Abbreviation SstoreSetGas := 20000.
Abbreviation LogDataGas := 8.
Abbreviation CallStipend := 2300.
Abbreviation Sha3Gas := 30.
Abbreviation Sha3WordGas := 6.
Abbreviation SstoreResetGas := 5000.
Abbreviation SstoreClearGas := 5000.
Abbreviation SstoreRefundGas := 15000.
Abbreviation JumpdestGas := 1.
Abbreviation CreateDataGas := 200.
Abbreviation CallCreateDepth := 1024.
Abbreviation LogGas := 375.
Abbreviation CopyGas := 3.
Abbreviation StackLimit := 1024.
Abbreviation LogTopicGas := 375.
Abbreviation CreateGas := 32000.
Abbreviation Create2Gas := 32000.
Abbreviation SuicideRefundGas := 24000.
Abbreviation MemoryGas := 3.
Abbreviation MaxCodeSize := 24576.

(** ** Words

    The helpers of go-ethereum's [common] and [common/math] on the integers of
    the stack *)

Definition tt255 : Z := 2 ^ 255.
Definition tt256 : Z := 2 ^ 256.
Definition U256 (x : Z) : Z := Z.land x (tt256 - 1).
Definition S256 (x : Z) : Z := if x <? tt255 then x else x - tt256.
Definition BitLen (x : Z) : Z := if x =? 0 then 0 else Z.log2 (Z.abs x) + 1.
(** [x.Uint64()] and [x.Int64()]: the low bits *)
Definition Uint64_of (x : Z) : Z := uint64 x.
Definition Int64_of (x : Z) : Z := int64 x.

(** Big-endian bytes, [n] of them *)
Definition be_bytes (n : nat) (x : Z) : list Z := reverse (le_bytes n x).

Abbreviation Address := (list Z).
Abbreviation Word32 := (list Z).

Definition BigToAddress (x : Z) : Address := be_bytes 20 x.
Definition BigToHash (x : Z) : Word32 := be_bytes 32 x.
Definition SetBytes (bs : list Z) : Z := be_value bs.

Definition SafeAdd (x y : Z) : Z * bool := (uint64 (x + y), MaxUint64 - x <? y).
Definition SafeMul (x y : Z) : Z * bool :=
  if (x =? 0) || (y =? 0) then (0, false) else (uint64 (x * y), MaxUint64 / x <? y).

(** [math.Exp]: the bits of the exponent from the lowest *)
Fixpoint exp_bits (result base : Z) (e : positive) : Z :=
  match e with
  | xH => U256 (result * base)
  | xO e => exp_bits result (U256 (base * base)) e
  | xI e => exp_bits (U256 (result * base)) (U256 (base * base)) e
  end.
Definition math_Exp (base exponent : Z) : Z :=
  match exponent with
  | Zpos e => exp_bits 1 base e
  | _ => 1
  end.

(** [math.Byte(x, 32, n)] *)
Definition math_Byte (x n : Z) : Z :=
  if 32 <=? n then 0 else Z.land (Z.shiftr x (8 * (31 - n))) 0xff.

Definition RightPadBytes (bs : list Z) (l : Z) : list Z :=
  if l <=? len bs then bs else bs ++ replicate (Z.to_nat (l - len bs)) 0.
Definition LeftPadBytes (bs : list Z) (l : Z) : list Z :=
  if l <=? len bs then bs else replicate (Z.to_nat (l - len bs)) 0 ++ bs.

(** ** [common.go] *)

Definition calcMemSize (off l : Z) : Z := if l =? 0 then 0 else off + l.

(** [data[start:end]] *)
Definition subslice (bs : list Z) (i j : Z) : outcome evm_err (list Z) :=
  if (0 <=? i) && (i <=? j) && (j <=? len bs) then Ok (take (Z.to_nat (j - i)) (drop (Z.to_nat i) bs)) else Panic.

Definition getData (bs : list Z) (start size : Z) : outcome evm_err (list Z) :=
  let length := len bs in
  let start := if length <? start then length else start in
  let e := uint64 (start + size) in
  let e := if length <? e then length else e in
  obind (subslice bs start e) (λ d, Ok (RightPadBytes d (int64 size))).

Definition getDataBig (bs : list Z) (start size : Z) : outcome evm_err (list Z) :=
  let dlen := len bs in
  let s := Z.min start dlen in
  let e := Z.min (s + size) dlen in
  obind (subslice bs (Uint64_of s) (Uint64_of e)) (λ d, Ok (RightPadBytes d (int64 (Uint64_of size)))).

Definition bigUint64 (v : Z) : Z * bool := (Uint64_of v, 64 <? BitLen v).

Definition toWordSize (size : Z) : Z :=
  if MaxUint64 - 31 <? size then MaxUint64 / 32 + 1 else (size + 31) / 32.

Definition allZero (bs : list Z) : bool := forallb (λ b, b =? 0) bs.

(** ** Memory ([memory.go]) *)

Record Memory := mkMemory {
  store : list Z;
  lastGasCost : Z;
}.

Definition NewMemory : Memory := mkMemory [] 0.

(** [copy(store[offset:...], value)] *)
Definition write_at (l : list Z) (i : nat) (bs : list Z) : list Z :=
  take i l ++ bs ++ drop (i + length bs) l.

Definition mem_Set (m : Memory) (offset size : Z) (value : list Z) : outcome evm_err Memory :=
  if 0 <? size then
    let e := uint64 (offset + size) in
    if (len (store m) <? e) || (e <? offset) then Panic
    else Ok (mkMemory (write_at (store m) (Z.to_nat offset) (take (Z.to_nat size) value)) (lastGasCost m))
  else Ok m.

Definition mem_Set32 (m : Memory) (offset val : Z) : outcome evm_err Memory :=
  let e := uint64 (offset + 32) in
  if (len (store m) <? e) || (e <? offset) then Panic
  else Ok (mkMemory (write_at (store m) (Z.to_nat offset) (be_bytes 32 (Z.abs val))) (lastGasCost m)).

Definition mem_Resize (m : Memory) (size : Z) : Memory :=
  if len (store m) <? size
  then mkMemory (store m ++ replicate (Z.to_nat (size - len (store m))) 0) (lastGasCost m)
  else m.

(** [Get] copies, [GetPtr] does not; the bytes are the same, and nothing writes
    to the memory of a frame that has returned.  A slice that ends past the
    length of the store is a panic here, although the capacity of the array
    might allow it: the interpreter never asks for one. *)
Definition mem_Get (m : Memory) (offset size : Z) : outcome evm_err (option (list Z)) :=
  if size =? 0 then Ok None
  else if offset <? len (store m) then
    obind (subslice (store m) offset (int64 (offset + size))) (λ d, Ok (Some d))
  else Ok None.

Definition mem_GetPtr (m : Memory) (offset size : Z) : outcome evm_err (option (list Z)) := mem_Get m offset size.

(** [memory.store[off] = b] *)
Definition mem_store_byte (m : Memory) (off b : Z) : outcome evm_err Memory :=
  if (0 <=? off) && (off <? len (store m)) then Ok (mkMemory (<[Z.to_nat off := b]> (store m)) (lastGasCost m))
  else Panic.

(** ** The account database and the primitives of other packages

    [interface.go]; a snapshot is the database itself, and reverting may keep
    what is not in the journal. *)

Record Log := mkLog {
  log_Address : Address;
  log_Topics : list Word32;
  log_Data : option (list Z);
  log_BlockNumber : Z;
}.

Class EvmHost := {
  DB : Type;
  CreateAccount : DB → Address → DB;
  SubBalance : DB → Address → Z → DB;
  AddBalance : DB → Address → Z → DB;
  GetBalance : DB → Address → Z;
  GetNonce : DB → Address → Z;
  SetNonce : DB → Address → Z → DB;
  GetCodeHash : DB → Address → Word32;
  GetCode : DB → Address → list Z;
  SetCode : DB → Address → list Z → DB;
  GetCodeSize : DB → Address → Z;
  AddRefund : DB → Z → DB;
  GetRefund : DB → Z;
  GetState : DB → Address → Word32 → Word32;
  SetState : DB → Address → Word32 → Word32 → DB;
  Suicide : DB → Address → DB;
  HasSuicided : DB → Address → bool;
  Exist : DB → Address → bool;
  IsEmpty : DB → Address → bool;
  RevertToSnapshot : DB → DB → DB;
  AddLog : DB → Log → DB;
  Keccak256 : list Z → list Z;
  CreateAddress : Address → Z → Address;
  Sha256 : list Z → list Z;
  Ripemd160Sum : list Z → list Z;
  Ecrecover : list Z → list Z → option (list Z);
  G1 : Type;
  G2 : Type;
  G1_Unmarshal : list Z → option G1;
  G1_Marshal : G1 → list Z;
  G1_Add : G1 → G1 → G1;
  G1_ScalarMult : G1 → Z → G1;
  G2_Unmarshal : list Z → option G2;
  PairingCheck : list G1 → list G2 → bool;
}.

(** [crypto.CreateAddress2] *)
Definition CreateAddress2 `{EvmHost} (b : Address) (salt : Word32) (code : list Z) : Address :=
  drop 12 (Keccak256 ([0xff] ++ b ++ salt ++ Keccak256 code)).

(** ** Contracts ([contract.go]) *)

Record Contract := mkContract {
  CallerAddress : Address;
  self : Address;
  Code : list Z;
  CodeHash : Word32;
  CodeAddr : option Address;
  Input : list Z;
  Gas : Z;
  value : Z;
}.

(** A caller is an account or a contract. *)
Inductive ContractRef :=
| AccountRef (a : Address)
| ContractCaller (c : Contract).

Definition ref_Address (r : ContractRef) : Address :=
  match r with AccountRef a => a | ContractCaller c => self c end.

Definition NewContract (caller : ContractRef) (object : Address) (v gas : Z) : Contract :=
  mkContract (ref_Address caller) object [] (replicate 32 0) None [] gas v.

(** [AsDelegate]: the caller must be a contract *)
Definition AsDelegate (caller : ContractRef) (c : Contract) : outcome evm_err Contract :=
  match caller with
  | ContractCaller parent =>
      Ok (mkContract (CallerAddress parent) (self c) (Code c) (CodeHash c) (CodeAddr c) (Input c) (Gas c)
            (value parent))
  | AccountRef _ => Panic
  end.

Definition SetCallCode (addr : Address) (hash : Word32) (code : list Z) (c : Contract) : Contract :=
  mkContract (CallerAddress c) (self c) code hash (Some addr) (Input c) (Gas c) (value c).

Definition set_Gas (g : Z) (c : Contract) : Contract :=
  mkContract (CallerAddress c) (self c) (Code c) (CodeHash c) (CodeAddr c) (Input c) g (value c).
Definition set_Input (i : list Z) (c : Contract) : Contract :=
  mkContract (CallerAddress c) (self c) (Code c) (CodeHash c) (CodeAddr c) i (Gas c) (value c).

Definition GetByte (c : Contract) (n : Z) : Z :=
  if n <? len (Code c) then default 0 (Code c !! Z.to_nat n) else 0.
(** [GetOp]: the entry of the jump table for the byte *)
Definition GetOp (c : Contract) (n : Z) : option OpCode := opcode_of (GetByte c n).

Definition UseGas (gas : Z) (c : Contract) : bool * Contract :=
  if Gas c <? gas then (false, c) else (true, set_Gas (uint64 (Gas c - gas)) c).

(** ** Facts about words *)

Lemma U256_mod x : U256 x = x mod tt256.
Proof. unfold U256, tt256. change (2 ^ 256 - 1) with (Z.ones 256). by rewrite Z.land_ones. Qed.

Definition word (x : Z) : Prop := 0 <= x < tt256.

Lemma U256_word x : word (U256 x).
Proof. rewrite U256_mod. by apply Z.mod_pos_bound. Qed.

Lemma U256_id x : word x → U256 x = x.
Proof. intros. rewrite U256_mod. by apply Z.mod_small. Qed.

Lemma BitLen_le x n : 0 <= x → 0 <= n → BitLen x <= n ↔ x < 2 ^ n.
Proof.
  intros Hx Hn. unfold BitLen. destruct (Z.eqb_spec x 0) as [->|].
  - split; [intros; apply Z.pow_pos_nonneg; lia|lia].
  - rewrite Z.abs_eq by done. rewrite (Z.log2_lt_pow2 x n) by lia. lia.
Qed.

Lemma length_be_bytes n x : length (be_bytes n x) = n.
Proof. unfold be_bytes. by rewrite length_reverse, length_le_bytes. Qed.

Lemma be_bytes_range n x : Forall is_byte (be_bytes n x).
Proof. apply Forall_reverse, le_bytes_range. Qed.

Lemma be_value_le bs : be_value bs = le_value (reverse bs).
Proof.
  unfold be_value. enough (∀ acc, fold_left (λ a b, 256 * a + b) bs acc = 256 ^ len bs * acc + le_value (reverse bs)) as H
    by (rewrite H; lia).
  induction bs as [|b bs IH]; intros acc; [by rewrite Z.mul_1_l, Z.add_0_r|].
  cbn [fold_left]. rewrite IH, reverse_cons, le_value_app, len_cons, Z.pow_add_r by (unfold len; lia).
  cbn [le_value]. unfold len at 3. rewrite length_reverse. fold (len bs). lia.
Qed.

Lemma SetBytes_range bs n : Forall is_byte bs → len bs <= n → 0 <= SetBytes bs < 256 ^ n.
Proof.
  intros Hb Hn. unfold SetBytes. rewrite be_value_le.
  pose proof (le_value_bound (reverse bs) ltac:(by apply Forall_reverse)) as H.
  unfold len in H. rewrite length_reverse in H. fold (len bs) in H.
  pose proof (Z.pow_le_mono_r 256 (len bs) n ltac:(lia) Hn). lia.
Qed.

Lemma SetBytes_word bs : Forall is_byte bs → len bs <= 32 → word (SetBytes bs).
Proof. intros. unfold word. change tt256 with (256 ^ 32). by apply SetBytes_range. Qed.

#[export] Hint Resolve U256_word : go.
