(* ===== verification/EvmAnalysis.v ===== *)
(** * The EVM: jump destinations ([protocol/vm/evm/analysis.go])

    [codeBitmap] marks the bytes of a code that are arguments of PUSH
    instructions in a vector of bits, eight at a time where it can.  A jump is
    allowed to a JUMPDEST byte that is not marked.  The reference is the
    sequential decoding of the code: an instruction starts at 0 and after every
    instruction. *)

From S2P Require Import Prelude EvmBase.
From stdpp Require Import gmap.
#[local] Open Scope Z_scope.
#[local] Set Default Goal Selector "!".

(** ** [bitvec] *)

Abbreviation bitvec := (list Z).

(** [bits[i] |= mask]; an index out of range is a panic *)
Definition or_at (bits : bitvec) (i mask : Z) : outcome unit bitvec :=
  match bits !! Z.to_nat i with
  | Some b => Ok (<[Z.to_nat i := uint8 (Z.lor b mask)]> bits)
  | None => Panic
  end.

Definition bits_set (bits : bitvec) (pos : Z) : outcome unit bitvec :=
  or_at bits (pos / 8) (Z.shiftr 0x80 (pos mod 8)).

Definition bits_set8 (bits : bitvec) (pos : Z) : outcome unit bitvec :=
  obind (or_at bits (pos / 8) (Z.shiftr 0xff (pos mod 8))) (λ bits,
  or_at bits (pos / 8 + 1) (uint8 (Z.lnot (Z.shiftr 0xff (pos mod 8))))).

Definition codeSegment (bits : bitvec) (pos : Z) : outcome unit bool :=
  match bits !! Z.to_nat (pos / 8) with
  | Some b => Ok (Z.land b (Z.shiftr 0x80 (pos mod 8)) =? 0)
  | None => Panic
  end.

(** [for ; numbits > 0; numbits--] *)
Fixpoint set_bits (bits : bitvec) (pc : Z) (numbits : nat) : outcome unit (bitvec * Z) :=
  match numbits with
  | O => Ok (bits, pc)
  | S n => obind (bits_set bits pc) (λ bits, set_bits bits (pc + 1) n)
  end.

(** [for ; numbits >= 8; numbits -= 8], then the loop over the rest *)
Fixpoint set_bytes (fuel : nat) (bits : bitvec) (pc : Z) (numbits : nat) : outcome unit (bitvec * Z) :=
  match fuel with
  | O => Fuel
  | S fuel =>
      if bool_decide (8 <= numbits)%nat
      then obind (bits_set8 bits pc) (λ bits, set_bytes fuel bits (pc + 8) (numbits - 8))
      else set_bits bits pc numbits
  end.

Definition PUSH1 : Z := 0x60.
Definition PUSH32 : Z := 0x7f.

(** The loop of [codeBitmap]; a PUSH has at most 32 bytes of data, so five
    rounds over whole bytes suffice *)
Fixpoint bitmap_loop (fuel : nat) (code : list Z) (bits : bitvec) (pc : Z) : outcome unit bitvec :=
  match fuel with
  | O => Fuel
  | S fuel =>
      if pc <? len code then
        match code !! Z.to_nat pc with
        | None => Panic
        | Some op =>
            if (PUSH1 <=? op) && (op <=? PUSH32) then
              obind (set_bytes 5 bits (pc + 1) (Z.to_nat (op - PUSH1 + 1))) (λ r,
              bitmap_loop fuel code r.1 r.2)
            else bitmap_loop fuel code bits (pc + 1)
        end
      else Ok bits
  end.

Definition codeBitmap (code : list Z) : outcome unit bitvec :=
  bitmap_loop (S (length code)) code (replicate (Z.to_nat (len code / 8 + 1 + 4)) 0) 0.

(** [destinations]: a map from code hashes to bit vectors *)
Abbreviation destinations := (gmap (list Z) bitvec).

Definition has (d : destinations) (codehash : list Z) (code : list Z) (dest : Z)
    : outcome unit (bool * destinations) :=
  let udest := Uint64_of dest in
  if (63 <=? BitLen dest) || (len code <=? udest) then Ok (false, d)
  else
    obind (match d !! codehash with
           | Some m => Ok (m, d)
           | None => obind (codeBitmap code) (λ m, Ok (m, <[codehash := m]> d))
           end) (λ r,
    match code !! Z.to_nat udest with
    | None => Panic
    | Some b =>
        if b =? 0x5b then obind (codeSegment r.1 udest) (λ s, Ok (s, r.2)) else Ok (false, r.2)
    end).

(** ** Reference: sequential decoding *)

(** The length of the instruction that starts with the byte *)
Definition inst_len (op : Z) : Z := if (PUSH1 <=? op) && (op <=? PUSH32) then op - PUSH1 + 2 else 1.

(** The positions at which instructions start *)
Inductive starts (code : list Z) : Z → Prop :=
| starts_0 : starts code 0
| starts_next pc op : starts code pc → code !! Z.to_nat pc = Some op → starts code (pc + inst_len op).

(** ** The bits of a vector *)

Definition bit (bits : bitvec) (pos : Z) : bool :=
  match bits !! Z.to_nat (pos / 8) with
  | Some b => Z.testbit b (7 - pos mod 8)
  | None => false
  end.

(** The masks, for every position in a byte *)
Definition mask_table (f : Z → Z) (g : Z → Z → bool) : bool :=
  forallb (λ m, forallb (λ r, Bool.eqb (Z.testbit (f m) (7 - r)) (g m r)) (seqZ 0 8)) (seqZ 0 8).

Lemma mask_table_spec f g m r : mask_table f g = true → 0 <= m < 8 → 0 <= r < 8 →
  Z.testbit (f m) (7 - r) = g m r.
Proof.
  unfold mask_table. rewrite forallb_forall. intros H Hm Hr.
  specialize (H m ltac:(apply list_elem_of_In, elem_of_seqZ; lia)).
  rewrite forallb_forall in H. specialize (H r ltac:(apply list_elem_of_In, elem_of_seqZ; lia)).
  by apply eqb_prop.
Qed.

Lemma mask_set m r : 0 <= m < 8 → 0 <= r < 8 → Z.testbit (Z.shiftr 0x80 m) (7 - r) = (r =? m).
Proof. apply (mask_table_spec (Z.shiftr 0x80) (λ m r, r =? m)). vm_compute. reflexivity. Qed.

Lemma mask_low m r : 0 <= m < 8 → 0 <= r < 8 → Z.testbit (Z.shiftr 0xff m) (7 - r) = (m <=? r).
Proof. apply (mask_table_spec (Z.shiftr 0xff) Z.leb). vm_compute. reflexivity. Qed.

Lemma mask_high m r : 0 <= m < 8 → 0 <= r < 8 →
  Z.testbit (uint8 (Z.lnot (Z.shiftr 0xff m))) (7 - r) = (r <? m).
Proof. apply (mask_table_spec (λ m, uint8 (Z.lnot (Z.shiftr 0xff m))) (λ m r, r <? m)). vm_compute. reflexivity. Qed.

Lemma mask_zero b m : 0 <= m < 8 → (Z.land b (Z.shiftr 0x80 m) =? 0) = negb (Z.testbit b (7 - m)).
Proof.
  intros Hm. assert (Z.shiftr 0x80 m = 2 ^ (7 - m)) as ->.
  { assert (m ∈ seqZ 0 8) as Hin by (apply elem_of_seqZ; lia). clear Hm.
    revert m Hin. apply Forall_forall. vm_compute. repeat constructor. }
  assert (Hb : ∀ i, Z.testbit (Z.land b (2 ^ (7 - m))) i = Z.testbit b i && (7 - m =? i)).
  { intros i. by rewrite Z.land_spec, Z.pow2_bits_eqb by lia. }
  destruct (Z.testbit b (7 - m)) eqn:E; simpl.
  - apply Z.eqb_neq. intros H0. specialize (Hb (7 - m)). by rewrite H0, E, Z.eqb_refl, Z.bits_0 in Hb.
  - apply Z.eqb_eq, Z.bits_inj. intros i. rewrite Hb, Z.bits_0.
    destruct (Z.eqb_spec (7 - m) i) as [<-|]; [by rewrite E|apply andb_false_r].
Qed.

Lemma or_at_bit bits i mask : 0 <= i < len bits →
  ∃ bits', or_at bits i mask = Ok bits' ∧ length bits' = length bits ∧
  ∀ pos, 0 <= pos → bit bits' pos = bit bits pos || ((pos / 8 =? i) && Z.testbit mask (7 - pos mod 8)).
Proof.
  intros Hi. unfold or_at. unfold len in Hi.
  destruct (lookup_lt_is_Some_2 bits (Z.to_nat i) ltac:(lia)) as [b Hb]. rewrite Hb.
  eexists. split; [done|]. split; [apply length_insert|]. intros pos Hpos. unfold bit.
  assert (0 <= pos / 8) by (apply Z.div_pos; lia).
  destruct (Z.eqb_spec (pos / 8) i) as [->|Hne].
  - rewrite list_lookup_insert_eq by lia. rewrite Hb. unfold uint8, wrapU.
    pose proof (Z.mod_pos_bound pos 8 ltac:(lia)). by rewrite Z.mod_pow2_bits_low, Z.lor_spec by lia.
  - rewrite list_lookup_insert_ne by lia. by rewrite orb_false_r.
Qed.

Lemma pos_eqb pos p : 0 <= pos → 0 <= p → ((pos / 8 =? p / 8) && (pos mod 8 =? p mod 8)) = (pos =? p).
Proof.
  intros. pose proof (Z.div_mod pos 8 ltac:(lia)). pose proof (Z.div_mod p 8 ltac:(lia)).
  destruct (Z.eqb_spec (pos / 8) (p / 8)), (Z.eqb_spec (pos mod 8) (p mod 8)), (Z.eqb_spec pos p);
    simpl; subst; done || lia.
Qed.

Lemma bits_set_bit bits p : 0 <= p < 8 * len bits →
  ∃ bits', bits_set bits p = Ok bits' ∧ length bits' = length bits ∧
  ∀ pos, 0 <= pos → bit bits' pos = bit bits pos || (pos =? p).
Proof.
  intros Hp. unfold bits_set. destruct (or_at_bit bits (p / 8) (Z.shiftr 0x80 (p mod 8))) as (b & -> & Hl & Hb).
  { split; [apply Z.div_pos; lia|apply Z.div_lt_upper_bound; lia]. }
  exists b. split; [done|]. split; [done|]. intros pos Hpos. rewrite Hb by done.
  pose proof (Z.mod_pos_bound pos 8 ltac:(lia)). pose proof (Z.mod_pos_bound p 8 ltac:(lia)).
  by rewrite mask_set, pos_eqb by lia.
Qed.

Lemma bits_set8_bit bits p : 0 <= p → p / 8 + 1 < len bits →
  ∃ bits', bits_set8 bits p = Ok bits' ∧ length bits' = length bits ∧
  ∀ pos, 0 <= pos → bit bits' pos = bit bits pos || ((p <=? pos) && (pos <? p + 8)).
Proof.
  intros Hp Hlen. unfold bits_set8. assert (0 <= p / 8) by (apply Z.div_pos; lia).
  destruct (or_at_bit bits (p / 8) (Z.shiftr 0xff (p mod 8))) as (b1 & -> & Hl1 & Hb1); [lia|]. simpl.
  destruct (or_at_bit b1 (p / 8 + 1) (uint8 (Z.lnot (Z.shiftr 0xff (p mod 8))))) as (b2 & -> & Hl2 & Hb2).
  { unfold len in *. lia. }
  exists b2. split; [done|]. split; [congruence|]. intros pos Hpos. rewrite Hb2, Hb1 by done.
  pose proof (Z.mod_pos_bound pos 8 ltac:(lia)). pose proof (Z.mod_pos_bound p 8 ltac:(lia)).
  rewrite mask_low, mask_high by lia. pose proof (Z.div_mod pos 8 ltac:(lia)). pose proof (Z.div_mod p 8 ltac:(lia)).
  rewrite <- orb_assoc. f_equal.
  destruct (Z.eqb_spec (pos / 8) (p / 8)), (Z.eqb_spec (pos / 8) (p / 8 + 1)), (Z.leb_spec (p mod 8) (pos mod 8)),
    (Z.ltb_spec (pos mod 8) (p mod 8)), (Z.leb_spec p pos), (Z.ltb_spec pos (p + 8)); simpl; try done; lia.
Qed.

(** ** Marking the data of a PUSH *)

Definition marks (bits bits' : bitvec) (lo hi : Z) : Prop :=
  length bits' = length bits ∧
  ∀ pos, 0 <= pos → bit bits' pos = bit bits pos || ((lo <=? pos) && (pos <? hi)).

Lemma marks_trans b1 b2 b3 lo mid hi : lo <= mid <= hi → marks b1 b2 lo mid → marks b2 b3 mid hi → marks b1 b3 lo hi.
Proof.
  intros Hm [Hl1 H1] [Hl2 H2]. split; [congruence|]. intros pos Hpos. rewrite H2, H1 by done.
  rewrite <- orb_assoc. f_equal. zcases; simpl; done || lia.
Qed.

Lemma set_bits_marks n : ∀ bits pc, 0 <= pc → pc + Z.of_nat n <= 8 * len bits →
  ∃ bits', set_bits bits pc n = Ok (bits', pc + Z.of_nat n) ∧ marks bits bits' pc (pc + Z.of_nat n).
Proof.
  induction n as [|n IH]; intros bits pc Hpc Hn; simpl.
  - exists bits. rewrite Z.add_0_r. split; [done|]. split; [done|]. intros pos Hpos.
    zcases; simpl; rewrite ?orb_false_r; done || lia.
  - destruct (bits_set_bit bits pc) as (b & -> & Hl & Hb); [lia|]. simpl.
    destruct (IH b (pc + 1)) as (b' & -> & Hm); [lia|unfold len in *; lia|].
    exists b'. replace (pc + 1 + Z.of_nat n) with (pc + Z.of_nat (S n)) in * by lia. split; [done|].
    apply (marks_trans _ b _ _ (pc + 1)); [lia| |done].
    split; [done|]. intros pos Hpos. rewrite Hb by done. f_equal. zcases; simpl; done || lia.
Qed.

Lemma set_bytes_marks fuel : ∀ bits pc n, 0 <= pc → (n < 8 * fuel)%nat → pc + Z.of_nat n < 8 * len bits →
  ∃ bits', set_bytes fuel bits pc n = Ok (bits', pc + Z.of_nat n) ∧ marks bits bits' pc (pc + Z.of_nat n).
Proof.
  induction fuel as [|fuel IH]; intros bits pc n Hpc Hf Hn; [lia|]. cbn [set_bytes].
  case_bool_decide as H8.
  - destruct (bits_set8_bit bits pc) as (b & -> & Hl & Hb); [lia| |].
    { pose proof (Z.div_mod pc 8 ltac:(lia)). pose proof (Z.mod_pos_bound pc 8 ltac:(lia)). lia. }
    cbn [obind]. destruct (IH b (pc + 8) (n - 8)%nat) as (b' & -> & Hm); [lia|lia|unfold len in *; lia|].
    exists b'. replace (pc + 8 + Z.of_nat (n - 8)) with (pc + Z.of_nat n) in * by lia. split; [done|].
    apply (marks_trans _ b _ _ (pc + 8)); [lia| |done]. by split.
  - apply set_bits_marks; lia.
Qed.

(** ** Instructions do not overlap *)

Lemma inst_len_pos op : 1 <= inst_len op <= 33.
Proof. unfold inst_len, PUSH1, PUSH32. zcases; simpl; lia. Qed.

Lemma starts_nonneg code pc : starts code pc → 0 <= pc.
Proof. induction 1; [done|]. pose proof (inst_len_pos op). lia. Qed.

Lemma starts_apart code a b op : starts code a → starts code b → a < b → code !! Z.to_nat a = Some op →
  a + inst_len op <= b.
Proof.
  assert (∀ n : nat, ∀ a b op, a + b <= Z.of_nat n → starts code a → starts code b → a < b →
            code !! Z.to_nat a = Some op → a + inst_len op <= b) as H.
  { induction n as [|n IH]; intros a' b' op' Hn Ha Hb Hlt Hop;
      pose proof (starts_nonneg _ _ Ha); pose proof (starts_nonneg _ _ Hb); [lia|].
    inversion Hb as [|pc op2 Hpc Hop2]; subst; [lia|].
    pose proof (inst_len_pos op2). pose proof (starts_nonneg _ _ Hpc).
    destruct (Z.lt_trichotomy a' pc) as [Hl|[->|Hg]].
    - pose proof (IH a' pc op' ltac:(lia) Ha Hpc Hl Hop). lia.
    - by simplify_eq.
    - pose proof (IH pc a' op2 ltac:(lia) Hpc Ha Hg Hop2). lia. }
  intros. apply (H (Z.to_nat (a + b))); try done.
  pose proof (starts_nonneg code a). pose proof (starts_nonneg code b). naive_solver lia.
Qed.

(** ** The loop *)

(** Up to [pc], which is a start, exactly the positions that are not starts
    are marked; nothing is marked from there on. *)
Definition scanned (code : list Z) (bits : bitvec) (pc : Z) : Prop :=
  starts code pc ∧ len bits = len code / 8 + 5 ∧
  ∀ pos, 0 <= pos → if bit bits pos then pos < pc ∧ ¬ starts code pos else pos < pc → starts code pos.

Lemma scanned_step code bits pc op bits' : scanned code bits pc → code !! Z.to_nat pc = Some op →
  marks bits bits' (pc + 1) (pc + inst_len op) → scanned code bits' (pc + inst_len op).
Proof.
  intros (Hs & Hl & Hb) Hop [Hl' Hm]. pose proof (inst_len_pos op). pose proof (starts_nonneg _ _ Hs).
  split; [by apply starts_next|]. split; [unfold len in *; lia|]. intros pos Hpos. rewrite Hm by done.
  specialize (Hb pos Hpos). destruct (bit bits pos); simpl.
  { split; [lia|naive_solver]. }
  destruct (Z.leb_spec (pc + 1) pos) as [Hlo|Hlo]; simpl.
  - destruct (Z.ltb_spec pos (pc + inst_len op)); [|lia]. split; [done|]. intros Hst.
    pose proof (starts_apart code pc pos op Hs Hst ltac:(lia) Hop). lia.
  - intros _. destruct (decide (pos = pc)) as [->|]; [done|]. apply Hb. lia.
Qed.

Lemma marks_none bits lo : marks bits bits lo lo.
Proof. split; [done|]. intros pos _. zcases; simpl; rewrite ?orb_false_r; done || lia. Qed.

Lemma bitmap_loop_spec code fuel : ∀ bits pc, scanned code bits pc → Z.max 0 (len code - pc) < Z.of_nat fuel →
  ∃ bits', bitmap_loop fuel code bits pc = Ok bits' ∧ ∃ pc', len code <= pc' ∧ scanned code bits' pc'.
Proof.
  induction fuel as [|fuel IH]; intros bits pc Hsc Hf; pose proof Hsc as (Hs & Hl & Hb);
    pose proof (starts_nonneg _ _ Hs) as Hpc.
  { lia. }
  cbn [bitmap_loop]. destruct (Z.ltb_spec pc (len code)) as [Hlt|Hge]; [|by eauto].
  unfold len in Hlt. destruct (lookup_lt_is_Some_2 code (Z.to_nat pc) ltac:(lia)) as [op Hop]. rewrite Hop.
  assert (Hstep : ∀ bits', marks bits bits' (pc + 1) (pc + inst_len op) →
    ∃ bits'', bitmap_loop fuel code bits' (pc + inst_len op) = Ok bits''
              ∧ ∃ pc', len code <= pc' ∧ scanned code bits'' pc').
  { intros bits' Hm. apply IH; [by apply (scanned_step _ bits)|]. pose proof (inst_len_pos op). unfold len in *. lia. }
  unfold inst_len in Hstep. destruct (_ && _) eqn:E.
  - apply andb_true_iff in E as [E1%Z.leb_le E2%Z.leb_le]. unfold PUSH1, PUSH32 in *.
    destruct (set_bytes_marks 5 bits (pc + 1) (Z.to_nat (op - 0x60 + 1))) as (b' & -> & Hm); [lia|lia| |].
    { pose proof (Z.div_mod (len code) 8 ltac:(lia)). pose proof (Z.mod_pos_bound (len code) 8 ltac:(lia)). unfold len in *. lia. }
    simpl. rewrite Z2Nat.id in * by lia.
    replace (pc + 1 + (op - 96 + 1)) with (pc + (op - 96 + 2)) in * by lia. by apply Hstep.
  - apply Hstep, marks_none.
Qed.

Lemma codeBitmap_spec code :
  ∃ bits, codeBitmap code = Ok bits ∧ ∀ pos, 0 <= pos < len code →
    ∃ b, codeSegment bits pos = Ok b ∧ (b = true ↔ starts code pos).
Proof.
  unfold codeBitmap. pose proof (len_nonneg code) as Hn. pose proof (Z.div_pos (len code) 8 Hn ltac:(lia)).
  destruct (bitmap_loop_spec code (S (length code)) (replicate (Z.to_nat (len code / 8 + 1 + 4)) 0) 0)
    as (bits & -> & pc & Hpc & Hs & Hl & Hb).
  { split; [constructor|]. split; [unfold len at 1; rewrite length_replicate; lia|]. intros pos Hpos. unfold bit.
    destruct (_ !! _) as [b|] eqn:E; [|lia].
    apply lookup_replicate in E as [-> _]. rewrite Z.bits_0. lia. }
  { unfold len. lia. }
  exists bits. split; [done|]. intros pos Hpos. exists (negb (bit bits pos)). split.
  - unfold codeSegment, bit.
    destruct (lookup_lt_is_Some_2 bits (Z.to_nat (pos / 8))) as [b Hbb].
    { pose proof (Z.div_le_mono pos (len code) 8 ltac:(lia) ltac:(lia)). pose proof (Z.div_pos pos 8). unfold len in *. lia. }
    rewrite Hbb, mask_zero; [done|]. apply Z.mod_pos_bound. lia.
  - specialize (Hb pos ltac:(lia)). destruct (bit bits pos); simpl; [naive_solver|].
    split; [intros _; apply Hb; lia|done].
Qed.

(** ** Jump destinations *)

Section destinations.
Context (K : list Z → list Z).

(** Every cached vector is the bitmap of a code with that hash. *)
Definition dests_ok (d : destinations) : Prop :=
  ∀ h m, d !! h = Some m → ∃ c, K c = h ∧ codeBitmap c = Ok m.

Lemma dests_ok_empty : dests_ok ∅.
Proof. intros h m H. by rewrite lookup_empty in H. Qed.

(** What [has] decides: the destination is a JUMPDEST at the start of an
    instruction. *)
Definition is_jumpdest (code : list Z) (dest : Z) : Prop :=
  starts code dest ∧ code !! Z.to_nat dest = Some 0x5b.

Lemma has_far (code : list Z) dest : 0 <= dest → len code < 2 ^ 62 →
  (63 <=? BitLen dest) || (len code <=? Uint64_of dest) = false → Uint64_of dest = dest ∧ dest < len code.
Proof.
  intros Hd Hl [H1%Z.leb_gt H2%Z.leb_gt]%orb_false_iff.
  pose proof (proj1 (BitLen_le dest 62 Hd ltac:(lia)) ltac:(lia)).
  unfold Uint64_of in *. rewrite uint64_id in * by (ranges; lia). done.
Qed.

(** [has] keeps its cache, and panics only on a bitmap of another code with the
    same hash. *)
Lemma has_safe d code dest : dests_ok d → 0 <= dest → len code < 2 ^ 62 →
  match has d (K code) code dest with
  | Ok (_, d') => dests_ok d'
  | Panic => ∃ c bits, d !! K code = Some bits ∧ codeBitmap c = Ok bits ∧ c ≠ code ∧ K c = K code
  | _ => False
  end.
Proof.
  intros Hd Hdest Hl. unfold has. destruct (_ || _) eqn:Efar; [done|].
  destruct (has_far code dest Hdest Hl Efar) as [-> Hlt]. unfold len in Hlt.
  destruct (lookup_lt_is_Some_2 code (Z.to_nat dest) ltac:(lia)) as [b Hb].
  destruct (codeBitmap_spec code) as (bits & Hbits & Hseg).
  destruct (Hseg dest ltac:(unfold len; lia)) as (s & Hcs & _).
  destruct (d !! K code) as [m|] eqn:Ec; [|rewrite Hbits]; cbn [obind fst snd]; rewrite Hb.
  - destruct (b =? 0x5b); [|done]. destruct (Hd _ _ Ec) as (c & HK & Hc).
    destruct (decide (c = code)) as [->|Hne].
    + rewrite Hbits in Hc. injection Hc as ->. by rewrite Hcs.
    + unfold codeSegment. destruct (m !! _); cbn [obind]; [done|by eauto 8].
  - assert (dests_ok (<[K code:=bits]> d)) as Hd'.
    { intros h m [[<- <-]|[_ Hm]]%lookup_insert_Some; [by eauto|by apply Hd]. }
    destruct (b =? 0x5b); [|done]. by rewrite Hcs.
Qed.

End destinations.

(** C18: jumps land on JUMPDEST instructions, never on the data of a PUSH: [has]
    answers exactly this and adds at most the bitmap of the code to its cache,
    when what the cache holds for the code is its bitmap. *)
Theorem jump_destinations_exact (d : destinations) h code dest :
  (∀ m, d !! h = Some m → codeBitmap code = Ok m) → 0 <= dest → len code < 2 ^ 62 →
  ∃ b d', has d h code dest = Ok (b, d') ∧ (b = true ↔ is_jumpdest code dest)
          ∧ (d' = d ∨ ∃ m, codeBitmap code = Ok m ∧ d' = <[h := m]> d).
Proof.
  intros Hd Hdest Hl. unfold has. destruct (_ || _) eqn:Efar.
  { exists false, d. split; [done|]. split; [|by left]. split; [done|]. intros [_ Hj].
    apply lookup_lt_Some in Hj. apply orb_true_iff in Efar as [E%Z.leb_le|E%Z.leb_le].
    - pose proof (proj2 (BitLen_le dest 62 Hdest ltac:(lia))). unfold len in Hl. lia.
    - unfold Uint64_of in E. rewrite uint64_id in E by (unfold len in Hl; ranges; lia). unfold len in E. lia. }
  destruct (has_far code dest Hdest Hl Efar) as [-> Hlt].
  destruct (codeBitmap_spec code) as (bits & Hbits & Hseg). destruct (Hseg dest ltac:(lia)) as (s & Hcs & Hst).
  assert (Hans : ∀ d' : destinations, ∃ b,
    match code !! Z.to_nat dest with
    | Some b => if b =? 0x5b then obind (codeSegment bits dest) (λ s, Ok (s, d')) else Ok (false, d')
    | None => Panic
    end = Ok (b, d') ∧ (b = true ↔ is_jumpdest code dest)).
  { intros d'. unfold is_jumpdest. unfold len in Hlt.
    destruct (lookup_lt_is_Some_2 code (Z.to_nat dest) ltac:(lia)) as [b Hb]. rewrite Hb.
    destruct (Z.eqb_spec b 0x5b) as [->|Hne]; [|by exists false; naive_solver].
    rewrite Hcs. simpl. exists s. naive_solver. }
  destruct (d !! h) as [m|] eqn:Ec; simpl.
  - specialize (Hd m eq_refl). rewrite Hbits in Hd. injection Hd as ->. destruct (Hans d) as (b & -> & Hb). eauto 8.
  - rewrite Hbits. simpl. destruct (Hans (<[h := bits]> d)) as (b & -> & Hb). eauto 10.
Qed.

(** A PUSH1 with the byte 0x5b, then a JUMPDEST at 2 *)
Lemma jump_destinations_exact_witness :
  ∃ b d', has ∅ [9] [0x60; 0x5b; 0x5b] 2 = Ok (b, d') ∧ (b = true ↔ is_jumpdest [0x60; 0x5b; 0x5b] 2)
          ∧ (d' = ∅ ∨ ∃ m, codeBitmap [0x60; 0x5b; 0x5b] = Ok m ∧ d' = <[[9] := m]> ∅).
Proof. apply jump_destinations_exact; [intros m H; by rewrite lookup_empty in H|lia|done]. Defined.
