(* ===== verification/EvmInstr.v ===== *)
(** * The EVM: instructions ([protocol/vm/evm/instructions.go])

    The instructions that do not call other contracts.  A frame is the program
    counter, the contract, the memory and the stack of one execution; it runs
    over the state of the EVM that all frames share.  An instruction returns
    bytes ([None] for nil) or an error. *)

From S2P Require Import Prelude Checked EvmBase EvmAnalysis.
#[local] Open Scope Z_scope.

(** [evm.Context], and the configuration *)
Record EvmContext := mkEvmContext {
  Origin : Address;
  GasPrice : Z;
  Coinbase : Address;
  GasLimit : Z;
  BlockNumber : Z;
  Time : Z;
  Difficulty : Z;
  GetHash : Z → Word32;
  NoRecursion : bool;
}.

Section machine.
Context `{H : EvmHost}.

(** What the frames share: the fields of [EVM] and [EVMInterpreter] that
    change, and the jump destinations, which a contract takes from its parent.
    [panicked] is not a field of the code: it is the innermost frame in the
    trace of a panic, and nothing reads it. *)
Record EVM := mkEVM {
  StateDB : DB;
  depth : Z;
  callGasTemp : Z;
  readOnly : bool;
  returnData : list Z;
  jumpdests : destinations;
  panicked : option Contract;
}.

Definition set_db (d : DB) (e : EVM) : EVM :=
  mkEVM d (depth e) (callGasTemp e) (readOnly e) (returnData e) (jumpdests e) (panicked e).
Definition set_depth (n : Z) (e : EVM) : EVM :=
  mkEVM (StateDB e) n (callGasTemp e) (readOnly e) (returnData e) (jumpdests e) (panicked e).
Definition set_callGasTemp (g : Z) (e : EVM) : EVM :=
  mkEVM (StateDB e) (depth e) g (readOnly e) (returnData e) (jumpdests e) (panicked e).
Definition set_readOnly (b : bool) (e : EVM) : EVM :=
  mkEVM (StateDB e) (depth e) (callGasTemp e) b (returnData e) (jumpdests e) (panicked e).
Definition set_returnData (bs : list Z) (e : EVM) : EVM :=
  mkEVM (StateDB e) (depth e) (callGasTemp e) (readOnly e) bs (jumpdests e) (panicked e).
Definition set_jumpdests (d : destinations) (e : EVM) : EVM :=
  mkEVM (StateDB e) (depth e) (callGasTemp e) (readOnly e) (returnData e) d (panicked e).
Definition blame (c : Contract) (e : EVM) : EVM :=
  mkEVM (StateDB e) (depth e) (callGasTemp e) (readOnly e) (returnData e) (jumpdests e)
    (Some (default c (panicked e))).

Record Frame := mkFrame {
  pc : Z;
  contract : Contract;
  memory : Memory;
  stack : list Z;
  evm : EVM;
}.

Definition with_pc (x : Z) (f : Frame) : Frame := mkFrame x (contract f) (memory f) (stack f) (evm f).
Definition with_contract (x : Contract) (f : Frame) : Frame := mkFrame (pc f) x (memory f) (stack f) (evm f).
Definition with_memory (x : Memory) (f : Frame) : Frame := mkFrame (pc f) (contract f) x (stack f) (evm f).
Definition with_stack (x : list Z) (f : Frame) : Frame := mkFrame (pc f) (contract f) (memory f) x (evm f).
Definition with_evm (x : EVM) (f : Frame) : Frame := mkFrame (pc f) (contract f) (memory f) (stack f) x.

(** ** The monad of instructions *)

Definition X (A : Type) : Type := Frame → outcome evm_err A * Frame.
Definition xret {A} (a : A) : X A := λ f, (Ok a, f).
Definition xthrow {A} (e : evm_err) : X A := λ f, (Err e, f).
Definition xbind {A B} (m : X A) (k : A → X B) : X B := λ f,
  match m f with
  | (Ok a, f') => k a f'
  | (Err e, f') => (Err e, f')
  | (Panic, f') => (Panic, f')
  | (Fuel, f') => (Fuel, f')
  end.
Definition xlift {A} (o : outcome evm_err A) : X A := λ f, (o, f).
Definition xgets {A} (g : Frame → A) : X A := λ f, (Ok (g f), f).
Definition xmodify (g : Frame → Frame) : X unit := λ f, (Ok tt, g f).
Definition xdb (g : DB → DB) : X unit := xmodify (λ f, with_evm (set_db (g (StateDB (evm f))) (evm f)) f).
Definition db_of (f : Frame) : DB := StateDB (evm f).

End machine.

Declare Scope evm_scope.
Delimit Scope evm_scope with evm.
Notation "x <- m ;; k" := (xbind m (λ x, k))
  (at level 100, m at next level, right associativity) : evm_scope.
Notation "m ;; k" := (xbind m (λ _, k))
  (at level 100, right associativity) : evm_scope.

Section instructions.
Context `{H : EvmHost} (ctx : EvmContext).
Local Open Scope evm_scope.

(** ** The stack ([stack.go]) *)

Definition pop : X Z := λ f,
  match stack f with
  | x :: r => (Ok x, with_stack r f)
  | [] => (Panic, f)
  end.
Definition push (x : Z) : X unit := xmodify (λ f, with_stack (x :: stack f) f).
Definition Back (n : nat) : X Z := λ f,
  match stack f !! n with
  | Some x => (Ok x, f)
  | None => (Panic, f)
  end.
Definition peek : X Z := Back 0.
(** An assignment to the integer at the top *)
Definition poke (x : Z) : X unit := pop ;; push x.
Definition swap (n : nat) : X unit := λ f,
  match stack f !! (n - 1)%nat, stack f !! 0%nat with
  | Some x, Some y => (Ok tt, with_stack (<[0%nat := x]> (<[(n - 1)%nat := y]> (stack f))) f)
  | _, _ => (Panic, f)
  end.
Definition dup (n : nat) : X unit := x <- Back (n - 1) ;; push x.

Definition bool_word (b : bool) : Z := if b then 1 else 0.

(** Memory operations on the frame *)
Definition on_memory (g : Memory → outcome evm_err Memory) : X unit :=
  m <- xgets memory ;; m' <- xlift (g m) ;; xmodify (with_memory m').
Definition memory_Get (offset size : Z) : X (option (list Z)) :=
  m <- xgets memory ;; xlift (mem_Get m offset size).

Abbreviation bytes := (option (list Z)).
Definition done : X bytes := xret None.

(** ** Arithmetic *)

Definition opAdd : X bytes := x <- pop ;; y <- peek ;; poke (U256 (x + y)) ;; done.
Definition opSub : X bytes := x <- pop ;; y <- peek ;; poke (U256 (x - y)) ;; done.
Definition opMul : X bytes := x <- pop ;; y <- pop ;; push (U256 (x * y)) ;; done.
(** big.Int's [Div] and [Mod] are Euclidean; the divisors here are positive. *)
Definition opDiv : X bytes :=
  x <- pop ;; y <- peek ;; poke (if negb (y =? 0) then U256 (x / y) else 0) ;; done.
Definition opSdiv : X bytes :=
  x0 <- pop ;; y0 <- pop ;;
  let x := S256 x0 in let y := S256 y0 in
  (if (y =? 0) || (x =? 0) then push 0
   else push (U256 (if negb (Z.sgn x =? Z.sgn y) then - (Z.abs x / Z.abs y) else Z.abs x / Z.abs y))) ;; done.
Definition opMod : X bytes :=
  x <- pop ;; y <- pop ;; push (if y =? 0 then 0 else U256 (x mod y)) ;; done.
Definition opSmod : X bytes :=
  x0 <- pop ;; y0 <- pop ;;
  let x := S256 x0 in let y := S256 y0 in
  (if y =? 0 then push 0
   else push (U256 (if x <? 0 then - (Z.abs x mod Z.abs y) else Z.abs x mod Z.abs y))) ;; done.
Definition opExp : X bytes := base <- pop ;; exponent <- pop ;; push (math_Exp base exponent) ;; done.

Definition opSignExtend : X bytes :=
  back <- pop ;;
  (if back <? 31 then
     let b := Uint64_of back * 8 + 7 in
     num <- pop ;;
     let mask := Z.shiftl 1 b - 1 in
     push (U256 (if Z.testbit num b then Z.lor num (Z.lnot mask) else Z.land num mask))
   else xret tt) ;; done.

Definition opAddmod : X bytes :=
  x <- pop ;; y <- pop ;; z <- pop ;; push (if 0 <? z then U256 ((x + y) mod z) else 0) ;; done.
Definition opMulmod : X bytes :=
  x <- pop ;; y <- pop ;; z <- pop ;; push (if 0 <? z then U256 ((x * y) mod z) else 0) ;; done.

(** ** Comparison and bits *)

Definition opNot : X bytes := x <- peek ;; poke (U256 (Z.lnot x)) ;; done.
Definition opLt : X bytes := x <- pop ;; y <- peek ;; poke (bool_word (x <? y)) ;; done.
Definition opGt : X bytes := x <- pop ;; y <- peek ;; poke (bool_word (y <? x)) ;; done.
Definition opSlt : X bytes :=
  x <- pop ;; y <- peek ;;
  poke (if (tt255 <=? x) && (y <? tt255) then 1
        else if (x <? tt255) && (tt255 <=? y) then 0
        else bool_word (x <? y)) ;; done.
Definition opSgt : X bytes :=
  x <- pop ;; y <- peek ;;
  poke (if (tt255 <=? x) && (y <? tt255) then 0
        else if (x <? tt255) && (tt255 <=? y) then 1
        else bool_word (y <? x)) ;; done.
Definition opEq : X bytes := x <- pop ;; y <- peek ;; poke (bool_word (x =? y)) ;; done.
Definition opIszero : X bytes := x <- peek ;; poke (if 0 <? x then 0 else 1) ;; done.
Definition opAnd : X bytes := x <- pop ;; y <- pop ;; push (Z.land x y) ;; done.
Definition opOr : X bytes := x <- pop ;; y <- peek ;; poke (Z.lor x y) ;; done.
Definition opXor : X bytes := x <- pop ;; y <- peek ;; poke (Z.lxor x y) ;; done.
Definition opByte : X bytes :=
  th <- pop ;; val <- peek ;; poke (if th <? 32 then math_Byte val (Int64_of th) else 0) ;; done.
Definition opSHL : X bytes :=
  shift0 <- pop ;; value0 <- peek ;;
  let shift := U256 shift0 in let value := U256 value0 in
  poke (if 256 <=? shift then 0 else U256 (Z.shiftl value (Uint64_of shift))) ;; done.
Definition opSHR : X bytes :=
  shift0 <- pop ;; value0 <- peek ;;
  let shift := U256 shift0 in let value := U256 value0 in
  poke (if 256 <=? shift then 0 else U256 (Z.shiftr value (Uint64_of shift))) ;; done.
Definition opSAR : X bytes :=
  shift0 <- pop ;; value0 <- pop ;;
  let shift := U256 shift0 in let value := S256 value0 in
  (if 256 <=? shift then push (U256 (if 0 <? value then 0 else -1))
   else push (U256 (Z.shiftr value (Uint64_of shift)))) ;; done.

Definition opSha3 : X bytes :=
  offset <- pop ;; size <- pop ;;
  d <- memory_Get (Int64_of offset) (Int64_of size) ;;
  push (SetBytes (Keccak256 (default [] d))) ;; done.

(** ** The environment of a contract *)

Definition opAddress : X bytes := a <- xgets (λ f, self (contract f)) ;; push (SetBytes a) ;; done.
Definition opBalance : X bytes :=
  slot <- peek ;; b <- xgets (λ f, GetBalance (db_of f) (BigToAddress slot)) ;; poke b ;; done.
Definition opOrigin : X bytes := push (SetBytes (Origin ctx)) ;; done.
Definition opCaller : X bytes := a <- xgets (λ f, CallerAddress (contract f)) ;; push (SetBytes a) ;; done.
Definition opCallValue : X bytes := v <- xgets (λ f, value (contract f)) ;; push v ;; done.
Definition opCallDataLoad : X bytes :=
  x <- pop ;; i <- xgets (λ f, Input (contract f)) ;;
  d <- xlift (getDataBig i x 32) ;; push (SetBytes d) ;; done.
Definition opCallDataSize : X bytes := i <- xgets (λ f, Input (contract f)) ;; push (int64 (len i)) ;; done.

(** [memory.Set(memOffset.Uint64(), length.Uint64(), getDataBig(d, dataOffset, length))] *)
Definition copy_data (d : list Z) (memOffset dataOffset length : Z) : X bytes :=
  v <- xlift (getDataBig d dataOffset length) ;;
  on_memory (λ m, mem_Set m (Uint64_of memOffset) (Uint64_of length) v) ;; done.

Definition opCallDataCopy : X bytes :=
  memOffset <- pop ;; dataOffset <- pop ;; length <- pop ;;
  i <- xgets (λ f, Input (contract f)) ;; copy_data i memOffset dataOffset length.
Definition opReturnDataSize : X bytes := r <- xgets (λ f, returnData (evm f)) ;; push (uint64 (len r)) ;; done.
Definition opReturnDataCopy : X bytes :=
  memOffset <- pop ;; dataOffset <- pop ;; length <- pop ;;
  r <- xgets (λ f, returnData (evm f)) ;;
  let e := dataOffset + length in
  if (64 <? BitLen e) || (len r <? Uint64_of e) then xthrow errReturnDataOutOfBounds
  else
    v <- xlift (subslice r (Uint64_of dataOffset) (Uint64_of e)) ;;
    on_memory (λ m, mem_Set m (Uint64_of memOffset) (Uint64_of length) v) ;; done.
Definition opExtCodeSize : X bytes :=
  slot <- peek ;; n <- xgets (λ f, GetCodeSize (db_of f) (BigToAddress slot)) ;; poke (uint64 n) ;; done.
Definition opCodeSize : X bytes := c <- xgets (λ f, Code (contract f)) ;; push (int64 (len c)) ;; done.
Definition opCodeCopy : X bytes :=
  memOffset <- pop ;; codeOffset <- pop ;; length <- pop ;;
  c <- xgets (λ f, Code (contract f)) ;; copy_data c memOffset codeOffset length.
Definition opExtCodeCopy : X bytes :=
  a <- pop ;; memOffset <- pop ;; codeOffset <- pop ;; length <- pop ;;
  c <- xgets (λ f, GetCode (db_of f) (BigToAddress a)) ;; copy_data c memOffset codeOffset length.
Definition opExtCodeHash : X bytes :=
  slot <- peek ;; h <- xgets (λ f, GetCodeHash (db_of f) (BigToAddress slot)) ;; poke (SetBytes h) ;; done.
Definition opGasprice : X bytes := push (GasPrice ctx) ;; done.
Definition opBlockhash : X bytes :=
  num <- pop ;;
  (if (BlockNumber ctx - 257 <? num) && (num <? BlockNumber ctx)
   then push (SetBytes (GetHash ctx (Uint64_of num))) else push 0) ;; done.
Definition opCoinbase : X bytes := push (SetBytes (Coinbase ctx)) ;; done.
Definition opTimestamp : X bytes := push (U256 (Time ctx)) ;; done.
Definition opNumber : X bytes := push (U256 (BlockNumber ctx)) ;; done.
Definition opDifficulty : X bytes := push (U256 (Difficulty ctx)) ;; done.
Definition opGasLimit : X bytes := push (U256 (GasLimit ctx)) ;; done.

(** ** Memory, storage, control *)

Definition opPop : X bytes := pop ;; done.
Definition opMload : X bytes :=
  offset <- pop ;; d <- memory_Get (Int64_of offset) 32 ;; push (SetBytes (default [] d)) ;; done.
Definition opMstore : X bytes :=
  mStart <- pop ;; val <- pop ;; on_memory (λ m, mem_Set32 m (Uint64_of mStart) val) ;; done.
Definition opMstore8 : X bytes :=
  off <- pop ;; val <- pop ;;
  on_memory (λ m, mem_store_byte m (Int64_of off) (Z.land (Int64_of val) 0xff)) ;; done.
Definition opSload : X bytes :=
  loc <- peek ;; v <- xgets (λ f, GetState (db_of f) (self (contract f)) (BigToHash loc)) ;;
  poke (SetBytes v) ;; done.
Definition opSstore : X bytes :=
  loc <- pop ;; val <- pop ;; a <- xgets (λ f, self (contract f)) ;;
  xdb (λ d, SetState d a (BigToHash loc) (BigToHash val)) ;; done.

(** [contract.jumpdests.has(contract.CodeHash, contract.Code, pos)] *)
Definition jumpdest_has (pos : Z) : X bool := λ f,
  match has (jumpdests (evm f)) (CodeHash (contract f)) (Code (contract f)) pos with
  | Ok (b, d) => (Ok b, with_evm (set_jumpdests d (evm f)) f)
  | Err _ => (Panic, f)
  | Panic => (Panic, f)
  | Fuel => (Fuel, f)
  end.
Definition jump_to (pos : Z) : X unit :=
  ok <- jumpdest_has pos ;;
  if negb ok then xthrow ErrInvalidJump else xmodify (with_pc (Uint64_of pos)).
Definition opJump : X bytes := pos <- pop ;; jump_to pos ;; done.
Definition opJumpi : X bytes :=
  pos <- pop ;; cond <- pop ;;
  (if negb (cond =? 0) then jump_to pos else xmodify (λ f, with_pc (uint64 (pc f + 1)) f)) ;; done.
Definition opJumpdest : X bytes := done.
Definition opPc : X bytes := p <- xgets pc ;; push p ;; done.
Definition opMsize : X bytes := m <- xgets memory ;; push (int64 (len (store m))) ;; done.
Definition opGas : X bytes := c <- xgets contract ;; push (Gas c) ;; done.
Definition opReturn : X bytes :=
  offset <- pop ;; size <- pop ;; memory_Get (Int64_of offset) (Int64_of size).
Definition opRevert : X bytes :=
  offset <- pop ;; size <- pop ;; memory_Get (Int64_of offset) (Int64_of size).
Definition opStop : X bytes := done.
Definition opSuicide : X bytes :=
  a <- xgets (λ f, self (contract f)) ;;
  balance <- xgets (λ f, GetBalance (db_of f) a) ;;
  to <- pop ;;
  xdb (λ d, AddBalance d (BigToAddress to) balance) ;;
  xdb (λ d, Suicide d a) ;; done.

Fixpoint pop_topics (n : nat) : X (list Word32) :=
  match n with
  | O => xret []
  | S n => t <- pop ;; r <- pop_topics n ;; xret (BigToHash t :: r)
  end.
Definition makeLog (size : nat) : X bytes :=
  mStart <- pop ;; mSize <- pop ;;
  topics <- pop_topics size ;;
  d <- memory_Get (Int64_of mStart) (Int64_of mSize) ;;
  a <- xgets (λ f, self (contract f)) ;;
  xdb (λ s, AddLog s (mkLog a topics d (Uint64_of (BlockNumber ctx)))) ;; done.

(** [makePush(size, size)] *)
Definition makePush (size : nat) : X bytes :=
  c <- xgets (λ f, Code (contract f)) ;; p <- xgets pc ;;
  let codeLen := len c in
  let startMin := if int64 (uint64 (p + 1)) <? codeLen then int64 (uint64 (p + 1)) else codeLen in
  let endMin := if startMin + Z.of_nat size <? codeLen then startMin + Z.of_nat size else codeLen in
  d <- xlift (subslice c startMin endMin) ;;
  push (SetBytes (RightPadBytes d (Z.of_nat size))) ;;
  xmodify (λ f, with_pc (uint64 (pc f + Z.of_nat size)) f) ;; done.
Definition makeDup (size : nat) : X bytes := dup size ;; done.
(** The argument of [swap] is one more than that of [makeSwap]. *)
Definition makeSwap (size : nat) : X bytes := swap (size + 1) ;; done.
End instructions.
