(* ===== verification/EvmGas.v ===== *)
(** * The EVM: gas, memory sizes and the jump table

    [gas_table.go], [gas.go], [memory_table.go], [stack_table.go] and the
    properties of operations in [jump_table.go].  A gas function may change the
    frame: the memory keeps the fee of its current size, a call leaves its gas
    in [callGasTemp], the account database counts refunds. *)

From S2P Require Import Prelude Checked EvmBase EvmAnalysis EvmInstr.
#[local] Open Scope Z_scope.

(** ** [memory_table.go] *)

Section memory_table.
Context (st : list Z).

Definition at_stack (n : nat) : outcome evm_err Z := match st !! n with Some x => Ok x | None => Panic end.

Definition mem_region (off l : nat) : outcome evm_err Z :=
  obind (at_stack off) (λ o, obind (at_stack l) (λ l, Ok (calcMemSize o l))).

Definition mem_max (x y : outcome evm_err Z) : outcome evm_err Z :=
  obind x (λ x, obind y (λ y, Ok (Z.max x y))).

Definition memorySha3 : outcome evm_err Z := mem_region 0 1.
Definition memoryCallDataCopy : outcome evm_err Z := mem_region 0 2.
Definition memoryReturnDataCopy : outcome evm_err Z := mem_region 0 2.
Definition memoryCodeCopy : outcome evm_err Z := mem_region 0 2.
Definition memoryExtCodeCopy : outcome evm_err Z := mem_region 1 3.
Definition memoryMLoad : outcome evm_err Z := obind (at_stack 0) (λ o, Ok (calcMemSize o 32)).
Definition memoryMStore8 : outcome evm_err Z := obind (at_stack 0) (λ o, Ok (calcMemSize o 1)).
Definition memoryMStore : outcome evm_err Z := obind (at_stack 0) (λ o, Ok (calcMemSize o 32)).
Definition memoryCreate : outcome evm_err Z := mem_region 1 2.
Definition memoryCreate2 : outcome evm_err Z := mem_region 1 2.
Definition memoryCall : outcome evm_err Z := mem_max (mem_region 5 6) (mem_region 3 4).
Definition memoryDelegateCall : outcome evm_err Z := mem_max (mem_region 4 5) (mem_region 2 3).
Definition memoryStaticCall : outcome evm_err Z := mem_max (mem_region 4 5) (mem_region 2 3).
Definition memoryReturn : outcome evm_err Z := mem_region 0 1.
Definition memoryRevert : outcome evm_err Z := mem_region 0 1.
Definition memoryLog : outcome evm_err Z := mem_region 0 1.
End memory_table.

(** ** Prices: the table the interpreter uses, [GasTableConstantinople] *)

Record GasTable := mkGasTable {
  ExtcodeSize : Z;
  ExtcodeCopy : Z;
  ExtcodeHash : Z;
  Balance : Z;
  SLoad : Z;
  Calls : Z;
  SuicideCost : Z;
  ExpByte : Z;
  CreateBySuicide : Z;
}.

Definition GasTableConstantinople : GasTable := mkGasTable 700 700 400 400 200 700 5000 50 25000.

Section gas.
Context `{H : EvmHost} (gt : GasTable).
Local Open Scope evm_scope.

(** [gas.go]: [callGas] *)
Definition callGas (availableGas base callCost : Z) : outcome evm_err Z :=
  let rest := if 64 <? BitLen callCost then Err errGasUintOverflow else Ok (Uint64_of callCost) in
  if 0 <? CreateBySuicide gt then
    let availableGas := uint64 (availableGas - base) in
    let gas := uint64 (availableGas - availableGas / 64) in
    if (64 <? BitLen callCost) || (gas <? Uint64_of callCost) then Ok gas else rest
  else rest.

Definition memoryGasCost (newMemSize : Z) : X Z := λ f,
  let mem := memory f in
  if newMemSize =? 0 then (Ok 0, f)
  else if 0xffffffffe0 <? newMemSize then (Err errGasUintOverflow, f)
  else
    let newMemSizeWords := toWordSize newMemSize in
    let newMemSize := uint64 (newMemSizeWords * 32) in
    if len (store mem) <? newMemSize then
      let square := uint64 (newMemSizeWords * newMemSizeWords) in
      let linCoef := uint64 (newMemSizeWords * MemoryGas) in
      let quadCoef := square / QuadCoeffDiv in
      let newTotalFee := uint64 (linCoef + quadCoef) in
      (Ok (uint64 (newTotalFee - lastGasCost mem)), with_memory (mkMemory (store mem) newTotalFee) f)
    else (Ok 0, f).

(** [if gas, overflow = math.SafeAdd(a, b); overflow { return errGasUintOverflow }] *)
Definition add_gas (a b : Z) : X Z :=
  let '(s, overflow) := SafeAdd a b in if overflow then xthrow errGasUintOverflow else xret s.
Definition mul_gas (a b : Z) : X Z :=
  let '(s, overflow) := SafeMul a b in if overflow then xthrow errGasUintOverflow else xret s.
(** [bigUint64(stack.Back(n))] *)
Definition back_uint64 (n : nat) : X Z :=
  v <- Back n ;; let '(u, overflow) := bigUint64 v in if overflow then xthrow errGasUintOverflow else xret u.

Definition constGasFunc (gas : Z) : X Z := xret gas.

(** Memory, a base price, and a price per word of the size at [n]: the shape
    of [gasCallDataCopy], [gasReturnDataCopy], [gasSha3], [gasCodeCopy] and
    [gasExtCodeCopy] *)
Definition gas_words (base perWord : Z) (n : nat) (memorySize : Z) : X Z :=
  gas <- memoryGasCost memorySize ;;
  gas <- add_gas gas base ;;
  words <- back_uint64 n ;;
  words <- mul_gas (toWordSize words) perWord ;;
  add_gas gas words.

Definition gasCallDataCopy : Z → X Z := gas_words GasFastestStep CopyGas 2.
Definition gasReturnDataCopy : Z → X Z := gas_words GasFastestStep CopyGas 2.
Definition gasSha3 : Z → X Z := gas_words Sha3Gas Sha3WordGas 1.
Definition gasCodeCopy : Z → X Z := gas_words GasFastestStep CopyGas 2.
Definition gasExtCodeCopy : Z → X Z := gas_words (ExtcodeCopy gt) CopyGas 3.

Definition gasSStore : X Z :=
  y <- Back 1 ;; x <- Back 0 ;;
  val <- xgets (λ f, GetState (db_of f) (self (contract f)) (BigToHash x)) ;;
  let zero := bool_decide (val = replicate 32 0) in
  if zero && negb (y =? 0) then xret SstoreSetGas
  else if negb zero && (y =? 0) then xdb (λ d, AddRefund d SstoreRefundGas) ;; xret SstoreClearGas
  else xret SstoreResetGas.

Definition makeGasLog (n : nat) (memorySize : Z) : X Z :=
  requestedSize <- back_uint64 1 ;;
  gas <- memoryGasCost memorySize ;;
  gas <- add_gas gas LogGas ;;
  gas <- add_gas gas (Z.of_nat n * LogTopicGas) ;;
  memorySizeGas <- mul_gas requestedSize LogDataGas ;;
  add_gas gas memorySizeGas.

Definition gasExtCodeHash : X Z := xret (ExtcodeHash gt).
(** Memory and a base price *)
Definition gas_memory (base memorySize : Z) : X Z := gas <- memoryGasCost memorySize ;; add_gas gas base.
Definition gasMLoad : Z → X Z := gas_memory GasFastestStep.
Definition gasMStore8 : Z → X Z := gas_memory GasFastestStep.
Definition gasMStore : Z → X Z := gas_memory GasFastestStep.
Definition gasCreate : Z → X Z := gas_memory CreateGas.
Definition gasCreate2 : Z → X Z := gas_memory Create2Gas.
Definition gasBalance : X Z := xret (Balance gt).
Definition gasExtCodeSize : X Z := xret (ExtcodeSize gt).
Definition gasSLoad : X Z := xret (SLoad gt).
Definition gasExp : X Z :=
  e <- Back 1 ;;
  let expByteLen := uint64 ((BitLen e + 7) / 8) in
  add_gas (uint64 (expByteLen * ExpByte gt)) GasSlowStep.

(** The end of the call functions: the gas of the callee goes to [callGasTemp]. *)
Definition gas_callee (gas : Z) : X Z :=
  c <- xgets contract ;; callCost <- Back 0 ;;
  g <- xlift (callGas (Gas c) gas callCost) ;;
  xmodify (λ f, with_evm (set_callGasTemp g (evm f)) f) ;;
  add_gas gas g.

Definition gasCall (memorySize : Z) : X Z :=
  v <- Back 2 ;; a <- Back 1 ;;
  let transfersValue := negb (v =? 0) in
  empty <- xgets (λ f, IsEmpty (db_of f) (BigToAddress a)) ;;
  let gas := Calls gt in
  let gas := if transfersValue && empty then uint64 (gas + CallNewAccountGas) else gas in
  let gas := if transfersValue then uint64 (gas + CallValueTransferGas) else gas in
  memoryGas <- memoryGasCost memorySize ;;
  gas <- add_gas gas memoryGas ;;
  gas_callee gas.

Definition gasCallCode (memorySize : Z) : X Z :=
  v <- Back 2 ;;
  let gas := if negb (v =? 0) then uint64 (Calls gt + CallValueTransferGas) else Calls gt in
  memoryGas <- memoryGasCost memorySize ;;
  gas <- add_gas gas memoryGas ;;
  gas_callee gas.

Definition gasDelegateCall (memorySize : Z) : X Z :=
  gas <- memoryGasCost memorySize ;; gas <- add_gas gas (Calls gt) ;; gas_callee gas.
Definition gasStaticCall (memorySize : Z) : X Z :=
  gas <- memoryGasCost memorySize ;; gas <- add_gas gas (Calls gt) ;; gas_callee gas.

Definition gasReturn (memorySize : Z) : X Z := memoryGasCost memorySize.
Definition gasRevert (memorySize : Z) : X Z := memoryGasCost memorySize.

Definition gasSuicide : X Z :=
  a <- Back 0 ;;
  let gas := SuicideCost gt in
  me <- xgets (λ f, self (contract f)) ;;
  pays <- xgets (λ f, IsEmpty (db_of f) (BigToAddress a) && negb (GetBalance (db_of f) me =? 0)) ;;
  let gas := if pays : bool then uint64 (gas + CreateBySuicide gt) else gas in
  gone <- xgets (λ f, HasSuicided (db_of f) me) ;;
  (if negb gone then xdb (λ d, AddRefund d SuicideRefundGas) else xret tt) ;;
  xret gas.

Definition gasPush : X Z := xret GasFastestStep.
Definition gasSwap : X Z := xret GasFastestStep.
Definition gasDup : X Z := xret GasFastestStep.
End gas.

(** ** [stack_table.go] *)

Definition makeStackFunc (pops pushes : Z) (st : list Z) : option evm_err :=
  if len st <? pops then Some ErrStackUnderflow
  else if StackLimit <? len st + pushes - pops then Some ErrStackLimit
  else None.
Definition makeDupStackFunc (n : Z) : list Z → option evm_err := makeStackFunc n (n + 1).
Definition makeSwapStackFunc (n : Z) : list Z → option evm_err := makeStackFunc n n.

(** ** The jump table ([jump_table.go]): everything but [execute] *)

Record operation `{EvmHost} := mkOperation {
  gasCost : Z → X Z;
  validateStack : list Z → option evm_err;
  memorySize : option (list Z → outcome evm_err Z);
  halts : bool;
  jumps : bool;
  writes : bool;
  reverts : bool;
  returns : bool;
}.

Section jump_table.
Context `{H : EvmHost}.

(** An operation that neither halts, jumps, writes, reverts nor returns data *)
Definition plain (gasCost : Z → X Z) (pops pushes : Z) (memorySize : option (list Z → outcome evm_err Z)) : operation :=
  mkOperation _ gasCost (makeStackFunc pops pushes) memorySize false false false false false.
Definition const (gas pops pushes : Z) : operation := plain (λ _, constGasFunc gas) pops pushes None.

Abbreviation gt := GasTableConstantinople.

Definition jump_table (op : OpCode) : operation :=
  match op with
  | STOP => mkOperation _ (λ _, constGasFunc 0) (makeStackFunc 0 0) None true false false false false
  | ADD => const GasFastestStep 2 1
  | MUL => const GasFastStep 2 1
  | SUB => const GasFastestStep 2 1
  | DIV => const GasFastStep 2 1
  | SDIV => const GasFastStep 2 1
  | MOD => const GasFastStep 2 1
  | SMOD => const GasFastStep 2 1
  | ADDMOD => const GasMidStep 3 1
  | MULMOD => const GasMidStep 3 1
  | EXP => plain (λ _, gasExp gt) 2 1 None
  | SIGNEXTEND => const GasFastStep 2 1
  | LT => const GasFastestStep 2 1
  | GT => const GasFastestStep 2 1
  | SLT => const GasFastestStep 2 1
  | SGT => const GasFastestStep 2 1
  | EQ => const GasFastestStep 2 1
  | ISZERO => const GasFastestStep 1 1
  | AND => const GasFastestStep 2 1
  | OR => const GasFastestStep 2 1
  | XOR => const GasFastestStep 2 1
  | NOT => const GasFastestStep 1 1
  | BYTE => const GasFastestStep 2 1
  | SHL => const GasFastestStep 2 1
  | SHR => const GasFastestStep 2 1
  | SAR => const GasFastestStep 2 1
  | SHA3 => plain gasSha3 2 1 (Some memorySha3)
  | ADDRESS => const GasQuickStep 0 1
  | BALANCE => plain (λ _, gasBalance gt) 1 1 None
  | ORIGIN => const GasQuickStep 0 1
  | CALLER => const GasQuickStep 0 1
  | CALLVALUE => const GasQuickStep 0 1
  | CALLDATALOAD => const GasFastestStep 1 1
  | CALLDATASIZE => const GasQuickStep 0 1
  | CALLDATACOPY => plain gasCallDataCopy 3 0 (Some memoryCallDataCopy)
  | CODESIZE => const GasQuickStep 0 1
  | CODECOPY => plain gasCodeCopy 3 0 (Some memoryCodeCopy)
  | GASPRICE => const GasQuickStep 0 1
  | EXTCODESIZE => plain (λ _, gasExtCodeSize gt) 1 1 None
  | EXTCODECOPY => plain (gasExtCodeCopy gt) 4 0 (Some memoryExtCodeCopy)
  | RETURNDATASIZE => const GasQuickStep 0 1
  | RETURNDATACOPY => plain gasReturnDataCopy 3 0 (Some memoryReturnDataCopy)
  | EXTCODEHASH => plain (λ _, gasExtCodeHash gt) 1 1 None
  | BLOCKHASH => const GasExtStep 1 1
  | COINBASE => const GasQuickStep 0 1
  | TIMESTAMP => const GasQuickStep 0 1
  | NUMBER => const GasQuickStep 0 1
  | DIFFICULTY => const GasQuickStep 0 1
  | GASLIMIT => const GasQuickStep 0 1
  | POP => const GasQuickStep 1 0
  | MLOAD => plain gasMLoad 1 1 (Some memoryMLoad)
  | MSTORE => plain gasMStore 2 0 (Some memoryMStore)
  | MSTORE8 => plain gasMStore8 2 0 (Some memoryMStore8)
  | SLOAD => plain (λ _, gasSLoad gt) 1 1 None
  | SSTORE => mkOperation _ (λ _, gasSStore) (makeStackFunc 2 0) None false false true false false
  | JUMP => mkOperation _ (λ _, constGasFunc GasMidStep) (makeStackFunc 1 0) None false true false false false
  | JUMPI => mkOperation _ (λ _, constGasFunc GasSlowStep) (makeStackFunc 2 0) None false true false false false
  | PC => const GasQuickStep 0 1
  | MSIZE => const GasQuickStep 0 1
  | GAS => const GasQuickStep 0 1
  | JUMPDEST => const JumpdestGas 0 0
  | PUSH _ => plain (λ _, gasPush) 0 1 None
  | DUP n => mkOperation _ (λ _, gasDup) (makeDupStackFunc (Z.of_nat n)) None false false false false false
  | SWAP n => mkOperation _ (λ _, gasSwap) (makeSwapStackFunc (Z.of_nat n + 1)) None false false false false false
  | LOG n =>
      mkOperation _ (makeGasLog n) (makeStackFunc (Z.of_nat n + 2) 0) (Some memoryLog) false false true false false
  | CREATE => mkOperation _ gasCreate (makeStackFunc 3 1) (Some memoryCreate) false false true false true
  | CALL => mkOperation _ (gasCall gt) (makeStackFunc 7 1) (Some memoryCall) false false false false true
  | CALLCODE => mkOperation _ (gasCallCode gt) (makeStackFunc 7 1) (Some memoryCall) false false false false true
  | RETURN => mkOperation _ gasReturn (makeStackFunc 2 0) (Some memoryReturn) true false false false false
  | DELEGATECALL =>
      mkOperation _ (gasDelegateCall gt) (makeStackFunc 6 1) (Some memoryDelegateCall) false false false false true
  | CREATE2 => mkOperation _ gasCreate2 (makeStackFunc 4 1) (Some memoryCreate2) false false true false true
  | STATICCALL =>
      mkOperation _ (gasStaticCall gt) (makeStackFunc 6 1) (Some memoryStaticCall) false false false false true
  | REVERT => mkOperation _ gasRevert (makeStackFunc 2 0) (Some memoryRevert) false false false true true
  | SELFDESTRUCT => mkOperation _ (λ _, gasSuicide gt) (makeStackFunc 1 0) None true false true false false
  end.
End jump_table.
