(* ===== verification/EvmPrecompiled.v ===== *)
(** * The EVM: precompiled contracts ([protocol/vm/evm/contracts.go])

    Hash functions, signature recovery and the curve are the host's. *)

From S2P Require Import Prelude Checked EvmBase.
#[local] Open Scope Z_scope.
#[local] Open Scope go_scope.

Abbreviation EcrecoverGas := 3000.
Abbreviation Sha256BaseGas := 60.
Abbreviation Sha256PerWordGas := 12.
Abbreviation Ripemd160BaseGas := 600.
Abbreviation Ripemd160PerWordGas := 120.
Abbreviation IdentityBaseGas := 15.
Abbreviation IdentityPerWordGas := 3.
Abbreviation ModExpQuadCoeffDiv := 20.
Abbreviation Bn256AddGas := 500.
Abbreviation Bn256ScalarMulGas := 40000.
Abbreviation Bn256PairingBaseGas := 100000.
Abbreviation Bn256PairingPerPointGas := 80000.

Inductive PrecompiledContract :=
| ecrecover | sha256hash | ripemd160hash | dataCopy | bigModExp | bn256Add | bn256ScalarMul | bn256Pairing.

Definition PrecompiledContracts (a : Address) : option PrecompiledContract :=
  if bool_decide (take 19 a = replicate 19 0) && bool_decide (length a = 20%nat) then
    (* the last byte, from 1 *)
    [ecrecover; sha256hash; ripemd160hash; dataCopy; bigModExp; bn256Add; bn256ScalarMul; bn256Pairing]
      !! Z.to_nat (nth 19 a 0 - 1) ≫= λ p, if 1 <=? nth 19 a 0 then Some p else None
  else None.

(** ** [bigModExp] *)

Definition word_gas (l base perWord : Z) : Z := uint64 (uint64 (uint64 (l + 31) / 32 * perWord) + base).

(** The three lengths at the start of the input, and the rest *)
Definition modexp_lengths (input : list Z) : outcome evm_err (Z * Z * Z) :=
  let? b := getData input 0 32 in
  let? e := getData input 32 32 in
  let? m := getData input 64 32 in
  Ok (SetBytes b, SetBytes e, SetBytes m).
Definition modexp_rest (input : list Z) : list Z := if 96 <? len input then drop 96 input else [].

Definition modexp_head (input : list Z) (baseLen expLen : Z) : outcome evm_err Z :=
  if len input <=? baseLen then Ok 0
  else
    let? d := (if 32 <? expLen then getData input (Uint64_of baseLen) 32
               else getData input (Uint64_of baseLen) (Uint64_of expLen)) in
    Ok (SetBytes d).

Definition modexp_RequiredGas (input : list Z) : outcome evm_err Z :=
  let? lens := modexp_lengths input in
  let '(baseLen, expLen, modLen) := lens in
  let input := modexp_rest input in
  let? expHead := modexp_head input baseLen expLen in
  let bitlen := BitLen expHead in
  let msb := if 0 <? bitlen then bitlen - 1 else 0 in
  let adjExpLen := (if 32 <? expLen then 8 * (expLen - 32) else 0) + msb in
  let gas := Z.max modLen baseLen in
  let gas :=
    if gas <=? 64 then gas * gas
    else if gas <=? 1024 then gas * gas / 4 + (96 * gas - 3072)
    else gas * gas / 16 + (480 * gas - 199680) in
  let gas := gas * Z.max adjExpLen 1 / ModExpQuadCoeffDiv in
  if 64 <? BitLen gas then Ok MaxUint64 else Ok (Uint64_of gas).

(** [base.Exp(base, exp, mod)], by squaring *)
Fixpoint pow_mod_pos (b : Z) (e : positive) (m : Z) : Z :=
  match e with
  | xH => b mod m
  | xO e => pow_mod_pos (b * b mod m) e m
  | xI e => b * pow_mod_pos (b * b mod m) e m mod m
  end.
Definition pow_mod (b e m : Z) : Z :=
  match e with
  | Zpos e => pow_mod_pos b e m
  | _ => 1 mod m
  end.
(** [x.Bytes()] *)
Definition big_Bytes (x : Z) : list Z := be_bytes (Z.to_nat ((BitLen x + 7) / 8)) x.

Definition modexp_Run (input : list Z) : outcome evm_err (option (list Z)) :=
  let? lens := modexp_lengths input in
  let '(b, e, m) := lens in
  let baseLen := Uint64_of b in
  let expLen := Uint64_of e in
  let modLen := Uint64_of m in
  let input := modexp_rest input in
  if (baseLen =? 0) && (modLen =? 0) then Ok (Some [])
  else
    let? base := getData input 0 baseLen in
    let? exp := getData input baseLen expLen in
    let? mod_ := getData input (uint64 (baseLen + expLen)) modLen in
    if SetBytes mod_ =? 0 then Ok (Some (LeftPadBytes [] (int64 modLen)))
    else Ok (Some (LeftPadBytes (big_Bytes (pow_mod (SetBytes base) (SetBytes exp) (SetBytes mod_))) (int64 modLen))).

Definition secp256k1N : Z := 0xfffffffffffffffffffffffffffffffebaaedce6af48a03bbfd25e8cd0364141.

(** [crypto.ValidateSignatureValues(v, r, s, false)] *)
Definition ValidateSignatureValues (v r s : Z) : bool :=
  if (r <? 1) || (s <? 1) then false
  else (r <? secp256k1N) && (s <? secp256k1N) && ((v =? 0) || (v =? 1)).

Definition true32Byte : list Z := replicate 31 0 ++ [1].
Definition false32Byte : list Z := replicate 32 0.

Section precompiled.
Context `{H : EvmHost}.

Definition RequiredGas (p : PrecompiledContract) (input : list Z) : outcome evm_err Z :=
  match p with
  | ecrecover => Ok EcrecoverGas
  | sha256hash => Ok (word_gas (len input) Sha256BaseGas Sha256PerWordGas)
  | ripemd160hash => Ok (word_gas (len input) Ripemd160BaseGas Ripemd160PerWordGas)
  | dataCopy => Ok (word_gas (len input) IdentityBaseGas IdentityPerWordGas)
  | bigModExp => modexp_RequiredGas input
  | bn256Add => Ok Bn256AddGas
  | bn256ScalarMul => Ok Bn256ScalarMulGas
  | bn256Pairing => Ok (uint64 (Bn256PairingBaseGas + uint64 (uint64 (len input / 192) * Bn256PairingPerPointGas)))
  end.

Definition ecrecover_Run (input : list Z) : outcome evm_err (option (list Z)) :=
  let input := RightPadBytes input 128 in
  let? rb := subslice input 64 96 in
  let? sb := subslice input 96 128 in
  let r := SetBytes rb in
  let s := SetBytes sb in
  let v := uint8 (nth 63 input 0 - 27) in
  let? z := subslice input 32 63 in
  if negb (allZero z) || negb (ValidateSignatureValues v r s) then Ok None
  else
    let? rs := subslice input 64 128 in
    match Ecrecover (take 32 input) (rs ++ [v]) with
    | None => Ok None
    | Some [] => Panic
    | Some (_ :: key) => Ok (Some (LeftPadBytes (drop 12 (Keccak256 key)) 32))
    end.

Definition newCurvePoint (blob : list Z) : outcome evm_err G1 :=
  match G1_Unmarshal blob with Some p => Ok p | None => Err ErrCurvePoint end.
Definition newTwistPoint (blob : list Z) : outcome evm_err G2 :=
  match G2_Unmarshal blob with Some p => Ok p | None => Err ErrCurvePoint end.

Definition bn256Add_Run (input : list Z) : outcome evm_err (option (list Z)) :=
  let? a := getData input 0 64 in
  let? x := newCurvePoint a in
  let? b := getData input 64 64 in
  let? y := newCurvePoint b in
  Ok (Some (G1_Marshal (G1_Add x y))).

Definition bn256ScalarMul_Run (input : list Z) : outcome evm_err (option (list Z)) :=
  let? a := getData input 0 64 in
  let? p := newCurvePoint a in
  let? k := getData input 64 32 in
  Ok (Some (G1_Marshal (G1_ScalarMult p (SetBytes k)))).

(** [for i := 0; i < len(input); i += 192], with [n] rounds left *)
Fixpoint pairing_points (n : nat) (input : list Z) (i : Z) : outcome evm_err (list G1 * list G2) :=
  match n with
  | O => Ok ([], [])
  | S n =>
      let? a := subslice input i (i + 64) in
      let? c := newCurvePoint a in
      let? b := subslice input (i + 64) (i + 192) in
      let? t := newTwistPoint b in
      let? r := pairing_points n input (i + 192) in
      Ok (c :: r.1, t :: r.2)
  end.

Definition bn256Pairing_Run (input : list Z) : outcome evm_err (option (list Z)) :=
  if 0 <? len input mod 192 then Err errBadPairingInput
  else
    let? r := pairing_points (Z.to_nat (len input / 192)) input 0 in
    Ok (Some (if PairingCheck r.1 r.2 then true32Byte else false32Byte)).

Definition precompiled_Run (p : PrecompiledContract) (input : list Z) : outcome evm_err (option (list Z)) :=
  match p with
  | ecrecover => ecrecover_Run input
  | sha256hash => Ok (Some (Sha256 input))
  | ripemd160hash => Ok (Some (LeftPadBytes (Ripemd160Sum input) 32))
  | dataCopy => Ok (Some input)
  | bigModExp => modexp_Run input
  | bn256Add => bn256Add_Run input
  | bn256ScalarMul => bn256ScalarMul_Run input
  | bn256Pairing => bn256Pairing_Run input
  end.

(** The bytes and the contract with the gas it has left *)
Definition RunPrecompiledContract (p : PrecompiledContract) (input : list Z) (c : Contract)
    : outcome evm_err (option (list Z)) * Contract :=
  match RequiredGas p input with
  | Ok gas =>
      let '(ok, c) := UseGas gas c in
      if ok then (precompiled_Run p input, c) else (Err ErrOutOfGas, c)
  | Err e => (Err e, c)
  | Panic => (Panic, c)
  | Fuel => (Fuel, c)
  end.
End precompiled.
