(* ===== verification/EvmRun.v ===== *)
(** * The EVM: calls and the interpreter ([evm.go], [interpreter.go])

    [Run] executes a contract; the call instructions start new contracts, which
    run in turn.  The recursion through [Run] and the rounds of its loop share
    one bound: EvmSafety shows that more rounds than there is gas are never
    needed.  The tracer, the flag that aborts a running EVM, which nothing sets,
    and the choice among interpreters, of which there is one, are left out. *)

From S2P Require Import Prelude Checked EvmBase EvmAnalysis EvmInstr EvmGas EvmPrecompiled.
#[local] Open Scope Z_scope.
#[local] Open Scope evm_scope.

Section evm.
Context `{H : EvmHost} (ctx : EvmContext).

(** What an execution returns: bytes and an error; the contract with the gas
    it has left, and the EVM *)
Abbreviation result := (option (list Z) * option evm_err)%type.
Definition RunResult : Type := outcome unit result * Contract * EVM.

(** [evm.Call] and the like return bytes, gas and an error. *)
Definition CallResult : Type := outcome unit (option (list Z) * Z * option evm_err) * EVM.

(** [vm.CanTransfer] and [vm.Transfer] (protocol/vm/evm.go) *)
Definition CanTransfer (d : DB) (a : Address) (amount : Z) : bool := amount <=? GetBalance d a.
Definition Transfer (d : DB) (sender recipient : Address) (amount : Z) : DB :=
  AddBalance (SubBalance d sender amount) recipient amount.

Definition emptyCodeHash : Word32 := Keccak256 [].

Section calls.
Context (Run : Contract → list Z → EVM → RunResult).

(** [run] *)
Definition run (e : EVM) (c : Contract) (input : list Z) : RunResult :=
  match CodeAddr c ≫= PrecompiledContracts with
  | Some p =>
      match RunPrecompiledContract p input c with
      | (Ok ret, c) => (Ok (ret, None), c, e)
      | (Err err, c) => (Ok (None, Some err), c, e)
      | (Panic, c) => (Panic, c, e)
      | (Fuel, c) => (Fuel, c, e)
      end
  | None => Run c input e
  end.

(** After [run]: an error reverts the database and takes the gas that is left,
    except for a revert *)
Definition settle_call (snapshot : DB) (r : RunResult) : CallResult :=
  match r with
  | (Ok (ret, None), c, e) => (Ok (ret, Gas c, None), e)
  | (Ok (ret, Some err), c, e) =>
      let e := set_db (RevertToSnapshot (StateDB e) snapshot) e in
      let c := if bool_decide (err = errExecutionReverted) then c else snd (UseGas (Gas c) c) in
      (Ok (ret, Gas c, Some err), e)
  | (Err _, _, e) => (Panic, e)
  | (Panic, _, e) => (Panic, e)
  | (Fuel, _, e) => (Fuel, e)
  end.

(** [NewContract] makes new jump destinations for a caller that is an account. *)
Definition enter (caller : ContractRef) (e : EVM) : EVM :=
  match caller with
  | ContractCaller _ => e
  | AccountRef _ => set_jumpdests ∅ e
  end.

Definition Call (caller : ContractRef) (addr : Address) (input : list Z) (gas value : Z) (e : EVM) : CallResult :=
  if NoRecursion ctx && (0 <? depth e) then (Ok (None, gas, None), e)
  else if CallCreateDepth <? depth e then (Ok (None, gas, Some ErrDepth), e)
  else if negb (CanTransfer (StateDB e) (ref_Address caller) value)
  then (Ok (None, gas, Some ErrInsufficientBalance), e)
  else
    let snapshot := StateDB e in
    if negb (Exist (StateDB e) addr) && bool_decide (PrecompiledContracts addr = None) && (value =? 0)
    then (Ok (None, gas, None), e)
    else
      let d := if Exist (StateDB e) addr then StateDB e else CreateAccount (StateDB e) addr in
      let d := Transfer d (ref_Address caller) addr value in
      let e := enter caller (set_db d e) in
      let c := SetCallCode addr (GetCodeHash d addr) (GetCode d addr) (NewContract caller addr value gas) in
      settle_call snapshot (run e c input).

Definition CallCode (caller : ContractRef) (addr : Address) (input : list Z) (gas value : Z) (e : EVM) : CallResult :=
  if NoRecursion ctx && (0 <? depth e) then (Ok (None, gas, None), e)
  else if CallCreateDepth <? depth e then (Ok (None, gas, Some ErrDepth), e)
  else if negb (CanTransfer (StateDB e) (ref_Address caller) value)
  then (Ok (None, gas, Some ErrInsufficientBalance), e)
  else
    let d := StateDB e in
    let c := SetCallCode addr (GetCodeHash d addr) (GetCode d addr)
               (NewContract caller (ref_Address caller) value gas) in
    settle_call d (run (enter caller e) c input).

Definition DelegateCall (caller : ContractRef) (addr : Address) (input : list Z) (gas : Z) (e : EVM) : CallResult :=
  if NoRecursion ctx && (0 <? depth e) then (Ok (None, gas, None), e)
  else if CallCreateDepth <? depth e then (Ok (None, gas, Some ErrDepth), e)
  else
    let d := StateDB e in
    match AsDelegate caller (NewContract caller (ref_Address caller) 0 gas) with
    | Ok c => settle_call d (run (enter caller e) (SetCallCode addr (GetCodeHash d addr) (GetCode d addr) c) input)
    | _ => (Panic, e)
    end.

(** The flag is cleared again by the call that set it. *)
Definition StaticCall (caller : ContractRef) (addr : Address) (input : list Z) (gas : Z) (e : EVM) : CallResult :=
  if NoRecursion ctx && (0 <? depth e) then (Ok (None, gas, None), e)
  else if CallCreateDepth <? depth e then (Ok (None, gas, Some ErrDepth), e)
  else
    let was := readOnly e in
    let e := set_readOnly true e in
    let d := StateDB e in
    let c := SetCallCode addr (GetCodeHash d addr) (GetCode d addr) (NewContract caller addr 0 gas) in
    let '(r, e) := settle_call d (run (enter caller e) c input) in
    (r, if was then e else set_readOnly false e).

(** [create]: bytes, address, gas, error *)
Definition create (caller : ContractRef) (code : list Z) (gas value : Z) (address : Address) (e : EVM)
    : outcome unit (option (list Z) * Address * Z * option evm_err) * EVM :=
  let none := replicate 20 0 in
  let me := ref_Address caller in
  if CallCreateDepth <? depth e then (Ok (None, none, gas, Some ErrDepth), e)
  else if negb (CanTransfer (StateDB e) me value) then (Ok (None, none, gas, Some ErrInsufficientBalance), e)
  else
    let nonce := GetNonce (StateDB e) me in
    let d := SetNonce (StateDB e) me (uint64 (nonce + 1)) in
    let contractHash := GetCodeHash d address in
    if negb (GetNonce d address =? 0)
       || (negb (bool_decide (contractHash = replicate 32 0)) && negb (bool_decide (contractHash = emptyCodeHash)))
    then (Ok (None, none, 0, Some ErrContractAddressCollision), set_db d e)
    else
      let snapshot := d in
      let d := Transfer (SetNonce (CreateAccount d address) address 1) me address value in
      let e := enter caller (set_db d e) in
      let c := SetCallCode address (Keccak256 code) code (NewContract caller address value gas) in
      if NoRecursion ctx && (0 <? depth e) then (Ok (None, address, gas, None), e)
      else
        match run e c [] with
        | (Ok (ret, err), c, e) =>
            let maxCodeSizeExceeded := MaxCodeSize <? len (default [] ret) in
            let createDataGas := uint64 (len (default [] ret) * CreateDataGas) in
            let '(err, c, e) :=
              if bool_decide (err = None) && negb maxCodeSizeExceeded then
                let '(ok, c) := UseGas createDataGas c in
                if ok then (None, c, set_db (SetCode (StateDB e) address (default [] ret)) e)
                else (Some ErrCodeStoreOutOfGas, c, e)
              else (err, c, e) in
            let failed := maxCodeSizeExceeded || bool_decide (err ≠ None) in
            let e := if failed then set_db (RevertToSnapshot (StateDB e) snapshot) e else e in
            let c := if failed && negb (bool_decide (err = Some errExecutionReverted))
                     then snd (UseGas (Gas c) c) else c in
            let err := if maxCodeSizeExceeded && bool_decide (err = None) then Some errMaxCodeSizeExceeded else err in
            (Ok (ret, address, Gas c, err), e)
        | (Err _, _, e) => (Panic, e)
        | (Panic, _, e) => (Panic, e)
        | (Fuel, _, e) => (Fuel, e)
        end.

Definition Create (caller : ContractRef) (code : list Z) (gas value : Z) (e : EVM) :=
  let me := ref_Address caller in
  create caller code gas value (CreateAddress me (GetNonce (StateDB e) me)) e.

Definition Create2 (caller : ContractRef) (code : list Z) (gas endowment salt : Z) (e : EVM) :=
  create caller code gas endowment (CreateAddress2 (ref_Address caller) (BigToHash salt) code) e.

(** ** The instructions that start other contracts *)

(** A call on the EVM of the frame *)
Definition on_evm {A} (g : EVM → outcome unit A * EVM) : X A := λ f,
  let '(r, e) := g (evm f) in
  (match r with Ok a => Ok a | Err _ => Panic | Panic => Panic | Fuel => Fuel end, with_evm e f).

Definition add_contract_gas (g : Z) : X unit :=
  xmodify (λ f, with_contract (set_Gas (uint64 (Gas (contract f) + g)) (contract f)) f).

(** The end of [opCreate] and [opCreate2] *)
Definition after_create (r : option (list Z) * Address * Z * option evm_err) : X (option (list Z)) :=
  let '(res, addr, returnGas, suberr) := r in
  push (match suberr with Some _ => 0 | None => SetBytes addr end) ;;
  add_contract_gas returnGas ;;
  xret (if bool_decide (suberr = Some errExecutionReverted) then res else None).

(** [gas -= gas / 64; contract.UseGas(gas)] *)
Definition spend_all_but_one_64th : X Z :=
  c <- xgets contract ;;
  let gas := uint64 (Gas c - Gas c / 64) in
  xmodify (with_contract (snd (UseGas gas c))) ;; xret gas.

Definition opCreate : X (option (list Z)) :=
  value <- pop ;; offset <- pop ;; size <- pop ;;
  input <- memory_Get (Int64_of offset) (Int64_of size) ;;
  gas <- spend_all_but_one_64th ;;
  c <- xgets contract ;;
  r <- on_evm (Create (ContractCaller c) (default [] input) gas value) ;;
  after_create r.

Definition opCreate2 : X (option (list Z)) :=
  endowment <- pop ;; offset <- pop ;; size <- pop ;; salt <- pop ;;
  input <- memory_Get (Int64_of offset) (Int64_of size) ;;
  gas <- spend_all_but_one_64th ;;
  c <- xgets contract ;;
  r <- on_evm (Create2 (ContractCaller c) (default [] input) gas endowment salt) ;;
  after_create r.

(** The end of the call instructions *)
Definition after_call (retOffset retSize : Z) (r : option (list Z) * Z * option evm_err) : X (option (list Z)) :=
  let '(ret, returnGas, err) := r in
  push (match err with Some _ => 0 | None => 1 end) ;;
  (if bool_decide (err = None) || bool_decide (err = Some errExecutionReverted)
   then on_memory (λ m, mem_Set m (Uint64_of retOffset) (Uint64_of retSize) (default [] ret)) else xret tt) ;;
  add_contract_gas returnGas ;;
  xret ret.

(** [args := memory.Get(...)] and the gas of the call *)
Definition call_args (inOffset inSize : Z) : X (list Z) :=
  a <- memory_Get (Int64_of inOffset) (Int64_of inSize) ;; xret (default [] a).
Definition call_gas : X Z := xgets (λ f, callGasTemp (evm f)).
Definition with_stipend (gas value : Z) : Z := if negb (value =? 0) then uint64 (gas + CallStipend) else gas.

Definition opCall : X (option (list Z)) :=
  pop ;; gas <- call_gas ;;
  addr <- pop ;; value0 <- pop ;; inOffset <- pop ;; inSize <- pop ;; retOffset <- pop ;; retSize <- pop ;;
  let value := U256 value0 in
  args <- call_args inOffset inSize ;;
  c <- xgets contract ;;
  r <- on_evm (Call (ContractCaller c) (BigToAddress addr) args (with_stipend gas value) value) ;;
  after_call retOffset retSize r.

Definition opCallCode : X (option (list Z)) :=
  pop ;; gas <- call_gas ;;
  addr <- pop ;; value0 <- pop ;; inOffset <- pop ;; inSize <- pop ;; retOffset <- pop ;; retSize <- pop ;;
  let value := U256 value0 in
  args <- call_args inOffset inSize ;;
  c <- xgets contract ;;
  r <- on_evm (CallCode (ContractCaller c) (BigToAddress addr) args (with_stipend gas value) value) ;;
  after_call retOffset retSize r.

Definition opDelegateCall : X (option (list Z)) :=
  pop ;; gas <- call_gas ;;
  addr <- pop ;; inOffset <- pop ;; inSize <- pop ;; retOffset <- pop ;; retSize <- pop ;;
  args <- call_args inOffset inSize ;;
  c <- xgets contract ;;
  r <- on_evm (DelegateCall (ContractCaller c) (BigToAddress addr) args gas) ;;
  after_call retOffset retSize r.

Definition opStaticCall : X (option (list Z)) :=
  pop ;; gas <- call_gas ;;
  addr <- pop ;; inOffset <- pop ;; inSize <- pop ;; retOffset <- pop ;; retSize <- pop ;;
  args <- call_args inOffset inSize ;;
  c <- xgets contract ;;
  r <- on_evm (StaticCall (ContractCaller c) (BigToAddress addr) args gas) ;;
  after_call retOffset retSize r.

(** [execute] of the jump table *)
Definition execute (op : OpCode) : X (option (list Z)) :=
  match op with
  | STOP => opStop | ADD => opAdd | MUL => opMul | SUB => opSub | DIV => opDiv | SDIV => opSdiv
  | MOD => opMod | SMOD => opSmod | ADDMOD => opAddmod | MULMOD => opMulmod | EXP => opExp
  | SIGNEXTEND => opSignExtend
  | LT => opLt | GT => opGt | SLT => opSlt | SGT => opSgt | EQ => opEq | ISZERO => opIszero
  | AND => opAnd | OR => opOr | XOR => opXor | NOT => opNot | BYTE => opByte
  | SHL => opSHL | SHR => opSHR | SAR => opSAR
  | SHA3 => opSha3
  | ADDRESS => opAddress | BALANCE => opBalance | ORIGIN => opOrigin ctx | CALLER => opCaller
  | CALLVALUE => opCallValue | CALLDATALOAD => opCallDataLoad | CALLDATASIZE => opCallDataSize
  | CALLDATACOPY => opCallDataCopy | CODESIZE => opCodeSize | CODECOPY => opCodeCopy
  | GASPRICE => opGasprice ctx | EXTCODESIZE => opExtCodeSize | EXTCODECOPY => opExtCodeCopy
  | RETURNDATASIZE => opReturnDataSize | RETURNDATACOPY => opReturnDataCopy | EXTCODEHASH => opExtCodeHash
  | BLOCKHASH => opBlockhash ctx | COINBASE => opCoinbase ctx | TIMESTAMP => opTimestamp ctx
  | NUMBER => opNumber ctx | DIFFICULTY => opDifficulty ctx | GASLIMIT => opGasLimit ctx
  | POP => opPop | MLOAD => opMload | MSTORE => opMstore | MSTORE8 => opMstore8
  | SLOAD => opSload | SSTORE => opSstore | JUMP => opJump | JUMPI => opJumpi
  | PC => opPc | MSIZE => opMsize | GAS => opGas | JUMPDEST => opJumpdest
  | PUSH n => makePush n | DUP n => makeDup n | SWAP n => makeSwap n | LOG n => makeLog ctx n
  | CREATE => opCreate | CALL => opCall | CALLCODE => opCallCode | RETURN => opReturn
  | DELEGATECALL => opDelegateCall | CREATE2 => opCreate2 | STATICCALL => opStaticCall
  | REVERT => opRevert | SELFDESTRUCT => opSuicide
  end.

(** ** One round of the interpreter's loop *)

Definition enforceRestrictions (op : OpCode) (f : Frame) : outcome unit (option evm_err) :=
  if readOnly (evm f) then
    if writes (jump_table op) then Ok (Some errWriteProtection)
    else
      match op with
      | CALL => match stack f !! 2%nat with
                | Some v => Ok (if 0 <? BitLen v then Some errWriteProtection else None)
                | None => Panic
                end
      | _ => Ok None
      end
  else Ok None.

(** The size of the memory after the instruction, in whole words *)
Definition memory_need (op : OpCode) (f : Frame) : outcome evm_err Z :=
  match memorySize (jump_table op) with
  | None => Ok 0
  | Some size =>
      obind (size (stack f)) (λ s,
      let '(memSize, overflow) := bigUint64 s in
      if overflow then Err errGasUintOverflow
      else let '(m, overflow) := SafeMul (toWordSize memSize) 32 in
           if overflow then Err errGasUintOverflow else Ok m)
  end.

(** [Ok None] continues the loop, [Ok (Some r)] returns from it. *)
Abbreviation step_result := (outcome unit (option result) * Frame)%type.
Definition fail_with (e : evm_err) (f : Frame) : step_result := (Ok (Some (None, Some e)), f).

(** [execute], and what follows it *)
Definition finish_step (op : OpCode) (f : Frame) : step_result :=
  let operation := jump_table op in
  let note (res : option (list Z)) (f : Frame) :=
    if returns operation then with_evm (set_returnData (default [] res) (evm f)) f else f in
  match execute op f with
  | (Ok res, f) =>
      let f := note res f in
      if reverts operation then (Ok (Some (res, Some errExecutionReverted)), f)
      else if halts operation then (Ok (Some (res, None)), f)
      else if negb (jumps operation) then (Ok None, with_pc (uint64 (pc f + 1)) f)
      else (Ok None, f)
  | (Err e, f) => fail_with e (note None f)
  | (Panic, f) => (Panic, f)
  | (Fuel, f) => (Fuel, f)
  end.

(** Charging for the instruction and the memory it needs *)
Definition charge_step (op : OpCode) (m : Z) (f : Frame) : step_result :=
  match gasCost (jump_table op) m f with
  | (Ok cost, f) =>
      let '(ok, c) := UseGas cost (contract f) in
      if ok then
        let f := with_contract c f in
        finish_step op (if 0 <? m then with_memory (mem_Resize (memory f) m) f else f)
      else fail_with ErrOutOfGas f
  | (Err _, f) => fail_with ErrOutOfGas f
  | (Panic, f) => (Panic, f)
  | (Fuel, f) => (Fuel, f)
  end.

Definition step (f : Frame) : step_result :=
  match GetOp (contract f) (pc f) with
  | None => fail_with ErrInvalidOpcode f
  | Some op =>
      match validateStack (jump_table op) (stack f) with
      | Some e => fail_with e f
      | None =>
          match enforceRestrictions op f with
          | Ok (Some e) => fail_with e f
          | Ok None =>
              match memory_need op f with
              | Ok m => charge_step op m f
              | Err e => fail_with e f
              | Panic => (Panic, f)
              | Fuel => (Fuel, f)
              end
          | Err _ => (Panic, f)
          | Panic => (Panic, f)
          | Fuel => (Fuel, f)
          end
      end
  end.
End calls.

(** ** [EVMInterpreter.Run] *)

(** Around the loop: the depth, the return data, the new memory and stack *)
Definition Run_with (loop : Frame → outcome unit result * Frame) (c : Contract) (input : list Z) (e : EVM)
    : RunResult :=
  let e := set_returnData [] (set_depth (depth e + 1) e) in
  let leave (e : EVM) := set_depth (depth e - 1) e in
  if bool_decide (Code c = []) then (Ok (None, None), c, leave e)
  else
    let '(r, f) := loop (mkFrame 0 (set_Input input c) NewMemory [] e) in
    let e := match r with Panic => blame (contract f) (evm f) | _ => evm f end in
    (r, contract f, leave e).

Fixpoint loop (fuel : nat) (f : Frame) : outcome unit result * Frame :=
  match fuel with
  | O => (Fuel, f)
  | S fuel =>
      match step (Run_with (loop fuel)) f with
      | (Ok None, f) => loop fuel f
      | (Ok (Some r), f) => (Ok r, f)
      | (Err e, f) => (Err e, f)
      | (Panic, f) => (Panic, f)
      | (Fuel, f) => (Fuel, f)
      end
  end.

Definition Run (fuel : nat) : Contract → list Z → EVM → RunResult := Run_with (loop fuel).

(** [NewEVM] *)
Definition NewEVM (d : DB) : EVM := mkEVM d 0 0 false [] ∅ None.
End evm.
