(* ===== verification/EvmLogic.v ===== *)
(** * The EVM: well-formed states

    What the interpreter relies on of its host, the ranges of the data in a
    frame, and that reads and writes of memory, code and input stay in bounds. *)

From S2P Require Import Prelude Checked EvmBase EvmAnalysis EvmInstr EvmGas EvmPrecompiled EvmRun.
#[local] Open Scope Z_scope.
#[local] Set Default Goal Selector "!".
#[local] Set Warnings "-clear-no-such-hyp".

Definition bytes_of (n : nat) (bs : list Z) : Prop := length bs = n ∧ Forall is_byte bs.
Definition some_bytes (o : option (list Z)) : Prop := Forall is_byte (default [] o).

(** ** The host and the context *)

Class HostOk `{EvmHost} : Prop := {
  GetBalance_word : ∀ d a, word (GetBalance d a);
  GetCode_bytes : ∀ d a, Forall is_byte (GetCode d a);
  GetCode_len : ∀ d a, len (GetCode d a) < 2 ^ 62;
  GetCodeHash_code : ∀ d a, GetCode d a ≠ [] → GetCodeHash d a = Keccak256 (GetCode d a);
  GetCodeHash_bytes : ∀ d a, bytes_of 32 (GetCodeHash d a);
  GetState_bytes : ∀ d a k, bytes_of 32 (GetState d a k);
  GetRefund_uint64 : ∀ d, is_uint64 (GetRefund d);
  Keccak256_bytes : ∀ bs, bytes_of 32 (Keccak256 bs);
  CreateAddress_bytes : ∀ a n, bytes_of 20 (CreateAddress a n);
  Sha256_bytes : ∀ bs, bytes_of 32 (Sha256 bs);
  Ripemd160_bytes : ∀ bs, bytes_of 20 (Ripemd160Sum bs);
  Ecrecover_key : ∀ h s k, Ecrecover h s = Some k → k ≠ [];
  G1_Marshal_bytes : ∀ p, Forall is_byte (G1_Marshal p);
}.

(** A property of the database that its users care about.  The EVM keeps it when
    every single write keeps it; a transfer comes after the check that the
    sender can pay. *)
Class DbInv `{EvmHost} := db_inv : DB → Prop.

Class Kept `{EvmHost} (I : DbInv) : Prop := {
  kept_call : ∀ d a b v, db_inv d → word v → v <= GetBalance d a →
    db_inv (Transfer (if Exist d b then d else CreateAccount d b) a b v);
  kept_create : ∀ d a n b v, db_inv d → word v → v <= GetBalance d a →
    db_inv (Transfer (SetNonce (CreateAccount (SetNonce d a n) b) b 1) a b v);
  kept_SetNonce : ∀ d a n, db_inv d → db_inv (SetNonce d a n);
  kept_SetCode : ∀ d a c, db_inv d → db_inv (SetCode d a c);
  kept_SetState : ∀ d a k v, db_inv d → db_inv (SetState d a k v);
  kept_AddLog : ∀ d l, db_inv d → db_inv (AddLog d l);
  kept_AddRefund : ∀ d g, db_inv d → db_inv (AddRefund d g);
  kept_Suicide : ∀ d a b, db_inv d → db_inv (Suicide (AddBalance d b (GetBalance d a)) a);
  kept_revert : ∀ d d0, db_inv d → db_inv d0 → db_inv (RevertToSnapshot d d0);
}.

Record ctx_ok (ctx : EvmContext) : Prop := {
  co_Origin : bytes_of 20 (Origin ctx);
  co_Coinbase : bytes_of 20 (Coinbase ctx);
  co_GasPrice : word (GasPrice ctx);
  co_GetHash : ∀ n, bytes_of 32 (GetHash ctx n);
}.

(** ** Ranges *)

Lemma SetBytes_of n bs : bytes_of n bs → (n <= 32)%nat → word (SetBytes bs).
Proof. intros [Hl Hb] Hn. apply SetBytes_word; [done|]. unfold len. lia. Qed.

Lemma word_bool b : word (bool_word b).
Proof. unfold word, tt256. destruct b; simpl; lia. Qed.

Lemma word_uint64 x : is_uint64 x → word x.
Proof. ranges. unfold word, tt256. lia. Qed.

Lemma word_small x : 0 <= x < 2 ^ 64 → word x.
Proof. unfold word, tt256. lia. Qed.

Lemma log2_word x : word x → Z.log2 x < 256.
Proof.
  intros [H0 H1]. destruct (Z.eq_dec x 0) as [->|]; [done|]. apply Z.log2_lt_pow2; [lia|done].
Qed.

Lemma word_log2 x : 0 <= x → Z.log2 x < 256 → word x.
Proof.
  intros H0 H1. split; [done|]. destruct (Z.eq_dec x 0) as [->|]; [done|].
  unfold tt256. apply Z.log2_lt_pow2; [lia|done].
Qed.

Lemma word_land x y : word x → word y → word (Z.land x y).
Proof.
  intros Hx Hy. pose proof Hx as [Hx0 _]. pose proof Hy as [Hy0 _].
  apply word_log2; [by apply Z.land_nonneg; left|].
  pose proof (Z.log2_land x y Hx0 Hy0). pose proof (log2_word x Hx). lia.
Qed.

Lemma word_lor x y : word x → word y → word (Z.lor x y).
Proof.
  intros Hx Hy. pose proof Hx as [Hx0 _]. pose proof Hy as [Hy0 _].
  apply word_log2; [by apply Z.lor_nonneg|]. rewrite Z.log2_lor by done.
  pose proof (log2_word x Hx). pose proof (log2_word y Hy). lia.
Qed.

Lemma word_lxor x y : word x → word y → word (Z.lxor x y).
Proof.
  intros Hx Hy. pose proof Hx as [Hx0 _]. pose proof Hy as [Hy0 _].
  apply word_log2; [apply Z.lxor_nonneg; lia|].
  pose proof (Z.log2_lxor x y Hx0 Hy0). pose proof (log2_word x Hx). pose proof (log2_word y Hy). lia.
Qed.

Lemma exp_bits_word e : ∀ r b, word (exp_bits r b e).
Proof. induction e; intros; simpl; auto with go. Qed.

Lemma math_Exp_word b e : word (math_Exp b e).
Proof. destruct e; simpl; try apply exp_bits_word; unfold word, tt256; lia. Qed.

Lemma math_Byte_word x n : word (math_Byte x n).
Proof.
  unfold math_Byte. destruct (_ <=? _); [unfold word, tt256; lia|].
  change 0xff with (Z.ones 8). rewrite Z.land_ones by lia.
  pose proof (Z.mod_pos_bound (Z.shiftr x (8 * (31 - n))) (2 ^ 8)). unfold word, tt256. lia.
Qed.

#[export] Hint Resolve word_bool word_land word_lor word_lxor math_Exp_word math_Byte_word GetBalance_word : go.

(** ** Slices *)

Lemma subslice_ok bs i j : 0 <= i <= j → j <= len bs →
  subslice bs i j = Ok (take (Z.to_nat (j - i)) (drop (Z.to_nat i) bs)).
Proof.
  intros. unfold subslice. by rewrite (proj2 (Z.leb_le 0 i)), (proj2 (Z.leb_le i j)), (proj2 (Z.leb_le j _)) by lia.
Qed.

Lemma take_drop_bytes n m bs : Forall is_byte bs → Forall is_byte (take n (drop m bs)).
Proof. intros. by apply Forall_take, Forall_drop. Qed.

Lemma len_take_drop (bs : list Z) i j : 0 <= i <= j → j <= len bs →
  len (take (Z.to_nat (j - i)) (drop (Z.to_nat i) bs)) = j - i.
Proof. intros. unfold len in *. rewrite length_take, length_drop. lia. Qed.

Lemma zeros_bytes n : Forall is_byte (replicate n 0).
Proof. apply Forall_replicate. ranges. lia. Qed.

Lemma RightPadBytes_bytes bs l : Forall is_byte bs → Forall is_byte (RightPadBytes bs l).
Proof. intros. unfold RightPadBytes. destruct (_ <=? _); [done|]. apply Forall_app. auto using zeros_bytes. Qed.

Lemma LeftPadBytes_bytes bs l : Forall is_byte bs → Forall is_byte (LeftPadBytes bs l).
Proof. intros. unfold LeftPadBytes. destruct (_ <=? _); [done|]. apply Forall_app. auto using zeros_bytes. Qed.

Lemma len_RightPadBytes bs l : len bs <= l → len (RightPadBytes bs l) = l.
Proof.
  intros. unfold RightPadBytes. destruct (Z.leb_spec l (len bs)); [lia|].
  rewrite len_app. unfold len at 2. rewrite length_replicate. lia.
Qed.

#[export] Hint Resolve RightPadBytes_bytes LeftPadBytes_bytes take_drop_bytes zeros_bytes be_bytes_range : go.

(** [getDataBig] pads what it finds to the size asked for. *)
Lemma getDataBig_ok bs start size : Forall is_byte bs → len bs < 2 ^ 62 → 0 <= start → 0 <= size →
  ∃ d, getDataBig bs start size = Ok d ∧ Forall is_byte d ∧ (size < 2 ^ 63 → len d = size).
Proof.
  intros Hb Hl Hs Hz. unfold getDataBig. pose proof (len_nonneg bs).
  unfold Uint64_of. rewrite (uint64_id (Z.min start _)), (uint64_id (Z.min _ (len bs))) by (ranges; lia).
  rewrite subslice_ok by lia. eexists. split; [done|]. split; [by auto with go|].
  intros Hsz. rewrite (uint64_id size), int64_id by (ranges; lia). apply len_RightPadBytes.
  rewrite len_take_drop by lia. lia.
Qed.

Lemma getData_ok bs start size : Forall is_byte bs → len bs < 2 ^ 62 → 0 <= start → 0 <= size →
  size <= MaxUint64 - 2 ^ 62 →
  ∃ d, getData bs start size = Ok d ∧ Forall is_byte d ∧ (size < 2 ^ 63 → len d = size).
Proof.
  intros Hb Hl Hs Hz Hm. unfold getData. pose proof (len_nonneg bs).
  set (s := if len bs <? start then len bs else start).
  assert (0 <= s <= len bs) by (unfold s; destruct (Z.ltb_spec (len bs) start); lia).
  rewrite (uint64_id (s + size)) by (ranges; lia).
  set (e := if len bs <? s + size then len bs else s + size).
  assert (s <= e <= len bs ∧ e <= s + size) by (unfold e; destruct (Z.ltb_spec (len bs) (s + size)); lia).
  rewrite subslice_ok by lia. eexists. split; [done|]. split; [by auto with go|].
  intros Hsz. rewrite int64_id by (ranges; lia). apply len_RightPadBytes. rewrite len_take_drop by lia. lia.
Qed.

(** ** Memory *)

Abbreviation MaxMem := 0xffffffffe0.

Record mem_ok (m : Memory) : Prop := {
  mo_bytes : Forall is_byte (store m);
  mo_words : len (store m) mod 32 = 0;
  mo_max : len (store m) <= MaxMem;
  mo_fee : is_uint64 (lastGasCost m);
}.

(** A region of the memory, when it is not empty *)
Definition covers (m : Memory) (off l : Z) : Prop := 0 <= off ∧ 0 <= l ∧ (l = 0 ∨ off + l <= len (store m)).

Lemma calcMemSize_covers m off l : word off → word l → calcMemSize off l <= len (store m) → covers m off l.
Proof. unfold calcMemSize, covers. intros [? _] [? _]. destruct (Z.eqb_spec l 0); intuition lia. Qed.

Lemma mem_Get_ok m off l : mem_ok m → covers m off l →
  ∃ r, mem_Get m (Int64_of off) (Int64_of l) = Ok r ∧ some_bytes r ∧ len (default [] r) = l.
Proof.
  intros [Hb _ Hmax _] (Ho & Hl & Hc). unfold mem_Get, Int64_of.
  destruct (decide (l = 0)) as [->|Hne].
  { exists None. split; [done|]. split; [constructor|done]. }
  destruct Hc as [|Hc]; [done|]. rewrite !int64_id by (ranges; lia).
  destruct (Z.eqb_spec l 0); [done|]. rewrite (proj2 (Z.ltb_lt off _)) by lia.
  rewrite subslice_ok by lia. eexists. split; [done|]. split; [unfold some_bytes; simpl; by auto with go|].
  cbn [default from_option id]. rewrite len_take_drop; lia.
Qed.

Lemma length_write_at l i bs : (i + length bs <= length l)%nat → length (write_at l i bs) = length l.
Proof. intros. unfold write_at. rewrite !length_app, length_take, length_drop. lia. Qed.

Lemma write_at_bytes l i bs : Forall is_byte l → Forall is_byte bs → Forall is_byte (write_at l i bs).
Proof. intros. unfold write_at. rewrite !Forall_app. auto using Forall_take, Forall_drop. Qed.

Lemma mem_ok_write m i bs : mem_ok m → Forall is_byte bs → Z.of_nat (i + length bs) <= len (store m) →
  mem_ok (mkMemory (write_at (store m) i bs) (lastGasCost m)).
Proof.
  intros [Hb Hw Hmax Hf] Hbs Hlen. unfold len in Hlen.
  split; cbn [store lastGasCost]; [by apply write_at_bytes| | |done]; unfold len in *; by rewrite length_write_at by lia.
Qed.

Lemma mem_Set_ok m off l v : mem_ok m → covers m off l → Forall is_byte v →
  ∃ m', mem_Set m (Uint64_of off) (Uint64_of l) v = Ok m' ∧ mem_ok m' ∧ len (store m') = len (store m).
Proof.
  intros Hm (Ho & Hl & Hc) Hv. unfold mem_Set, Uint64_of. pose proof (mo_max m Hm).
  destruct (decide (l = 0)) as [->|Hne]; [by exists m|].
  destruct Hc as [|Hc]; [done|]. rewrite !(uint64_id off), !(uint64_id l) by (ranges; lia).
  rewrite (uint64_id (off + l)) by (ranges; lia). rewrite (proj2 (Z.ltb_lt 0 l)) by lia.
  rewrite (proj2 (Z.ltb_ge _ _)), (proj2 (Z.ltb_ge _ _)) by lia. cbn [orb].
  assert (Z.of_nat (Z.to_nat off + length (take (Z.to_nat l) v)) <= len (store m)) by (rewrite length_take; lia).
  eexists. split; [done|]. split; [apply mem_ok_write; [done|by apply Forall_take|done]|].
  unfold len in *. cbn [store]. rewrite length_write_at; lia.
Qed.

Lemma mem_Set32_ok m off v : mem_ok m → covers m off 32 →
  ∃ m', mem_Set32 m (Uint64_of off) v = Ok m' ∧ mem_ok m' ∧ len (store m') = len (store m).
Proof.
  intros Hm (Ho & _ & Hc). destruct Hc as [|Hc]; [done|]. unfold mem_Set32, Uint64_of. pose proof (mo_max m Hm).
  rewrite (uint64_id off) by (ranges; lia). rewrite (uint64_id (off + 32)) by (ranges; lia).
  rewrite (proj2 (Z.ltb_ge _ _)), (proj2 (Z.ltb_ge _ _)) by lia. cbn [orb].
  assert (Z.of_nat (Z.to_nat off + length (be_bytes 32 (Z.abs v))) <= len (store m)) by (rewrite length_be_bytes; lia).
  eexists. split; [done|]. split; [apply mem_ok_write; [done|apply be_bytes_range|done]|].
  unfold len in *. cbn [store]. rewrite length_write_at; lia.
Qed.

Lemma mem_store_byte_ok m off b : mem_ok m → covers m off 1 → is_byte b →
  ∃ m', mem_store_byte m (Int64_of off) b = Ok m' ∧ mem_ok m' ∧ len (store m') = len (store m).
Proof.
  intros [Hb Hw Hmax Hf] (Ho & _ & Hc) Hbyte. destruct Hc as [|Hc]; [done|].
  unfold mem_store_byte, Int64_of. rewrite int64_id by (ranges; lia).
  rewrite (proj2 (Z.leb_le 0 off)), (proj2 (Z.ltb_lt off _)) by lia. cbn [andb].
  eexists. split; [done|]. assert (∀ l : list Z, len (<[Z.to_nat off:=b]> l) = len l) as Hlen
    by (intros; unfold len; by rewrite length_insert).
  split; [split; cbn [store lastGasCost]|cbn [store]; by rewrite Hlen]; rewrite ?Hlen; [|done..].
  by apply Forall_insert.
Qed.

(** ** Contracts, the EVM, frames

    [G] bounds the gas of an execution. *)

Section ok.
Context `{HH : EvmHost} {I : DbInv} (G : Z).

Record contract_ok (c : Contract) : Prop := {
  ko_Gas : 0 <= Gas c <= G;
  ko_Code : Forall is_byte (Code c);
  ko_Code_len : len (Code c) < 2 ^ 62;
  ko_Input : Forall is_byte (Input c);
  ko_Input_len : len (Input c) < 2 ^ 62;
  ko_value : word (value c);
  ko_CodeHash : Code c ≠ [] → CodeHash c = Keccak256 (Code c);
  ko_self : bytes_of 20 (self c);
  ko_Caller : bytes_of 20 (CallerAddress c);
}.

Record evm_ok (e : EVM) : Prop := {
  eo_returnData : Forall is_byte (returnData e);
  eo_jumpdests : dests_ok Keccak256 (jumpdests e);
  eo_running : panicked e = None;
  eo_db : db_inv (StateDB e);
}.

Record frame_ok (f : Frame) : Prop := {
  fo_stack : Forall word (stack f);
  fo_len : len (stack f) <= StackLimit;
  fo_memory : mem_ok (memory f);
  fo_contract : contract_ok (contract f);
  fo_evm : evm_ok (evm f);
  fo_pc : is_uint64 (pc f);
}.

(** The jump destinations kept under the hash of a contract's code are those of
    another code with the same hash. *)
Definition clash (c : Contract) (e : EVM) : Prop :=
  ∃ other bits, jumpdests e !! CodeHash c = Some bits ∧ codeBitmap other = Ok bits
                ∧ other ≠ Code c ∧ Keccak256 other = Keccak256 (Code c).

(** What a panic needs: such a clash in the frame of the panic, or more gas
    than a block can hold by far *)
Definition Excuse (e : EVM) : Prop := 2 ^ 60 < G ∨ ∃ c, panicked e = Some c ∧ clash c e.
Definition frame_Excuse (f : Frame) : Prop :=
  Excuse (evm f) ∨ (panicked (evm f) = None ∧ clash (contract f) (evm f)).

(** What does not change between two states of the EVM *)
Definition same_level (e e' : EVM) : Prop := depth e' = depth e ∧ readOnly e' = readOnly e.
End ok.
