(* ===== verification/EvmSafeOps.v ===== *)
(** * The EVM: instructions keep frames well formed

    An instruction whose stack was checked and whose memory was paid for and
    resized does not panic and leaves a well-formed frame with no more gas.
    This file has the instructions that do not call other contracts. *)

From S2P Require Import Prelude Checked EvmBase EvmAnalysis EvmInstr EvmGas EvmPrecompiled EvmRun EvmLogic.
#[local] Open Scope Z_scope.
#[local] Set Default Goal Selector "!".
#[local] Set Warnings "-clear-no-such-hyp".

Section ops.
Context `{HK : HostOk} {I : DbInv} {KI : Kept I} (ctx : EvmContext) (Hctx : ctx_ok ctx) (G : Z) (HG : G <= MaxUint64).
Context (Run : Contract → list Z → EVM → RunResult).

(** What the interpreter has checked before it executes an instruction *)
Definition ready (op : OpCode) (f : Frame) : Prop :=
  validateStack (jump_table op) (stack f) = None ∧
  match memorySize (jump_table op) with
  | None => True
  | Some size => ∃ s, size (stack f) = Ok s ∧ s <= len (store (memory f))
  end.

(** The outcome of an instruction that started in [f] and may leave at most [B] gas *)
Definition op_post (B : Z) (f : Frame) (p : outcome evm_err (option (list Z)) * Frame) : Prop :=
  match p.1 with
  | Ok res => some_bytes res ∧ frame_ok G p.2 ∧ Gas (contract p.2) <= B ∧ same_level (evm f) (evm p.2)
  | Err _ => frame_ok G p.2 ∧ Gas (contract p.2) <= B ∧ same_level (evm f) (evm p.2)
  | Panic => frame_Excuse G p.2
  | Fuel => False
  end.

Abbreviation op_safe f m := (op_post (Gas (contract f)) f (m f)).

(** The end of an instruction that changed the stack and the memory *)
Lemma op_done f st m p res : frame_ok G f → some_bytes res → Forall word st → len st <= StackLimit → mem_ok m →
  is_uint64 p → op_post (Gas (contract f)) f (Ok res, mkFrame p (contract f) m st (evm f)).
Proof.
  intros [] ?????. unfold op_post. cbn [fst snd]. split; [done|]. split; [by split|]. split; [done|]. by split.
Qed.

Lemma op_done_evm f st e : frame_ok G f → Forall word st → len st <= StackLimit → evm_ok e →
  same_level (evm f) e → op_post (Gas (contract f)) f (Ok None, mkFrame (pc f) (contract f) (memory f) st e).
Proof.
  intros [] ????. unfold op_post. cbn [fst snd]. split; [constructor|]. split; [by split|]. split; [done|]. done.
Qed.

Lemma op_fail f st e err : frame_ok G f → Forall word st → len st <= StackLimit → evm_ok e →
  same_level (evm f) e → op_post (Gas (contract f)) f (Err err, mkFrame (pc f) (contract f) (memory f) st e).
Proof.
  intros [] ????. unfold op_post. cbn [fst snd]. split; [by split|]. split; [done|]. done.
Qed.

Lemma makeStackFunc_ok pops pushes st : makeStackFunc pops pushes st = None →
  pops <= len st ∧ len st + pushes - pops <= StackLimit.
Proof. unfold makeStackFunc. destruct (Z.ltb_spec (len st) pops); [done|]. destruct (Z.ltb_spec StackLimit (len st + pushes - pops)); [done|lia]. Qed.

(** The checks on the stack, as lengths *)
Ltac open_stack :=
  match goal with
  | Hv : validateStack (jump_table _) _ = None |- _ =>
      cbn [jump_table const plain validateStack] in Hv;
      unfold makeDupStackFunc, makeSwapStackFunc in Hv;
      apply makeStackFunc_ok in Hv as [? ?]
  end.

(** Taking apart a stack that is long enough *)
Ltac take_item st :=
  destruct st as [|? st]; [exfalso; unfold len in *; cbn [length] in *; lia|].
Ltac take_items n st :=
  lazymatch n with O => idtac | S ?k => take_item st; take_items k st end.

Ltac open_frame :=
  let Hv := fresh "Hv" in let st := fresh "st" in
  intros Hok [Hv Hm]; pose proof Hok as [Hst Hlen Hmem Hc He Hp];
  match goal with f : Frame |- _ => destruct f as [p c m st e] end;
  cbn [pc contract memory stack evm] in *; open_stack;
  match goal with H : ?k <= len st |- _ => let n := eval compute in (Z.to_nat k) in take_items n st end;
  repeat match goal with Hw : Forall word (_ :: _) |- _ => apply Forall_cons in Hw as [? ?] end.

(** Running the monad *)
Ltac run_op :=
  cbv beta iota zeta delta [xbind xret xthrow xlift xgets xmodify xdb pop push peek Back poke swap dup done
    on_memory memory_Get with_stack with_pc with_memory with_evm with_contract db_of
    pc contract memory stack evm]; cbn [lookup list_lookup].

Ltac case_if :=
  match goal with
  | |- context [if ?b then _ else _] => match type of b with bool => destruct b eqn:? end
  end.

Ltac unfold_op :=
  cbn [execute]; unfold opStop, opAdd, opMul, opSub, opDiv, opSdiv, opMod, opSmod, opAddmod, opMulmod, opExp,
    opSignExtend, opLt, opGt, opSlt, opSgt, opEq, opIszero, opAnd, opOr, opXor, opNot, opByte, opSHL, opSHR, opSAR,
    opSha3, opAddress, opBalance, opOrigin, opCaller, opCallValue, opCallDataLoad, opCallDataSize, opCallDataCopy,
    opCodeSize, opCodeCopy, opGasprice, opExtCodeSize, opExtCodeCopy, opReturnDataSize, opReturnDataCopy,
    opExtCodeHash, opBlockhash, opCoinbase, opTimestamp, opNumber, opDifficulty, opGasLimit, opPop, opMload,
    opMstore, opMstore8, opSload, opSstore, opJump, opJumpi, opPc, opMsize, opGas, opJumpdest, opReturn, opRevert,
    opSuicide, copy_data.

Ltac small := unfold len in *; cbn [length] in *; lia.

Lemma some_bytes_None : some_bytes None.
Proof. apply Forall_nil_2. Qed.

(** ** Words on the stack *)

Lemma word_if (b : bool) x y : word x → word y → word (if b then x else y).
Proof. by destruct b. Qed.
Lemma word_0 : word 0.
Proof. unfold word, tt256. lia. Qed.
Lemma word_1 : word 1.
Proof. unfold word, tt256. lia. Qed.
Lemma word_len (l : list Z) : len l < 2 ^ 62 → word (int64 (len l)).
Proof. intros. pose proof (len_nonneg l). rewrite int64_id by (ranges; lia). apply word_small. lia. Qed.
Lemma word_gas c : contract_ok G c → word (Gas c).
Proof using HG. intros []. apply word_uint64. ranges. lia. Qed.

Hint Resolve word_if word_0 word_1 word_len word_gas ko_value ko_Code_len ko_Input_len uint64_range word_uint64 : go.
Hint Resolve ko_self ko_Caller co_Origin co_Coinbase co_GetHash co_GasPrice GetCodeHash_bytes GetState_bytes
  Keccak256_bytes : go.
Lemma SetBytes_20 bs : bytes_of 20 bs → word (SetBytes bs).
Proof. intros. apply (SetBytes_of 20); [done|lia]. Qed.
Lemma SetBytes_32 bs : bytes_of 32 bs → word (SetBytes bs).
Proof. intros. apply (SetBytes_of 32); [done|lia]. Qed.
Hint Resolve SetBytes_20 SetBytes_32 : go.

Ltac stack_words := repeat (apply Forall_cons; split); eauto with go.

Ltac finish_op :=
  match goal with Hok : frame_ok _ _ |- _ =>
    apply (op_done _ _ _ _ _ Hok); [try done; constructor|stack_words|small|done|done] end.

(** Instructions on the stack alone *)
Definition on_stack (op : OpCode) : bool :=
  match op with
  | STOP | ADD | MUL | SUB | DIV | SDIV | MOD | SMOD | ADDMOD | MULMOD | EXP | SIGNEXTEND
  | LT | GT | SLT | SGT | EQ | ISZERO | AND | OR | XOR | NOT | BYTE | SHL | SHR | SAR
  | ADDRESS | BALANCE | ORIGIN | CALLER | CALLVALUE | CALLDATASIZE | CODESIZE | GASPRICE | EXTCODESIZE
  | RETURNDATASIZE | EXTCODEHASH | BLOCKHASH | COINBASE | TIMESTAMP | NUMBER | DIFFICULTY | GASLIMIT
  | POP | SLOAD | PC | GAS | JUMPDEST => true
  | _ => false
  end.

Lemma on_stack_safe op f : on_stack op = true → frame_ok G f → ready op f → op_safe f (execute ctx Run op).
Proof.
  destruct op; try done; intros _; open_frame; clear Hm; unfold_op; run_op; repeat (case_if; run_op); finish_op.
Qed.

(** ** Memory and data *)

Lemma region_covers m off l s : word off → word l → Ok (calcMemSize off l) = @Ok evm_err Z s → s <= len (store m) →
  covers m off l.
Proof. intros ?? [= <-] ?. by apply calcMemSize_covers. Qed.

Lemma word_32 : word 32.
Proof. unfold word, tt256. lia. Qed.
Hint Resolve word_32 : go.

(** The region that the size of the memory was computed from *)
Ltac open_region Hm :=
  cbn [jump_table plain memorySize] in Hm; destruct Hm as (s & Hs & Hle);
  cbv beta iota zeta delta [memorySha3 memoryCallDataCopy memoryReturnDataCopy memoryCodeCopy memoryExtCodeCopy
    memoryMLoad memoryMStore8 memoryMStore memoryReturn memoryRevert memoryLog mem_region at_stack obind] in Hs;
  cbn [lookup list_lookup] in Hs;
  apply (λ w1 w2, region_covers _ _ _ _ w1 w2 Hs) in Hle; [|eauto with go..].

(** Reading the region *)
Ltac read_region :=
  match goal with
  | Hle : covers ?m ?off ?l |- context [mem_Get ?m ?o ?s] =>
      destruct (mem_Get_ok m off l ltac:(assumption) Hle) as (r & Hr & Hrb & Hrl);
      change o with (Int64_of off); change s with (Int64_of l); rewrite Hr
  end.

Lemma some_bytes_word r : some_bytes r → len (default [] r) = 32 → word (SetBytes (default [] r)).
Proof. intros. apply SetBytes_word; [done|lia]. Qed.
Hint Resolve some_bytes_word : go.

Definition reads_memory (op : OpCode) : bool :=
  match op with SHA3 | MLOAD | RETURN | REVERT => true | _ => false end.

Lemma reads_memory_safe op f : reads_memory op = true → frame_ok G f → ready op f → op_safe f (execute ctx Run op).
Proof.
  destruct op; try done; intros _; open_frame; open_region Hm; unfold_op; run_op; read_region; run_op; finish_op.
Qed.

(** Writing data to the region *)
Lemma store_ok f st off l v : frame_ok G f → Forall word st → len st <= StackLimit → covers (memory f) off l →
  Forall is_byte v →
  op_post (Gas (contract f)) f
    (xbind (on_memory (λ m, mem_Set m (Uint64_of off) (Uint64_of l) v)) (λ _, done) (with_stack st f)).
Proof.
  intros Hok Hst Hlen Hc Hv. destruct f as [p c m st0 e]. pose proof Hok as [_ _ Hmem _ _ Hp]. cbn [memory] in *.
  run_op. destruct (mem_Set_ok m off l v Hmem Hc Hv) as (m' & -> & Hm' & _).
  apply (op_done _ _ _ _ _ Hok); [constructor|done..].
Qed.

Lemma copy_safe f st d off doff l : frame_ok G f → Forall word st → len st <= StackLimit → covers (memory f) off l →
  0 <= doff → Forall is_byte d → len d < 2 ^ 62 →
  op_post (Gas (contract f)) f (copy_data d off doff l (with_stack st f)).
Proof.
  intros Hok Hst Hlen Hc Hdo Hd Hdl. unfold copy_data. unfold xlift, xbind at 1.
  destruct (getDataBig_ok d doff l Hd Hdl Hdo ltac:(by destruct Hc as (_ & ? & _))) as (v & -> & Hv & _).
  by apply store_ok.
Qed.

Lemma word_nonneg x : word x → 0 <= x.
Proof. by intros [? _]. Qed.
Hint Resolve word_nonneg GetCode_bytes GetCode_len ko_Code ko_Input : go.

Definition copies (op : OpCode) : bool :=
  match op with CALLDATACOPY | CODECOPY | EXTCODECOPY => true | _ => false end.

Lemma copies_safe op f : copies op = true → frame_ok G f → ready op f → op_safe f (execute ctx Run op).
Proof.
  destruct op; try done; intros _; open_frame; open_region Hm; cbn [execute];
    unfold opCallDataCopy, opCodeCopy, opExtCodeCopy; run_op;
    match goal with |- op_post _ ?f (copy_data _ _ _ _ (mkFrame _ _ _ ?st _)) =>
      apply (copy_safe f st); eauto with go; small end.
Qed.

Lemma calldataload_safe f : frame_ok G f → ready CALLDATALOAD f → op_safe f (execute ctx Run CALLDATALOAD).
Proof.
  open_frame. clear Hm. unfold_op. run_op.
  destruct (getDataBig_ok (Input c) z 32) as (d & -> & Hd & Hl); [eauto with go..|lia|].
  finish_op. apply SetBytes_word; [done|]. rewrite Hl; lia.
Qed.

Lemma returndatacopy_safe f : frame_ok G f → ready RETURNDATACOPY f → op_safe f (execute ctx Run RETURNDATACOPY).
Proof.
  open_frame. open_region Hm. unfold_op. run_op.
  assert (0 <= z0 ∧ 0 <= z1) as [? ?] by eauto with go.
  destruct (_ || _) eqn:Eb.
  { apply (op_fail _ _ _ _ Hok); [done|small|done|done]. }
  apply orb_false_iff in Eb as [E1%Z.ltb_ge E2%Z.ltb_ge]. apply BitLen_le in E1; [|lia..].
  unfold Uint64_of in E2 |- *. rewrite uint64_id in E2 by (ranges; lia).
  rewrite (uint64_id z0), (uint64_id (z0 + z1)) by (ranges; lia). rewrite subslice_ok by lia.
  apply (store_ok _ st z z1 _ Hok); [done|small|done|]. apply take_drop_bytes, eo_returnData. done.
Qed.

Lemma mstore_safe f : frame_ok G f → ready MSTORE f → op_safe f (execute ctx Run MSTORE).
Proof.
  open_frame. open_region Hm. unfold_op. run_op.
  destruct (mem_Set32_ok m z z0) as (m' & -> & Hm' & _); [done..|]. finish_op.
Qed.

Lemma mstore8_safe f : frame_ok G f → ready MSTORE8 f → op_safe f (execute ctx Run MSTORE8).
Proof.
  open_frame. open_region Hm. unfold_op. run_op.
  destruct (mem_store_byte_ok m z (Z.land (Int64_of z0) 0xff)) as (m' & -> & Hm' & _); [done..| |finish_op].
  change 0xff with (Z.ones 8). rewrite Z.land_ones by lia.
  pose proof (Z.mod_pos_bound (Int64_of z0) (2 ^ 8) ltac:(lia)). ranges. lia.
Qed.

Lemma msize_safe f : frame_ok G f → ready MSIZE f → op_safe f (execute ctx Run MSIZE).
Proof.
  open_frame. clear Hm. unfold_op. run_op. finish_op. apply word_len. pose proof (mo_max m Hmem). lia.
Qed.

(** ** Jumps *)

Lemma jumpdest_has_ok f pos : contract_ok G (contract f) → evm_ok (evm f) → 0 <= pos →
  (∃ b d, jumpdest_has pos f = (Ok b, with_evm (set_jumpdests d (evm f)) f) ∧ dests_ok Keccak256 d)
  ∨ (jumpdest_has pos f = (Panic, f) ∧ frame_Excuse G f).
Proof.
  intros Hc He Hpos. unfold jumpdest_has. pose proof (eo_jumpdests _ He) as Hd.
  destruct (decide (Code (contract f) = [])) as [Hnil|Hne].
  - left. rewrite Hnil. unfold has.
    assert ((len [] <=? Uint64_of pos) = true) as ->.
    { apply Z.leb_le. pose proof (uint64_range pos). ranges. unfold len, Uint64_of. simpl. lia. }
    rewrite orb_true_r. eauto.
  - pose proof (ko_CodeHash _ _ Hc Hne) as Hh. rewrite Hh.
    pose proof (has_safe Keccak256 (jumpdests (evm f)) (Code (contract f)) pos Hd Hpos (ko_Code_len _ _ Hc)) as Hs.
    destruct (has _ _ _ _) as [[b d]|?| |]; [by eauto|done| |done].
    right. split; [done|]. right. split; [by apply eo_running|].
    destruct Hs as (other & bits & ? & ? & ? & ?). exists other, bits. by rewrite Hh.
Qed.

Lemma evm_ok_jumpdests e d : evm_ok e → dests_ok Keccak256 d → evm_ok (set_jumpdests d e).
Proof. intros [] ?. by split. Qed.

(** A jump, from a frame with part of the stack taken off *)
Lemma jump_to_safe f st pos : frame_ok G f → Forall word st → len st <= StackLimit → 0 <= pos →
  op_post (Gas (contract f)) f (xbind (jump_to pos) (λ _, done) (with_stack st f)).
Proof.
  intros Hok Hst Hlen Hpos. pose proof Hok as [_ _ Hmem Hc He Hp]. unfold jump_to.
  assert (Hf : ∀ b d, dests_ok Keccak256 d → op_post (Gas (contract f)) f
    (xbind (if negb b then xthrow ErrInvalidJump else xmodify (with_pc (Uint64_of pos))) (λ _, done)
       (with_evm (set_jumpdests d (evm f)) (with_stack st f)))).
  { intros b d Hd. pose proof (evm_ok_jumpdests (evm f) d He Hd) as He'. destruct b; cbn [negb].
    - unfold op_post. run_op. cbn [fst snd contract evm]. split; [constructor|].
      split; [split; try done; apply uint64_range|]. by split.
    - by apply (op_fail f st (set_jumpdests d (evm f)) ErrInvalidJump Hok). }
  unfold xbind at 1 2. destruct (jumpdest_has_ok (with_stack st f) pos Hc He Hpos) as [(b & d & -> & Hd)|[-> Hx]].
  - by apply Hf.
  - done.
Qed.

Lemma jump_safe f : frame_ok G f → ready JUMP f → op_safe f (execute ctx Run JUMP).
Proof. open_frame. cbn [execute]. unfold opJump. apply (jump_to_safe _ st z Hok); [done|small|eauto with go]. Qed.

Lemma jumpi_safe f : frame_ok G f → ready JUMPI f → op_safe f (execute ctx Run JUMPI).
Proof.
  open_frame. cbn [execute]. unfold opJumpi. unfold pop, xbind at 1 2, with_stack. cbn [stack pc contract memory evm].
  destruct (negb _).
  - apply (jump_to_safe _ st z Hok); [done|small|eauto with go].
  - run_op. apply (op_done _ _ _ _ _ Hok); [apply some_bytes_None|done|small|done|apply uint64_range].
Qed.

(** ** Storage, logs, pushes *)

Lemma evm_ok_db e d : evm_ok e → db_inv d → evm_ok (set_db d e).
Proof. intros [] ?. by split. Qed.

Lemma sstore_safe f : frame_ok G f → ready SSTORE f → op_safe f (execute ctx Run SSTORE).
Proof. open_frame. unfold_op. run_op. apply (op_done_evm _ _ _ Hok); [done|small| |done].
  apply evm_ok_db; [done|]. apply kept_SetState, He. Qed.

Lemma selfdestruct_safe f : frame_ok G f → ready SELFDESTRUCT f → op_safe f (execute ctx Run SELFDESTRUCT).
Proof.
  open_frame. unfold_op. run_op. apply (op_done_evm _ _ _ Hok); [done|small| |done].
  destruct He. split; cbn; try done. by apply kept_Suicide.
Qed.

Lemma pop_topics_ok n : ∀ f, (n <= length (stack f))%nat →
  ∃ ts, pop_topics n f = (Ok ts, with_stack (drop n (stack f)) f).
Proof.
  induction n as [|n IH]; intros [p c m st e] Hn; cbn [stack] in *; [by exists []|].
  destruct st as [|x st]; [simpl in Hn; lia|]. cbn [pop_topics]. unfold xbind, pop. cbn [stack].
  destruct (IH (with_stack st (mkFrame p c m (x :: st) e))) as (ts & ->); [simpl in *; lia|]. eexists. done.
Qed.

Lemma log_safe n f : frame_ok G f → ready (LOG n) f → op_safe f (execute ctx Run (LOG n)).
Proof.
  intros Hok [Hv Hm]. pose proof Hok as [Hst Hlen Hmem Hc He Hp]. destruct f as [p c m st e].
  cbn [pc contract memory stack evm] in *. open_stack. take_items 2%nat st.
  apply Forall_cons in Hst as [? Hst]. apply Forall_cons in Hst as [? Hst].
  open_region Hm. cbn [execute]. unfold makeLog.
  unfold pop at 1 2, xbind at 1 2 3, with_stack. cbn [stack pc contract memory evm].
  destruct (pop_topics_ok n (mkFrame p c m st e)) as (ts & ->); [cbn [stack]; small|].
  run_op. read_region. run_op. apply (op_done_evm _ _ _ Hok).
  - by apply Forall_drop.
  - unfold len in *. rewrite length_drop. cbn [length] in *. lia.
  - apply evm_ok_db; [done|]. apply kept_AddLog, He.
  - done.
Qed.

(** The arguments of the numbered instructions, from the codes *)
Lemma op_row_elem row ops b op : op_row row ops b = Some op → op ∈ ops.
Proof. unfold op_row. destruct (_ <=? _); [|done]. apply list_elem_of_lookup_2. Qed.

Definition numbered_ok (op : OpCode) : Prop :=
  match op with PUSH n => (1 <= n <= 32)%nat | DUP n => (1 <= n <= 16)%nat | SWAP n => (1 <= n <= 16)%nat
  | LOG n => (n <= 4)%nat | _ => True end.

Lemma opcode_of_numbered b op : opcode_of b = Some op → numbered_ok op.
Proof.
  assert (Hrow : ∀ row ops, Forall numbered_ok ops → op_row row ops b = Some op → numbered_ok op).
  { intros row ops Hf Hr%op_row_elem. rewrite Forall_forall in Hf. by apply Hf. }
  unfold opcode_of. intros Hop.
  repeat match type of Hop with
  | (if ?c then _ else _) = _ => destruct c eqn:?
  | op_row _ _ _ = _ => apply Hrow in Hop; [exact Hop|repeat constructor]
  end; try done; injection Hop as <-; cbn [numbered_ok]; lia.
Qed.

Lemma GetOp_inside c n op : contract_ok G c → 0 <= n → GetOp c n = Some op → op ≠ STOP → n < len (Code c).
Proof.
  intros Hc Hn. unfold GetOp, GetByte. destruct (Z.ltb_spec n (len (Code c))); [done|].
  unfold opcode_of, op_row. simpl. intros [= <-]. done.
Qed.

Lemma push_safe n f : frame_ok G f → pc f < len (Code (contract f)) → (n <= 32)%nat → ready (PUSH n) f →
  op_safe f (execute ctx Run (PUSH n)).
Proof.
  intros Hok Hpc Hn. revert Hok Hpc. intros Hok Hpc [Hv _]. pose proof Hok as [Hst Hlen Hmem Hc He Hp].
  destruct f as [p c m st e]. cbn [pc contract memory stack evm] in *. open_stack.
  cbn [execute]. unfold makePush. run_op.
  pose proof (ko_Code_len _ _ Hc). pose proof (ko_Code _ _ Hc) as Hb.
  rewrite (uint64_id (p + 1)), (int64_id (p + 1)) by (ranges; lia).
  set (a := if p + 1 <? len (Code c) then p + 1 else len (Code c)).
  set (b := if a + Z.of_nat n <? len (Code c) then a + Z.of_nat n else len (Code c)).
  assert (0 <= a <= b ∧ b <= len (Code c) ∧ b - a <= Z.of_nat n) as (? & ? & ?).
  { unfold b, a. ranges. zcases; lia. }
  rewrite subslice_ok by lia.
  apply (op_done _ _ _ _ _ Hok); [apply some_bytes_None| |small|done|apply uint64_range].
  apply Forall_cons. split; [|done]. apply SetBytes_word; [by auto with go|].
  rewrite len_RightPadBytes; [lia|]. rewrite len_take_drop; lia.
Qed.

Lemma dup_safe n f : frame_ok G f → (1 <= n)%nat → ready (DUP n) f → op_safe f (execute ctx Run (DUP n)).
Proof.
  intros Hok Hn [Hv _]. pose proof Hok as [Hst Hlen Hmem Hc He Hp].
  destruct f as [p c m st e]. cbn [pc contract memory stack evm] in *. open_stack.
  cbn [execute]. unfold makeDup. run_op.
  destruct (lookup_lt_is_Some_2 st (n - 1)) as [x Hx]; [unfold len in *; lia|]. rewrite Hx.
  apply (op_done _ _ _ _ _ Hok); [apply some_bytes_None| |small|done|done].
  apply Forall_cons. split; [|done]. rewrite Forall_forall in Hst. by eapply Hst, list_elem_of_lookup_2.
Qed.

Lemma swap_safe n f : frame_ok G f → (1 <= n)%nat → ready (SWAP n) f → op_safe f (execute ctx Run (SWAP n)).
Proof.
  intros Hok Hn [Hv _]. pose proof Hok as [Hst Hlen Hmem Hc He Hp].
  destruct f as [p c m st e]. cbn [pc contract memory stack evm] in *. open_stack.
  cbn [execute]. unfold makeSwap. run_op.
  destruct (lookup_lt_is_Some_2 st (n + 1 - 1)) as [x Hx]; [unfold len in *; lia|].
  destruct (lookup_lt_is_Some_2 st 0) as [y Hy]; [unfold len in *; lia|]. rewrite Hx, Hy.
  rewrite Forall_forall in Hst.
  apply (op_done _ _ _ _ _ Hok); [apply some_bytes_None| | |done|done].
  - do 2 (apply Forall_insert; [|by eapply Hst, list_elem_of_lookup_2]). by apply Forall_forall.
  - unfold len in *. by rewrite !length_insert.
Qed.

(** ** All of them *)

Definition calls (op : OpCode) : bool :=
  match op with CREATE | CREATE2 | CALL | CALLCODE | DELEGATECALL | STATICCALL => true | _ => false end.

Lemma quiet_safe op f : calls op = false → frame_ok G f → GetOp (contract f) (pc f) = Some op → ready op f →
  op_safe f (execute ctx Run op).
Proof.
  intros Hcalls Hok Hop Hr. assert (op ≠ STOP → pc f < len (Code (contract f))) as Hin.
  { pose proof (fo_pc _ _ Hok). apply GetOp_inside; [by apply Hok|ranges; lia|done]. }
  apply opcode_of_numbered in Hop. destruct op; try discriminate Hcalls; cbn [numbered_ok] in Hop;
    first [by apply on_stack_safe|by apply reads_memory_safe|by apply copies_safe|by apply calldataload_safe
          |by apply returndatacopy_safe|by apply mstore_safe|by apply mstore8_safe|by apply msize_safe
          |by apply jump_safe|by apply jumpi_safe|by apply sstore_safe|by apply selfdestruct_safe|by apply log_safe
          |apply push_safe; [done|by apply Hin|lia|done]|apply dup_safe; [done|lia|done]|apply swap_safe; [done|lia|done]].
Qed.
End ops.
