(* ===== verification/EvmSafeGas.v ===== *)
(** * The EVM: charging for instructions

    A gas function reads operands that are on the stack, changes neither the
    stack nor the contract nor the bytes of the memory, and asks for at least
    one unit of gas unless the instruction ends the execution.  What a call
    instruction hands to the contract it calls is part of its price, and with
    the stipend still less than the price. *)

From S2P Require Import Prelude Checked EvmBase EvmAnalysis EvmInstr EvmGas EvmPrecompiled EvmRun EvmLogic EvmSafeOps.
#[local] Open Scope Z_scope.
#[local] Set Default Goal Selector "!".
#[local] Set Warnings "-clear-no-such-hyp".

Lemma SafeAdd_ok a b : is_uint64 a → is_uint64 b → SafeAdd a b = (uint64 (a + b), negb (a + b <=? MaxUint64)).
Proof. intros. unfold SafeAdd. f_equal. ranges. zcases; simpl; done || lia. Qed.

Lemma SafeMul_ok a b : is_uint64 a → is_uint64 b → ∀ p, SafeMul a b = (p, false) → p = a * b ∧ is_uint64 p.
Proof.
  intros Ha Hb p. unfold SafeMul. destruct (Z.eqb_spec a 0) as [->|Hna]; [intros [= <-]; ranges; lia|].
  destruct (Z.eqb_spec b 0) as [->|Hnb]; cbn [orb]; [intros [= <-]; ranges; lia|].
  destruct (Z.ltb_spec (MaxUint64 / a) b); intros [= <-]. ranges.
  assert (a * b <= MaxUint64).
  { pose proof (Z.mul_div_le MaxUint64 a ltac:(lia)). nia. }
  rewrite uint64_id by (ranges; nia). nia.
Qed.

Lemma toWordSize_range s : 0 <= s → is_uint64 (toWordSize s).
Proof.
  intros. unfold toWordSize. ranges. destruct (Z.ltb_spec (MaxUint64 - 31) s).
  - vm_compute. split; discriminate.
  - split; [apply Z.div_pos; lia|]. apply Z.div_le_upper_bound; lia.
Qed.

(** Whole words *)
Lemma toWordSize_words s : 0 <= s <= MaxUint64 - 31 → s <= toWordSize s * 32 <= s + 31.
Proof.
  intros. unfold toWordSize. rewrite (proj2 (Z.ltb_ge _ _)) by lia.
  pose proof (Z.div_mod (s + 31) 32 ltac:(lia)). pose proof (Z.mod_pos_bound (s + 31) 32 ltac:(lia)). lia.
Qed.

Section gas.
Context `{HK : HostOk} {I : DbInv} {KI : Kept I} (G : Z).

(** What a gas function leaves alone *)
Definition charged (f f1 : Frame) : Prop :=
  pc f1 = pc f ∧ contract f1 = contract f ∧ stack f1 = stack f ∧ store (memory f1) = store (memory f)
  ∧ is_uint64 (lastGasCost (memory f1)) ∧ evm_ok (evm f1) ∧ same_level (evm f) (evm f1).

Lemma charged_refl f : frame_ok G f → charged f f.
Proof. intros [_ _ [] _ ? _]. unfold charged, same_level. by split_and!. Qed.

(** A gas function started in [f] (in a frame charged since [f0]) *)
Definition gsafe {A} (f0 : Frame) (m : X A) (Q : A → Frame → Prop) (f : Frame) : Prop :=
  match m f with
  | (Ok a, f1) => Q a f1
  | (Err _, f1) => charged f0 f1
  | _ => False
  end.

Lemma gsafe_bind {A B} f0 (m : X A) (k : A → X B) Q f :
  gsafe f0 m (λ a, gsafe f0 (k a) Q) f → gsafe f0 (xbind m k) Q f.
Proof. unfold gsafe, xbind. by destruct (m f) as [[a|e| |] f1]. Qed.

Lemma gsafe_mono {A} f0 (m : X A) (Q Q' : A → Frame → Prop) f :
  gsafe f0 m Q f → (∀ a f1, Q a f1 → Q' a f1) → gsafe f0 m Q' f.
Proof. unfold gsafe. destruct (m f) as [[a|e| |] f1]; naive_solver. Qed.

Lemma gsafe_ret {A} f0 (a : A) (Q : A → Frame → Prop) f : Q a f → gsafe f0 (xret a) Q f.
Proof. done. Qed.

Lemma gsafe_gets {A} f0 (g : Frame → A) (Q : A → Frame → Prop) f : Q (g f) f → gsafe f0 (xgets g) Q f.
Proof. done. Qed.

Lemma gsafe_Back f0 n (Q : Z → Frame → Prop) f x : stack f !! n = Some x → Q x f → gsafe f0 (Back n) Q f.
Proof. unfold gsafe, Back. by intros ->. Qed.

Lemma gsafe_add f0 a b (Q : Z → Frame → Prop) f : charged f0 f → is_uint64 a → is_uint64 b →
  (is_uint64 (a + b) → Q (a + b) f) → gsafe f0 (add_gas a b) Q f.
Proof.
  intros Hc Ha Hb HQ. unfold gsafe, add_gas. rewrite SafeAdd_ok by done.
  destruct (Z.leb_spec (a + b) MaxUint64); simpl; [|done]. rewrite uint64_id by (ranges; lia). apply HQ. ranges. lia.
Qed.

Lemma gsafe_mul f0 a b (Q : Z → Frame → Prop) f : charged f0 f → is_uint64 a → is_uint64 b →
  (∀ p, is_uint64 p → Q p f) → gsafe f0 (mul_gas a b) Q f.
Proof.
  intros Hc Ha Hb HQ. unfold gsafe, mul_gas. destruct (SafeMul a b) as [p [|]] eqn:E; [done|].
  apply SafeMul_ok in E as [_ ?]; [|done..]. by apply HQ.
Qed.

Lemma gsafe_back_uint64 f0 n (Q : Z → Frame → Prop) f x : charged f0 f → stack f !! n = Some x →
  (∀ u, is_uint64 u → Q u f) → gsafe f0 (back_uint64 n) Q f.
Proof.
  intros Hc Hx HQ. unfold back_uint64. apply gsafe_bind, (gsafe_Back _ _ _ _ x Hx).
  unfold bigUint64. destruct (_ <? _); [done|]. apply HQ, uint64_range.
Qed.

(** The memory is paid for up to [m]. *)
Lemma gsafe_memory f0 m (Q : Z → Frame → Prop) f : charged f0 f →
  (∀ g f1, charged f0 f1 → stack f1 = stack f → contract f1 = contract f → is_uint64 g → m <= MaxMem → Q g f1) →
  gsafe f0 (memoryGasCost m) Q f.
Proof.
  intros Hc HQ. pose proof Hc as (Hp & Hcc & Hs & Hst & Hl & He & Hsame). unfold gsafe, memoryGasCost.
  destruct (Z.eqb_spec m 0) as [->|]; [apply HQ; try done; ranges; lia|].
  destruct (Z.ltb_spec MaxMem m); [done|]. destruct (_ <? _); apply HQ; try done.
  - unfold charged. split_and!; try done. apply uint64_range.
  - apply uint64_range.
Qed.

(** ** The price of each instruction *)

(** The gas a call instruction hands over *)
Definition gas_room (op : OpCode) (f : Frame) : Z :=
  match op with
  | CALL | CALLCODE => with_stipend (callGasTemp (evm f)) (default 0 (stack f !! 2%nat))
  | DELEGATECALL | STATICCALL => callGasTemp (evm f)
  | _ => 0
  end.

Definition stops (op : OpCode) : bool := halts (jump_table op) || reverts (jump_table op).

Definition priced (op : OpCode) (m : Z) (f0 : Frame) (cost : Z) (f1 : Frame) : Prop :=
  charged f0 f1 ∧ m <= MaxMem ∧ is_uint64 cost ∧ 0 <= gas_room op f1
  ∧ gas_room op f1 + (if stops op then 0 else 1) <= cost.

Lemma priced_plain op m f0 cost f1 : charged f0 f1 → m <= MaxMem → is_uint64 cost → calls op = false ∨ op = CREATE ∨ op = CREATE2 →
  (stops op = false → 1 <= cost) → priced op m f0 cost f1.
Proof.
  intros ? ? Hu Hcalls Hs. assert (gas_room op f1 = 0) as Hr by (destruct op; naive_solver).
  unfold priced. rewrite Hr. split_and!; try done. destruct (stops op); [ranges; lia|]. specialize (Hs eq_refl). lia.
Qed.

Ltac uint := ranges; lia.

Lemma gas_words_safe op base per n m f x : frame_ok G f → stack f !! n = Some x → 1 <= base <= 10 ^ 6 →
  0 <= per <= 100 → calls op = false → gsafe f (gas_words base per n m) (priced op m f) f.
Proof.
  intros Hok Hx Hb Hp Hcalls. unfold gas_words.
  apply gsafe_bind, gsafe_memory; [by apply charged_refl|]. intros g f1 Hc Hs _ Hg Hm.
  apply gsafe_bind, gsafe_add; [done|done|uint|]. intros Hgb.
  apply gsafe_bind, (gsafe_back_uint64 _ _ _ _ x); [done|by rewrite Hs|]. intros u Hu.
  apply gsafe_bind, gsafe_mul; [done|apply toWordSize_range; uint|uint|]. intros w Hw.
  apply gsafe_add; [done..|]. intros Hu'. apply priced_plain; [done..|by left|]. intros _. uint.
Qed.

Lemma gas_memory_safe op base m f : frame_ok G f → 1 <= base <= 10 ^ 6 → calls op = false ∨ op = CREATE ∨ op = CREATE2 →
  gsafe f (gas_memory base m) (priced op m f) f.
Proof.
  intros Hok Hb Hcalls. unfold gas_memory.
  apply gsafe_bind, gsafe_memory; [by apply charged_refl|]. intros g f1 Hc _ _ Hg Hm.
  apply gsafe_add; [done|done|uint|]. intros Hu. apply priced_plain; [done..|]. intros _. uint.
Qed.

Lemma gas_log_safe n m f x : frame_ok G f → stack f !! 1%nat = Some x → (n <= 1000)%nat →
  gsafe f (makeGasLog n m) (priced (LOG n) m f) f.
Proof.
  intros Hok Hx Hn. pose proof (charged_refl f Hok) as Hc0. unfold makeGasLog.
  apply gsafe_bind, (gsafe_back_uint64 _ _ _ _ x); [done..|]. intros u Hu.
  apply gsafe_bind, gsafe_memory; [done|]. intros g f1 Hc Hs _ Hg Hm.
  apply gsafe_bind, gsafe_add; [done|done|uint|]. intros H1.
  apply gsafe_bind, gsafe_add; [done|done|uint|]. intros H2.
  apply gsafe_bind, gsafe_mul; [done|done|uint|]. intros w Hw.
  apply gsafe_add; [done..|]. intros Hu'. apply priced_plain; [done..|by left|]. intros _. uint.
Qed.

(** *** Calls *)

Lemma callGas_range gt a base cost g : callGas gt a base cost = Ok g → is_uint64 g.
Proof.
  unfold callGas, Uint64_of. repeat case_match; intros; simplify_eq; apply uint64_range.
Qed.

Lemma callGas_total gt a base cost : match callGas gt a base cost with Ok _ | Err _ => True | _ => False end.
Proof. unfold callGas. by repeat case_match; simplify_eq. Qed.

Lemma gas_callee_safe gt f0 gas (Q : Z → Frame → Prop) f x : charged f0 f → is_uint64 gas → stack f !! 0%nat = Some x →
  (∀ g f1, charged f0 f1 → callGasTemp (evm f1) = g → is_uint64 g → is_uint64 (gas + g) → Q (gas + g) f1) →
  gsafe f0 (gas_callee gt gas) Q f.
Proof.
  intros Hc Hg Hx HQ. unfold gas_callee. apply gsafe_bind, gsafe_gets.
  apply gsafe_bind, (gsafe_Back _ _ _ _ x Hx). apply gsafe_bind. unfold gsafe at 1, xlift.
  pose proof (callGas_total gt (Gas (contract f)) gas x) as Ht.
  destruct (callGas gt (Gas (contract f)) gas x) as [g|err| |] eqn:E; [|done..]. apply callGas_range in E.
  apply gsafe_bind. unfold gsafe at 1, xmodify.
  assert (Hc' : charged f0 (with_evm (set_callGasTemp g (evm f)) f)).
  { destruct Hc as (?&?&?&?&?&[]&[]). unfold charged, same_level. split_and!; try done. }
  apply gsafe_add; [done..|]. intros Hu. by apply HQ.
Qed.

Lemma priced_call op m f0 base g f1 v : charged f0 f1 → m <= MaxMem → callGasTemp (evm f1) = g → is_uint64 g →
  is_uint64 (base + g) → stops op = false → default 0 (stack f1 !! 2%nat) = v →
  700 <= base → (v ≠ 0 → op = CALL ∨ op = CALLCODE → 9700 <= base) → priced op m f0 (base + g) f1.
Proof.
  intros Hc Hm Hg Hug Hu Hs Hv Hb Hb'. unfold priced. split; [done|]. split; [done|]. split; [done|]. rewrite Hs.
  assert (Hw : op = CALL ∨ op = CALLCODE → 0 <= with_stipend g v ∧ with_stipend g v + 1 <= base + g).
  { intros Hop. unfold with_stipend. destruct (Z.eqb_spec v 0); cbn [negb]; [ranges; lia|].
    specialize (Hb' n Hop). rewrite uint64_id; ranges; lia. }
  assert (0 <= g ∧ 0 <= base) as [??] by (ranges; lia). destruct op; cbn [gas_room]; rewrite ?Hg, ?Hv; try lia.
  - by apply Hw; left.
  - by apply Hw; right.
Qed.

(** The end of [gasCall] and [gasCallCode] *)
Lemma gas_call_tail op base m f g a v st : op = CALL ∨ op = CALLCODE → frame_ok G f → stack f = g :: a :: v :: st →
  700 <= base <= 10 ^ 6 → (v ≠ 0 → 9700 <= base) →
  gsafe f (xbind (memoryGasCost m) (λ mg, xbind (add_gas base mg) (gas_callee GasTableConstantinople))) (priced op m f) f.
Proof.
  intros Hop Hok Hst Hb Hv. apply gsafe_bind, gsafe_memory; [by apply charged_refl|]. intros mg f1 Hc Hs _ Hg Hm.
  apply gsafe_bind, gsafe_add; [done|uint|done|]. intros Hu.
  apply (gas_callee_safe _ _ _ _ _ g); [done|done|by rewrite Hs, Hst|].
  intros g' f2 Hc2 Hg2 Hug Hu2. apply (priced_call _ _ _ _ _ _ v); try done.
  - by destruct Hop as [-> | ->].
  - destruct Hc2 as (_ & _ & -> & _). by rewrite Hst.
  - ranges. lia.
  - intros Hv0 _. specialize (Hv Hv0). ranges. lia.
Qed.

Lemma three_items f : 3 <= len (stack f) → ∃ g a v st, stack f = g :: a :: v :: st.
Proof. destruct (stack f) as [|g [|a [|v st]]]; unfold len; cbn [length]; [lia..|]. by exists g, a, v, st. Qed.

Lemma gas_call_safe m f : frame_ok G f → 7 <= len (stack f) → gsafe f (gasCall GasTableConstantinople m) (priced CALL m f) f.
Proof.
  intros Hok Hlen. destruct (three_items f ltac:(lia)) as (g & a & v & st & Hst).
  unfold gasCall. apply gsafe_bind, (gsafe_Back _ _ _ _ v); [by rewrite Hst|].
  apply gsafe_bind, (gsafe_Back _ _ _ _ a); [by rewrite Hst|]. apply gsafe_bind, gsafe_gets.
  apply (gas_call_tail _ _ _ _ g a v st); [by left|done|done|change (Calls GasTableConstantinople) with 700..].
  - destruct (Z.eqb_spec v 0); cbn [negb andb]; [lia|]. by destruct (IsEmpty _ _).
  - intros Hv%Z.eqb_neq. rewrite Hv. cbn [negb andb]. by destruct (IsEmpty _ _).
Qed.

Lemma gas_callcode_safe m f : frame_ok G f → 7 <= len (stack f) →
  gsafe f (gasCallCode GasTableConstantinople m) (priced CALLCODE m f) f.
Proof.
  intros Hok Hlen. destruct (three_items f ltac:(lia)) as (g & a & v & st & Hst).
  unfold gasCallCode. apply gsafe_bind, (gsafe_Back _ _ _ _ v); [by rewrite Hst|].
  apply (gas_call_tail _ _ _ _ g a v st); [by right|done|done|change (Calls GasTableConstantinople) with 700..].
  - by destruct (Z.eqb_spec v 0).
  - intros Hv%Z.eqb_neq. by rewrite Hv.
Qed.

(** [gasDelegateCall] and [gasStaticCall] *)
Lemma gas_delegate_safe op m f : op = DELEGATECALL ∨ op = STATICCALL → frame_ok G f → 6 <= len (stack f) →
  gsafe f (gasDelegateCall GasTableConstantinople m) (priced op m f) f.
Proof.
  intros Hop Hok Hlen. destruct f as [p c mem st e]. cbn [stack] in Hlen. destruct st as [|g st]; [done|].
  unfold gasDelegateCall. apply gsafe_bind, gsafe_memory; [by apply charged_refl|]. intros mg f1 Hc Hs _ Hg Hm.
  change (Calls GasTableConstantinople) with 700. apply gsafe_bind, gsafe_add; [done|done|uint|]. intros Hu.
  apply (gas_callee_safe _ _ _ _ _ g); [done|done|by rewrite Hs|].
  intros g' f2 Hc2 Hg2 Hug Hu2. eapply priced_call; try done.
  - by destruct Hop as [-> | ->].
  - ranges. lia.
  - intros _ [-> | ->]; naive_solver.
Qed.

(** *** Storage and self-destruction *)

Lemma charged_refund f0 f g : charged f0 f →
  charged f0 (with_evm (set_db (AddRefund (StateDB (evm f)) g) (evm f)) f).
Proof using KI. intros (?&?&?&?&?&[]&[]). unfold charged, same_level. split_and!; try done. split; try done. by apply kept_AddRefund. Qed.

Lemma gas_sstore_safe f : frame_ok G f → 2 <= len (stack f) → gsafe f gasSStore (priced SSTORE 0 f) f.
Proof.
  intros Hok Hlen. pose proof (charged_refl f Hok) as Hc.
  destruct (lookup_lt_is_Some_2 (stack f) 1) as [y Hy]; [unfold len in *; lia|].
  destruct (lookup_lt_is_Some_2 (stack f) 0) as [x Hx]; [unfold len in *; lia|].
  unfold gasSStore. apply gsafe_bind, (gsafe_Back _ _ _ _ y Hy). apply gsafe_bind, (gsafe_Back _ _ _ _ x Hx).
  apply gsafe_bind, gsafe_gets. destruct (_ && _); [|destruct (_ && _)].
  - apply gsafe_ret, priced_plain; [done|done|uint|by left|done].
  - apply gsafe_bind. unfold gsafe at 1, xdb, xmodify. apply gsafe_ret, priced_plain; [|done|uint|by left|done].
    by apply charged_refund.
  - apply gsafe_ret, priced_plain; [done|done|uint|by left|done].
Qed.

Lemma gas_suicide_safe f : frame_ok G f → 1 <= len (stack f) →
  gsafe f (gasSuicide GasTableConstantinople) (priced SELFDESTRUCT 0 f) f.
Proof.
  intros Hok Hlen. pose proof (charged_refl f Hok) as Hc.
  destruct (lookup_lt_is_Some_2 (stack f) 0) as [x Hx]; [unfold len in *; lia|].
  unfold gasSuicide. apply gsafe_bind, (gsafe_Back _ _ _ _ x Hx). apply gsafe_bind, gsafe_gets.
  apply gsafe_bind, gsafe_gets. apply gsafe_bind, gsafe_gets. apply gsafe_bind.
  assert (Hend : ∀ f1, charged f f1 → ∀ b : bool, priced SELFDESTRUCT 0 f
    (if b then uint64 (SuicideCost GasTableConstantinople + CreateBySuicide GasTableConstantinople)
     else SuicideCost GasTableConstantinople) f1).
  { intros f1 Hf1 b. apply priced_plain; [done|done| |by left|done]. destruct b; [apply uint64_range|simpl; uint]. }
  destruct (negb _); [|by apply gsafe_ret, gsafe_ret, Hend].
  unfold gsafe at 1, xdb, xmodify. by apply gsafe_ret, Hend, charged_refund.
Qed.

Lemma gas_exp_safe f : frame_ok G f → 2 <= len (stack f) → gsafe f (gasExp GasTableConstantinople) (priced EXP 0 f) f.
Proof.
  intros Hok Hlen. pose proof (charged_refl f Hok) as Hc.
  destruct (lookup_lt_is_Some_2 (stack f) 1) as [y Hy]; [unfold len in *; lia|].
  unfold gasExp. apply gsafe_bind, (gsafe_Back _ _ _ _ y Hy). apply gsafe_add; [done|apply uint64_range|uint|].
  intros Hu. apply priced_plain; [done|done|done|by left|]. intros _.
  pose proof (uint64_range (uint64 ((BitLen y + 7) / 8) * ExpByte GasTableConstantinople)). uint.
Qed.

(** *** All of them *)

Lemma const_safe op g f : frame_ok G f → is_uint64 g → calls op = false → (stops op = false → 1 <= g) →
  gsafe f (constGasFunc g) (priced op 0 f) f.
Proof. intros. apply gsafe_ret, priced_plain; try done; [by apply charged_refl|by left]. Qed.

Lemma stack_item (st : list Z) n : Z.of_nat n < len st → ∃ x, st !! n = Some x.
Proof. intros. apply lookup_lt_is_Some_2. unfold len in *. lia. Qed.

Lemma gasCost_safe op m f : frame_ok G f → numbered_ok op → validateStack (jump_table op) (stack f) = None →
  (memorySize (jump_table op) = None → m = 0) → gsafe f (gasCost (jump_table op) m) (priced op m f) f.
Proof.
  intros Hok Hnum Hv Hm.
  destruct op; cbn [jump_table const plain validateStack memorySize gasCost numbered_ok] in *;
    unfold makeDupStackFunc, makeSwapStackFunc in Hv; apply makeStackFunc_ok in Hv as [Hl _];
    try (specialize (Hm eq_refl); subst m);
    try (by apply const_safe; [done|first [uint|cbn; uint]|done|first [lia|done|cbn; lia]]);
    try (by apply gas_memory_safe; [done|lia|auto]).
  - by apply gas_exp_safe.
  - destruct (stack_item (stack f) 1 ltac:(lia)) as [x Hx]. apply (gas_words_safe _ _ _ _ _ _ x); done || lia.
  - destruct (stack_item (stack f) 2 ltac:(lia)) as [x Hx]. apply (gas_words_safe _ _ _ _ _ _ x); done || lia.
  - destruct (stack_item (stack f) 2 ltac:(lia)) as [x Hx]. apply (gas_words_safe _ _ _ _ _ _ x); done || lia.
  - destruct (stack_item (stack f) 3 ltac:(lia)) as [x Hx]. apply (gas_words_safe _ _ _ _ _ _ x); done || lia.
  - destruct (stack_item (stack f) 2 ltac:(lia)) as [x Hx]. apply (gas_words_safe _ _ _ _ _ _ x); done || lia.
  - by apply gas_sstore_safe.
  - destruct (stack_item (stack f) 1 ltac:(lia)) as [x Hx]. apply (gas_log_safe _ _ _ x); done || lia.
  - by apply gas_call_safe.
  - by apply gas_callcode_safe.
  - apply gsafe_memory; [by apply charged_refl|]. intros. apply priced_plain; try done. by left.
  - apply gas_delegate_safe; auto.
  - apply gas_delegate_safe; auto.
  - apply gsafe_memory; [by apply charged_refl|]. intros. apply priced_plain; try done. by left.
  - by apply gas_suicide_safe.
Qed.
End gas.
