(* ===== verification/EvmSafeCalls.v ===== *)
(** * The EVM: precompiled contracts, calls and creations

    What they return, given what [Run] does with less than a bound of gas: at
    most the gas they were given, in a well-formed state, at the same depth.  A
    precompiled contract can only panic on lengths nobody can pay for. *)

From S2P Require Import Prelude Checked EvmBase EvmAnalysis EvmInstr EvmGas EvmPrecompiled EvmRun EvmLogic EvmSafeOps EvmSafeGas.
#[local] Open Scope Z_scope.
#[local] Set Default Goal Selector "!".
#[local] Set Warnings "-clear-no-such-hyp".

(** ** Precompiled contracts *)

Section precompiled.
Context `{HK : HostOk}.

(** The result of a precompiled contract: bytes, an error, or a panic that [P]
    accounts for *)
Definition pre_post (P : Prop) (o : outcome evm_err (option (list Z))) : Prop :=
  match o with
  | Ok r => some_bytes r
  | Err _ => True
  | Panic => P
  | Fuel => False
  end.

(** A step of [let?] that cannot fail *)
Lemma pre_bind {A} P (m : outcome evm_err A) k a : m = Ok a → pre_post P (k a) → pre_post P (obind m k).
Proof. by intros ->. Qed.

Lemma modexp_lengths_ok input : Forall is_byte input → len input < 2 ^ 62 →
  ∃ b e m, modexp_lengths input = Ok (b, e, m) ∧ word b ∧ word e ∧ word m.
Proof.
  intros Hb Hl. unfold modexp_lengths.
  destruct (getData_ok input 0 32) as (d1 & -> & Hd1 & Hl1); [done|done|lia..|].
  destruct (getData_ok input 32 32) as (d2 & -> & Hd2 & Hl2); [done|done|lia..|].
  destruct (getData_ok input 64 32) as (d3 & -> & Hd3 & Hl3); [done|done|lia..|]. simpl.
  eexists _, _, _. split; [done|].
  split_and!; apply SetBytes_word; try done; rewrite ?Hl1, ?Hl2, ?Hl3; lia.
Qed.

Lemma modexp_rest_ok input : Forall is_byte input → len input < 2 ^ 62 →
  Forall is_byte (modexp_rest input) ∧ len (modexp_rest input) < 2 ^ 62.
Proof.
  intros Hb Hl. unfold modexp_rest. destruct (_ <? _); [|by split; [constructor|]].
  split; [by apply Forall_drop|]. unfold len in *. rewrite length_drop. lia.
Qed.

Lemma modexp_head_ok input b e : Forall is_byte input → len input < 2 ^ 62 → word b → word e →
  ∃ h, modexp_head input b e = Ok h ∧ 0 <= h.
Proof.
  intros Hb Hl [Hb0 _] [He0 _]. unfold modexp_head. destruct (_ <=? _); [by exists 0|].
  pose proof (uint64_range b) as Hub. pose proof (uint64_range e) as Hue. unfold Uint64_of.
  destruct (Z.ltb_spec 32 e).
  - destruct (getData_ok input (uint64 b) 32) as (d & -> & Hd & Hld); [done|done|ranges; lia..|]. simpl.
    eexists. split; [done|]. by apply (SetBytes_word d); [|rewrite Hld; lia].
  - rewrite (uint64_id e) by (ranges; lia).
    destruct (getData_ok input (uint64 b) e) as (d & -> & Hd & Hld); [done|done|ranges; lia..|]. simpl.
    eexists. split; [done|]. by apply (SetBytes_word d); [|rewrite Hld; lia].
Qed.

(** The price of a modular exponentiation, and what a payable one implies *)
Lemma modexp_gas_ok input b e m : Forall is_byte input → len input < 2 ^ 62 →
  modexp_lengths input = Ok (b, e, m) → word b → word e → word m →
  ∃ g, modexp_RequiredGas input = Ok g ∧ is_uint64 g ∧
       (g <= 2 ^ 60 → (b = 0 ∧ m = 0) ∨ (b <= 2 ^ 63 ∧ e <= 2 ^ 63 ∧ m <= 2 ^ 63)).
Proof.
  intros Hb Hl Hlens Hwb Hwe Hwm. unfold modexp_RequiredGas. rewrite Hlens. simpl.
  destruct (modexp_rest_ok input Hb Hl) as [Hrb Hrl].
  destruct (modexp_head_ok (modexp_rest input) b e Hrb Hrl Hwb Hwe) as (h & -> & Hh). simpl.
  destruct Hwb as [Hb0 _], Hwe as [He0 _], Hwm as [Hm0 _].
  set (msb := if 0 <? BitLen h then BitLen h - 1 else 0).
  assert (0 <= msb) by (unfold msb; zcases; lia).
  set (adj := (if 32 <? e then 8 * (e - 32) else 0) + msb).
  assert (8 * (e - 32) <= adj ∧ 0 <= adj) as [Hadj Hadj0] by (unfold adj; zcases; lia).
  set (x := Z.max m b). set (mult := if x <=? 64 then x * x else _).
  assert (Hmult : x <= mult ∧ (1024 < x → x * x / 16 <= mult)).
  { unfold mult. destruct (Z.leb_spec x 64); [split; nia|]. destruct (Z.leb_spec x 1024).
    - split; [|lia]. pose proof (Z.div_le_lower_bound (x * x) 4 x ltac:(lia) ltac:(nia)). nia.
    - split; [|lia]. pose proof (Z.div_le_lower_bound (x * x) 16 x ltac:(lia) ltac:(nia)). nia. }
  set (gas := mult * Z.max adj 1 / ModExpQuadCoeffDiv).
  assert (Hlow : ∀ y, 20 * y <= mult * Z.max adj 1 → y <= gas).
  { intros y Hy. unfold gas. apply Z.div_le_lower_bound; lia. }
  assert (0 <= gas) by (apply Hlow; unfold x in *; nia).
  assert (Hpay : gas <= 2 ^ 60 → (b = 0 ∧ m = 0) ∨ (b <= 2 ^ 63 ∧ e <= 2 ^ 63 ∧ m <= 2 ^ 63)).
  { intros Hg. destruct (Z.le_gt_cases x 0) as [Hx|Hx]; [left; unfold x in Hx; lia|right].
    assert (x <= 2 ^ 63).
    { destruct (Z.le_gt_cases x (2 ^ 63)) as [|Hbig]; [done|exfalso].
      assert (2 ^ 61 <= gas); [|lia]. apply Hlow. destruct Hmult as [_ Hm2].
      specialize (Hm2 ltac:(lia)). pose proof (Z.div_le_lower_bound (x * x) 16 (2 ^ 122) ltac:(lia) ltac:(nia)). nia. }
    split; [unfold x in *; lia|]. split; [|unfold x in *; lia].
    destruct (Z.le_gt_cases e (2 ^ 63)) as [|Hbig]; [done|exfalso].
    assert (2 ^ 61 <= gas); [|lia]. apply Hlow. nia. }
  destruct (Z.ltb_spec 64 (BitLen gas)) as [Hbig|Hsmall].
  - exists MaxUint64. split; [done|]. split; [ranges; lia|lia].
  - apply BitLen_le in Hsmall; [|lia..]. exists (Uint64_of gas). unfold Uint64_of.
    rewrite uint64_id by (ranges; lia). split; [done|]. split; [ranges; lia|done].
Qed.

Lemma getData_post bs start size : Forall is_byte bs → is_uint64 start → is_uint64 size → len bs < 2 ^ 62 →
  match getData bs start size with Ok d => Forall is_byte d | Panic => MaxUint64 - 2 ^ 62 < size | _ => False end.
Proof.
  intros Hb Hs Hz Hl. unfold getData, subslice. destruct (_ && _ && _) eqn:E; simpl; [by auto with go|].
  destruct (Z.le_gt_cases size (MaxUint64 - 2 ^ 62)) as [Hle|]; [|lia]. exfalso.
  destruct (getData_ok bs start size Hb Hl) as (d & Hd & _); [ranges; lia..|done|].
  unfold getData, subslice in Hd. by rewrite E in Hd.
Qed.

(** [modexp_Run] panics only for a length that cannot be paid for. *)
Lemma modexp_Run_ok input b e m : Forall is_byte input → len input < 2 ^ 62 → modexp_lengths input = Ok (b, e, m) →
  word b → word e → word m →
  pre_post (¬ ((b = 0 ∧ m = 0) ∨ (b <= 2 ^ 63 ∧ e <= 2 ^ 63 ∧ m <= 2 ^ 63))) (modexp_Run input).
Proof.
  intros Hb Hl Hlens [Hb0 _] [He0 _] [Hm0 _]. unfold modexp_Run. rewrite Hlens. cbn [obind].
  destruct (modexp_rest_ok input Hb Hl) as [Hrb Hrl].
  assert (Hu : ∀ x, 0 <= x → is_uint64 (Uint64_of x) ∧ (x <= 2 ^ 63 → Uint64_of x <= 2 ^ 63)).
  { intros x Hx. split; [apply uint64_range|]. intros. unfold Uint64_of. rewrite uint64_id; [done|ranges; lia]. }
  destruct (Hu b Hb0) as [Hub Hub'], (Hu e He0) as [Hue Hue'], (Hu m Hm0) as [Hum Hum'].
  destruct ((Uint64_of b =? 0) && (Uint64_of m =? 0)) eqn:E0; [constructor|].
  assert (Hzero : b = 0 ∧ m = 0 → False).
  { intros [-> ->]. by vm_compute in E0. }
  assert (Hpanic : ∀ x, x = b ∨ x = e ∨ x = m → MaxUint64 - 2 ^ 62 < Uint64_of x →
            ¬ ((b = 0 ∧ m = 0) ∨ (b <= 2 ^ 63 ∧ e <= 2 ^ 63 ∧ m <= 2 ^ 63))).
  { intros x Hx Hbig [?|(?&?&?)]; [done|]. destruct Hx as [-> |[-> | ->]]; lia. }
  pose proof (getData_post (modexp_rest input) 0 (Uint64_of b) Hrb ltac:(ranges; lia) Hub Hrl) as H1.
  destruct (getData _ 0 _) as [d1|err| |]; [|done| |done]; cbn [obind]; [|apply (Hpanic b); auto].
  pose proof (getData_post (modexp_rest input) (Uint64_of b) (Uint64_of e) Hrb Hub Hue Hrl) as H2.
  destruct (getData _ (Uint64_of b) _) as [d2|err| |]; [|done| |done]; cbn [obind]; [|apply (Hpanic e); auto].
  pose proof (getData_post (modexp_rest input) (uint64 (Uint64_of b + Uint64_of e)) (Uint64_of m) Hrb
                ltac:(apply uint64_range) Hum Hrl) as H3.
  destruct (getData _ (uint64 _) _) as [d3|err| |]; [|done| |done]; cbn [obind]; [|apply (Hpanic m); auto].
  destruct (SetBytes d3 =? 0); unfold pre_post, some_bytes; cbn [default from_option id]; apply LeftPadBytes_bytes;
    [constructor|apply be_bytes_range].
Qed.

Lemma ecrecover_ok input : Forall is_byte input → pre_post False (ecrecover_Run input).
Proof.
  intros Hb. unfold ecrecover_Run. set (i := RightPadBytes input 128).
  assert (128 <= len i) as Hl.
  { unfold i, RightPadBytes. destruct (Z.leb_spec 128 (len input)); [done|].
    rewrite len_app. unfold len at 2. rewrite length_replicate. lia. }
  rewrite !subslice_ok by lia. cbn [obind]. destruct (_ || _); [constructor|].
  destruct (Ecrecover _ _) as [[|x k]|] eqn:E; [|exact (LeftPadBytes_bytes _ _ ltac:(apply Forall_drop, Keccak256_bytes))|constructor].
  by apply Ecrecover_key in E.
Qed.

Lemma bn256Add_ok input : Forall is_byte input → len input < 2 ^ 62 → pre_post False (bn256Add_Run input).
Proof.
  intros Hb Hl. unfold bn256Add_Run.
  destruct (getData_ok input 0 64) as (d1 & -> & _); [done|done|lia..|]. cbn [obind].
  unfold newCurvePoint. destruct (G1_Unmarshal d1); [|done]. cbn [obind].
  destruct (getData_ok input 64 64) as (d2 & -> & _); [done|done|lia..|]. cbn [obind].
  destruct (G1_Unmarshal d2); [|done]. apply G1_Marshal_bytes.
Qed.

Lemma bn256ScalarMul_ok input : Forall is_byte input → len input < 2 ^ 62 → pre_post False (bn256ScalarMul_Run input).
Proof.
  intros Hb Hl. unfold bn256ScalarMul_Run.
  destruct (getData_ok input 0 64) as (d1 & -> & _); [done|done|lia..|]. cbn [obind].
  unfold newCurvePoint. destruct (G1_Unmarshal d1); [|done]. cbn [obind].
  destruct (getData_ok input 64 32) as (d2 & -> & _); [done|done|lia..|]. apply G1_Marshal_bytes.
Qed.

Lemma pairing_points_ok n : ∀ input i, 0 <= i → i + 192 * Z.of_nat n <= len input →
  match pairing_points n input i with Ok _ | Err _ => True | _ => False end.
Proof.
  induction n as [|n IH]; intros input i Hi Hl; [done|]. cbn [pairing_points].
  rewrite subslice_ok by lia. cbn [obind]. unfold newCurvePoint. destruct (G1_Unmarshal _); [|done]. cbn [obind].
  rewrite subslice_ok by lia. cbn [obind]. unfold newTwistPoint. destruct (G2_Unmarshal _); [|done]. cbn [obind].
  specialize (IH input (i + 192) ltac:(lia) ltac:(lia)). by destruct (pairing_points n input (i + 192)).
Qed.

Lemma bn256Pairing_ok input : pre_post False (bn256Pairing_Run input).
Proof.
  unfold bn256Pairing_Run. destruct (Z.ltb_spec 0 (len input mod 192)); [done|].
  pose proof (len_nonneg input). pose proof (Z.div_pos (len input) 192 ltac:(lia) ltac:(lia)).
  pose proof (Z.mod_pos_bound (len input) 192 ltac:(lia)).
  pose proof (pairing_points_ok (Z.to_nat (len input / 192)) input 0 ltac:(lia)
                ltac:(pose proof (Z.div_mod (len input) 192 ltac:(lia)); lia)) as Hp.
  destruct (pairing_points _ _ _); [|done..]. simpl. destruct (PairingCheck _ _); unfold some_bytes; simpl.
  - repeat constructor; ranges; lia.
  - apply zeros_bytes.
Qed.

Lemma pre_post_mono P Q o : (P → Q) → pre_post P o → pre_post Q o.
Proof. destruct o; naive_solver. Qed.

Lemma UseGas_spec g c : 0 <= g → is_uint64 (Gas c) →
  (g <= Gas c ∧ UseGas g c = (true, set_Gas (Gas c - g) c)) ∨ (Gas c < g ∧ UseGas g c = (false, c)).
Proof.
  intros. unfold UseGas. destruct (Z.ltb_spec (Gas c) g); [by right|left].
  rewrite uint64_id by (ranges; lia). done.
Qed.

(** A precompiled contract with gas to pay for it *)
Lemma precompiled_ok p input : Forall is_byte input → len input < 2 ^ 62 →
  ∃ g, RequiredGas p input = Ok g ∧ is_uint64 g ∧ pre_post (2 ^ 60 < g) (precompiled_Run p input).
Proof.
  intros Hb Hl. destruct p; cbn [RequiredGas precompiled_Run];
    try (eexists; split; [done|]; split; [first [apply uint64_range|ranges; lia]|]).
  - by eapply pre_post_mono; [|apply ecrecover_ok].
  - apply Sha256_bytes.
  - apply LeftPadBytes_bytes, Ripemd160_bytes.
  - done.
  - destruct (modexp_lengths_ok input Hb Hl) as (b & e & m & Hlens & ? & ? & ?).
    destruct (modexp_gas_ok input b e m) as (g & Hg & Hu & Hpay); try done.
    exists g. split; [done|]. split; [done|].
    eapply pre_post_mono; [|by eapply modexp_Run_ok]. intros Hn. destruct (Z.le_gt_cases g (2 ^ 60)); [|lia]. naive_solver.
  - by eapply pre_post_mono; [|apply bn256Add_ok].
  - by eapply pre_post_mono; [|apply bn256ScalarMul_ok].
  - by eapply pre_post_mono; [|apply bn256Pairing_ok].
Qed.
End precompiled.

(** ** Calls *)

Section calls.
Context `{HK : HostOk} {I : DbInv} {KI : Kept I} (ctx : EvmContext) (Hctx : ctx_ok ctx) (G : Z) (HG : G <= MaxUint64).

Definition run_post (c : Contract) (e : EVM) (p : RunResult) : Prop :=
  let '(r, c', e') := p in
  match r with
  | Ok (ret, _) => some_bytes ret ∧ 0 <= Gas c' <= Gas c ∧ evm_ok e' ∧ same_level e e'
  | Panic => Excuse G e'
  | _ => False
  end.

(** What [Run] does with less than [B] gas *)
Definition Run_ok (B : Z) (Run : Contract → list Z → EVM → RunResult) : Prop := ∀ c input e,
  contract_ok G c → Forall is_byte input → len input < 2 ^ 62 → evm_ok e → Gas c < B → run_post c e (Run c input e).

Definition call_post (gas : Z) (e : EVM) (p : CallResult) : Prop :=
  match p.1 with
  | Ok (ret, g, _) => some_bytes ret ∧ 0 <= g <= gas ∧ evm_ok p.2 ∧ same_level e p.2
  | Panic => Excuse G p.2
  | _ => False
  end.

Definition create_post (gas : Z) (e : EVM) (p : outcome unit (option (list Z) * Address * Z * option evm_err) * EVM) : Prop :=
  match p.1 with
  | Ok (ret, a, g, _) => some_bytes ret ∧ bytes_of 20 a ∧ 0 <= g <= gas ∧ evm_ok p.2 ∧ same_level e p.2
  | Panic => Excuse G p.2
  | _ => False
  end.

Definition ref_ok (r : ContractRef) : Prop :=
  match r with AccountRef a => bytes_of 20 a | ContractCaller c => contract_ok G c end.

Lemma ref_Address_ok r : ref_ok r → bytes_of 20 (ref_Address r).
Proof. destruct r; [done|]. apply ko_self. Qed.

Lemma gas_uint64 c : contract_ok G c → is_uint64 (Gas c).
Proof using HG. intros []. ranges. lia. Qed.

Context (B : Z) (Run : Contract → list Z → EVM → RunResult) (HRun : Run_ok B Run).

Lemma run_ok e c input : contract_ok G c → Forall is_byte input → len input < 2 ^ 62 → evm_ok e → Gas c < B →
  run_post c e (run Run e c input).
Proof using HG HK KI HRun.
  intros Hc Hb Hl He HB. unfold run. destruct (_ ≫= _) as [p|]; [|by apply HRun].
  unfold RunPrecompiledContract. destruct (precompiled_ok p input Hb Hl) as (g & -> & Hg & Hp).
  pose proof (ko_Gas _ _ Hc). destruct (UseGas_spec g c ltac:(ranges; lia) (gas_uint64 c Hc)) as [[Hle ->]|[Hlt ->]].
  - destruct (precompiled_Run p input) as [r|err| |]; cbn [pre_post] in Hp; unfold run_post; cbn [Gas set_Gas]; try done.
    + split; [done|]. split; [ranges; lia|]. by split.
    + split; [apply some_bytes_None|]. split; [ranges; lia|]. by split.
    + left. lia.
  - unfold run_post. split; [apply some_bytes_None|]. split; [lia|]. by split.
Qed.

Lemma evm_ok_revert e d0 : evm_ok e → db_inv d0 → evm_ok (set_db (RevertToSnapshot (StateDB e) d0) e).
Proof using KI. intros [] ?. apply evm_ok_db; [done|by apply kept_revert]. Qed.

Lemma settle_call_ok snapshot c e0 e r gas : contract_ok G c → Gas c = gas → run_post c e r → same_level e0 e →
  db_inv snapshot → call_post gas e0 (settle_call snapshot r).
Proof using HG KI.
  intros Hc <- Hr Hs Hsnap. destruct r as [[[[ret [err|]]|?| |] c'] e']; cbn [settle_call] in *; try done.
  - destruct Hr as (Hret & Hg & He & Hsame). unfold call_post. cbn [fst snd]. split; [done|].
    split; [|split; [by apply evm_ok_revert|unfold same_level in *; simpl in *; intuition congruence]].
    case_bool_decide; [done|]. pose proof (gas_uint64 c Hc). unfold UseGas.
    rewrite Z.ltb_irrefl. cbn [snd set_Gas Gas]. rewrite Z.sub_diag. change (uint64 0) with 0. lia.
  - destruct Hr as (Hret & Hg & He & Hsame). unfold call_post. cbn [fst snd]. split; [done|].
    split; [done|]. split; [done|]. unfold same_level in *. intuition congruence.
Qed.

(** A new contract *)
Lemma new_contract_ok caller object addr v gas d : ref_ok caller → bytes_of 20 object → word v → 0 <= gas <= G →
  contract_ok G (SetCallCode addr (GetCodeHash d addr) (GetCode d addr) (NewContract caller object v gas)).
Proof using HK KI.
  intros. split; cbn [SetCallCode NewContract Gas Code Input value CodeHash self CallerAddress]; try done.
  - apply GetCode_bytes.
  - apply GetCode_len.
  - apply GetCodeHash_code.
  - by apply ref_Address_ok.
Qed.

Lemma enter_ok caller e : evm_ok e → evm_ok (enter caller e) ∧ same_level e (enter caller e).
Proof. intros []. destruct caller; simpl; by repeat split. Qed.

Lemma call_quit gas e err : 0 <= gas → evm_ok e → call_post gas e (Ok (None, gas, err), e).
Proof. intros. unfold call_post. simpl. split; [apply some_bytes_None|]. split; [lia|]. by split. Qed.

(** The arguments of a call *)
Definition args_ok (gas : Z) (input : list Z) (e : EVM) : Prop :=
  0 <= gas <= G ∧ gas < B ∧ Forall is_byte input ∧ len input < 2 ^ 62 ∧ evm_ok e.

Lemma Call_ok caller addr input gas v e : ref_ok caller → bytes_of 20 addr → args_ok gas input e → word v →
  call_post gas e (Call ctx Run caller addr input gas v e).
Proof using HG HK KI HRun.
  intros Hr Ha (Hg & HB & Hb & Hl & He) Hv. unfold Call. destruct (NoRecursion ctx && _); [apply call_quit; [lia|done]|].
  destruct (CallCreateDepth <? _); [apply call_quit; [lia|done]|]. destruct (negb (CanTransfer _ _ _)) eqn:Epay; [apply call_quit; [lia|done]|].
  apply negb_false_iff, Z.leb_le in Epay. destruct (_ && _ && _); [apply call_quit; [lia|done]|].
  set (d := Transfer _ _ _ _).
  assert (evm_ok (set_db d e)) as He1 by (apply evm_ok_db; [done|]; apply kept_call; [apply He|done|done]).
  destruct (enter_ok caller (set_db d e) He1) as [He2 Hs2].
  eapply (settle_call_ok _ (SetCallCode _ _ _ _)); [by apply new_contract_ok|done|apply run_ok|done|apply He]; try done.
  by apply new_contract_ok.
Qed.

Lemma CallCode_ok caller addr input gas v e : ref_ok caller → args_ok gas input e → word v →
  call_post gas e (CallCode ctx Run caller addr input gas v e).
Proof using HG HK KI HRun.
  intros Hr (Hg & HB & Hb & Hl & He) Hv. unfold CallCode. destruct (NoRecursion ctx && _); [apply call_quit; [lia|done]|].
  destruct (CallCreateDepth <? _); [apply call_quit; [lia|done]|]. destruct (negb (CanTransfer _ _ _)); [apply call_quit; [lia|done]|].
  destruct (enter_ok caller e He) as [He2 Hs2]. pose proof (ref_Address_ok caller Hr) as Hra.
  eapply (settle_call_ok _ (SetCallCode _ _ _ _)); [by apply new_contract_ok|done|apply run_ok|done|apply He]; try done.
  by apply new_contract_ok.
Qed.

Lemma DelegateCall_ok c addr input gas e : contract_ok G c → args_ok gas input e →
  call_post gas e (DelegateCall ctx Run (ContractCaller c) addr input gas e).
Proof using HG HK KI HRun.
  intros Hc (Hg & HB & Hb & Hl & He). unfold DelegateCall. destruct (NoRecursion ctx && _); [apply call_quit; [lia|done]|].
  destruct (CallCreateDepth <? _); [apply call_quit; [lia|done]|]. cbn [AsDelegate NewContract].
  set (c' := SetCallCode _ _ _ _). assert (contract_ok G c') as Hc'.
  { unfold c'. split; cbn; try done.
    - apply GetCode_bytes.
    - apply GetCode_len.
    - by apply (ko_value G).
    - apply GetCodeHash_code.
    - by apply (ko_self G).
    - by apply (ko_Caller G). }
  by apply (settle_call_ok _ c' _ e); [done|done|apply run_ok|done|apply He].
Qed.

Lemma StaticCall_ok caller addr input gas e : ref_ok caller → bytes_of 20 addr → args_ok gas input e →
  call_post gas e (StaticCall ctx Run caller addr input gas e).
Proof using HG HK KI HRun.
  intros Hr Ha (Hg & HB & Hb & Hl & He). unfold StaticCall. destruct (NoRecursion ctx && _); [apply call_quit; [lia|done]|].
  destruct (CallCreateDepth <? _); [apply call_quit; [lia|done]|].
  assert (evm_ok (set_readOnly true e)) as He1 by (destruct He; by split).
  destruct (enter_ok caller (set_readOnly true e) He1) as [He2 Hs2].
  set (c' := SetCallCode _ _ _ _). assert (contract_ok G c') as Hc' by (apply new_contract_ok; try done; apply word_0).
  set (r := settle_call _ _).
  assert (call_post gas (set_readOnly true e) r) as Hpost.
  { unfold r. by apply (settle_call_ok _ c' _ (enter caller (set_readOnly true e))); [done|done|apply run_ok|done|apply He]. }
  destruct r as [o e']. unfold call_post in *. cbn [fst snd] in *. destruct o as [[[ret g] err]|?| |]; try done.
  2:{ by destruct (readOnly e). }
  destruct Hpost as (Hret & Hgas & He' & Hd & Hro). split; [done|]. split; [done|]. cbn [set_readOnly depth readOnly] in *.
  destruct (readOnly e) eqn:E; split; try done; [by split; [|congruence]|by destruct He'].
Qed.

Lemma create_quit gas e a g err : bytes_of 20 a → 0 <= g <= gas → evm_ok e → create_post gas e (Ok (None, a, g, err), e).
Proof. intros. unfold create_post. simpl. split; [apply some_bytes_None|]. split; [done|]. split; [done|]. by split. Qed.

Lemma zeros_address : bytes_of 20 (replicate 20 0).
Proof. split; [done|apply zeros_bytes]. Qed.

Lemma UseGas_le g c : is_uint64 (Gas c) → 0 <= g → 0 <= Gas (UseGas g c).2 <= Gas c.
Proof.
  intros Hu Hg. destruct (UseGas_spec g c Hg Hu) as [[? ->]|[? ->]]; cbn [snd set_Gas Gas]; ranges; lia.
Qed.

Lemma create_ok caller code gas v address e : ref_ok caller → bytes_of 20 address → args_ok gas code e → word v →
  create_post gas e (create ctx Run caller code gas v address e).
Proof using HG HK KI HRun.
  intros Hr Ha (Hg & HB & Hb & Hl & He) Hv. unfold create.
  destruct (CallCreateDepth <? _); [apply create_quit; [apply zeros_address|lia|done]|].
  destruct (negb (CanTransfer _ _ _)) eqn:Epay; [apply create_quit; [apply zeros_address|lia|done]|].
  apply negb_false_iff, Z.leb_le in Epay.
  set (d := SetNonce (StateDB e) _ _). assert (db_inv d) as Hd by apply kept_SetNonce, He.
  destruct (negb (GetNonce d address =? 0) || _).
  { unfold create_post. cbn [fst snd]. split; [apply some_bytes_None|]. split; [apply zeros_address|]. split; [lia|].
    split; [by apply evm_ok_db|done]. }
  set (d2 := Transfer _ _ _ _).
  assert (evm_ok (set_db d2 e)) as He1 by (apply evm_ok_db; [done|]; apply kept_create; [apply He|done|done]).
  destruct (enter_ok caller (set_db d2 e) He1) as [He2 Hs2].
  set (c := SetCallCode _ _ _ _). assert (contract_ok G c) as Hc.
  { unfold c. split; cbn; try done. by apply ref_Address_ok. }
  assert (same_level e (enter caller (set_db d2 e))) as Hs3 by exact Hs2.
  destruct (NoRecursion ctx && _).
  { unfold create_post. cbn [fst snd]. split; [apply some_bytes_None|]. split; [done|]. split; [lia|]. by split. }
  pose proof (run_ok (enter caller (set_db d2 e)) c [] Hc ltac:(constructor) ltac:(done) He2 HB) as Hrun.
  destruct (run Run _ c []) as [[[[ret err]|?| |] c'] e'] eqn:Er; cbn [run_post] in Hrun; try done.
  destruct Hrun as (Hret & Hgas & He' & Hs'). cbn in Hgas.
  assert (is_uint64 (Gas c')) as Hu by (ranges; lia).
  assert (Hend : ∀ err1 c1 e1 (b : bool), 0 <= Gas c1 <= Gas c' → evm_ok e1 → same_level e' e1 →
    create_post gas e
      (Ok (ret, address,
           Gas (if b && negb (bool_decide (err1 = Some errExecutionReverted)) then (UseGas (Gas c1) c1).2 else c1),
           if (MaxCodeSize <? len (default [] ret)) && bool_decide (err1 = None) then Some errMaxCodeSizeExceeded else err1),
       if b then set_db (RevertToSnapshot (StateDB e1) d) e1 else e1)).
  { intros err1 c1 e1 b Hg1 He1' Hs1. unfold create_post. cbn [fst snd]. split; [done|]. split; [done|].
    pose proof (UseGas_le (Gas c1) c1 ltac:(ranges; lia) ltac:(lia)).
    split; [destruct (_ && _); lia|]. split; [destruct b; [by apply evm_ok_revert|done]|].
    unfold same_level in *. destruct b; simpl in *; intuition congruence. }
  destruct (bool_decide (err = None) && _); [|apply Hend; [lia|done|by split]].
  pose proof (uint64_range (len (default [] ret) * CreateDataGas)) as Hcd.
  destruct (UseGas_spec (uint64 (len (default [] ret) * CreateDataGas)) c' ltac:(ranges; lia) Hu) as [[Hle ->]|[Hlt ->]].
  - apply Hend; [cbn [set_Gas Gas]; ranges; lia| |by split]. apply evm_ok_db; [done|]. apply kept_SetCode, He'.
  - apply Hend; [lia|done|by split].
Qed.

Lemma Create_ok caller code gas v e : ref_ok caller → args_ok gas code e → word v →
  create_post gas e (Create ctx Run caller code gas v e).
Proof using HG HK KI HRun. intros. apply create_ok; try done. apply CreateAddress_bytes. Qed.

Lemma Create2_ok caller code gas v salt e : ref_ok caller → args_ok gas code e → word v →
  create_post gas e (Create2 ctx Run caller code gas v salt e).
Proof using HG HK KI HRun.
  intros. apply create_ok; try done. unfold CreateAddress2.
  destruct (Keccak256_bytes ([255] ++ ref_Address caller ++ BigToHash salt ++ Keccak256 code)) as [Hl Hb].
  split; [by rewrite length_drop, Hl|by apply Forall_drop].
Qed.
End calls.
