(* ===== verification/EvmSafety.v ===== *)
(** * The EVM returns, within its gas, without a panic

    The call instructions, the round of the interpreter and its loop.  An
    execution with [gas] needs at most [gas + 1] rounds, in itself and in every
    contract it calls, because every instruction that does not end it uses up
    gas and a called contract gets less than the price of the call. *)

From S2P Require Import Prelude Checked EvmBase EvmAnalysis EvmInstr EvmGas EvmPrecompiled EvmRun EvmLogic EvmSafeOps EvmSafeGas EvmSafeCalls.
#[local] Open Scope Z_scope.
#[local] Set Default Goal Selector "!".
#[local] Set Warnings "-clear-no-such-hyp".

Section safety.
Context `{HK : HostOk} {I : DbInv} {KI : Kept I} (ctx : EvmContext) (Hctx : ctx_ok ctx) (G : Z) (HG : G <= MaxUint64).

Section instructions.
Context (B : Z) (Run : Contract → list Z → EVM → RunResult) (HRun : Run_ok G B Run).

(** ** The call instructions *)

Lemma op_bind {A} Bd f0 (m : X A) (k : A → X (option (list Z))) f a f1 : m f = (Ok a, f1) →
  op_post G Bd f0 (k a f1) → op_post G Bd f0 (xbind m k f).
Proof. unfold xbind. by intros ->. Qed.

Lemma frame_ok_stack f st : frame_ok G f → Forall word st → len st <= StackLimit → frame_ok G (with_stack st f).
Proof. intros [] ??. by split. Qed.

Lemma frame_ok_evm f e : frame_ok G f → evm_ok e → frame_ok G (with_evm e f).
Proof. intros [] ?. by split. Qed.

Lemma frame_ok_gas f g : frame_ok G f → 0 <= g <= G → frame_ok G (with_contract (set_Gas g (contract f)) f).
Proof. intros [?? ? [] ? ?] ?. by split; [..|split| |]. Qed.

Lemma bytes_of_BigToAddress x : bytes_of 20 (BigToAddress x).
Proof. split; [apply length_be_bytes|apply be_bytes_range]. Qed.

(** The end of a call instruction, in a frame with room on the stack *)
Lemma after_call_safe Bd f0 f ro rs ret g err : frame_ok G f → len (stack f) < StackLimit → covers (memory f) ro rs →
  some_bytes ret → 0 <= g → Gas (contract f) + g <= Bd → Bd <= G → same_level (evm f0) (evm f) →
  op_post G Bd f0 (after_call ro rs (ret, g, err) f).
Proof using HG.
  intros Hok Hlen Hcov Hret Hg HB HBG Hs. pose proof (ko_Gas _ _ (fo_contract _ _ Hok)) as [Hg0 _].
  unfold after_call. eapply op_bind; [done|]. set (f1 := with_stack _ f).
  assert (frame_ok G f1) as Hok1.
  { apply frame_ok_stack; [done| |unfold len in *; simpl in *; lia]. apply Forall_cons.
    split; [destruct err; [apply word_0|apply word_1]|by apply Hok]. }
  assert (Hend : ∀ f2, frame_ok G f2 → contract f2 = contract f → evm f2 = evm f →
    op_post G Bd f0 (xbind (add_contract_gas g) (λ _, xret ret) f2)).
  { intros f2 Hok2 Hc2 He2. unfold op_post, add_contract_gas, xbind, xmodify, xret. cbn [fst snd]. rewrite Hc2.
    rewrite uint64_id by (ranges; lia). split; [done|]. pose proof (frame_ok_gas f2 (Gas (contract f) + g) Hok2 ltac:(lia)) as Hok3. rewrite Hc2 in Hok3.
    split; [done|].
    split; [done|]. cbn [with_contract evm]. by rewrite He2. }
  destruct (_ || _).
  - destruct (mem_Set_ok (memory f) ro rs (default [] ret) (fo_memory _ _ Hok) Hcov Hret) as (m' & Hm' & Hmok & _).
    apply op_bind with (a := tt) (f1 := with_memory m' f1).
    + unfold on_memory, xbind, xgets, xlift, xmodify. change (memory f1) with (memory f). by rewrite Hm'.
    + apply Hend; [|done|done]. destruct Hok1. by split.
  - eapply op_bind; [done|]. by apply Hend.
Qed.

(** A call to the EVM in the middle of an instruction *)
Lemma op_on_evm {A} Bd f0 (g : EVM → outcome unit A * EVM) (k : A → X (option (list Z))) f
    (P : A → EVM → Prop) :
  match (g (evm f)).1 with Ok a => P a (g (evm f)).2 | Panic => Excuse G (g (evm f)).2 | _ => False end →
  (∀ a e, P a e → op_post G Bd f0 (k a (with_evm e f))) → op_post G Bd f0 (xbind (on_evm g) k f).
Proof.
  intros Hg Hk. unfold xbind, on_evm. destruct (g (evm f)) as [r e]. cbn [fst snd] in Hg.
  destruct r as [a|?| |]; [by apply Hk|done|by left|done].
Qed.

(** The arguments are read from the memory. *)
Lemma call_args_ok f off l : frame_ok G f → covers (memory f) off l →
  ∃ args, call_args off l f = (Ok args, f) ∧ Forall is_byte args ∧ len args < 2 ^ 62.
Proof.
  intros Hok Hc. destruct (mem_Get_ok (memory f) off l (fo_memory _ _ Hok) Hc) as (r & Hr & Hb & Hl).
  unfold call_args, memory_Get, xbind, xgets, xlift. rewrite Hr. eexists. split; [done|]. split; [done|].
  pose proof (mo_max _ (fo_memory _ _ Hok)). rewrite Hl. destruct Hc as (? & ? & [->|Hc]); lia.
Qed.

Definition call_ready (op : OpCode) (f : Frame) : Prop :=
  frame_ok G f ∧ ready op f ∧ 0 <= gas_room op f ∧ (calls op = true → gas_room op f < B ∧ Gas (contract f) < B)
  ∧ Gas (contract f) + gas_room op f <= G.

Abbreviation call_safe op f := (op_post G (Gas (contract f) + gas_room op f) f (execute ctx Run op f)).

Lemma max_covers m o1 l1 o2 l2 s : word o1 → word l1 → word o2 → word l2 →
  @Ok evm_err Z (Z.max (calcMemSize o1 l1) (calcMemSize o2 l2)) = Ok s → s <= len (store m) →
  covers m o1 l1 ∧ covers m o2 l2.
Proof. intros ???? [= <-] ?. split; apply calcMemSize_covers; done || lia. Qed.

(** From the arguments on, a call instruction is the same for every kind of call. *)
Lemma call_body_safe (callfn : Contract → list Z → EVM → CallResult) gas Bd f0 f io il ro rl :
  frame_ok G f → len (stack f) < StackLimit → covers (memory f) io il → covers (memory f) ro rl →
  same_level (evm f0) (evm f) → Gas (contract f) + gas <= Bd → Bd <= G →
  (∀ args, Forall is_byte args → len args < 2 ^ 62 → call_post G gas (evm f) (callfn (contract f) args (evm f))) →
  op_post G Bd f0 (xbind (call_args io il) (λ args, xbind (xgets contract) (λ c,
                   xbind (on_evm (callfn c args)) (after_call ro rl))) f).
Proof using HG.
  intros Hok Hlen Hi Ho Hs HB HG' Hcall. destruct (call_args_ok f io il Hok Hi) as (args & Ha & Hb & Hl).
  eapply op_bind; [done|]. eapply op_bind; [done|].
  apply op_on_evm with (P := λ a e, some_bytes a.1.1 ∧ 0 <= a.1.2 <= gas ∧ evm_ok e ∧ same_level (evm f) e).
  - specialize (Hcall args Hb Hl). unfold call_post in Hcall. by destruct (callfn _ _ _) as [[[[? ?] ?]|?| |] ?].
  - intros [[ret g] err] e (Hret & Hg & He & Hse). cbn [fst snd] in *.
    apply after_call_safe; try done; [by apply frame_ok_evm|cbn; lia|cbn; lia|].
    unfold same_level in *. cbn [with_evm evm] in *. intuition congruence.
Qed.

(** The operands of a call instruction, and the frame without them *)
Lemma call_operands op f n : call_ready op f → validateStack (jump_table op) = makeStackFunc (Z.of_nat n) 1 →
  ∃ a r, stack f = a ++ r ∧ length a = n ∧ Forall word a ∧ frame_ok G (with_stack r f) ∧ len r < StackLimit.
Proof.
  intros (Hok & [Hv _] & _) Hfun. rewrite Hfun in Hv. apply makeStackFunc_ok in Hv as [Hn Hroom].
  exists (take n (stack f)), (drop n (stack f)). pose proof (fo_stack _ _ Hok) as Hst.
  assert (len (drop n (stack f)) = len (stack f) - Z.of_nat n) as Hd
    by (unfold len in *; rewrite length_drop; lia).
  split; [by rewrite take_drop|]. split; [rewrite length_take; unfold len in *; lia|].
  split; [by apply Forall_take|]. split; [|lia].
  apply frame_ok_stack; [done|by apply Forall_drop|]. pose proof (fo_len _ _ Hok). lia.
Qed.

Lemma call_ready_args op f args : calls op = true → call_ready op f → Forall is_byte args → len args < 2 ^ 62 →
  args_ok G B (gas_room op f) args (evm f).
Proof.
  intros Hcalls (Hok & _ & ? & HB & ?) ??. destruct (HB Hcalls). pose proof (ko_Gas _ _ (fo_contract _ _ Hok)). pose proof (fo_evm _ _ Hok).
  unfold args_ok. split_and?; done || lia.
Qed.

Lemma opCall_safe f : call_ready CALL f → call_safe CALL f.
Proof using HG HK KI HRun.
  intros Hf. destruct (call_operands CALL f 7 Hf eq_refl) as (a & r & Hst & Ha & Hw & Hok & Hlen).
  pose proof Hf as (_ & [_ Hm] & _ & _ & HG'). destruct f as [p c m st e]. cbn [stack] in Hst. subst st.
  destruct a as [|g [|addr [|v [|io [|il [|ro [|rl []]]]]]]]; try done.
  rewrite !Forall_cons in Hw. destruct Hw as (_ & _ & Hwv & Hwio & Hwil & Hwro & Hwrl & _).
  destruct Hm as (s & Hs & Hle). apply (max_covers m _ _ _ _ s) in Hs as [Hco Hci]; [|done..].
  cbn [execute]. unfold opCall. do 8 (eapply op_bind; [done|]). cbv zeta. rewrite U256_id by done.
  eapply call_body_safe; try done. intros args Hb Hl.
  apply (Call_ok ctx G HG B Run HRun); [by apply Hok|apply bytes_of_BigToAddress| |done].
  by apply (call_ready_args CALL _ args eq_refl Hf).
Qed.

Lemma opCallCode_safe f : call_ready CALLCODE f → call_safe CALLCODE f.
Proof using HG HK KI HRun.
  intros Hf. destruct (call_operands CALLCODE f 7 Hf eq_refl) as (a & r & Hst & Ha & Hw & Hok & Hlen).
  pose proof Hf as (_ & [_ Hm] & _ & _ & HG'). destruct f as [p c m st e]. cbn [stack] in Hst. subst st.
  destruct a as [|g [|addr [|v [|io [|il [|ro [|rl []]]]]]]]; try done.
  rewrite !Forall_cons in Hw. destruct Hw as (_ & _ & Hwv & Hwio & Hwil & Hwro & Hwrl & _).
  destruct Hm as (s & Hs & Hle). apply (max_covers m _ _ _ _ s) in Hs as [Hco Hci]; [|done..].
  cbn [execute]. unfold opCallCode. do 8 (eapply op_bind; [done|]). cbv zeta. rewrite U256_id by done.
  eapply call_body_safe; try done. intros args Hb Hl.
  apply (CallCode_ok ctx G HG B Run HRun); [by apply Hok| |done]. by apply (call_ready_args CALLCODE _ args eq_refl Hf).
Qed.

Lemma opDelegateCall_safe f : call_ready DELEGATECALL f → call_safe DELEGATECALL f.
Proof using HG HK KI HRun.
  intros Hf. destruct (call_operands DELEGATECALL f 6 Hf eq_refl) as (a & r & Hst & Ha & Hw & Hok & Hlen).
  pose proof Hf as (_ & [_ Hm] & _ & _ & HG'). destruct f as [p c m st e]. cbn [stack] in Hst. subst st.
  destruct a as [|g [|addr [|io [|il [|ro [|rl []]]]]]]; try done.
  rewrite !Forall_cons in Hw. destruct Hw as (_ & _ & Hwio & Hwil & Hwro & Hwrl & _).
  destruct Hm as (s & Hs & Hle). apply (max_covers m _ _ _ _ s) in Hs as [Hco Hci]; [|done..].
  cbn [execute]. unfold opDelegateCall. do 7 (eapply op_bind; [done|]).
  eapply (call_body_safe (λ c args, DelegateCall ctx Run (ContractCaller c) _ args _)); try done. intros args Hb Hl.
  apply (DelegateCall_ok ctx G HG B Run HRun); [by apply Hok|]. by apply (call_ready_args DELEGATECALL _ args eq_refl Hf).
Qed.

Lemma opStaticCall_safe f : call_ready STATICCALL f → call_safe STATICCALL f.
Proof using HG HK KI HRun.
  intros Hf. destruct (call_operands STATICCALL f 6 Hf eq_refl) as (a & r & Hst & Ha & Hw & Hok & Hlen).
  pose proof Hf as (_ & [_ Hm] & _ & _ & HG'). destruct f as [p c m st e]. cbn [stack] in Hst. subst st.
  destruct a as [|g [|addr [|io [|il [|ro [|rl []]]]]]]; try done.
  rewrite !Forall_cons in Hw. destruct Hw as (_ & _ & Hwio & Hwil & Hwro & Hwrl & _).
  destruct Hm as (s & Hs & Hle). apply (max_covers m _ _ _ _ s) in Hs as [Hco Hci]; [|done..].
  cbn [execute]. unfold opStaticCall. do 7 (eapply op_bind; [done|]).
  eapply (call_body_safe (λ c args, StaticCall ctx Run (ContractCaller c) _ args _)); try done. intros args Hb Hl.
  apply (StaticCall_ok ctx G HG B Run HRun); [by apply Hok|apply bytes_of_BigToAddress|].
  by apply (call_ready_args STATICCALL _ args eq_refl Hf).
Qed.

(** ** Creations *)

Lemma spend_ok f : contract_ok G (contract f) →
  ∃ g, spend_all_but_one_64th f = (Ok g, with_contract (set_Gas (Gas (contract f) - g) (contract f)) f)
       ∧ 0 <= g <= Gas (contract f).
Proof using HG.
  intros Hc. pose proof (ko_Gas _ _ Hc) as [H0 H1]. unfold spend_all_but_one_64th, xbind, xgets, xmodify, xret.
  set (q := Gas (contract f) / 64). assert (0 <= q <= Gas (contract f)) as Hq.
  { unfold q. split; [apply Z.div_pos; lia|]. apply Z.div_le_upper_bound; lia. }
  rewrite (uint64_id (Gas (contract f) - q)) by (ranges; lia). exists (Gas (contract f) - q).
  destruct (UseGas_spec (Gas (contract f) - q) (contract f)) as [[_ ->]|[? _]]; [lia|ranges; lia| |lia].
  split; [done|lia].
Qed.

(** From the memory on, both creations are the same. *)
Lemma create_body_safe (createfn : Contract → list Z → Z → EVM → _) f0 f off l : frame_ok G f → len (stack f) < StackLimit →
  covers (memory f) off l → evm f = evm f0 → Gas (contract f) < B →
  (∀ c args gas, contract_ok G c → args_ok G B gas args (evm f) → create_post G gas (evm f) (createfn c args gas (evm f))) →
  op_post G (Gas (contract f)) f0 (xbind (memory_Get (Int64_of off) (Int64_of l)) (λ input,
    xbind spend_all_but_one_64th (λ gas, xbind (xgets contract) (λ c,
    xbind (on_evm (createfn c (default [] input) gas)) after_create))) f).
Proof using HG.
  intros Hok Hlen Hcov Hef HB Hcreate. pose proof (fo_contract _ _ Hok) as Hc. pose proof (ko_Gas _ _ Hc) as [Hg0 Hg1].
  destruct (mem_Get_ok (memory f) off l (fo_memory _ _ Hok) Hcov) as (r & Hr & Hb & Hl).
  apply op_bind with (a := r) (f1 := f); [unfold memory_Get, xbind, xgets, xlift; by rewrite Hr|].
  destruct (spend_ok f Hc) as (gas & Hsp & Hgas). eapply op_bind; [done|]. eapply op_bind; [done|].
  set (f1 := with_contract _ f). assert (frame_ok G f1) as Hok1 by (apply frame_ok_gas; [done|lia]).
  apply op_on_evm with (P := λ a e, some_bytes a.1.1.1 ∧ bytes_of 20 a.1.1.2 ∧ 0 <= a.1.2 <= gas ∧ evm_ok e ∧ same_level (evm f) e).
  - assert (args_ok G B gas (default [] r) (evm f)) as Hargs.
    { unfold args_ok. pose proof (mo_max _ (fo_memory _ _ Hok)). pose proof (fo_evm _ _ Hok).
      destruct Hcov as (? & ? & Hcov). split_and?; try done; lia. }
    specialize (Hcreate (contract f1) (default [] r) gas (fo_contract _ _ Hok1) Hargs). unfold create_post in Hcreate.
    change (evm f1) with (evm f). by destruct (createfn _ _ _ _) as [[[[[? ?] ?] ?]|?| |] ?].
  - intros [[[ret a] g] err] e (Hret & Ha & Hg & He & Hs). cbn [fst snd] in *. unfold after_create.
    do 2 (eapply op_bind; [done|]). unfold op_post, xret. cbn [fst snd].
    set (st := _ :: _). cbn [with_contract contract with_stack with_evm set_Gas Gas f1].
    rewrite uint64_id by (ranges; lia). split; [case_bool_decide; [done|apply some_bytes_None]|].
    split; [|split; [cbn; lia|cbn; unfold same_level in *; rewrite <- Hef; done]].
    destruct Hok1 as [Hst1 ? ? Hc1 ? ?]. split; cbn; try done.
    + unfold st. apply Forall_cons. split; [destruct err; [apply word_0|by apply SetBytes_20]|done].
    + unfold st, len in *. simpl in *. lia.
    + destruct Hc1. split; cbn; try done. lia.
Qed.

Lemma opCreate_safe f : call_ready CREATE f → call_safe CREATE f.
Proof using HG HK KI HRun.
  intros Hf. destruct (call_operands CREATE f 3 Hf eq_refl) as (a & r & Hst & Ha & Hw & Hok & Hlen).
  pose proof Hf as (_ & [_ Hm] & _ & HB & _). destruct (HB eq_refl) as [_ HB']. destruct f as [p c m st e]. cbn [stack] in Hst. subst st.
  destruct a as [|v [|off [|l []]]]; try done. rewrite !Forall_cons in Hw. destruct Hw as (Hwv & Hwo & Hwl & _).
  destruct Hm as (s & Hs & Hle). apply (λ w1 w2, region_covers m off l s w1 w2 Hs) in Hle; [|done..].
  cbn [execute]. unfold opCreate. do 3 (eapply op_bind; [done|]). cbn [gas_room]. rewrite Z.add_0_r.
  apply (create_body_safe (λ c args gas, Create ctx Run (ContractCaller c) args gas v)
           _ (with_stack r (mkFrame p c m ([v; off; l] ++ r) e))); try done.
  intros c' args gas Hc' Hargs. by apply (Create_ok ctx G HG B Run HRun).
Qed.

Lemma opCreate2_safe f : call_ready CREATE2 f → call_safe CREATE2 f.
Proof using HG HK KI HRun.
  intros Hf. destruct (call_operands CREATE2 f 4 Hf eq_refl) as (a & r & Hst & Ha & Hw & Hok & Hlen).
  pose proof Hf as (_ & [_ Hm] & _ & HB & _). destruct (HB eq_refl) as [_ HB']. destruct f as [p c m st e]. cbn [stack] in Hst. subst st.
  destruct a as [|v [|off [|l [|salt []]]]]; try done. rewrite !Forall_cons in Hw. destruct Hw as (Hwv & Hwo & Hwl & _).
  destruct Hm as (s & Hs & Hle). apply (λ w1 w2, region_covers m off l s w1 w2 Hs) in Hle; [|done..].
  cbn [execute]. unfold opCreate2. do 4 (eapply op_bind; [done|]). cbn [gas_room]. rewrite Z.add_0_r.
  apply (create_body_safe (λ c args gas, Create2 ctx Run (ContractCaller c) args gas v salt)
           _ (with_stack r (mkFrame p c m ([v; off; l; salt] ++ r) e))); try done.
  intros c' args gas Hc' Hargs. by apply (Create2_ok ctx G HG B Run HRun).
Qed.

Lemma execute_safe op f : call_ready op f → GetOp (contract f) (pc f) = Some op → call_safe op f.
Proof using HG HK KI HRun Hctx.
  intros Hf Hop. destruct (calls op) eqn:Hc.
  - destruct op; try discriminate Hc.
    + by apply opCreate_safe.
    + by apply opCall_safe.
    + by apply opCallCode_safe.
    + by apply opDelegateCall_safe.
    + by apply opCreate2_safe.
    + by apply opStaticCall_safe.
  - destruct Hf as (Hok & Hr & _). assert (gas_room op f = 0) as -> by by destruct op. rewrite Z.add_0_r.
    by apply quiet_safe.
Qed.

(** ** One round *)

(** The size of the memory an instruction needs *)
Definition mem_target (op : OpCode) (f : Frame) (m : Z) : Prop :=
  0 <= m ∧ m mod 32 = 0 ∧
  match memorySize (jump_table op) with
  | None => m = 0
  | Some size => ∃ s, size (stack f) = Ok s ∧ s <= m
  end.

Lemma memory_size_ok op f size : Forall word (stack f) → validateStack (jump_table op) (stack f) = None →
  memorySize (jump_table op) = Some size → ∃ s, size (stack f) = Ok s ∧ 0 <= s.
Proof.
  intros Hw Hv Hsize.
  assert (Hitem : ∀ n, Z.of_nat n < len (stack f) → ∃ x, at_stack (stack f) n = Ok x ∧ word x).
  { intros n Hn. destruct (stack_item (stack f) n Hn) as [x Hx]. exists x. unfold at_stack. rewrite Hx. split; [done|].
    rewrite Forall_forall in Hw. by eapply Hw, list_elem_of_lookup_2. }
  assert (Hreg : ∀ a b, Z.of_nat a < len (stack f) → Z.of_nat b < len (stack f) →
            ∃ s, mem_region (stack f) a b = Ok s ∧ 0 <= s).
  { intros a b Ha Hb. destruct (Hitem a Ha) as (x & Hx & [? _]), (Hitem b Hb) as (y & Hy & [? _]).
    unfold mem_region. rewrite Hx, Hy. eexists. split; [done|]. unfold calcMemSize. destruct (y =? 0); lia. }
  assert (Hmax : ∀ a b c d, Z.of_nat a < len (stack f) → Z.of_nat b < len (stack f) → Z.of_nat c < len (stack f) →
            Z.of_nat d < len (stack f) → ∃ s, mem_max (mem_region (stack f) a b) (mem_region (stack f) c d) = Ok s ∧ 0 <= s).
  { intros a b c d Ha Hb Hc Hd. destruct (Hreg a b Ha Hb) as (x & -> & ?), (Hreg c d Hc Hd) as (y & -> & ?).
    eexists. split; [done|]. lia. }
  assert (Hone : ∀ k, 0 <= k → 0 < len (stack f) →
            ∃ s, obind (at_stack (stack f) 0) (λ o, @Ok evm_err Z (calcMemSize o k)) = Ok s ∧ 0 <= s).
  { intros k Hk Hl. destruct (Hitem 0%nat Hl) as (x & -> & [? _]). eexists. split; [done|].
    unfold calcMemSize. destruct (k =? 0); lia. }
  destruct op; try discriminate Hsize; injection Hsize as <-; cbn [jump_table plain validateStack] in Hv;
    apply makeStackFunc_ok in Hv as [? _];
    first [apply Hreg; lia|apply Hmax; lia|apply Hone; lia].
Qed.

Lemma memory_need_ok op f : Forall word (stack f) → validateStack (jump_table op) (stack f) = None →
  match memory_need op f with Ok m => mem_target op f m | Err _ => True | _ => False end.
Proof.
  intros Hw Hv. unfold memory_need, mem_target.
  destruct (memorySize (jump_table op)) as [size|] eqn:Esize; [|done].
  destruct (memory_size_ok op f size Hw Hv Esize) as (s & Hs & Hs0). rewrite Hs. cbn [obind]. unfold bigUint64.
  destruct (Z.ltb_spec 64 (BitLen s)) as [|Hbits]; [done|]. apply BitLen_le in Hbits; [|lia..].
  unfold Uint64_of. rewrite uint64_id by (ranges; lia).
  destruct (SafeMul (toWordSize s) 32) as [m [|]] eqn:Em; [done|].
  assert (s <= MaxUint64 - 31) as Hle.
  { destruct (Z.le_gt_cases s (MaxUint64 - 31)); [done|]. unfold toWordSize in Em.
    rewrite (proj2 (Z.ltb_lt _ _)) in Em by lia. by vm_compute in Em. }
  apply SafeMul_ok in Em as [-> Hu]; [|by apply toWordSize_range|ranges; lia].
  pose proof (toWordSize_words s ltac:(lia)). split; [lia|]. split; [by apply Z.mod_mul|]. exists s. split; [done|lia].
Qed.

Lemma mem_Resize_ok m size : mem_ok m → size mod 32 = 0 → size <= MaxMem →
  mem_ok (mem_Resize m size) ∧ size <= len (store (mem_Resize m size)).
Proof.
  intros [Hb Hw Hm Hf] Hs Hmax. unfold mem_Resize. destruct (Z.ltb_spec (len (store m)) size); [|by split].
  assert (len (store m ++ replicate (Z.to_nat (size - len (store m))) 0) = size) as Hl.
  { rewrite len_app. unfold len at 2. rewrite length_replicate. lia. }
  split; [split|]; cbn [store lastGasCost]; rewrite ?Hl; try done. apply Forall_app. split; [done|apply zeros_bytes].
Qed.

Definition step_post (f : Frame) (p : outcome unit (option (option (list Z) * option evm_err)) * Frame) : Prop :=
  match p.1 with
  | Ok None => frame_ok G p.2 ∧ Gas (contract p.2) < Gas (contract f) ∧ same_level (evm f) (evm p.2)
  | Ok (Some (ret, _)) =>
      some_bytes ret ∧ 0 <= Gas (contract p.2) <= Gas (contract f) ∧ evm_ok (evm p.2) ∧ same_level (evm f) (evm p.2)
  | Panic => frame_Excuse G p.2
  | _ => False
  end.

Lemma fail_with_ok f f1 err : 0 <= Gas (contract f1) <= Gas (contract f) → evm_ok (evm f1) →
  same_level (evm f) (evm f1) → step_post f (fail_with err f1).
Proof. intros. unfold step_post. cbn. split; [apply some_bytes_None|]. done. Qed.

Lemma finish_step_ok f0 op f : call_ready op f → GetOp (contract f) (pc f) = Some op → same_level (evm f0) (evm f) →
  Gas (contract f) + gas_room op f + (if stops op then 0 else 1) <= Gas (contract f0) →
  step_post f0 (finish_step ctx Run op f).
Proof using HG HK KI HRun Hctx.
  intros Hf Hop Hs Hgas. pose proof (execute_safe op f Hf Hop) as Hx. unfold finish_step.
  set (note := λ (res : option (list Z)) f1, if returns (jump_table op) then with_evm (set_returnData (default [] res) (evm f1)) f1 else f1).
  assert (Hnote : ∀ res f1, some_bytes res → frame_ok G f1 → frame_ok G (note res f1) ∧ contract (note res f1) = contract f1
            ∧ same_level (evm f1) (evm (note res f1))).
  { intros res f1 Hres Hok1. unfold note. destruct (returns (jump_table op)); [|by split].
    split; [|by split]. apply frame_ok_evm; [done|]. destruct (fo_evm _ _ Hok1). by split. }
  destruct (execute ctx Run op f) as [[res|err| |] f1]; unfold op_post in Hx; cbn [fst snd] in Hx; try done.
  - destruct Hx as (Hres & Hok1 & Hg1 & Hs1). destruct (Hnote res f1 Hres Hok1) as (Hok2 & Hc2 & Hs2).
    assert (same_level (evm f0) (evm (note res f1))) as Hs3 by (unfold same_level in *; intuition congruence).
    pose proof (ko_Gas _ _ (fo_contract _ _ Hok1)).
    change (if returns (jump_table op) then _ else _) with (note res f1). unfold step_post, stops in *.
    destruct (reverts (jump_table op)); cbn [fst snd]; rewrite ?orb_true_r in Hgas.
    { rewrite Hc2. split; [done|]. split; [lia|]. split; [apply Hok2|done]. }
    destruct (halts (jump_table op)); cbn [orb] in Hgas; cbn [fst snd].
    { rewrite Hc2. split; [done|]. split; [lia|]. split; [apply Hok2|done]. }
    destruct (negb _); cbn [fst snd with_pc contract evm]; rewrite Hc2.
    + split; [|split; [lia|done]]. destruct Hok2. split; cbn; try done. apply uint64_range.
    + split; [done|]. split; [lia|done].
  - destruct Hx as (Hok1 & Hg1 & Hs1). destruct (Hnote None f1 some_bytes_None Hok1) as (Hok2 & Hc2 & Hs2).
    pose proof (ko_Gas _ _ (fo_contract _ _ Hok1)).
    change (if returns (jump_table op) then _ else _) with (note None f1).
    apply fail_with_ok; [rewrite Hc2; destruct (stops op); lia|apply Hok2|].
    unfold same_level in *. intuition congruence.
Qed.

Lemma charge_step_ok op m f : frame_ok G f → GetOp (contract f) (pc f) = Some op →
  validateStack (jump_table op) (stack f) = None → mem_target op f m → Gas (contract f) <= B →
  step_post f (charge_step ctx Run op m f).
Proof using HG HK KI HRun Hctx.
  intros Hok Hop Hv (Hm0 & Hm32 & Hmt) HB. pose proof (fo_contract _ _ Hok) as Hc. pose proof (ko_Gas _ _ Hc) as [Hg0 HgG].
  pose proof (gasCost_safe G op m f Hok (opcode_of_numbered _ _ Hop) Hv) as Hgas.
  specialize (Hgas ltac:(intros Hn; rewrite Hn in Hmt; done)). unfold gsafe in Hgas. unfold charge_step.
  destruct (gasCost (jump_table op) m f) as [[cost|err| |] f1]; try done.
  2:{ destruct Hgas as (_ & Hc1 & _ & _ & _ & He1 & Hs1). apply fail_with_ok; [rewrite Hc1; lia|done|done]. }
  destruct Hgas as ((Hp1 & Hc1 & Hst1 & Hstore1 & Hl1 & He1 & Hs1) & HmM & Hu & Hr0 & Hroom). rewrite Hc1.
  destruct (UseGas_spec cost (contract f)) as [[Hle ->]|[Hlt ->]]; [ranges; lia|by apply (gas_uint64 G HG)| |].
  2:{ apply fail_with_ok; [rewrite Hc1; lia|done|done]. }
  set (f2 := if 0 <? m then _ else _).
  assert (Hmem1 : mem_ok (memory f1)).
  { destruct (fo_memory _ _ Hok). split; rewrite ?Hstore1; done. }
  assert (Hf2 : ∃ mem, f2 = mkFrame (pc f) (set_Gas (Gas (contract f) - cost) (contract f)) mem (stack f) (evm f1)
                       ∧ mem_ok mem ∧ m <= len (store mem)).
  { unfold f2, with_contract, with_memory. cbn [pc contract memory stack evm]. rewrite Hp1, Hst1.
    destruct (Z.ltb_spec 0 m).
    - eexists. split; [done|]. by apply mem_Resize_ok.
    - eexists. split; [done|]. split; [done|]. unfold len. lia. }
  destruct Hf2 as (mem & Hf2 & Hmem & Hlen). rewrite Hf2.
  assert (Hroom2 : gas_room op (mkFrame (pc f) (set_Gas (Gas (contract f) - cost) (contract f)) mem (stack f) (evm f1)) = gas_room op f1).
  { unfold gas_room. cbn [stack evm]. by rewrite Hst1. }
  assert (0 <= (if stops op then 0 else 1) <= 1) as Hs01 by (destruct (stops op); lia).
  assert (Hok2 : frame_ok G (mkFrame (pc f) (set_Gas (Gas (contract f) - cost) (contract f)) mem (stack f) (evm f1))).
  { destruct Hok as [? ? _ [] _ ?]. split; cbn; try done. split; cbn; try done. ranges. lia. }
  apply finish_step_ok; [|exact Hop|exact Hs1|rewrite Hroom2; cbn; lia].
  unfold call_ready. rewrite Hroom2. cbn [contract set_Gas Gas]. split; [done|]. split.
  { unfold ready. cbn [stack memory]. split; [done|]. destruct (memorySize (jump_table op)); [|done].
    destruct Hmt as (s & Hs & Hsm). exists s. split; [done|lia]. }
  split; [done|]. split; [|lia]. intros Hcalls. assert (stops op = false) as Hst by by destruct op.
  rewrite Hst in Hroom. lia.
Qed.

Lemma step_ok f : frame_ok G f → Gas (contract f) <= B → step_post f (step ctx Run f).
Proof using HG HK KI HRun Hctx.
  intros Hok HB. pose proof (fo_contract _ _ Hok) as Hc. pose proof (ko_Gas _ _ Hc) as [Hg0 _].
  assert (Hfail : ∀ err, step_post f (fail_with err f)).
  { intros err. apply fail_with_ok; [lia|apply Hok|by split]. }
  unfold step. destruct (GetOp (contract f) (pc f)) as [op|] eqn:Eop; [|done].
  destruct (validateStack (jump_table op) (stack f)) eqn:Ev; [done|].
  assert (Hres : match enforceRestrictions op f with Ok _ => True | _ => False end).
  { unfold enforceRestrictions. destruct (readOnly _); [|done]. destruct (writes _); [done|].
    destruct op; try done. cbn [jump_table validateStack] in Ev. apply makeStackFunc_ok in Ev as [Hl _].
    destruct (stack_item (stack f) 2 ltac:(lia)) as [x ->]. done. }
  destruct (enforceRestrictions op f) as [[err|]|?| |]; try done.
  pose proof (memory_need_ok op f (fo_stack _ _ Hok) Ev) as Hm.
  destruct (memory_need op f) as [m|err| |]; try done. by apply charge_step_ok.
Qed.
End instructions.

(** ** The loop *)

Definition loop_post (f : Frame) (p : outcome unit (option (list Z) * option evm_err) * Frame) : Prop :=
  match p.1 with
  | Ok (ret, _) =>
      some_bytes ret ∧ 0 <= Gas (contract p.2) <= Gas (contract f) ∧ evm_ok (evm p.2) ∧ same_level (evm f) (evm p.2)
  | Panic => frame_Excuse G p.2
  | _ => False
  end.

Lemma blame_Excuse f n : frame_Excuse G f → Excuse G (set_depth n (blame (contract f) (evm f))).
Proof.
  intros [[|(c & Hp & Hc)]|[Hp Hc]]; [by left|right..]; unfold blame; cbn; rewrite Hp; cbn; by eexists.
Qed.

Lemma Run_with_ok fuel : (∀ f, frame_ok G f → Gas (contract f) < Z.of_nat fuel → loop_post f (loop ctx fuel f)) →
  Run_ok G (Z.of_nat fuel) (Run ctx fuel).
Proof.
  intros Hloop c input e Hc Hb Hl He HB. unfold Run, Run_with. pose proof (ko_Gas _ _ Hc) as [Hg0 _].
  case_bool_decide as Hcode.
  { unfold run_post. split; [apply some_bytes_None|]. split; [lia|]. split; [by destruct He; split|].
    unfold same_level. cbn. split; [lia|done]. }
  set (f := mkFrame 0 _ _ _ _). assert (frame_ok G f) as Hok.
  { destruct Hc, He. split; cbn; try done. }
  specialize (Hloop f Hok HB). destruct (loop ctx fuel f) as [[[ret err]|?| |] f']; unfold loop_post in Hloop; cbn [fst snd] in *; try done.
  2:{ by apply blame_Excuse. }
  destruct Hloop as (Hret & Hg & He' & Hd & Hr). unfold run_post. split; [done|]. split; [done|].
  split; [by destruct He'; split|]. unfold same_level. cbn [set_depth depth readOnly] in *. cbn in Hd. split; [lia|done].
Qed.

Lemma loop_ok fuel : ∀ f, frame_ok G f → Gas (contract f) < Z.of_nat fuel → loop_post f (loop ctx fuel f).
Proof using HG HK KI Hctx.
  induction fuel as [|fuel IH]; intros f Hok HB.
  { pose proof (ko_Gas _ _ (fo_contract _ _ Hok)). lia. }
  cbn [loop]. pose proof (step_ok _ _ (Run_with_ok fuel IH) f Hok ltac:(lia)) as Hstep.
  unfold Run in Hstep. destruct (step ctx (Run_with (loop ctx fuel)) f) as [[[[ret err]|]|?| |] f'];
    unfold step_post in Hstep; cbn [fst snd] in Hstep; try done.
  destruct Hstep as (Hok' & Hg & Hs). specialize (IH f' Hok' ltac:(lia)). unfold loop_post in *.
  destruct (loop ctx fuel f') as [[[ret err]|?| |] f'']; cbn [fst snd] in *; try done.
  destruct IH as (Hret & Hg' & He' & Hs'). split; [done|]. split; [lia|]. split; [done|].
  unfold same_level in *. intuition congruence.
Qed.
End safety.
