(* ===== verification/EvmFlow.v ===== *)
(** * The EVM: what executions do to the account database

    A relation between databases that every write of an execution respects is
    respected by the whole execution, with all the contracts it calls, reverted
    or not.  With [quiet], the writes that write protection refuses need not
    respect it, and the execution has to be write protected. *)

From S2P Require Import Prelude Checked EvmBase EvmAnalysis EvmInstr EvmGas EvmPrecompiled EvmRun.
#[local] Open Scope Z_scope.
#[local] Open Scope evm_scope.
#[local] Set Default Goal Selector "!".

Section flow.
Context `{H : EvmHost} (ctx : EvmContext) (quiet : bool) (R : relation DB) `{!PreOrder R}.

(** The writes of an execution *)
Record Respected : Prop := {
  rp_Transfer : ∀ d a b v, (quiet = true → v = 0) → R d (Transfer d a b v);
  rp_new : ∀ d a, Exist d a = false → R d (CreateAccount d a);
  rp_revert : ∀ d0 d, R d0 (RevertToSnapshot d d0);
  rp_SetState : quiet = false → ∀ d a k v, R d (SetState d a k v);
  rp_AddLog : quiet = false → ∀ d l, R d (AddLog d l);
  rp_AddRefund : quiet = false → ∀ d g, R d (AddRefund d g);
  rp_SetCode : quiet = false → ∀ d a c, R d (SetCode d a c);
  rp_SetNonce : quiet = false → ∀ d a n, R d (SetNonce d a n);
  rp_CreateAccount : quiet = false → ∀ d a, R d (CreateAccount d a);
  rp_Suicide : quiet = false → ∀ d a b, R d (Suicide (AddBalance d b (GetBalance d a)) a);
}.
Hypothesis HR : Respected.

Definition protected (e : EVM) : Prop := quiet = true → readOnly e = true.
Definition flows (e e' : EVM) : Prop := R (StateDB e) (StateDB e') ∧ readOnly e' = readOnly e.

Lemma flows_refl e : flows e e.
Proof using All. by split. Qed.
Lemma flows_trans e1 e2 e3 : flows e1 e2 → flows e2 e3 → flows e1 e3.
Proof using All. intros [H1 E1] [H2 E2]. split; [by etrans|congruence]. Qed.
Lemma flows_protected e e' : flows e e' → protected e → protected e'.
Proof. intros [_ E] Hp Hq. rewrite E. auto. Qed.
Lemma flows_same e e' : StateDB e' = StateDB e → readOnly e' = readOnly e → flows e e'.
Proof using All. intros E1 E2. split; [by rewrite E1|done]. Qed.
Lemma flows_db e d : R (StateDB e) d → flows e (set_db d e).
Proof. by split. Qed.

(** An instruction that respects the relation *)
Definition pres {A} (m : X A) : Prop := ∀ f, protected (evm f) → flows (evm f) (evm (m f).2).

Lemma pres_bind {A B} (m : X A) (k : A → X B) : pres m → (∀ a, pres (k a)) → pres (xbind m k).
Proof using All.
  intros Hm Hk f Hp. specialize (Hm f Hp). unfold xbind. destruct (m f) as [[a|?| |] f1]; try done. cbn in *.
  eapply flows_trans; [done|]. apply Hk. by eapply flows_protected.
Qed.
Lemma pres_same {A} (m : X A) : (∀ f, evm (m f).2 = evm f) → pres m.
Proof using All. intros Hm f _. rewrite Hm. apply flows_refl. Qed.
Lemma pres_ret {A} (a : A) : pres (xret a).
Proof using All. by apply pres_same. Qed.
Lemma pres_throw {A} e : pres (xthrow (A:=A) e).
Proof using All. by apply pres_same. Qed.
Lemma pres_lift {A} (o : outcome evm_err A) : pres (xlift o).
Proof using All. by apply pres_same. Qed.
Lemma pres_gets {A} (g : Frame → A) : pres (xgets g).
Proof using All. by apply pres_same. Qed.
Lemma pres_modify g : (∀ f, evm (g f) = evm f) → pres (xmodify g).
Proof using All. intros. by apply pres_same. Qed.
Lemma pres_pop : pres pop.
Proof using All. apply pres_same. intros f. unfold pop. by destruct (stack f). Qed.
Lemma pres_push x : pres (push x).
Proof using All. by apply pres_modify. Qed.
Lemma pres_Back n : pres (Back n).
Proof using All. apply pres_same. intros f. unfold Back. by destruct (_ !! _). Qed.
Lemma pres_swap n : pres (swap n).
Proof using All. apply pres_same. intros f. unfold swap. by repeat destruct (_ !! _). Qed.
Lemma pres_xdb g : (∀ d, R d (g d)) → pres (xdb g).
Proof. intros Hg f _. by split. Qed.
Lemma pres_if {A} (b : bool) (m1 m2 : X A) : (b = true → pres m1) → (b = false → pres m2) → pres (if b then m1 else m2).
Proof. destruct b; auto. Qed.
Lemma pres_memoryGasCost n : pres (memoryGasCost n).
Proof using All. apply pres_same. intros f. unfold memoryGasCost. by repeat case_match. Qed.
Lemma pres_jumpdest_has pos : pres (jumpdest_has pos).
Proof using All.
  intros f _. unfold jumpdest_has. destruct (has _ _ _ _) as [[b d]|?| |]; try apply flows_refl. by apply flows_same.
Qed.

Create HintDb evm_flow.
Hint Resolve pres_ret pres_throw pres_lift pres_gets pres_pop pres_push pres_Back pres_swap pres_memoryGasCost
  pres_jumpdest_has : evm_flow.

(** Following an instruction through its binds and branches *)
Ltac pres :=
  repeat (match goal with
  | |- ∀ _, pres _ => intros ?
  | |- _ = true → pres _ => intros ?
  | |- _ = false → pres _ => intros ?
  | |- pres (xbind _ _) => apply pres_bind
  | |- pres (if _ then _ else _) => apply pres_if
  | |- pres (let '(_, _) := ?x in _) => destruct x as [? ?]
  | |- pres (xmodify _) => apply pres_modify; [done]
  | |- pres _ => solve [auto with evm_flow]
  end; cbv zeta).

Lemma pres_poke x : pres (poke x).
Proof using All. unfold poke. pres. Qed.
Lemma pres_peek : pres peek.
Proof using All. unfold peek. pres. Qed.
Lemma pres_on_memory g : pres (on_memory g).
Proof using All. unfold on_memory. pres. Qed.
Lemma pres_memory_Get o n : pres (memory_Get o n).
Proof using All. unfold memory_Get. pres. Qed.
Lemma pres_done : pres done.
Proof using All. unfold done. pres. Qed.
Lemma pres_copy_data d a b c : pres (copy_data d a b c).
Proof using All. unfold copy_data. pres; [apply pres_on_memory|apply pres_done]. Qed.
Lemma pres_jump_to pos : pres (jump_to pos).
Proof using All. unfold jump_to. pres. Qed.
Lemma pres_pop_topics n : pres (pop_topics n).
Proof using All. induction n; cbn [pop_topics]; pres. Qed.
Lemma pres_add_gas a b : pres (add_gas a b).
Proof using All. unfold add_gas. pres. Qed.
Lemma pres_mul_gas a b : pres (mul_gas a b).
Proof using All. unfold mul_gas. pres. Qed.
Lemma pres_back_uint64 n : pres (back_uint64 n).
Proof using All. unfold back_uint64. pres. Qed.
Hint Resolve pres_poke pres_peek pres_on_memory pres_memory_Get pres_done pres_copy_data pres_jump_to pres_pop_topics
  pres_add_gas pres_mul_gas pres_back_uint64 : evm_flow.
Lemma pres_gas_callee gt g : pres (gas_callee gt g).
Proof using All. unfold gas_callee. pres. Qed.
Lemma pres_gas_words a b n m : pres (gas_words a b n m).
Proof using All. unfold gas_words. pres. Qed.
Lemma pres_gas_memory a m : pres (gas_memory a m).
Proof using All. unfold gas_memory. pres. Qed.
Hint Resolve pres_gas_callee pres_gas_words pres_gas_memory : evm_flow.

Definition may_run (op : OpCode) : Prop := quiet = true → writes (jump_table op) = false.

(** Prices: refunds are the only writes. *)
Lemma pres_gasCost op m : may_run op → pres (gasCost (jump_table op) m).
Proof using All.
  intros Hw. unfold may_run in Hw.
  assert (quiet = false ∨ writes (jump_table op) = false) as Hq by (destruct quiet; auto).
  destruct op; cbn [jump_table const plain gasCost writes] in *;
    unfold constGasFunc, gasExp, gasSha3, gasBalance, gasCallDataCopy, gasCodeCopy, gasExtCodeSize, gasExtCodeCopy,
      gasReturnDataCopy, gasExtCodeHash, gasMLoad, gasMStore, gasMStore8, gasSLoad, gasSStore, gasPush, gasDup, gasSwap,
      makeGasLog, gasCreate, gasCall, gasCallCode, gasReturn, gasDelegateCall, gasCreate2, gasStaticCall, gasRevert,
      gasSuicide; pres.
  all: destruct Hq as [Hq|]; [|done]; apply pres_xdb; intros; by apply (rp_AddRefund HR Hq).
Qed.

(** The instructions that do not start other contracts *)
Definition starts_contract (op : OpCode) : bool :=
  match op with CREATE | CREATE2 | CALL | CALLCODE | DELEGATECALL | STATICCALL => true | _ => false end.

Lemma pres_quiet_instruction Run op : starts_contract op = false → may_run op → pres (execute ctx Run op).
Proof using All.
  intros Hs Hw. unfold may_run in Hw.
  assert (quiet = false ∨ writes (jump_table op) = false) as Hq by (destruct quiet; auto).
  destruct op; try done; cbn [execute jump_table const plain writes] in *;
    unfold opStop, opAdd, opMul, opSub, opDiv, opSdiv, opMod, opSmod, opAddmod, opMulmod, opExp,
    opSignExtend, opLt, opGt, opSlt, opSgt, opEq, opIszero, opAnd, opOr, opXor, opNot, opByte, opSHL, opSHR, opSAR,
    opSha3, opAddress, opBalance, opOrigin, opCaller, opCallValue, opCallDataLoad, opCallDataSize, opCallDataCopy,
    opCodeSize, opCodeCopy, opGasprice, opExtCodeSize, opExtCodeCopy, opReturnDataSize, opReturnDataCopy,
    opExtCodeHash, opBlockhash, opCoinbase, opTimestamp, opNumber, opDifficulty, opGasLimit, opPop, opMload,
    opMstore, opMstore8, opSload, opSstore, opJump, opJumpi, opPc, opMsize, opGas, opJumpdest, opReturn, opRevert,
    makePush, makeDup, makeSwap, makeLog, dup; cbv zeta; pres.
  - destruct Hq as [Hq|]; [|done]. apply pres_xdb. intros. by apply (rp_SetState HR).
  - destruct Hq as [Hq|]; [|done]. apply pres_xdb. intros. by apply (rp_AddLog HR).
  - destruct Hq as [Hq|]; [|done]. unfold opSuicide. intros f Hp. unfold xbind, xgets, pop.
    destruct (stack f) as [|to st]; [apply flows_refl|]. split; [|done]. cbn. by apply (rp_Suicide HR).
Qed.

(** ** Calls *)

Definition Run_flows (Run : Contract → list Z → EVM → RunResult) : Prop :=
  ∀ c input e, protected e → flows e (Run c input e).2.

Lemma Run_with_flows loop : (∀ f, protected (evm f) → flows (evm f) (evm (loop f).2)) → Run_flows (Run_with loop).
Proof using All.
  intros Hl c input e Hp. unfold Run_with. case_bool_decide; [by apply flows_same|].
  set (f := mkFrame 0 _ _ _ _). specialize (Hl f Hp). destruct (loop f) as [r f']. cbn in Hl |- *.
  eapply flows_trans; [by apply (flows_same e (evm f))|]. eapply flows_trans; [exact Hl|].
  destruct r; by apply flows_same.
Qed.

Section calls.
Context (Run : Contract → list Z → EVM → RunResult) (HRun : Run_flows Run).

(** An early return *)
Ltac early :=
  match goal with
  | |- flows _ (snd (if ?b then _ else _)) => destruct b; [apply flows_refl|]
  end.

Lemma run_flows e c input : protected e → flows e (run Run e c input).2.
Proof using All.
  intros Hp. unfold run. destruct (_ ≫= _) as [p|]; [|by apply HRun].
  destruct (RunPrecompiledContract p input c) as [[?|?| |] ?]; apply flows_refl.
Qed.

(** A call that fails goes back to the database before it. *)
Lemma settle_call_flows e0 r : flows e0 r.2 → flows e0 (settle_call (StateDB e0) r).2.
Proof using All.
  intros Hr. destruct r as [[[[ret [err|]]|?| |] c] e]; cbn in *; try done.
  destruct Hr as [_ Hro]. split; [by apply (rp_revert HR)|done].
Qed.

Lemma enter_flows caller e : flows e (enter caller e).
Proof using All. apply flows_same; by destruct caller. Qed.

(** Running a contract from [e], when the database before it was that of [e0] *)
Lemma call_flows e0 e caller c input : flows e0 e → protected e0 →
  flows e0 (settle_call (StateDB e0) (run Run (enter caller e) c input)).2.
Proof using All.
  intros He Hp. apply settle_call_flows. pose proof (flows_trans _ _ _ He (enter_flows caller e)) as Hin.
  eapply flows_trans; [exact Hin|]. apply run_flows. by eapply flows_protected.
Qed.

Lemma Call_flows caller addr input gas v e : protected e → (quiet = true → v = 0) →
  flows e (Call ctx Run caller addr input gas v e).2.
Proof using All.
  intros Hp Hv. unfold Call. do 4 early. cbv zeta.
  apply call_flows; [|done]. apply flows_db. etrans; [|by apply (rp_Transfer HR)].
  destruct (Exist (StateDB e) addr) eqn:Ex; [done|by apply (rp_new HR)].
Qed.

Lemma CallCode_flows caller addr input gas v e : protected e → flows e (CallCode ctx Run caller addr input gas v e).2.
Proof using All.
  intros Hp. unfold CallCode. do 3 early. cbv zeta.
  by apply call_flows; [apply flows_refl|].
Qed.

Lemma DelegateCall_flows caller addr input gas e : protected e → flows e (DelegateCall ctx Run caller addr input gas e).2.
Proof using All.
  intros Hp. unfold DelegateCall. do 2 early. cbv zeta.
  destruct (AsDelegate _ _); try apply flows_refl. by apply call_flows; [apply flows_refl|].
Qed.

(** Inside a static call everything is protected. *)
Lemma StaticCall_flows caller addr input gas e : flows e (StaticCall ctx Run caller addr input gas e).2.
Proof using All.
  unfold StaticCall. do 2 early. cbv zeta.
  set (c := SetCallCode _ _ _ _). assert (protected (set_readOnly true e)) as Hp by done.
  pose proof (call_flows (set_readOnly true e) (set_readOnly true e) caller c input (flows_refl _) Hp) as [HRR Hro].
  destruct (settle_call _ _) as [r e']. cbn in *. destruct (readOnly e) eqn:E; split; cbn; done || congruence.
Qed.

Lemma create_flows caller code gas v a e : quiet = false → flows e (create ctx Run caller code gas v a e).2.
Proof using All.
  intros Hq. assert (∀ e, protected e) as Hp by (intros ? ?; congruence). unfold create.
  do 2 early. cbv zeta. set (d := SetNonce (StateDB e) _ _).
  assert (R (StateDB e) d) as Hd by by apply (rp_SetNonce HR).
  destruct (_ || _); [by apply flows_db|]. set (d2 := Transfer _ _ _ _).
  assert (R d d2) as Hd2.
  { etrans; [by apply (rp_CreateAccount HR)|]. etrans; [by apply (rp_SetNonce HR)|]. apply (rp_Transfer HR). congruence. }
  assert (flows e (enter caller (set_db d2 e))) as Hin.
  { eapply flows_trans; [|apply enter_flows]. apply flows_db. by etrans. }
  destruct (_ && _); [done|]. set (c := SetCallCode _ _ _ _).
  pose proof (run_flows (enter caller (set_db d2 e)) c [] (Hp _)) as Hrun.
  assert (∀ e1, flows (enter caller (set_db d2 e)) e1 → flows e e1) as Hfrom by (intros; by eapply flows_trans).
  destruct (run Run _ c []) as [[[[ret err]|?| |] c'] e']; cbn in Hrun; try (by apply Hfrom).
  assert (∀ (b : bool) (e1 : EVM), flows (enter caller (set_db d2 e)) e1 →
    flows e (if b then set_db (RevertToSnapshot (StateDB e1) d) e1 else e1)) as Hend.
  { intros b e1 He1. destruct b; [|by apply Hfrom]. pose proof (Hfrom e1 He1) as [_ Hro].
    split; [|done]. cbn. etrans; [exact Hd|]. apply (rp_revert HR). }
  destruct (bool_decide (err = None) && _); [|by apply Hend].
  destruct (UseGas _ c') as [[] c'']; [|by apply Hend]. apply Hend.
  eapply flows_trans; [exact Hrun|]. apply flows_db. by apply (rp_SetCode HR).
Qed.

(** ** The instructions that start contracts *)

Lemma pres_on_evm {A} (g : EVM → outcome unit A * EVM) : (∀ e, protected e → flows e (g e).2) → pres (on_evm g).
Proof. intros Hg f Hp. unfold on_evm. specialize (Hg (evm f) Hp). by destruct (g (evm f)). Qed.

Hint Resolve pres_on_evm CallCode_flows DelegateCall_flows StaticCall_flows : evm_flow.

Lemma pres_after_call a b r : pres (after_call a b r).
Proof using All. destruct r as [[? ?] ?]. unfold after_call, add_contract_gas. pres. Qed.
Lemma pres_after_create r : pres (after_create r).
Proof using All. destruct r as [[[? ?] ?] ?]. unfold after_create, add_contract_gas. pres. Qed.
Lemma pres_call_args a b : pres (call_args a b).
Proof using All. unfold call_args. pres. Qed.
Hint Resolve pres_after_call pres_after_create pres_call_args : evm_flow.

Lemma pres_creates op : quiet = false → (op = CREATE ∨ op = CREATE2) → pres (execute ctx Run op).
Proof using All.
  intros Hq [-> | ->]; cbn [execute]; unfold opCreate, opCreate2, spend_all_but_one_64th; pres;
    apply pres_on_evm; intros e _; by apply create_flows.
Qed.

Lemma pres_calls op : op = CALLCODE ∨ op = DELEGATECALL ∨ op = STATICCALL → pres (execute ctx Run op).
Proof using All.
  intros [-> | [-> | ->]]; cbn [execute]; unfold opCallCode, opDelegateCall, opStaticCall, call_gas; pres.
Qed.

(** CALL, with the value that [enforceRestrictions] looks at *)
Lemma CALL_flows f : protected (evm f) → (∀ v, stack f !! 2%nat = Some v → quiet = true → v = 0) →
  flows (evm f) (evm (execute ctx Run CALL f).2).
Proof using All.
  intros Hp Hv. cbn [execute]. unfold opCall, call_gas. destruct f as [p c m st e]. cbn [stack evm] in *.
  do 3 (destruct st as [|? st]; [apply flows_refl|]).
  specialize (Hv _ eq_refl). unfold xbind at 1 2 3 4, pop at 1 2 3, xgets at 1. cbn [stack with_stack evm].
  revert Hp. match goal with |- protected ?e → flows ?e (evm (?m ?f).2) =>
    change (protected (evm f) → flows (evm f) (evm (m f).2)); generalize f end. cbv zeta.
  match goal with |- ∀ f, protected (evm f) → flows (evm f) (evm (?m f).2) => change (pres m) end. pres.
  apply pres_on_evm. intros e' Hp'. apply Call_flows; [done|]. intros Hq. by rewrite (Hv Hq).
Qed.

(** ** Rounds *)

Lemma BitLen_0 v : (0 <? BitLen v) = false → v = 0.
Proof.
  unfold BitLen. destruct (Z.eqb_spec v 0) as [|Hv]; [done|]. pose proof (Z.log2_nonneg (Z.abs v)).
  rewrite Z.ltb_ge. lia.
Qed.

Lemma execute_flows op f : protected (evm f) → enforceRestrictions op f = Ok None →
  ∀ f', (op = CALL → stack f' = stack f) → flows (evm f) (evm f') → flows (evm f) (evm (execute ctx Run op f').2).
Proof using All.
  intros Hp Hr f' Hst Hf. eapply flows_trans; [exact Hf|]. pose proof (flows_protected _ _ Hf Hp) as Hp'.
  assert (may_run op) as Hw.
  { intros Hq. unfold enforceRestrictions in Hr. rewrite (Hp Hq) in Hr. by destruct (writes _). }
  destruct (starts_contract op) eqn:Es; [|by apply pres_quiet_instruction].
  assert (op = CALL ∨ (op = CREATE ∨ op = CREATE2) ∨ (op = CALLCODE ∨ op = DELEGATECALL ∨ op = STATICCALL))
    as [-> | [Ho|Ho]] by (destruct op; naive_solver).
  - apply CALL_flows; [done|]. intros v Hv Hq. rewrite (Hst eq_refl) in Hv. unfold enforceRestrictions in Hr.
    rewrite (Hp Hq), Hv in Hr. cbn in Hr. destruct (0 <? BitLen v) eqn:Eb; [done|]. by apply BitLen_0.
  - apply pres_creates; [|done|done]. apply not_true_iff_false. intros Hq. specialize (Hw Hq).
    by destruct Ho as [-> | ->].
  - by apply pres_calls.
Qed.

(** The price of CALL leaves the operands where they are. *)
Lemma gasCall_stack gt m f cost f' : gasCall gt m f = (Ok cost, f') → stack f' = stack f.
Proof.
  unfold gasCall, gas_callee, add_gas, memoryGasCost, xbind, Back, xgets, xlift, xmodify, xret, xthrow.
  repeat case_match; intros; simplify_eq; done.
Qed.

Lemma finish_step_flows op f : protected (evm f) → enforceRestrictions op f = Ok None →
  ∀ f', (op = CALL → stack f' = stack f) → flows (evm f) (evm f') → flows (evm f) (evm (finish_step ctx Run op f').2).
Proof using All.
  intros Hp Hr f' Hst Hf. pose proof (execute_flows op f Hp Hr f' Hst Hf) as Hx. unfold finish_step.
  assert (∀ (b : bool) bs f1, flows (evm f) (evm f1) →
    flows (evm f) (evm (if b then with_evm (set_returnData bs (evm f1)) f1 else f1))) as Hnote.
  { intros b bs f1 Hf1. destruct b; [|done]. eapply flows_trans; [exact Hf1|]. by apply flows_same. }
  destruct (execute ctx Run op f') as [[res|err| |] f1]; cbn in Hx; try done; [|by apply Hnote].
  repeat destruct (_ : bool) at 1; try done.
  all: repeat case_match; by apply Hnote.
Qed.

Lemma step_flows f : protected (evm f) → flows (evm f) (evm (step ctx Run f).2).
Proof using All.
  intros Hp. unfold step. destruct (GetOp _ _) as [op|]; [|apply flows_refl].
  destruct (validateStack _ _); [apply flows_refl|].
  destruct (enforceRestrictions op f) as [[err|]|?| |] eqn:Er; try apply flows_refl.
  destruct (memory_need op f) as [m|?| |]; try apply flows_refl. unfold charge_step.
  assert (may_run op) as Hw.
  { intros Hq. unfold enforceRestrictions in Er. rewrite (Hp Hq) in Er. by destruct (writes _). }
  pose proof (pres_gasCost op m Hw f Hp) as Hg.
  destruct (gasCost (jump_table op) m f) as [[cost|?| |] f1] eqn:Eg; cbn in Hg; try done.
  assert (op = CALL → stack f1 = stack f) as Hst by (intros ->; by apply (gasCall_stack GasTableConstantinople m f cost)).
  destruct (UseGas cost (contract f1)) as [[] c]; [|done].
  apply finish_step_flows; [done|done|..]; destruct (0 <? m); done.
Qed.
End calls.

Lemma loop_flows fuel : ∀ f, protected (evm f) → flows (evm f) (evm (loop ctx fuel f).2).
Proof using All.
  induction fuel as [|fuel IH]; intros f Hp; [apply flows_refl|]. cbn [loop].
  assert (Run_flows (Run_with (loop ctx fuel))) as HRun by by apply Run_with_flows.
  pose proof (step_flows _ HRun f Hp) as Hs.
  destruct (step ctx _ f) as [[[r|]|?| |] f1]; cbn in Hs; try done.
  eapply flows_trans; [exact Hs|]. apply IH. by eapply flows_protected.
Qed.

Lemma Run_flows_all fuel : Run_flows (Run ctx fuel).
Proof using All. apply Run_with_flows, loop_flows. Qed.
End flow.
