(* ===== verification/EvmExamples.v ===== *)
(** * The EVM on concrete contracts

    An account database as a map, with a stand-in for the hash function, and
    executions of small contracts on it. *)

From S2P Require Import Prelude Checked EvmBase EvmAnalysis EvmInstr EvmGas EvmPrecompiled EvmRun EvmLogic.
From stdpp Require Import gmap.
#[local] Open Scope Z_scope.
#[local] Set Default Goal Selector "!".

Record account := mkAccount {
  ac_nonce : Z;
  ac_balance : Z;
  ac_code : list Z;
  ac_storage : gmap (list Z) (list Z);
  ac_gone : bool;
}.

Record world := mkWorld {
  w_accounts : gmap (list Z) account;
  w_refund : Z;
  w_logs : list Log;
}.

Definition no_account : account := mkAccount 0 0 [] ∅ false.
Definition get (w : world) (a : Address) : account := default no_account (w_accounts w !! a).
Definition put (w : world) (a : Address) (x : account) : world :=
  mkWorld (<[a := x]> (w_accounts w)) (w_refund w) (w_logs w).
Definition upd (w : world) (a : Address) (f : account → account) : world := put w a (f (get w a)).

(** A digest of 32 bytes that tells short inputs apart *)
Definition short_hash (bs : list Z) : list Z := be_bytes 32 (be_value (1 :: bs)).

(** What the database holds, at the widths of its types *)
Definition code_of (x : account) : list Z := take (Z.to_nat 0x8000) (uint8 <$> ac_code x).
#[global] Arguments code_of : simpl never.
Definition slot (v : list Z) : list Z := be_bytes 32 (be_value v).

(** The host, with a reading of the balances *)
Definition map_host_with (read : Z → Z) : EvmHost := {|
  DB := world;
  CreateAccount := λ w a, upd w a (λ x, mkAccount 0 (ac_balance x) [] ∅ false);
  SubBalance := λ w a v, upd w a (λ x, mkAccount (ac_nonce x) (ac_balance x - v) (ac_code x) (ac_storage x) (ac_gone x));
  AddBalance := λ w a v, upd w a (λ x, mkAccount (ac_nonce x) (ac_balance x + v) (ac_code x) (ac_storage x) (ac_gone x));
  GetBalance := λ w a, read (ac_balance (get w a));
  GetNonce := λ w a, ac_nonce (get w a);
  SetNonce := λ w a n, upd w a (λ x, mkAccount n (ac_balance x) (ac_code x) (ac_storage x) (ac_gone x));
  GetCodeHash := λ w a, match w_accounts w !! a with Some x => short_hash (code_of x) | None => replicate 32 0 end;
  GetCode := λ w a, code_of (get w a);
  SetCode := λ w a c, upd w a (λ x, mkAccount (ac_nonce x) (ac_balance x) c (ac_storage x) (ac_gone x));
  GetCodeSize := λ w a, len (code_of (get w a));
  AddRefund := λ w g, mkWorld (w_accounts w) (uint64 (w_refund w + g)) (w_logs w);
  GetRefund := λ w, uint64 (w_refund w);
  GetState := λ w a k, slot (default [] (ac_storage (get w a) !! k));
  SetState := λ w a k v,
    upd w a (λ x, mkAccount (ac_nonce x) (ac_balance x) (ac_code x) (<[k := v]> (ac_storage x)) (ac_gone x));
  Suicide := λ w a, upd w a (λ x, mkAccount (ac_nonce x) 0 (ac_code x) (ac_storage x) true);
  HasSuicided := λ w a, ac_gone (get w a);
  Exist := λ w a, bool_decide (is_Some (w_accounts w !! a));
  IsEmpty := λ w a, let x := get w a in
    (ac_nonce x =? 0) && (ac_balance x =? 0) && bool_decide (ac_code x = []);
  RevertToSnapshot := λ _ s, s;
  AddLog := λ w l, mkWorld (w_accounts w) (w_refund w) (w_logs w ++ [l]);
  Keccak256 := short_hash;
  CreateAddress := λ a n, be_bytes 20 (be_value a + n + 1);
  Sha256 := λ bs, be_bytes 32 (len bs);
  Ripemd160Sum := λ bs, be_bytes 20 (len bs);
  Ecrecover := λ _ _, None;
  G1 := unit;
  G2 := unit;
  G1_Unmarshal := λ _, Some tt;
  G1_Marshal := λ _, replicate 64 0;
  G1_Add := λ _ _, tt;
  G1_ScalarMult := λ _ _, tt;
  G2_Unmarshal := λ _, Some tt;
  PairingCheck := λ _ _, true;
|}.

#[global] Instance map_host : EvmHost := map_host_with U256.

Lemma be_bytes_of n x : bytes_of n (be_bytes n x).
Proof. split; [apply length_be_bytes|apply be_bytes_range]. Qed.

#[global] Instance map_host_ok : HostOk.
Proof.
  assert (∀ x, Forall is_byte (code_of x)) as Hcode.
  { intros x. unfold code_of. apply Forall_take, Forall_fmap, Forall_true. intros b. simpl. unfold is_byte, uint8, wrapU.
    pose proof (Z.mod_pos_bound b (2 ^ 8)). lia. }
  split; simpl; intros; try apply be_bytes_of; auto with go.
  - unfold len, code_of. rewrite length_take. lia.
  - unfold get in *. by destruct (w_accounts d !! a).
  - destruct (w_accounts d !! a); [apply be_bytes_of|split; [done|apply (zeros_bytes 32)]].
  - apply (zeros_bytes 64).
Qed.

Definition test_ctx : EvmContext :=
  mkEvmContext (be_bytes 20 7) 0 (be_bytes 20 9) 10000000 100 1000 1 (λ n, be_bytes 32 n) false.

Definition address (n : Z) : Address := be_bytes 20 n.

(** Accounts 1000 (with a balance), and a contract at 2000 with the code *)
Definition test_world (code : list Z) : world :=
  mkWorld (<[address 1000 := mkAccount 1 5000 [] ∅ false]> (<[address 2000 := mkAccount 1 0 code ∅ false]> ∅)) 0 [].

Definition call_test (code input : list Z) (gas value : Z) : CallResult :=
  Call test_ctx (Run test_ctx (S (Z.to_nat gas))) (AccountRef (address 1000)) (address 2000) input gas value
    (NewEVM (test_world code)).

(** 2 + 3, returned as a word *)
Definition add_code : list Z := [0x60; 2; 0x60; 3; 0x01; 0x60; 0; 0x52; 0x60; 32; 0x60; 0; 0xf3].

Example add_runs : fst (call_test add_code [] 100 0) = Ok (Some (be_bytes 32 5), 76, None).
Proof. vm_compute. reflexivity. Qed.
