(* ===== verification/EvmResults.v ===== *)
(** * The EVM: what holds of every execution

    A message enters the EVM through [Call] or [Create] with an account as the
    caller.  Gas bounds the execution: it returns after at most as many rounds
    in a frame as there is gas, hands back no more gas than it got, and leaves
    the depth and the write protection as they were. *)

From S2P Require Import Prelude Checked EvmBase EvmAnalysis EvmInstr EvmGas EvmPrecompiled EvmRun.
From S2P Require Import EvmLogic EvmSafeOps EvmSafeGas EvmSafeCalls EvmSafety EvmExamples.
#[local] Open Scope Z_scope.
#[local] Set Default Goal Selector "!".

Section results.
Context `{HK : HostOk} {I : DbInv} {KI : Kept I} (ctx : EvmContext) (Hctx : ctx_ok ctx).

Lemma evm_ok_NewEVM d : db_inv d → evm_ok (NewEVM d).
Proof. split; [constructor|apply dests_ok_empty|done|done]. Qed.

Lemma Run_ok_fuel G fuel : G <= MaxUint64 → Run_ok G (Z.of_nat fuel) (Run ctx fuel).
Proof using HK KI Hctx. intros HG. apply Run_with_ok. by apply loop_ok. Qed.

(** Calls and creations from an account, on a fresh EVM *)
Lemma Call_from_account from to input gas v d fuel :
  bytes_of 20 from → bytes_of 20 to → Forall is_byte input → len input < 2 ^ 62 → word v → db_inv d →
  0 <= gas <= MaxUint64 → gas < Z.of_nat fuel →
  call_post gas gas (NewEVM d) (Call ctx (Run ctx fuel) (AccountRef from) to input gas v (NewEVM d)).
Proof using HK KI Hctx.
  intros Hf Ht Hi Hl Hv Hd Hg Hfuel.
  eapply (Call_ok ctx gas ltac:(lia) (Z.of_nat fuel)); [apply Run_ok_fuel; lia|done|done| |done].
  split_and!; [lia..|done|done|by apply evm_ok_NewEVM].
Qed.

Lemma Create_from_account from code gas v d fuel :
  bytes_of 20 from → Forall is_byte code → len code < 2 ^ 62 → word v → db_inv d →
  0 <= gas <= MaxUint64 → gas < Z.of_nat fuel →
  create_post gas gas (NewEVM d) (Create ctx (Run ctx fuel) (AccountRef from) code gas v (NewEVM d)).
Proof using HK KI Hctx.
  intros Hf Hi Hl Hv Hd Hg Hfuel.
  eapply (Create_ok ctx gas ltac:(lia) (Z.of_nat fuel)); [apply Run_ok_fuel; lia|done| |done].
  split_and!; [lia..|done|done|by apply evm_ok_NewEVM].
Qed.
End results.

(** Every database will do. *)
Definition any_db `{EvmHost} : DbInv := λ _, True.
Lemma any_db_kept `{EvmHost} : Kept any_db.
Proof. by split. Qed.

(** The panic of a clash: the jump destinations kept for the hash of the code
    that runs are those of another code *)
Definition panics_on_clash `{EvmHost} {A} (p : outcome unit A * EVM) : Prop :=
  p.1 = Panic ∧ ∃ c, panicked p.2 = Some c ∧ clash c p.2.

Lemma Excuse_small `{EvmHost} gas e : gas <= 2 ^ 60 → Excuse gas e → ∃ c, panicked e = Some c ∧ clash c e.
Proof. intros ? [?|?]; [lia|done]. Qed.

(** C1: a call from an account returns.  With more rounds than gas the
    interpreter never runs out of rounds; the gas that is left is at most the
    gas that was given; no operation panics, except on a code whose hash is
    that of another code that was executed before it in the same call. *)
Theorem evm_call_returns_within_gas `{HK : HostOk} ctx from to input gas v d fuel :
  ctx_ok ctx → bytes_of 20 from → bytes_of 20 to → Forall is_byte input → len input < 2 ^ 62 → word v →
  0 <= gas <= 2 ^ 60 → gas < Z.of_nat fuel →
  let p := Call ctx (Run ctx fuel) (AccountRef from) to input gas v (NewEVM d) in
  (∃ ret left err, p.1 = Ok (ret, left, err) ∧ some_bytes ret ∧ 0 <= left <= gas
                   ∧ depth p.2 = 0 ∧ readOnly p.2 = false)
  ∨ panics_on_clash p.
Proof.
  intros Hctx Hf Ht Hi Hl Hv Hg Hfuel p.
  pose proof (Call_from_account (KI := any_db_kept) ctx Hctx from to input gas v d fuel Hf Ht Hi Hl Hv Logic.I
                ltac:(lia) Hfuel) as Hp.
  fold p in Hp. unfold call_post in Hp. destruct p as [[[[ret g] err]|?| |] e]; cbn [fst snd] in *; try done.
  - left. destruct Hp as (Hr & Hg' & _ & Hd & Hro). by exists ret, g, err.
  - right. split; [done|]. apply (Excuse_small gas); [lia|done].
Qed.

(** The creation of a contract returns within its gas in the same way, with
    an address of 20 bytes. *)
Theorem evm_create_returns_within_gas `{HK : HostOk} ctx from code gas v d fuel :
  ctx_ok ctx → bytes_of 20 from → Forall is_byte code → len code < 2 ^ 62 → word v →
  0 <= gas <= 2 ^ 60 → gas < Z.of_nat fuel →
  let p := Create ctx (Run ctx fuel) (AccountRef from) code gas v (NewEVM d) in
  (∃ ret a left err, p.1 = Ok (ret, a, left, err) ∧ some_bytes ret ∧ bytes_of 20 a ∧ 0 <= left <= gas
                     ∧ depth p.2 = 0 ∧ readOnly p.2 = false)
  ∨ panics_on_clash p.
Proof.
  intros Hctx Hf Hi Hl Hv Hg Hfuel p.
  pose proof (Create_from_account (KI := any_db_kept) ctx Hctx from code gas v d fuel Hf Hi Hl Hv Logic.I
                ltac:(lia) Hfuel) as Hp.
  fold p in Hp. unfold create_post in Hp. destruct p as [[[[[ret a] g] err]|?| |] e]; cbn [fst snd] in *; try done.
  - left. destruct Hp as (Hr & Ha & Hg' & _ & Hd & Hro). by exists ret, a, g, err.
  - right. split; [done|]. apply (Excuse_small gas); [lia|done].
Qed.

(** ** Witnesses *)

Lemma test_ctx_ok : ctx_ok test_ctx.
Proof. split; intros; try apply be_bytes_of. apply word_0. Qed.

Lemma add_code_bytes : Forall is_byte add_code.
Proof. apply (bool_decide_unpack _). vm_compute. exact I. Qed.

Lemma evm_call_returns_within_gas_witness :
  let p := Call test_ctx (Run test_ctx 101) (AccountRef (address 1000)) (address 2000) [] 100 7
             (NewEVM (test_world add_code)) in
  (∃ ret left err, p.1 = Ok (ret, left, err) ∧ some_bytes ret ∧ 0 <= left <= 100
                   ∧ depth p.2 = 0 ∧ readOnly p.2 = false)
  ∨ panics_on_clash p.
Proof.
  apply evm_call_returns_within_gas; [apply test_ctx_ok|..];
    [apply be_bytes_of|apply be_bytes_of|constructor|done|unfold word, tt256; lia|lia|lia].
Defined.

Lemma evm_create_returns_within_gas_witness :
  let p := Create test_ctx (Run test_ctx (Z.to_nat 10001)) (AccountRef (address 1000)) add_code 10000 7
             (NewEVM (test_world [])) in
  (∃ ret a left err, p.1 = Ok (ret, a, left, err) ∧ some_bytes ret ∧ bytes_of 20 a ∧ 0 <= left <= 10000
                     ∧ depth p.2 = 0 ∧ readOnly p.2 = false)
  ∨ panics_on_clash p.
Proof.
  apply evm_create_returns_within_gas; [apply test_ctx_ok|..];
    [apply be_bytes_of|apply add_code_bytes|done|unfold word, tt256; lia|lia|lia].
Defined.
