(* ===== verification/EvmEffects.v ===== *)
(** * The EVM: static calls change nothing, and no call makes money

    Two consequences of [EvmFlow], with what the account database has to
    promise for them. *)

From S2P Require Import Prelude Checked EvmBase EvmAnalysis EvmInstr EvmGas EvmPrecompiled EvmRun EvmFlow.
From S2P Require Import EvmLogic EvmSafeCalls EvmExamples EvmResults.
From stdpp Require Import gmap.
#[local] Open Scope Z_scope.
#[local] Set Default Goal Selector "!".

(** ** Static calls *)

(** What contracts can read of the accounts *)
Definition same_accounts `{EvmHost} (d d' : DB) : Prop := ∀ a,
  GetBalance d' a = GetBalance d a ∧ GetNonce d' a = GetNonce d a ∧ GetCode d' a = GetCode d a
  ∧ HasSuicided d' a = HasSuicided d a ∧ ∀ k, GetState d' a k = GetState d a k.

#[global] Instance same_accounts_preorder `{EvmHost} : PreOrder same_accounts.
Proof.
  split; [done|]. intros d1 d2 d3 H1 H2 a.
  destruct (H1 a) as (?&?&?&?&Hs1), (H2 a) as (?&?&?&?&Hs2). split_and!; try congruence;
  intros k; by rewrite Hs2.
Qed.

(** A transfer of nothing and a new account show nothing; a revert shows what
    was there. *)
Class ReadLaws `{EvmHost} : Prop := {
  zero_transfer : ∀ d a b, same_accounts d (Transfer d a b 0);
  new_account : ∀ d a, Exist d a = false → same_accounts d (CreateAccount d a);
  reverted : ∀ d d0, same_accounts d0 (RevertToSnapshot d d0);
}.

Lemma quiet_respected `{ReadLaws} : Respected true same_accounts.
Proof.
  split; try done; [|apply new_account|intros; apply reverted].
  intros d a b v Hv. rewrite (Hv eq_refl). apply zero_transfer.
Qed.

(** C11: whatever a contract does that is called with STATICCALL, in its own
    code or through further calls of any kind, the accounts are as before:
    balances, nonces, codes, storage, destruction. *)
Theorem static_calls_change_nothing `{HL : ReadLaws} ctx fuel caller addr input gas e :
  same_accounts (StateDB e) (StateDB (StaticCall ctx (Run ctx fuel) caller addr input gas e).2).
Proof.
  pose proof (Run_flows_all ctx true same_accounts quiet_respected fuel) as Hrun.
  by destruct (StaticCall_flows ctx true same_accounts quiet_respected (Run ctx fuel) Hrun caller addr input gas e).
Qed.

(** ** Money *)

(** The sum of the balances, which are words *)
Class BalanceLaws `{EvmHost} (money : DB → Z) : Prop := {
  bl_GetBalance : ∀ d a, GetBalance d a <= money d;
  bl_AddBalance : ∀ d a v, 0 <= v → GetBalance d a + v < tt256 → money (AddBalance d a v) = money d + v;
  bl_get_AddBalance : ∀ d a b v, 0 <= v → GetBalance d b + v < tt256 →
    GetBalance (AddBalance d b v) a = GetBalance d a + (if decide (a = b) then v else 0);
  bl_SubBalance : ∀ d a v, 0 <= v <= GetBalance d a → money (SubBalance d a v) = money d - v;
  bl_Suicide : ∀ d a, money (Suicide d a) = money d - GetBalance d a;
  bl_CreateAccount : ∀ d a, money (CreateAccount d a) = money d;
  bl_get_CreateAccount : ∀ d a b, GetBalance (CreateAccount d b) a = GetBalance d a;
  bl_SetNonce : ∀ d a n, money (SetNonce d a n) = money d;
  bl_get_SetNonce : ∀ d a b n, GetBalance (SetNonce d b n) a = GetBalance d a;
  bl_SetCode : ∀ d a c, money (SetCode d a c) = money d;
  bl_SetState : ∀ d a k v, money (SetState d a k v) = money d;
  bl_AddLog : ∀ d l, money (AddLog d l) = money d;
  bl_AddRefund : ∀ d g, money (AddRefund d g) = money d;
  bl_RevertToSnapshot : ∀ d d0, money (RevertToSnapshot d d0) = money d0;
}.

(** There is at most [T] of money. *)
Definition at_most `{EvmHost} (money : DB → Z) (T : Z) : DbInv := λ d, money d <= T.

Lemma total_Transfer `{EvmHost} money `{!BalanceLaws money} d a b v : 0 <= v <= GetBalance d a → money d < tt256 →
  money (Transfer d a b v) = money d.
Proof.
  intros Hv Ht. unfold Transfer. pose proof (bl_SubBalance d a v Hv).
  rewrite bl_AddBalance; [lia|lia|]. pose proof (bl_GetBalance (SubBalance d a v) b). lia.
Qed.

Lemma at_most_kept `{HK : HostOk} money `{!BalanceLaws money} T : 2 * T < tt256 → Kept (at_most money T).
Proof.
  intros HT. assert (T < tt256) by (unfold tt256 in *; lia).
  split; intros; unfold db_inv, at_most in *;
    rewrite ?bl_SetNonce, ?bl_SetCode, ?bl_SetState, ?bl_AddLog, ?bl_AddRefund, ?bl_RevertToSnapshot; try done.
  - assert (0 <= v) by (unfold word in *; lia).
    destruct (Exist d b); rewrite (total_Transfer money); rewrite ?bl_CreateAccount, ?bl_get_CreateAccount; lia.
  - rewrite (total_Transfer money); rewrite ?bl_SetNonce, ?bl_CreateAccount, ?bl_SetNonce; [lia| |lia].
    rewrite bl_get_SetNonce, bl_get_CreateAccount, bl_get_SetNonce. unfold word in *. lia.
  - pose proof (GetBalance_word d a) as [? _]. pose proof (GetBalance_word d b) as [? _].
    pose proof (bl_GetBalance d a). pose proof (bl_GetBalance d b).
    rewrite bl_Suicide, bl_AddBalance, bl_get_AddBalance by lia. case_decide; lia.
Qed.

(** C24: no execution makes money.  When a call or a creation from an account
    returns, with whatever code, calls, creations, destructions, errors and
    reverts on the way, the accounts hold together at most what they held. *)
Theorem evm_makes_no_money `{HK : HostOk} money `{!BalanceLaws money} ctx from input gas v d fuel :
  ctx_ok ctx → bytes_of 20 from → Forall is_byte input → len input < 2 ^ 62 → word v → 2 * money d < tt256 →
  0 <= gas <= MaxUint64 → gas < Z.of_nat fuel →
  (∀ to, bytes_of 20 to →
     let p := Call ctx (Run ctx fuel) (AccountRef from) to input gas v (NewEVM d) in
     ∀ r, p.1 = Ok r → money (StateDB p.2) <= money d)
  ∧ (let p := Create ctx (Run ctx fuel) (AccountRef from) input gas v (NewEVM d) in
     ∀ r, p.1 = Ok r → money (StateDB p.2) <= money d).
Proof.
  intros Hctx Hf Hi Hl Hv HT Hg Hfuel. pose proof (at_most_kept money (money d) HT) as HKept.
  split; [intros to Hto|]; intros p r Hr.
  - pose proof (Call_from_account (KI := HKept) ctx Hctx from to input gas v d fuel Hf Hto Hi Hl Hv (Z.le_refl (money d)) Hg Hfuel) as Hp.
    fold p in Hp. unfold call_post in Hp. rewrite Hr in Hp. destruct r as [[ret g] err]. apply Hp.
  - pose proof (Create_from_account (KI := HKept) ctx Hctx from input gas v d fuel Hf Hi Hl Hv (Z.le_refl (money d)) Hg Hfuel) as Hp.
    fold p in Hp. unfold create_post in Hp. rewrite Hr in Hp. destruct r as [[[ret a] g] err]. apply Hp.
Qed.

(** ** Witnesses *)

Lemma get_put w a x b : get (put w a x) b = if decide (b = a) then x else get w b.
Proof.
  unfold get, put. cbn. case_decide as Hb; [subst; by rewrite lookup_insert_eq|by rewrite lookup_insert_ne].
Qed.

Lemma same_get (d d' : world) : (∀ a, get d' a = get d a) → same_accounts d d'.
Proof.
  intros Hg a. unfold same_accounts, GetBalance, GetNonce, GetCode, HasSuicided, GetState, map_host, map_host_with.
  rewrite Hg. by split_and!.
Qed.

#[global] Instance map_host_reads : ReadLaws.
Proof.
  split.
  - intros d a b. apply same_get. intros c. unfold Transfer, AddBalance, SubBalance, map_host, map_host_with, upd.
    rewrite !get_put. repeat case_decide; subst; cbn [ac_nonce ac_balance ac_code ac_storage ac_gone];
      rewrite ?Z.add_0_r, ?Z.sub_0_r; by repeat match goal with |- context [get ?w ?x] => destruct (get w x) end.
  - intros d a Hx. apply same_get. intros c. unfold CreateAccount, map_host, map_host_with, upd. rewrite get_put.
    case_decide as Hc; [|done]. subst c. unfold Exist, map_host, map_host_with in Hx.
    apply bool_decide_eq_false in Hx. unfold get. destruct (w_accounts d !! a); [by destruct Hx|done].
  - intros d d0. by apply same_get.
Qed.

(** A contract that writes 5 to its storage at 7 *)
Definition store_code : list Z := [0x60; 5; 0x60; 7; 0x55].

Example static_call_is_refused :
  let p := StaticCall test_ctx (Run test_ctx 30) (AccountRef (address 1000)) (address 2000) [] 25000
             (NewEVM (test_world store_code)) in
  p.1 = Ok (None, 0, Some errWriteProtection)
  ∧ GetState (StateDB p.2) (address 2000) (be_bytes 32 7) = be_bytes 32 0.
Proof. vm_compute. done. Qed.

Lemma static_calls_change_nothing_witness :
  let e := NewEVM (test_world store_code) in
  same_accounts (StateDB e)
    (StateDB (StaticCall test_ctx (Run test_ctx 30) (AccountRef (address 1000)) (address 2000) [] 25000 e).2).
Proof. apply static_calls_change_nothing. Defined.

(** The sum of the balances in the map *)
Definition world_money (w : world) : Z := map_fold (λ _ x acc, U256 (ac_balance x) + acc) 0 (w_accounts w).

Lemma sum_insert (m : gmap (list Z) account) a x :
  map_fold (λ _ x acc, U256 (ac_balance x) + acc) 0 (<[a := x]> m)
  = map_fold (λ _ x acc, U256 (ac_balance x) + acc) 0 m
    - U256 (ac_balance (default no_account (m !! a))) + U256 (ac_balance x).
Proof.
  assert (∀ m : gmap (list Z) account, m !! a = None →
    map_fold (λ _ x acc, U256 (ac_balance x) + acc) 0 (<[a := x]> m)
    = U256 (ac_balance x) + map_fold (λ _ x acc, U256 (ac_balance x) + acc) 0 m) as Hnew.
  { intros m' Hm. rewrite map_fold_insert_L; [done|intros; lia|done]. }
  destruct (m !! a) as [y|] eqn:Ey; cbn; [|rewrite Hnew by done; change (U256 0) with 0; lia].
  rewrite <- insert_delete_eq, Hnew by apply lookup_delete_eq.
  rewrite <- (insert_delete_id m a y Ey) at 2.
  rewrite (map_fold_insert_L (λ _ x acc, U256 (ac_balance x) + acc) 0 a y); [lia|intros; lia|apply lookup_delete_eq].
Qed.

Lemma world_money_put w a x : world_money (put w a x) = world_money w - U256 (ac_balance (get w a)) + U256 (ac_balance x).
Proof. apply sum_insert. Qed.

Lemma U256_add x v : 0 <= v → U256 x + v < tt256 → U256 (x + v) = U256 x + v.
Proof.
  rewrite !U256_mod. intros. rewrite <- Zplus_mod_idemp_l. apply Z.mod_small.
  pose proof (Z.mod_pos_bound x tt256 ltac:(done)). lia.
Qed.
Lemma U256_sub x v : 0 <= v <= U256 x → U256 (x - v) = U256 x - v.
Proof.
  rewrite !U256_mod. intros. rewrite <- Zminus_mod_idemp_l. apply Z.mod_small.
  pose proof (Z.mod_pos_bound x tt256 ltac:(done)). lia.
Qed.

Lemma world_money_at_least w a : U256 (ac_balance (get w a)) <= world_money w.
Proof.
  assert (∀ m : gmap (list Z) account, 0 <= map_fold (λ _ x acc, U256 (ac_balance x) + acc) 0 m) as Hnn.
  { intros m. apply (map_fold_weak_ind (λ r _, 0 <= r)); [lia|]. intros i x m' r _ Hr. pose proof (U256_word (ac_balance x)) as [? _]. lia. }
  unfold get, world_money. destruct (w_accounts w !! a) as [x|] eqn:Ex; cbn; [|apply Hnn].
  rewrite <- (insert_delete_id _ _ _ Ex), sum_insert, lookup_delete_eq. cbn. change (U256 0) with 0.
  pose proof (Hnn (delete a (w_accounts w))). lia.
Qed.

#[global] Instance map_host_money : BalanceLaws world_money.
Proof.
  split; intros; cbn in *; unfold upd in *; rewrite ?world_money_put; cbn; try lia.
  - apply world_money_at_least.
  - rewrite U256_add by done. lia.
  - rewrite get_put. case_decide; cbn; subst; rewrite ?U256_add by done; lia.
  - rewrite U256_sub by done. lia.
  - change (U256 0) with 0. lia.
  - rewrite get_put. case_decide; by subst.
  - rewrite get_put. case_decide; by subst.
  - done.
  - done.
Qed.

(** A contract that destroys itself and leaves its money to the caller *)
Lemma evm_makes_no_money_witness :
  let d := test_world [0x33; 0xff] in
  let p := Call test_ctx (Run test_ctx (Z.to_nat 50001)) (AccountRef (address 1000)) (address 2000) [] 50000 700 (NewEVM d) in
  let q := Create test_ctx (Run test_ctx (Z.to_nat 50001)) (AccountRef (address 1000)) [] 50000 700 (NewEVM d) in
  world_money d = 5000 ∧ (∀ r, p.1 = Ok r → world_money (StateDB p.2) <= world_money d)
  ∧ (∀ r, q.1 = Ok r → world_money (StateDB q.2) <= world_money d).
Proof.
  split; [reflexivity|].
  destruct (evm_makes_no_money (H := map_host) world_money test_ctx (address 1000) [] 50000 700 (test_world [0x33; 0xff])
              (Z.to_nat 50001)) as [Hcall Hcreate].
  - apply test_ctx_ok.
  - apply be_bytes_of.
  - constructor.
  - done.
  - unfold word, tt256. lia.
  - reflexivity.
  - lia.
  - lia.
  - split; [apply (Hcall (address 2000)), be_bytes_of|exact Hcreate].
Defined.
