(* ===== verification/EvmArith.v ===== *)
(** * The EVM: arithmetic against its specification, and the price of memory

    What the arithmetic, comparison and bit instructions compute, as numbers;
    where SAR departs from it; and the price of memory as a polynomial of the
    number of words, with the sizes for which the code's uint64 computes it. *)

From S2P Require Import Prelude Checked EvmBase EvmAnalysis EvmInstr EvmGas EvmPrecompiled EvmRun EvmLogic EvmExamples.
From Stdlib Require Import Zpow_facts.
#[local] Open Scope Z_scope.
#[local] Set Default Goal Selector "!".

(** ** Specification *)

Definition norm (x : Z) : Z := x mod 2 ^ 256.
(** Two's complement *)
Definition signed (x : Z) : Z := if x <? 2 ^ 255 then x else x - 2 ^ 256.
(** The low [8 * (b + 1)] bits as a signed number *)
Definition sign_extended (b x : Z) : Z :=
  let m := 2 ^ (8 * (b + 1)) in
  let low := x mod m in if low <? m / 2 then low else low - m.

Definition arith_spec (op : OpCode) (args : list Z) : option Z :=
  match op, args with
  | ADD, [x; y] => Some (norm (x + y))
  | SUB, [x; y] => Some (norm (x - y))
  | MUL, [x; y] => Some (norm (x * y))
  | DIV, [x; y] => Some (if y =? 0 then 0 else x / y)
  | SDIV, [x; y] => Some (if y =? 0 then 0 else norm (Z.quot (signed x) (signed y)))
  | MOD, [x; y] => Some (if y =? 0 then 0 else x mod y)
  | SMOD, [x; y] => Some (if y =? 0 then 0 else norm (Z.rem (signed x) (signed y)))
  | ADDMOD, [x; y; z] => Some (if z =? 0 then 0 else (x + y) mod z)
  | MULMOD, [x; y; z] => Some (if z =? 0 then 0 else (x * y) mod z)
  | EXP, [x; y] => Some (norm (x ^ y))
  | SIGNEXTEND, [b; x] => Some (if b <? 31 then norm (sign_extended b x) else x)
  | LT, [x; y] => Some (bool_word (x <? y))
  | GT, [x; y] => Some (bool_word (y <? x))
  | SLT, [x; y] => Some (bool_word (signed x <? signed y))
  | SGT, [x; y] => Some (bool_word (signed y <? signed x))
  | EQ, [x; y] => Some (bool_word (x =? y))
  | ISZERO, [x] => Some (bool_word (x =? 0))
  | AND, [x; y] => Some (Z.land x y)
  | OR, [x; y] => Some (Z.lor x y)
  | XOR, [x; y] => Some (Z.lxor x y)
  | NOT, [x] => Some (2 ^ 256 - 1 - x)
  | BYTE, [i; x] => Some (if i <? 32 then x / 256 ^ (31 - i) mod 256 else 0)
  | SHL, [s; x] => Some (if s <? 256 then norm (x * 2 ^ s) else 0)
  | SHR, [s; x] => Some (x / 2 ^ s)
  | SAR, [s; x] => Some (norm (signed x / 2 ^ s))
  | _, _ => None
  end.

(** ** Facts about words *)

Lemma U256_norm x : U256 x = norm x.
Proof. apply U256_mod. Qed.

Lemma norm_word x : word x → norm x = x.
Proof. intros. by rewrite <- U256_norm, U256_id. Qed.

Lemma signed_range x : word x → - 2 ^ 255 <= signed x < 2 ^ 255.
Proof. unfold word, tt256, signed. intros. destruct (Z.ltb_spec x (2 ^ 255)); lia. Qed.

Lemma signed_zero x : word x → signed x = 0 ↔ x = 0.
Proof. unfold word, tt256, signed. intros. destruct (Z.ltb_spec x (2 ^ 255)); lia. Qed.

(** The product of the numbers is the product of the words. *)
Lemma norm_mul_l x y : norm (norm x * y) = norm (x * y).
Proof. apply Z.mul_mod_idemp_l. done. Qed.
Lemma norm_mul_r x y : norm (x * norm y) = norm (x * y).
Proof. apply Z.mul_mod_idemp_r. done. Qed.

Lemma exp_bits_spec e : ∀ r b, exp_bits r b e = norm (r * b ^ Zpos e).
Proof.
  induction e as [e IH|e IH|]; intros r b; cbn [exp_bits].
  - rewrite IH, !U256_norm, Pos2Z.inj_xI, Z.pow_add_r, Z.pow_mul_r, Z.pow_1_r, Z.pow_2_r by lia.
    unfold norm. rewrite Zmult_mod, Zpower_mod, !Z.mod_mod, <- Zpower_mod, <- Zmult_mod by done. f_equal. ring.
  - rewrite IH, !U256_norm, Pos2Z.inj_xO, Z.pow_mul_r, Z.pow_2_r by lia.
    unfold norm. rewrite Zmult_mod, Zpower_mod, Z.mod_mod, <- Zpower_mod, <- Zmult_mod by done. done.
  - by rewrite U256_norm, Z.pow_1_r.
Qed.

Lemma math_Exp_spec b e : 0 <= e → math_Exp b e = norm (b ^ e).
Proof. intros He. destruct e; [done| |lia]. cbn [math_Exp]. by rewrite exp_bits_spec, Z.mul_1_l. Qed.

(** Division and remainder from absolute values and signs *)
Lemma quot_signs x y : y ≠ 0 → x ≠ 0 →
  (if negb (Z.sgn x =? Z.sgn y) then - (Z.abs x / Z.abs y) else Z.abs x / Z.abs y) = Z.quot x y.
Proof.
  intros Hy Hx. rewrite Z.quot_div, <- Z.sgn_mul by done. destruct (Z.eqb_spec (Z.sgn x) (Z.sgn y)) as [E|E]; cbn [negb].
  - rewrite Z.sgn_mul, E. assert (Z.sgn y * Z.sgn y = 1) by (destruct y; done). lia.
  - rewrite Z.sgn_mul. assert (Z.sgn x * Z.sgn y = -1) by (destruct x, y; done). lia.
Qed.

Lemma rem_signs x y : y ≠ 0 → (if x <? 0 then - (Z.abs x mod Z.abs y) else Z.abs x mod Z.abs y) = Z.rem x y.
Proof.
  intros Hy. rewrite Z.rem_mod by done. destruct (Z.ltb_spec x 0).
  - rewrite Z.sgn_neg by done. lia.
  - destruct (Z.eq_dec x 0) as [->|]; [by rewrite Z.mod_0_l by lia|]. rewrite Z.sgn_pos by lia. lia.
Qed.

(** Comparison of signed numbers by their halves *)
Lemma signed_lt x y : word x → word y →
  (if (tt255 <=? x) && (y <? tt255) then 1 else if (x <? tt255) && (tt255 <=? y) then 0 else bool_word (x <? y))
  = bool_word (signed x <? signed y).
Proof.
  unfold word, tt256, tt255, signed. intros Hx Hy.
  destruct (Z.leb_spec (2 ^ 255) x), (Z.ltb_spec x (2 ^ 255)), (Z.ltb_spec y (2 ^ 255)), (Z.leb_spec (2 ^ 255) y); try lia;
    cbn [andb]; unfold bool_word.
  all: match goal with |- context [?a <? ?b] => destruct (Z.ltb_spec a b) end; try lia; try done.
  all: match goal with |- context [?a <? ?b] => destruct (Z.ltb_spec a b) end; try lia; done.
Qed.

(** Sign extension by masks *)
Lemma low_bits x b : 0 <= b → x mod 2 ^ (b + 1) = x mod 2 ^ b + (if Z.testbit x b then 2 ^ b else 0).
Proof.
  intros Hb. rewrite Z.pow_add_r, Z.pow_1_r, Z.rem_mul_r by lia. f_equal.
  rewrite <- Z.testbit_spec' by done. destruct (Z.testbit x b); cbn; lia.
Qed.

Lemma lor_high x b : 0 <= b → Z.lor x (Z.lnot (Z.shiftl 1 b - 1)) = x mod 2 ^ b - 2 ^ b.
Proof.
  intros Hb. rewrite Z.shiftl_1_l, Z.sub_1_r, <- Z.ones_equiv.
  pose proof (Z.add_lor_land x (Z.lnot (Z.ones b))) as Hadd.
  rewrite <- Z.ldiff_land, Z.ldiff_ones_r, Z.shiftl_mul_pow2, Z.shiftr_div_pow2 in Hadd by done.
  pose proof (Z.div_mod x (2 ^ b) ltac:(lia)). unfold Z.lnot in *. rewrite Z.ones_equiv in *. lia.
Qed.

Lemma sign_extend_masks back x : 0 <= back < 31 → word x →
  let b := Uint64_of back * 8 + 7 in let mask := Z.shiftl 1 b - 1 in
  U256 (if Z.testbit x b then Z.lor x (Z.lnot mask) else Z.land x mask) = norm (sign_extended back x).
Proof.
  intros Hback Hx b mask. rewrite U256_norm. f_equal. unfold sign_extended.
  assert (8 * (back + 1) = b + 1) as -> by (unfold b, Uint64_of; rewrite uint64_id by (ranges; lia); lia).
  assert (0 <= b) as Hb by (unfold b, Uint64_of; rewrite uint64_id by (ranges; lia); lia).
  assert (2 ^ (b + 1) / 2 = 2 ^ b) as -> by (rewrite Z.pow_add_r, Z.pow_1_r by lia; apply Z.div_mul; lia).
  rewrite low_bits by done. pose proof (Z.mod_pos_bound x (2 ^ b) ltac:(lia)).
  unfold mask. destruct (Z.testbit x b).
  - rewrite (proj2 (Z.ltb_ge _ _)) by lia. rewrite lor_high, Z.pow_add_r by lia. lia.
  - rewrite (proj2 (Z.ltb_lt _ _)) by lia. rewrite Z.shiftl_1_l, Z.add_0_r.
    replace (2 ^ b - 1) with (Z.ones b) by (rewrite Z.ones_equiv; lia). by apply Z.land_ones.
Qed.

Lemma byte_of x i : 0 <= i < 32 → math_Byte x (Int64_of i) = x / 256 ^ (31 - i) mod 256.
Proof.
  intros Hi. unfold math_Byte, Int64_of. rewrite int64_id by (ranges; lia). rewrite (proj2 (Z.leb_gt _ _)) by lia.
  change 0xff with (Z.ones 8). rewrite Z.land_ones, Z.shiftr_div_pow2 by lia.
  change 256 with (2 ^ 8) at 1. by rewrite <- Z.pow_mul_r by lia.
Qed.

Lemma not_word x : word x → U256 (Z.lnot x) = 2 ^ 256 - 1 - x.
Proof.
  unfold word, tt256. intros Hx. rewrite U256_norm. unfold norm, Z.lnot.
  rewrite <- (Z.mod_add _ 1), Z.mod_small by lia. lia.
Qed.

Lemma Uint64_small x : 0 <= x < 256 → Uint64_of x = x.
Proof. intros. unfold Uint64_of. apply uint64_id. ranges. lia. Qed.

Lemma norm_div x y : word x → 0 < y → norm (x / y) = x / y.
Proof.
  unfold word. intros Hx Hy. apply norm_word. split; [by apply Z.div_pos; lia|].
  apply Z.div_lt_upper_bound; [done|]. unfold tt256 in *. nia.
Qed.

Lemma norm_mod x y : word y → y ≠ 0 → norm (x mod y) = x mod y.
Proof. unfold word. intros Hx Hy. apply norm_word. pose proof (Z.mod_pos_bound x y ltac:(lia)). unfold word. lia. Qed.

Lemma div_word x y : word x → word y → (if y =? 0 then 0 else x / y) = (if negb (y =? 0) then U256 (x / y) else 0).
Proof.
  intros Hx [Hy _]. destruct (Z.eqb_spec y 0); [done|]. cbn. rewrite U256_norm, norm_div; [done|done|lia].
Qed.
Lemma mod_word x y : word y → (if y =? 0 then 0 else U256 (x mod y)) = (if y =? 0 then 0 else x mod y).
Proof. intros Hy. destruct (Z.eqb_spec y 0); [done|]. by rewrite U256_norm, norm_mod. Qed.
Lemma modulus_word x z : word z → (if 0 <? z then U256 (x mod z) else 0) = (if z =? 0 then 0 else x mod z).
Proof.
  intros Hz. destruct Hz as [Hz ?]. destruct (Z.eqb_spec z 0) as [->|]; [done|]. rewrite (proj2 (Z.ltb_lt 0 z)) by lia.
  by rewrite U256_norm, norm_mod.
Qed.
Lemma signed_gt x y : word x → word y →
  (if (tt255 <=? x) && (y <? tt255) then 0 else if (x <? tt255) && (tt255 <=? y) then 1 else bool_word (y <? x))
  = bool_word (signed y <? signed x).
Proof.
  intros Hx Hy. rewrite <- (signed_lt y x Hy Hx).
  destruct (Z.leb_spec tt255 x), (Z.ltb_spec x tt255), (Z.ltb_spec y tt255), (Z.leb_spec tt255 y); cbn [andb]; done || lia.
Qed.
Lemma iszero_word x : word x → (if 0 <? x then 0 else 1) = bool_word (x =? 0).
Proof. intros [Hx _]. destruct (Z.ltb_spec 0 x), (Z.eqb_spec x 0); cbn; done || lia. Qed.
Lemma byte_word i x : word i → (if i <? 32 then math_Byte x (Int64_of i) else 0) = (if i <? 32 then x / 256 ^ (31 - i) mod 256 else 0).
Proof. intros [Hi _]. destruct (Z.ltb_spec i 32); [by apply byte_of|done]. Qed.
Lemma shl_word s x : word s → word x →
  (if 256 <=? U256 s then 0 else U256 (Z.shiftl (U256 x) (Uint64_of (U256 s)))) = (if s <? 256 then norm (x * 2 ^ s) else 0).
Proof.
  intros Hs Hx. rewrite !(U256_id s), (U256_id x) by done. destruct Hs as [Hs _].
  destruct (Z.leb_spec 256 s), (Z.ltb_spec s 256); [lia|done| |lia].
  by rewrite Uint64_small, Z.shiftl_mul_pow2, U256_norm by lia.
Qed.
Lemma shr_word s x : word s → word x →
  (if 256 <=? U256 s then 0 else U256 (Z.shiftr (U256 x) (Uint64_of (U256 s)))) = x / 2 ^ s.
Proof.
  intros Hs Hx. rewrite !(U256_id s), (U256_id x) by done. destruct Hs as [Hs _].
  destruct (Z.leb_spec 256 s).
  - symmetry. apply Z.div_small. assert (2 ^ 256 <= 2 ^ s) by (apply Z.pow_le_mono_r; lia). unfold word, tt256 in Hx. lia.
  - rewrite Uint64_small, Z.shiftr_div_pow2, U256_norm by lia. apply norm_div; [done|]. apply Z.pow_pos_nonneg; lia.
Qed.

(** Arithmetic shift below 256, and from 256 on *)
Lemma sar_far x s : word x → 256 <= s → signed x / 2 ^ s = if signed x <? 0 then -1 else 0.
Proof.
  intros Hx Hs. pose proof (signed_range x Hx).
  assert (2 ^ 255 <= 2 ^ s) by (apply Z.pow_le_mono_r; lia).
  destruct (Z.ltb_spec (signed x) 0).
  - symmetry. apply Z.div_unique with (signed x + 2 ^ s); lia.
  - apply Z.div_small. lia.
Qed.

(** ** The instructions *)

Section instructions.
Context `{H : EvmHost} (ctx : EvmContext) (Run : Contract → list Z → EVM → RunResult).

(** The one case in which SAR does not divide: zero, by 256 or more *)
Definition sar_of_zero (op : OpCode) (args : list Z) : bool :=
  match op, args with
  | SAR, [s; 0] => 256 <=? s
  | _, _ => false
  end.

Ltac operands :=
  repeat match goal with
  | Hs : arith_spec _ ?l = Some _ |- _ => is_var l; destruct l as [|? l]; [done|]
  | Hs : arith_spec _ (_ :: ?l) = Some _ |- _ => is_var l; destruct l as [|? l]
  | Hs : arith_spec _ (_ :: _ :: ?l) = Some _ |- _ => is_var l; destruct l as [|? l]
  | Hs : arith_spec _ (_ :: _ :: _ :: ?l) = Some _ |- _ => is_var l; destruct l as [|? l]
  end; try done.

(** The result at the top, as the code computes it and as specified *)
Ltac computes E := refine (f_equal (λ r, (Ok None, mkFrame _ _ _ (r :: _) _)) E).
Ltac rename_items :=
  match goal with
  | |- execute _ _ _ (mkFrame _ _ _ (?a :: ?b :: ?c :: ?st) _) = _ => is_var c; rename a into x; rename b into y; rename c into z
  | |- execute _ _ _ (mkFrame _ _ _ (?a :: ?b :: ?st) _) = _ => is_var b; rename a into x; rename b into y
  | |- execute _ _ _ (mkFrame _ _ _ (?a :: ?st) _) = _ => rename a into x
  end.

Lemma sdiv_computes p c m e x y st : word x → word y →
  opSdiv (mkFrame p c m (x :: y :: st) e)
  = (Ok None, mkFrame p c m ((if y =? 0 then 0 else norm (Z.quot (signed x) (signed y))) :: st) e).
Proof.
  intros Hx Hy. pose proof (signed_zero x Hx) as Hx0. pose proof (signed_zero y Hy) as Hy0.
  unfold opSdiv, xbind, pop. cbn [stack with_stack]. cbv zeta. change (S256 x) with (signed x). change (S256 y) with (signed y).
  destruct (Z.eqb_spec (signed y) 0) as [Ey|Ey].
  { apply Hy0 in Ey as ->. reflexivity. }
  rewrite (proj2 (Z.eqb_neq y 0)) by (intros E; by apply Ey, Hy0). cbn [orb].
  destruct (Z.eqb_spec (signed x) 0) as [Ex|Ex]; [rewrite Ex, Z.quot_0_l by done; reflexivity|].
  rewrite quot_signs by done. rewrite U256_norm. reflexivity.
Qed.

Lemma smod_computes p c m e x y st : word x → word y →
  opSmod (mkFrame p c m (x :: y :: st) e)
  = (Ok None, mkFrame p c m ((if y =? 0 then 0 else norm (Z.rem (signed x) (signed y))) :: st) e).
Proof.
  intros Hx Hy. pose proof (signed_zero y Hy) as Hy0.
  unfold opSmod, xbind, pop. cbn [stack with_stack]. cbv zeta. change (S256 x) with (signed x). change (S256 y) with (signed y).
  destruct (Z.eqb_spec (signed y) 0) as [Ey|Ey].
  { apply Hy0 in Ey as ->. reflexivity. }
  rewrite (proj2 (Z.eqb_neq y 0)) by (intros E; by apply Ey, Hy0). rewrite rem_signs by done. rewrite U256_norm. reflexivity.
Qed.

Lemma signextend_computes p c m e x y st : word x → word y →
  opSignExtend (mkFrame p c m (x :: y :: st) e)
  = (Ok None, mkFrame p c m ((if x <? 31 then norm (sign_extended x y) else y) :: st) e).
Proof.
  intros Hx Hy. unfold opSignExtend. unfold xbind at 1 2, pop at 1. cbn [stack with_stack].
  destruct (Z.ltb_spec x 31) as [Hlt|Hge]; [|reflexivity].
  unfold xbind, pop. cbn [stack with_stack]. destruct Hx as [Hx _].
  rewrite (sign_extend_masks x y) by done. reflexivity.
Qed.

Lemma sar_computes p c m e x y st : word x → word y → (y = 0 → x < 256) →
  opSAR (mkFrame p c m (x :: y :: st) e) = (Ok None, mkFrame p c m (norm (signed y / 2 ^ x) :: st) e).
Proof.
  intros Hx Hy H0. unfold opSAR, xbind, pop. cbn [stack with_stack]. cbv zeta. rewrite (U256_id x) by done.
  change (S256 y) with (signed y). pose proof (signed_zero y Hy) as Hy0. destruct (Z.leb_spec 256 x) as [Hs|Hs].
  - rewrite (sar_far y x) by done. rewrite U256_norm. destruct (Z.ltb_spec 0 (signed y)), (Z.ltb_spec (signed y) 0);
      [lia|reflexivity|reflexivity|]. assert (signed y = 0) as E%Hy0 by lia. specialize (H0 E). lia.
  - destruct Hx as [Hx _]. rewrite Uint64_small, Z.shiftr_div_pow2, U256_norm by lia. reflexivity.
Qed.

Lemma arith_computes op args r f : arith_spec op args = Some r → Forall word args → sar_of_zero op args = false →
  ∀ st, stack f = args ++ st → execute ctx Run op f = (Ok None, with_stack (r :: st) f).
Proof.
  intros Hs Hw Hsar st Hst. destruct f as [p c m stk e]. cbn [stack] in Hst. subst stk.
  destruct op; try done; operands; apply Some_inj in Hs; subst r;
    repeat match goal with Hf : Forall word (_ :: _) |- _ => apply Forall_cons in Hf as [? Hf] end;
    cbn [app]; rename_items.
  - computes (U256_norm (x + y)).
  - computes (U256_norm (x * y)).
  - computes (U256_norm (x - y)).
  - computes (eq_sym (div_word x y ltac:(done) ltac:(done))).
  - by apply sdiv_computes.
  - computes (mod_word x y ltac:(done)).
  - by apply smod_computes.
  - computes (modulus_word (x + y) z ltac:(done)).
  - computes (modulus_word (x * y) z ltac:(done)).
  - computes (math_Exp_spec x y ltac:(match goal with Hy : word y |- _ => exact (proj1 Hy) end)).
  - by apply signextend_computes.
  - done.
  - done.
  - computes (signed_lt x y ltac:(done) ltac:(done)).
  - computes (signed_gt x y ltac:(done) ltac:(done)).
  - done.
  - computes (iszero_word x ltac:(done)).
  - done.
  - done.
  - done.
  - computes (not_word x ltac:(done)).
  - computes (byte_word x y ltac:(done)).
  - computes (shl_word x y ltac:(done) ltac:(done)).
  - computes (shr_word x y ltac:(done) ltac:(done)).
  - apply sar_computes; [done|done|]. intros ->. cbn [sar_of_zero] in Hsar. lia.
Qed.

(** Zero, shifted to the right by 256 or more, becomes the greatest word:
    the code asks whether the value is positive where it means not negative. *)
Lemma sar_fills_zero_with_ones f s st : word s → 256 <= s → stack f = s :: 0 :: st →
  execute ctx Run SAR f = (Ok None, with_stack ((2 ^ 256 - 1) :: st) f).
Proof.
  intros Hw Hs Hst. destruct f as [p c m stk e]. cbn [stack] in Hst. subst stk.
  cbn [execute]. unfold opSAR, xbind, pop. cbn [stack with_stack]. cbv zeta. rewrite U256_id by done.
  rewrite (proj2 (Z.leb_le 256 s)) by done. reflexivity.
Qed.

(** C14: on words, every arithmetic, comparison and bit instruction replaces its
    operands by the number it stands for: sums and products modulo 2^256, signed
    division towards zero in two's complement, powers (the code squares and
    multiplies), sign extension (the code masks), comparisons by halves, shifts.
    There is one exception, in which the code computes something else: zero,
    shifted arithmetically to the right by 256 or more, gives the greatest word
    2^256 - 1 instead of zero. *)
Theorem evm_arithmetic_computes op args r f : arith_spec op args = Some r → Forall word args →
  ∀ st, stack f = args ++ st →
  execute ctx Run op f
  = (Ok None, with_stack ((if sar_of_zero op args then 2 ^ 256 - 1 else r) :: st) f).
Proof.
  intros Hs Hw st Hst. destruct (sar_of_zero op args) eqn:E; [|by eapply arith_computes].
  destruct op; try done. destruct args as [|s [|[| |] [|]]]; try done. cbn [sar_of_zero] in E.
  apply Forall_cons in Hw as [Hw _]. apply (sar_fills_zero_with_ones f s); [done|lia|done].
Qed.
End instructions.

(** ** The price of memory *)

(** Three for a word, and one for 512 squared words *)
Definition memory_fee (words : Z) : Z := 3 * words + words * words / 512.

(** Below 2^32 words the fee is computed exactly. *)
Lemma memory_fee_exact w : 0 <= w < 2 ^ 32 →
  uint64 (uint64 (w * MemoryGas) + uint64 (w * w) / QuadCoeffDiv) = memory_fee w ∧ is_uint64 (memory_fee w).
Proof.
  intros Hw. assert (0 <= w * w <= (2 ^ 32 - 1) * (2 ^ 32 - 1)) as Hsq by nia.
  assert (0 <= w * w / 512 <= (2 ^ 32 - 1) * (2 ^ 32 - 1) / 512) as Hq.
  { split; [apply Z.div_pos; lia|apply Z.div_le_mono; lia]. }
  assert ((2 ^ 32 - 1) * (2 ^ 32 - 1) / 512 < 2 ^ 56) by (vm_compute; reflexivity).
  unfold memory_fee. rewrite (uint64_id (w * w)), (uint64_id (w * MemoryGas)) by (ranges; lia).
  rewrite uint64_id by (ranges; lia). split; [lia|]. ranges. lia.
Qed.

(** Growing the memory costs the difference of the fees of the two sizes,
    for sizes up to 2^37 - 32 bytes; the fee of the size is remembered, and a
    size that is there already costs nothing. *)
Theorem memory_price_is_quadratic `{EvmHost} f size : 0 <= size <= 0x1fffffffe0 →
  len (store (memory f)) mod 32 = 0 → lastGasCost (memory f) = memory_fee (len (store (memory f)) / 32) →
  let words := (size + 31) / 32 in
  memoryGasCost size f =
  if len (store (memory f)) / 32 <? words
  then (Ok (memory_fee words - memory_fee (len (store (memory f)) / 32)),
        with_memory (mkMemory (store (memory f)) (memory_fee words)) f)
  else (Ok 0, f).
Proof.
  intros Hs H32 Hlast words. set (l := len (store (memory f))) in *. pose proof (len_nonneg (store (memory f))) as Hl0.
  fold l in Hl0. pose proof (Z.div_mod l 32 ltac:(done)) as Hl. set (k := l / 32) in *.
  assert (0 <= k) by (apply Z.div_pos; lia).
  unfold memoryGasCost. destruct (Z.eqb_spec size 0) as [->|Hne].
  { subst words. change ((0 + 31) / 32) with 0. by rewrite (proj2 (Z.ltb_ge k 0)). }
  rewrite (proj2 (Z.ltb_ge 0xffffffffe0 size)) by lia. unfold toWordSize.
  rewrite !(proj2 (Z.ltb_ge (MaxUint64 - 31) size)) by lia. fold words.
  assert (1 <= words < 2 ^ 32) as Hw.
  { split; [apply Z.div_le_lower_bound; lia|apply Z.div_lt_upper_bound; lia]. }
  rewrite (uint64_id (words * 32)) by (ranges; lia). fold l. cbv zeta.
  destruct (memory_fee_exact words ltac:(lia)) as [-> Hfee].
  destruct (Z.ltb_spec l (words * 32)), (Z.ltb_spec k words); try lia; [|done].
  rewrite Hlast. fold k. rewrite uint64_id; [done|].
  assert (memory_fee k <= memory_fee words) as Hmono.
  { unfold memory_fee. assert (k * k / 512 <= words * words / 512) by (apply Z.div_le_mono; nia). lia. }
  assert (0 <= memory_fee k) by (unfold memory_fee; pose proof (Z.div_pos (k * k) 512 ltac:(nia) ltac:(lia)); lia). ranges. lia.
Qed.

(** The limit that is to keep the price of memory from overflowing does not.
    At 2^32 words, well below it, the square wraps around to zero: 128 GiB of
    memory cost their linear part only, less than a millionth of the price of
    one word less. *)
Theorem memory_price_wraps_around `{EvmHost} f : memory f = NewMemory →
  (memoryGasCost (2 ^ 37) f).1 = Ok (3 * 2 ^ 32) ∧ memory_fee (2 ^ 32) = 3 * 2 ^ 32 + 2 ^ 55
  ∧ ∃ g, (memoryGasCost (2 ^ 37 - 32) f).1 = Ok g ∧ 3 * 2 ^ 32 * 1000000 < g.
Proof.
  intros Hm. unfold memoryGasCost. rewrite Hm. split; [reflexivity|]. split; [reflexivity|].
  eexists. split; [reflexivity|]. vm_compute. reflexivity.
Qed.

(** ** Witnesses *)

Definition some_contract : Contract := NewContract (AccountRef (address 1)) (address 2) 0 1000000.
Definition frame_with (st : list Z) : Frame :=
  mkFrame 0 some_contract NewMemory st (NewEVM (test_world [])).
Definition no_Run (c : Contract) (input : list Z) (e : EVM) : RunResult := (Ok (None, None), c, e).

(** -7 / 2 = -3, and the exception *)
Lemma evm_arithmetic_computes_witness :
  execute test_ctx no_Run SDIV (frame_with [2 ^ 256 - 7; 2; 9]) = (Ok None, frame_with [2 ^ 256 - 3; 9])
  ∧ execute test_ctx no_Run SAR (frame_with [256; 0]) = (Ok None, frame_with [2 ^ 256 - 1]).
Proof.
  split.
  - apply (evm_arithmetic_computes test_ctx no_Run SDIV [2 ^ 256 - 7; 2] (2 ^ 256 - 3) (frame_with [2 ^ 256 - 7; 2; 9]))
      with (st := [9]).
    + vm_compute. reflexivity.
    + unfold word, tt256. repeat constructor; lia.
    + reflexivity.
  - apply (evm_arithmetic_computes test_ctx no_Run SAR [256; 0] 0 (frame_with [256; 0])) with (st := []).
    + vm_compute. reflexivity.
    + unfold word, tt256. repeat constructor; lia.
    + reflexivity.
Defined.

Lemma memory_price_is_quadratic_witness :
  memoryGasCost 64 (frame_with []) =
  if len (store (memory (frame_with []))) / 32 <? (64 + 31) / 32
  then (Ok (memory_fee ((64 + 31) / 32) - memory_fee (len (store (memory (frame_with []))) / 32)),
        with_memory (mkMemory (store (memory (frame_with []))) (memory_fee ((64 + 31) / 32))) (frame_with []))
  else (Ok 0, frame_with []).
Proof. apply memory_price_is_quadratic; [lia|reflexivity|reflexivity]. Defined.

Lemma memory_price_wraps_around_witness :
  (memoryGasCost (2 ^ 37) (frame_with [])).1 = Ok (3 * 2 ^ 32) ∧ memory_fee (2 ^ 32) = 3 * 2 ^ 32 + 2 ^ 55
  ∧ ∃ g, (memoryGasCost (2 ^ 37 - 32) (frame_with [])).1 = Ok g ∧ 3 * 2 ^ 32 * 1000000 < g.
Proof. apply memory_price_wraps_around. reflexivity. Defined.
