(* ===== verification/EvmEnv.v ===== *)
(** * The EVM behind the virtual machine

    [TransitionDb] runs a message through [evm.Create] and [evm.Call]; here these
    are the modelled ones.  The account database, the hash functions and the
    choices of the runtime stay parameters.  The message transition relies on
    the EVM for its gas accounting: [EvmOk] holds of it. *)

From S2P Require Import Prelude Checked VmProgram VmMachine EvmTransition.
From S2P Require Import EvmBase EvmAnalysis EvmInstr EvmGas EvmPrecompiled EvmRun.
From S2P Require Import EvmLogic EvmSafeOps EvmSafeCalls EvmExamples EvmResults EvmEffects.
#[local] Open Scope Z_scope.
#[local] Set Default Goal Selector "!".

(** The errors [TransitionDb] tells apart, and the others *)
Definition error_of (e : evm_err) : VmProgram.evm_error :=
  match e with
  | ErrOutOfGas => VmProgram.ErrOutOfGas
  | ErrInsufficientBalance => VmProgram.ErrInsufficientBalance
  | ErrCodeStoreOutOfGas => VmProgram.ErrExecution 1
  | ErrDepth => VmProgram.ErrExecution 2
  | ErrContractAddressCollision => VmProgram.ErrExecution 3
  | errWriteProtection => VmProgram.ErrExecution 4
  | errReturnDataOutOfBounds => VmProgram.ErrExecution 5
  | errExecutionReverted => VmProgram.ErrExecution 6
  | errMaxCodeSizeExceeded => VmProgram.ErrExecution 7
  | errGasUintOverflow => VmProgram.ErrExecution 8
  | ErrInvalidOpcode => VmProgram.ErrExecution 9
  | ErrStackUnderflow => VmProgram.ErrExecution 10
  | ErrStackLimit => VmProgram.ErrExecution 11
  | ErrInvalidJump => VmProgram.ErrExecution 12
  | errBadPairingInput => VmProgram.ErrExecution 13
  | ErrCurvePoint => VmProgram.ErrExecution 14
  end.

Section env.
Context `{H : EvmHost}.
(** [append], the other hash functions, signatures, the spare capacity of a
    returned slice, the hash of a block of the main chain *)
Context (growcap : nat → nat → nat) (sha256_Sum sha3_Sum256 Ripemd160 : list Z → list Z).
Context (ed25519_Verify : list Z → list Z → list Z → bool) (spare : list Z → nat).
Context (GetBlockHashByHeight : Z → Word32) (MaxBlockGas : Z).

(** [NewEVMContext], for the messages of the opcodes, whose gas price is zero *)
Definition context_of (c : VmMachine.EvmContext) : EvmContext :=
  mkEvmContext (VmMachine.ec_origin c) 0 (VmMachine.ec_coinbase c) MaxBlockGas (VmMachine.ec_height c)
    (VmMachine.ec_timestamp c) (VmMachine.ec_difficulty c) GetBlockHashByHeight false.

Definition with_spare (ret : option (list Z)) : option (list Z * nat) := (λ bs, (bs, spare bs)) <$> ret.

(** What cannot be an argument in Go (an address that is not 20 bytes, a
    negative value), and a panic, stand as an error that takes all gas. *)
Definition no_result (d : DB) : VmMachine.EvmResult DB :=
  VmMachine.mkEvmResult None 0 (Some (VmProgram.ErrExecution 0)) d.

Definition go_args (c : VmMachine.EvmContext) (from input : list Z) (value : Z) : Prop :=
  bytes_of 20 from ∧ Forall is_byte input ∧ len input < 2 ^ 62 ∧ word value
  ∧ bytes_of 20 (VmMachine.ec_origin c) ∧ bytes_of 20 (VmMachine.ec_coinbase c).
#[global] Instance go_args_dec c from input value : Decision (go_args c from input value).
Proof. unfold go_args, bytes_of, word, is_byte. apply _. Defined.
#[global] Instance bytes_of_dec n bs : Decision (bytes_of n bs).
Proof. unfold bytes_of, is_byte. apply _. Defined.

Definition env_Create (c : VmMachine.EvmContext) (d : DB) (from code : list Z) (gas value : Z) : VmMachine.EvmResult DB :=
  if decide (go_args c from code value) then
    match Create (context_of c) (Run (context_of c) (S (Z.to_nat gas))) (AccountRef from) code gas value (NewEVM d) with
    | (Ok (ret, _, g, err), e) =>
        VmMachine.mkEvmResult (with_spare ret) g (error_of <$> err) (StateDB e)
    | (_, e) => no_result (StateDB e)
    end
  else no_result d.

Definition env_Call (c : VmMachine.EvmContext) (d : DB) (from to input : list Z) (gas value : Z) : VmMachine.EvmResult DB :=
  if decide (go_args c from input value ∧ bytes_of 20 to) then
    match Call (context_of c) (Run (context_of c) (S (Z.to_nat gas))) (AccountRef from) to input gas value (NewEVM d) with
    | (Ok (ret, g, err), e) =>
        VmMachine.mkEvmResult (with_spare ret) g (error_of <$> err) (StateDB e)
    | (_, e) => no_result (StateDB e)
    end
  else no_result d.

Definition evm_env : VmMachine.VmEnv := {|
  VmMachine.growcap := growcap;
  VmMachine.sha256_Sum := sha256_Sum;
  VmMachine.sha3_Sum256 := sha3_Sum256;
  VmMachine.Ripemd160 := Ripemd160;
  VmMachine.ed25519_Verify := ed25519_Verify;
  VmMachine.StateDB := DB;
  VmMachine.GetBalance := GetBalance;
  VmMachine.AddBalance := AddBalance;
  VmMachine.SubBalance := SubBalance;
  VmMachine.GetNonce := GetNonce;
  VmMachine.SetNonce := SetNonce;
  VmMachine.GetRefund := GetRefund;
  VmMachine.evm_Create := env_Create;
  VmMachine.evm_Call := env_Call;
  VmMachine.CreateAddress := CreateAddress;
|}.

Hypothesis block_hashes : ∀ n, bytes_of 32 (GetBlockHashByHeight n).

Lemma context_of_ok c from input value : go_args c from input value → ctx_ok (context_of c).
Proof using block_hashes. intros (_ & _ & _ & _ & Ho & Hc). split; try done. Qed.

Lemma env_Create_gas `{!HostOk} c d from code gas value : is_uint64 gas →
  0 <= VmMachine.er_gas (env_Create c d from code gas value) <= gas.
Proof using block_hashes.
  intros Hg. unfold env_Create. case_decide as Ha; [|ranges; cbn; lia].
  pose proof (context_of_ok _ _ _ _ Ha) as Hctx. destruct Ha as (Hf & Hb & Hl & Hv & _).
  pose proof (Create_from_account (KI := any_db_kept) (context_of c) Hctx from code gas value d (S (Z.to_nat gas))
    Hf Hb Hl Hv Logic.I ltac:(ranges; lia) ltac:(ranges; lia)) as Hp.
  unfold create_post in Hp. destruct (Create _ _ _ _ _ _ _) as [[[[[ret a] g] err]|?| |] e]; cbn in *; ranges; lia.
Qed.

Lemma env_Call_gas `{!HostOk} c d from to input gas value : is_uint64 gas →
  0 <= VmMachine.er_gas (env_Call c d from to input gas value) <= gas.
Proof using block_hashes.
  intros Hg. unfold env_Call. case_decide as Ha; [|ranges; cbn; lia]. destruct Ha as [Ha Ht].
  pose proof (context_of_ok _ _ _ _ Ha) as Hctx. destruct Ha as (Hf & Hb & Hl & Hv & _).
  pose proof (Call_from_account (KI := any_db_kept) (context_of c) Hctx from to input gas value d (S (Z.to_nat gas))
    Hf Ht Hb Hl Hv Logic.I ltac:(ranges; lia) ltac:(ranges; lia)) as Hp.
  unfold call_post in Hp. destruct (Call _ _ _ _ _ _ _ _) as [[[[ret g] err]|?| |] e]; cbn in *; ranges; lia.
Qed.

Lemma evm_env_ok `{!HostOk} : EvmTransition.EvmOk (E := evm_env).
Proof using block_hashes.
  split; [intros; by apply env_Create_gas|intros; by apply env_Call_gas|apply GetRefund_uint64].
Qed.

(** C7: the EVM meets what the message transition relies on: whatever the
    message, the gas it hands back is between zero and the gas it was given,
    and the refund counter is a uint64. *)
Theorem evm_meets_the_transition `{!HostOk} : EvmTransition.EvmOk (E := evm_env).
Proof using block_hashes. apply evm_env_ok. Qed.

(** A message with at most 2^60 gas runs as the EVM says: the result that
    the transition sees is the result of [Call], never the stand-in for a
    panic, unless the code of two executed contracts clashes. *)
Theorem messages_run_in_the_evm `{!HostOk} c d from to input gas value :
  go_args c from input value → bytes_of 20 to → 0 <= gas <= 2 ^ 60 →
  let p := Call (context_of c) (Run (context_of c) (S (Z.to_nat gas))) (AccountRef from) to input gas value (NewEVM d) in
  (∃ ret g err, p.1 = Ok (ret, g, err)
     ∧ VmMachine.evm_Call (VmEnv := evm_env) c d from to input gas value
       = VmMachine.mkEvmResult (with_spare ret) g (error_of <$> err) (StateDB p.2))
  ∨ panics_on_clash p.
Proof using block_hashes.
  intros Ha Ht Hg p. pose proof (context_of_ok _ _ _ _ Ha) as Hctx. pose proof Ha as (Hf & Hb & Hl & Hv & _).
  pose proof (Call_from_account (KI := any_db_kept) (context_of c) Hctx from to input gas value d (S (Z.to_nat gas))
    Hf Ht Hb Hl Hv Logic.I ltac:(lia) ltac:(lia)) as Hp.
  fold p in Hp. unfold call_post in Hp. cbn [VmMachine.evm_Call evm_env]. unfold env_Call.
  rewrite decide_True by done. fold p. destruct p as [[[[ret g] err]|?| |] e]; cbn [fst snd] in *; try done.
  - left. by exists ret, g, err.
  - right. split; [done|]. apply (Excuse_small gas); [lia|done].
Qed.

(** ** Messages make no money *)

Section money.
Context `{!HostOk} (money : DB → Z) `{!BalanceLaws money}.

Lemma env_Create_money c d from code gas value : is_uint64 gas → 2 * money d < tt256 →
  VmMachine.er_err (env_Create c d from code gas value) ≠ Some (ErrExecution 0) →
  money (VmMachine.er_db (env_Create c d from code gas value)) <= money d.
Proof using All.
  intros Hg HT. unfold env_Create. case_decide as Ha; [|cbn; lia].
  pose proof (context_of_ok _ _ _ _ Ha) as Hctx. destruct Ha as (Hf & Hb & Hl & Hv & _).
  pose proof (Create_from_account (KI := at_most_kept money (money d) HT) (context_of c) Hctx from code gas value d
    (S (Z.to_nat gas)) Hf Hb Hl Hv (Z.le_refl (money d)) ltac:(ranges; lia) ltac:(ranges; lia)) as Hp.
  unfold create_post in Hp. destruct (Create _ _ _ _ _ _ _) as [[[[[ret a] g] err]|?| |] e]; cbn in *; try done.
  intros _. apply Hp.
Qed.

Lemma env_Call_money c d from to input gas value : is_uint64 gas → 2 * money d < tt256 →
  VmMachine.er_err (env_Call c d from to input gas value) ≠ Some (ErrExecution 0) →
  money (VmMachine.er_db (env_Call c d from to input gas value)) <= money d.
Proof using All.
  intros Hg HT. unfold env_Call. case_decide as Ha; [|cbn; lia]. destruct Ha as [Ha Ht].
  pose proof (context_of_ok _ _ _ _ Ha) as Hctx. destruct Ha as (Hf & Hb & Hl & Hv & _).
  pose proof (Call_from_account (KI := at_most_kept money (money d) HT) (context_of c) Hctx from to input gas value d
    (S (Z.to_nat gas)) Hf Ht Hb Hl Hv (Z.le_refl (money d)) ltac:(ranges; lia) ltac:(ranges; lia)) as Hp.
  unfold call_post in Hp. destruct (Call _ _ _ _ _ _ _ _) as [[[[ret g] err]|?| |] e]; cbn in *; try done.
  intros _. apply Hp.
Qed.

Lemma money_add_0 d a : money (AddBalance d a 0) = money d.
Proof using All. rewrite bl_AddBalance; [lia|lia|]. pose proof (GetBalance_word d a) as [_ ?]. lia. Qed.
Lemma money_sub_0 d a : money (SubBalance d a 0) = money d.
Proof using All. rewrite bl_SubBalance; [lia|]. pose proof (GetBalance_word d a) as [? _]. lia. Qed.

#[local] Existing Instance evm_env.

Lemma buyGas_free st st' : msgGasPrice (st_msg st) = 0 → buyGas st = Ok st' →
  money (st_state st') = money (st_state st) ∧ st_msg st' = st_msg st.
Proof using All.
  intros Hp. unfold buyGas. destruct (_ <? _); [done|]. destruct (SubGas _ _); [|done..]. intros [= <-].
  cbn. rewrite Hp, Z.mul_0_r. split; [apply money_sub_0|done].
Qed.

Lemma refundGas_free st st' : msgGasPrice (st_msg st) = 0 → refundGas st = Ok st' →
  money (st_state st') = money (st_state st) ∧ st_msg st' = st_msg st.
Proof using All.
  intros Hp. unfold refundGas. destruct (AddGas _ _); [|done..]. intros [= <-]. cbn. rewrite Hp, Z.mul_0_r.
  split; [apply money_add_0|done].
Qed.

Lemma evm_execute_money ctx st : is_uint64 (st_gas st) → 2 * money (st_state st) < tt256 →
  VmMachine.er_err (evm_execute ctx st) ≠ Some (ErrExecution 0) →
  money (VmMachine.er_db (evm_execute ctx st)) <= money (st_state st).
Proof using All.
  intros Hg HT. unfold evm_execute. destruct (msgTo (st_msg st)); [|by apply env_Create_money].
  set (d := VmMachine.SetNonce _ _ _). intros He. assert (money d = money (st_state st)) as Hd by apply bl_SetNonce.
  rewrite <- Hd in *. by apply env_Call_money.
Qed.

(** C16: a message of the opcodes, which pay no price for gas, makes no money:
    after the nonce, the purchase of gas, the execution in the EVM, the refund
    and the payment to the miner, and whatever error there was, the accounts
    hold together at most what they held before. *)
Theorem messages_make_no_money ctx d msg : msgGasPrice msg = 0 → is_uint64 (msgGas msg) → 2 * money d < tt256 →
  let p := ApplyMessage ctx d msg MaxUint64 in p.1 ≠ Err (ErrExecution 0) → money p.2 <= money d.
Proof using All.
  intros Hprice Hg HT p. unfold p, ApplyMessage, TransitionDb.
  destruct (preCheck _) as [st1|e| |] eqn:Ep; cbn; try lia.
  assert (money (st_state st1) = money d ∧ st_msg st1 = msg) as [Hm1 Hmsg1].
  { revert Ep. unfold preCheck. cbn. intros Ep. repeat case_match; try done; by apply buyGas_free in Ep. }
  apply buyGas_ok in Ep as (_ & Hgas & Hini & Hgp); [|done].
  destruct (IntrinsicGas _ _) as [ig|e| |] eqn:Ei; cbn; try lia. apply IntrinsicGas_range in Ei.
  destruct (useGas st1 ig) as [st2|e| |] eqn:Eu; cbn; try lia.
  assert (st_state st2 = st_state st1) as Hst2 by (revert Eu; unfold useGas; case_match; [done|by intros [= <-]]).
  apply useGas_ok in Eu as (Hm2 & Hi2 & Hgp2 & Hg2 & Hle); [|by rewrite Hgas|done].
  pose proof (evm_execute_money ctx st2 ltac:(ranges; lia) ltac:(rewrite Hst2; lia)) as Hex.
  rewrite Hst2, Hm1 in Hex. set (r := evm_execute ctx st2) in *.
  case_bool_decide as Hbal; [intros _; cbn; apply Hex; intros E; by pose proof (eq_trans (eq_sym Hbal) E)|].
  pose proof (evm_execute_gas (HE := evm_env_ok) ctx st2 ltac:(ranges; lia)) as Hleft. fold r in Hleft.
  edestruct (refundGas_ok (HE := evm_env_ok)) as (st4 & Er & _); [| | |rewrite Er]; cbn; [| | |].
  { by rewrite Hi2, Hini. }
  { destruct Hleft as [Hl0 Hl1]. split; [exact Hl0|]. eapply Z.le_trans; [exact Hl1|]. ranges. lia. }
  { lia. }
  apply refundGas_free in Er as [Hm4 Hmsg4]; [|cbn; congruence]. cbn in Hm4, Hmsg4.
  rewrite Hmsg4, Hm2, Hmsg1, Hprice, Z.mul_0_r, money_add_0, Hm4. intros Hne. apply Hex. intros E.
  apply Hne. match goal with |- match ?x with Some _ => _ | None => _ end = _ => change (x = Some (ErrExecution 0)) in E end.
  by rewrite E.
Qed.
End money.
End env.

(** ** Witnesses *)

Definition some_hash (bs : list Z) : list Z := be_bytes 32 (len bs).
Definition block_hash (n : Z) : Word32 := be_bytes 32 n.
Definition test_env : VmMachine.VmEnv :=
  evm_env (H := map_host) (λ _ n, n) some_hash some_hash some_hash (λ _ _ _, false) (λ _, 0%nat) block_hash 10000000.

Lemma block_hash_bytes n : bytes_of 32 (block_hash n).
Proof. apply be_bytes_of. Qed.

Definition env_ctx : VmMachine.EvmContext := VmMachine.mkEvmContext (address 1000) (address 1000) 100 1000 1.
Definition env_msg : Message := mkMessage (address 1000) (Some (address 2000)) 1 7 50000 0 [] true.

(** A message that calls the contract of [add_code]: the intrinsic gas and 24 *)
Example message_runs :
  (ApplyMessage (E := test_env) env_ctx (test_world add_code) env_msg MaxUint64).1
  = Ok (Some (be_bytes 32 5, 0%nat), 21024).
Proof. vm_compute. reflexivity. Qed.

Lemma evm_meets_the_transition_witness : EvmTransition.EvmOk (E := test_env).
Proof. apply (evm_meets_the_transition (H := map_host) _ _ _ _ _ _ block_hash 10000000 block_hash_bytes). Defined.

Lemma messages_run_in_the_evm_witness :
  let c := context_of block_hash 10000000 env_ctx in
  let p := Call c (Run c (Z.to_nat 101)) (AccountRef (address 1000)) (address 2000) [] 100 7 (NewEVM (test_world add_code)) in
  (∃ ret g err, p.1 = Ok (ret, g, err)
     ∧ VmMachine.evm_Call (VmEnv := test_env) env_ctx (test_world add_code) (address 1000) (address 2000) [] 100 7
       = VmMachine.mkEvmResult (with_spare (λ _, 0%nat) ret) g (error_of <$> err) (StateDB p.2))
  ∨ panics_on_clash p.
Proof.
  apply (messages_run_in_the_evm (H := map_host) (λ _ n, n) some_hash some_hash some_hash (λ _ _ _, false) (λ _, 0%nat)
           block_hash 10000000 block_hash_bytes env_ctx (test_world add_code) (address 1000) (address 2000) [] 100 7).
  - split_and!; [apply be_bytes_of|constructor|done|unfold word, tt256; lia|apply be_bytes_of|apply be_bytes_of].
  - apply be_bytes_of.
  - lia.
Defined.

Lemma messages_make_no_money_witness :
  let p := ApplyMessage (E := test_env) env_ctx (test_world add_code) env_msg MaxUint64 in
  world_money (test_world add_code) = 5000 ∧ world_money p.2 <= world_money (test_world add_code).
Proof.
  split; [reflexivity|].
  apply (messages_make_no_money (H := map_host) (λ _ n, n) some_hash some_hash some_hash (λ _ _ _, false) (λ _, 0%nat)
           block_hash 10000000 block_hash_bytes world_money env_ctx (test_world add_code) env_msg).
  - reflexivity.
  - ranges. cbn. lia.
  - reflexivity.
  - assert ((ApplyMessage (E := test_env) env_ctx (test_world add_code) env_msg MaxUint64).1
      = Ok (Some (be_bytes 32 5, 0%nat), 21024)) as Hr by (vm_compute; reflexivity).
    intros Hp. unfold test_env in Hr. rewrite Hp in Hr. discriminate Hr.
Defined.
