(* ===== verification/VmEvmOps.v ===== *)
(** * The account and contract opcodes ([vaab.go], [create.go], [call.go],
    [contract.go], [evm.go])

    DEPOSIT and WITHDRAW move native asset between an output and an account;
    CREATE, CALL and CONTRACT run a message through the EVM and charge its gas
    to the machine's run limit.  A nil asset or amount pointer is dereferenced
    by these functions: a panic. *)

From S2P Require Import Prelude Checked GoSlice VmProgram VmMachine VmOps EvmTransition.

(** ffff...ff ([consensus.NativeAssetID]) *)
Definition NativeAssetID : list Z := replicate 32 255.

(** [common.BytesToAddress]: the last 20 bytes, zero-padded on the left *)
Definition BytesToAddress (b : list Z) : Address :=
  replicate (20 - length b) 0 ++ drop (length b - 20) b.

(** [new(big.Int).SetBytes(b).Uint64()]: the low 64 bits *)
Definition big_Uint64 (b : list Z) : Z := uint64 (be_value b).

(** The shapes of contract programs, recognised by their instructions *)
Definition is_push_arg (i : Instruction) : bool := (OP_DATA_1 <=? Op i) && (Op i <=? OP_PUSHDATA4).

Definition is_op3 (op : Z) (prog : list Z) : bool :=
  match ParseProgram prog with
  | Ok [version; input; last] => (Op version <=? OP_16) && is_push_arg input && (Op last =? op)
  | _ => false
  end.

Definition IsOpCreate (prog : list Z) : bool := is_op3 OP_CREATE prog.
Definition IsOpCall (prog : list Z) : bool := is_op3 OP_CALL prog.
Definition IsOpContract (prog : list Z) : bool := is_op3 OP_CONTRACT prog.

Definition is_op4 (op : Z) (prog : list Z) : bool :=
  match ParseProgram prog with
  | Ok [version; vmType; address; last] =>
      (Op version <=? OP_16) && (Op vmType <=? OP_16)
      && ((Op address =? OP_DATA_20) && (len (Data address) =? 20)) && (Op last =? op)
  | _ => false
  end.

Definition IsOpDeposit (prog : list Z) : bool := is_op4 OP_DEPOSIT prog.
Definition IsOpWithdraw (prog : list Z) : bool := is_op4 OP_WITHDRAW prog.

(** [insts[2].Data] without a length check: a short program panics *)
Definition third_data (prog : list Z) : outcome error (list Z) :=
  obind (ParseProgram prog) (λ insts,
    match insts !! 2%nat with
    | Some i => Ok (Data i)
    | None => Panic
    end).

Definition GetAddressFromOpDeposit (prog : list Z) : outcome error (list Z) := third_data prog.
Definition GetAddressFromOpWithdraw (prog : list Z) : outcome error (list Z) := third_data prog.

Section evm_ops.
Context `{E : VmEnv}.
Local Open Scope vm_scope.

Definition ContractAddress (address : list Z) (nonce : Z) : list Z :=
  CreateAddress (BytesToAddress address) nonce.

(** [*vm.context.AssetID], [*vm.context.Amount] *)
Definition deref {A} (f : Context → option A) : M A :=
  p <- gets (λ s, f (context (vm s))) ;;
  match p with
  | Some x => ret x
  | None => panic
  end.

Definition CanTransfer (d : StateDB) (addr : Address) (amount : Z) : bool :=
  amount <=? GetBalance d addr.

Definition Transfer (d : StateDB) (sender recipient : Address) (amount : Z) : StateDB :=
  AddBalance (SubBalance d sender amount) recipient amount.

Definition NewEVMContext (from : Address) (info : Z * Z * Z) (author : Address) : EvmContext :=
  mkEvmContext from author (fst (fst info)) (snd (fst info)) (snd info).

(** Pop a version (or vm type) and refuse a positive one *)
Definition pop_zero (e : error) : M unit :=
  b <- pop false ;;
  bs <- read b ;;
  if 0 <? big_Uint64 bs then throw e else ret tt.

Definition opDeposit : M unit :=
  assetID <- deref AssetID ;;
  assetAmount <- deref Amount ;;
  address <- pop false ;;
  pop_zero ErrUnknownVmType ;;
  pop_zero ErrUnknownVersion ;;
  addr <- read address ;;
  aid <- read assetID ;;
  let caller := BytesToAddress addr in
  (if bool_decide (aid = NativeAssetID)
   then modify (λ s, set_db (AddBalance (db s) caller assetAmount) s)
   else ret tt) ;;
  pushBool true false.

Definition opWithdraw : M unit :=
  assetID <- deref AssetID ;;
  assetAmount <- deref Amount ;;
  address <- pop false ;;
  pop_zero ErrUnknownVmType ;;
  pop_zero ErrUnknownVersion ;;
  addr <- read address ;;
  aid <- read assetID ;;
  let caller := BytesToAddress addr in
  (if bool_decide (aid = NativeAssetID)
   then
     d <- gets db ;;
     if CanTransfer d caller assetAmount
     then modify (set_db (SubBalance d caller assetAmount))
     else throw (ErrEvm ErrInsufficientBalance)
   else ret tt) ;;
  pushBool true false.

(** The common middle of CREATE, CALL and CONTRACT: credit the sender with the
    spent native asset, run the message with the remaining run limit as gas
    and a full gas pool, and charge the used gas. *)
Definition run_message (assetID : slice) (assetAmount : Z) (info : Z * Z * Z)
    (from : Address) (to : option Address) (nonce : Z) (input : list Z)
    : M (option (list Z * nat)) :=
  aid <- read assetID ;;
  let native := bool_decide (aid = NativeAssetID) in
  let amount := if native then assetAmount else 0 in
  (if native then modify (λ s, set_db (AddBalance (db s) from amount) s) else ret tt) ;;
  rl <- gets (λ s, runLimit (vm s)) ;;
  let gasLimit := uint64 rl in
  let msg := mkMessage from to nonce amount gasLimit 0 input true in
  d <- gets db ;;
  let '(o, d') := ApplyMessage (NewEVMContext from info from) d msg MaxUint64 in
  modify (set_db d') ;;
  match o with
  | Ok (retv, gas) => applyCost (int64 gas) ;; ret retv
  | Err e => throw (ErrEvm e)
  | Panic => panic
  | Fuel => lift Fuel
  end.

(** [if ret != nil { return vm.push(ret, false) }; return vm.pushBool(true, false)] *)
Definition push_ret (r : option (list Z * nat)) : M unit :=
  match r with
  | Some (bs, spare) => sl <- new_bytes bs (length bs + spare) ;; push sl false
  | None => pushBool true false
  end.

Definition opCall : M unit :=
  assetID <- deref AssetID ;;
  assetAmount <- deref Amount ;;
  info <- gets (λ s, BestBlockInfo (context (vm s))) ;;
  d <- pop false ;;
  pop_zero ErrUnknownVersion ;;
  contractAddress <- pop false ;;
  nonceBytes <- pop false ;;
  sender <- pop false ;;
  input <- read d ;;
  ca <- read contractAddress ;;
  nb <- read nonceBytes ;;
  sd <- read sender ;;
  r <- run_message assetID assetAmount info (BytesToAddress sd) (Some (BytesToAddress ca))
         (big_Uint64 nb) input ;;
  push_ret r.

Definition opCreate : M unit :=
  assetID <- deref AssetID ;;
  assetAmount <- deref Amount ;;
  info <- gets (λ s, BestBlockInfo (context (vm s))) ;;
  d <- pop false ;;
  pop_zero ErrUnknownVersion ;;
  nonceBytes <- pop false ;;
  creator <- pop false ;;
  input <- read d ;;
  nb <- read nonceBytes ;;
  cr <- read creator ;;
  let from := BytesToAddress cr in
  run_message assetID assetAmount info from None (big_Uint64 nb) input ;;
  let addr := CreateAddress from (big_Uint64 nb) in
  sl <- new_bytes addr (length addr) ;;
  push sl false.

(** A nil contract address (not an empty one) means creation. *)
Definition opContract : M unit :=
  assetID <- deref AssetID ;;
  assetAmount <- deref Amount ;;
  info <- gets (λ s, BestBlockInfo (context (vm s))) ;;
  d <- pop false ;;
  pop_zero ErrUnknownVersion ;;
  contractAddress <- pop false ;;
  nonceBytes <- pop false ;;
  sender <- pop false ;;
  input <- read d ;;
  ca <- read contractAddress ;;
  nb <- read nonceBytes ;;
  sd <- read sender ;;
  let from := BytesToAddress sd in
  let to := match sl_arr contractAddress with
            | None => None
            | Some _ => Some (BytesToAddress ca)
            end in
  r <- run_message assetID assetAmount info from to (big_Uint64 nb) input ;;
  match to with
  | None =>
      let addr := CreateAddress from (big_Uint64 nb) in
      sl <- new_bytes addr (length addr) ;;
      push sl false
  | Some _ => push_ret r
  end.
End evm_ops.

#[export] Hint Unfold opDeposit opWithdraw opCall opCreate opContract : vm_ops.
