(* ===== verification/StdPrograms.v ===== *)
(** * Standard programs ([protocol/vmutil], [consensus/segwit])

    The program builder with its jump targets, the programs the node makes,
    and the functions that recognise them again. *)

From S2P Require Import Prelude VmProgram VmProgramSpec VmMachine VmEvmOps.
From stdpp Require Import gmap.
#[local] Open Scope Z_scope.
#[local] Open Scope go_scope.

(** ** The builder ([builder.go]) *)

Record Builder := mkBuilder {
  bld_program : list Z;
  bld_jumpCounter : Z;
  bld_jumpAddr : gmap Z Z;
  bld_jumpPlaceholders : gmap Z (list nat);
}.

Definition NewBuilder : Builder := mkBuilder [] 0 ∅ ∅.

Definition AddRawBytes (bs : list Z) (b : Builder) : Builder :=
  mkBuilder (bld_program b ++ bs) (bld_jumpCounter b) (bld_jumpAddr b) (bld_jumpPlaceholders b).
Definition AddInt (n : Z) : Builder → Builder := AddRawBytes (PushdataInt64 n).
Definition AddData (bs : list Z) : Builder → Builder := AddRawBytes (PushdataBytes bs).
Definition AddOp (op : Z) : Builder → Builder := AddRawBytes [op].

Definition NewJumpTarget (b : Builder) : Z * Builder :=
  let c := int64 (bld_jumpCounter b + 1) in
  (c, mkBuilder (bld_program b) c (bld_jumpAddr b) (bld_jumpPlaceholders b)).

Definition addJump (op : Z) (target : Z) (b : Builder) : Builder :=
  let b := AddOp op b in
  let places := default [] (bld_jumpPlaceholders b !! target) ++ [length (bld_program b)] in
  AddRawBytes [0; 0; 0; 0]
    (mkBuilder (bld_program b) (bld_jumpCounter b) (bld_jumpAddr b)
       (<[target := places]> (bld_jumpPlaceholders b))).
Definition AddJump : Z → Builder → Builder := addJump OP_JUMP.
Definition AddJumpIf : Z → Builder → Builder := addJump OP_JUMPIF.

Definition SetJumpTarget (target : Z) (b : Builder) : Builder :=
  mkBuilder (bld_program b) (bld_jumpCounter b)
    (<[target := uint32 (len (bld_program b))]> (bld_jumpAddr b)) (bld_jumpPlaceholders b).

Inductive build_error := ErrUnresolvedJump.

(** [binary.LittleEndian.PutUint32(program[p:p+4], addr)] for every place *)
Definition put_address (addr : Z) (prog : list Z) (p : nat) : list Z :=
  take p prog ++ le_bytes 4 addr ++ drop (p + 4) prog.

(** The loop of [Build] over the map of placeholders.  The places of different
    targets do not overlap, so the order of the iteration is immaterial. *)
Fixpoint resolve_jumps (addrs : gmap Z Z) (jumps : list (Z * list nat)) (prog : list Z)
    : outcome build_error (list Z) :=
  match jumps with
  | [] => Ok prog
  | (target, places) :: rest =>
      match addrs !! target with
      | None => Err ErrUnresolvedJump
      | Some addr => resolve_jumps addrs rest (fold_left (put_address addr) places prog)
      end
  end.

Definition Build (b : Builder) : outcome build_error (list Z) :=
  resolve_jumps (bld_jumpAddr b) (map_to_list (bld_jumpPlaceholders b)) (bld_program b).

(** ** Programs ([script.go], [vaab.go]) *)

Definition IsUnspendable (prog : list Z) : bool :=
  match prog with op :: _ => op =? OP_FAIL | [] => false end.

Inductive script_error := ErrBadMultisig.

Definition checkMultiSigParams (nrequired npubkeys : Z) : option script_error :=
  if nrequired <? 0 then Some ErrBadMultisig
  else if npubkeys <? 0 then Some ErrBadMultisig
  else if npubkeys <? nrequired then Some ErrBadMultisig
  else if (nrequired =? 0) && (0 <? npubkeys) then Some ErrBadMultisig
  else None.

Definition addP2SPMultiSig (pubkeys : list (list Z)) (nrequired : Z) (b : Builder)
    : outcome script_error Builder :=
  match checkMultiSigParams nrequired (len pubkeys) with
  | Some e => Err e
  | None =>
      let b := AddOp OP_TXSIGHASH b in
      let b := fold_left (λ b p, AddData p b) pubkeys b in
      Ok (AddOp OP_CHECKMULTISIG (AddInt (len pubkeys) (AddInt nrequired b)))
  end.

Definition DefaultCoinbaseProgram : outcome build_error (list Z) := Build (AddOp OP_TRUE NewBuilder).

Definition P2WSHProgram (hash : list Z) : outcome build_error (list Z) :=
  Build (AddData hash (AddInt 0 NewBuilder)).

Definition RetireProgram (comment : list Z) : outcome build_error (list Z) :=
  let b := AddOp OP_FAIL NewBuilder in
  Build (if len comment =? 0 then b else AddData comment b).

Definition P2SHProgram (scriptHash : list Z) : outcome build_error (list Z) :=
  let b := AddData scriptHash (AddOp OP_HASH160 (AddOp OP_DUP NewBuilder)) in
  let b := AddOp OP_SWAP (AddInt (-1) (AddOp OP_EQUALVERIFY b)) in
  Build (AddOp OP_CHECKPREDICATE (AddInt 0 b)).

Definition P2SPMultiSigProgram (pubkeys : list (list Z)) (nrequired : Z)
    : outcome (script_error + build_error) (list Z) :=
  match addP2SPMultiSig pubkeys nrequired NewBuilder with
  | Ok b => match Build b with
            | Ok p => Ok p
            | Err e => Err (inr e)
            | Panic => Panic
            | Fuel => Fuel
            end
  | Err e => Err (inl e)
  | Panic => Panic
  | Fuel => Fuel
  end.

Definition CreateContractProgram (code : list Z) : outcome build_error (list Z) :=
  Build (AddOp OP_CREATE (AddData code (AddOp OP_0 NewBuilder))).
Definition CallContractProgram (input : list Z) : outcome build_error (list Z) :=
  Build (AddOp OP_CALL (AddData input (AddOp OP_0 NewBuilder))).
Definition ContractProgram (input : list Z) : outcome build_error (list Z) :=
  Build (AddOp OP_CONTRACT (AddData input (AddOp OP_0 NewBuilder))).

Definition P2ContractProgram (vmType : Z) (address : list Z) : outcome build_error (list Z) :=
  Build (AddData address (AddInt vmType (AddOp OP_FAIL NewBuilder))).

Definition DepositProgram (vmType : Z) (address : list Z) : outcome build_error (list Z) :=
  Build (AddOp OP_DEPOSIT (AddData address (AddInt vmType (AddOp OP_0 NewBuilder)))).
Definition WithdrawProgram (vmType : Z) (address : list Z) : outcome build_error (list Z) :=
  Build (AddOp OP_WITHDRAW (AddData address (AddInt vmType (AddOp OP_0 NewBuilder)))).

(** ** Recognition ([segwit.go]) *)

Abbreviation PayToWitnessScriptHashDataSize := 20.

Definition IsStraightforward (prog : list Z) : bool :=
  match ParseProgram prog with
  | Ok [i] => (Op i =? OP_TRUE) || (Op i =? OP_FAIL)
  | _ => false
  end.

Definition IsP2WSHScript (prog : list Z) : bool :=
  match ParseProgram prog with
  | Ok [i0; i1] =>
      (Op i0 <=? OP_16) && (Op i1 =? OP_DATA_20) && (len (Data i1) =? PayToWitnessScriptHashDataSize)
  | _ => false
  end.

(** [vmtype.go] *)
Abbreviation VM_EVM := 0.

Definition IsP2ContractProgram (prog : list Z) : bool :=
  match ParseProgram prog with
  | Ok [version; vmType; address] =>
      (Op version <=? OP_16) && (Op vmType =? VM_EVM)
      && (Op address =? OP_DATA_20) && (len (Data address) =? 20)
  | _ => false
  end.

Definition IsP2WScript (prog : list Z) : bool :=
  IsP2WSHScript prog || IsStraightforward prog || IsP2ContractProgram prog.

Inductive segwit_error := ErrParse (e : error) | ErrBuild (e : build_error) | ErrP2SHVersion.

(** [insts[0]] and [insts[1]] without a length check *)
Definition ConvertP2SHProgram (prog : list Z) : outcome segwit_error (list Z) :=
  match ParseProgram prog with
  | Ok insts =>
      match insts with
      | [] => Panic
      | i0 :: rest =>
          if Op i0 =? OP_0 then
            match rest with
            | [] => Panic
            | i1 :: _ => match P2SHProgram (Data i1) with
                         | Ok p => Ok p
                         | Err e => Err (ErrBuild e)
                         | Panic => Panic
                         | Fuel => Fuel
                         end
            end
          else Err ErrP2SHVersion
      end
  | Err e => Err (ErrParse e)
  | Panic => Panic
  | Fuel => Fuel
  end.

(** [insts[len(insts)-1]]: a program without instructions is a panic *)
Definition GetHashFromStandardProg (prog : list Z) : outcome error (list Z) :=
  let? insts := ParseProgram prog in
  match last insts with
  | Some i => Ok (Data i)
  | None => Panic
  end.

(** ** Recognising what was built *)

Lemma Build_raw prog c addr : Build (mkBuilder prog c addr ∅) = Ok prog.
Proof. unfold Build. cbn [bld_jumpPlaceholders]. by rewrite map_to_list_empty. Qed.

(** A list of known length is the list of its elements. *)
Ltac explode h n :=
  lazymatch n with
  | O => destruct h; [|done]
  | S ?n => let x := fresh "x" in destruct h as [|x h]; [done|]; explode h n
  end.

Lemma decode_head op r i : VmProgramSpec.decode (op :: r) = Some i → Op i = op.
Proof.
  cbn [VmProgramSpec.decode]. unfold decode_data. intros H.
  repeat (case_match; try discriminate); by injection H as <-.
Qed.

Lemma PushdataBytes_head d : d ≠ [] → ∃ op r, PushdataBytes d = op :: r ∧ OP_DATA_1 <= op <= OP_PUSHDATA4.
Proof.
  intros Hd. unfold PushdataBytes. destruct (Z.eqb_spec (len d) 0) as [H0|H0].
  { by destruct d. }
  pose proof (len_nonneg d). destruct (Z.leb_spec (len d) 75).
  - eexists _, _. split; [done|]. unfold uint8, wrapU. rewrite (Z.mod_small (len d)) by lia.
    rewrite Z.mod_small; lia.
  - destruct (_ <? _); [|destruct (_ <? _)]; eexists _, _; (split; [done|lia]).
Qed.

(** [OP_0 <data> op] reads back as its three instructions. *)
Lemma parse_op3 op d : Forall is_byte d → d ≠ [] → len d <= MaxInt32 - 16 →
  OP_16 < op <= 255 → op ≠ OP_JUMP → op ≠ OP_JUMPIF →
  is_op3 op (OP_0 :: PushdataBytes d ++ [op]) = true.
Proof.
  intros Hb Hd Hl Hop Hj Hji.
  destruct (PushdataBytes_head d Hd) as (o & r & Ho & Hor).
  destruct (decode_PushdataBytes d []) as (o' & Hdec & _); [done|lia|]. rewrite app_nil_r in Hdec.
  assert (o' = o) as -> by (rewrite Ho in Hdec; by apply decode_head in Hdec).
  assert (Tiles (OP_0 :: PushdataBytes d ++ [op])
            [mkInst OP_0 1 []; mkInst o (len (PushdataBytes d)) d; mkInst op 1 []]) as Ht.
  { apply (Tiles_app [OP_0] _ [_]); [repeat constructor; ranges; lia|by apply Tiles_single|].
    apply (Tiles_app _ [op] [_]); [by apply PushdataBytes_bytes|by apply Tiles_single|].
    apply Tiles_single; [|done]. unfold VmProgramSpec.decode. zcases; simpl; lia || done. }
  assert (prog_ok (OP_0 :: PushdataBytes d ++ [op])) as Hok.
  { split.
    - constructor; [ranges; lia|]. apply Forall_app. split; [by apply PushdataBytes_bytes|].
      repeat constructor; ranges; lia.
    - pose proof (len_PushdataBytes_le d). rewrite len_cons, len_app. unfold len at 2. simpl. lia. }
  unfold is_op3. rewrite (Tiles_ParseProgram _ _ Hok Ht).
  unfold is_push_arg. cbn [Op]. rewrite (proj2 (Z.leb_le OP_DATA_1 o)), (proj2 (Z.leb_le o _)), Z.eqb_refl by lia.
  done.
Qed.

(** The programs the node builds are recognised by the functions that
    look for them, and give back what they were built from: a script hash, the
    address of a deposit or a withdrawal, the code or input of a contract. *)
Theorem standard_programs_recognised (h code : list Z) (vmType : Z) : length h = 20%nat →
  0 <= vmType <= 16 → Forall is_byte code → code ≠ [] → len code <= MaxInt32 - 16 →
  (∃ p, P2WSHProgram h = Ok p ∧ IsP2WSHScript p = true ∧ GetHashFromStandardProg p = Ok h
        ∧ ∃ q, P2SHProgram h = Ok q ∧ ConvertP2SHProgram p = Ok q)
  ∧ (∃ p, DepositProgram vmType h = Ok p ∧ IsOpDeposit p = true ∧ GetAddressFromOpDeposit p = Ok h)
  ∧ (∃ p, WithdrawProgram vmType h = Ok p ∧ IsOpWithdraw p = true ∧ GetAddressFromOpWithdraw p = Ok h)
  ∧ (∃ p, CreateContractProgram code = Ok p ∧ IsOpCreate p = true)
  ∧ (∃ p, CallContractProgram code = Ok p ∧ IsOpCall p = true)
  ∧ (∃ p, ContractProgram code = Ok p ∧ IsOpContract p = true)
  ∧ (∃ p, RetireProgram code = Ok p ∧ IsUnspendable p = true).
Proof.
  intros Hh Hv Hb Hne Hl.
  assert (∃ n, (n <= 16)%nat ∧ vmType = Z.of_nat n) as (n & Hn & ->) by (exists (Z.to_nat vmType); lia).
  unfold P2WSHProgram, DepositProgram, WithdrawProgram, CreateContractProgram, CallContractProgram,
    ContractProgram, RetireProgram, P2SHProgram, NewBuilder, AddOp, AddData, AddInt, AddRawBytes.
  cbn [bld_program bld_jumpCounter bld_jumpAddr bld_jumpPlaceholders].
  split_and!.
  1: { eexists. rewrite Build_raw. split; [done|].
       explode h 20%nat. split_and!; [reflexivity..|]. eexists. rewrite Build_raw. split; reflexivity. }
  1-2: eexists; rewrite Build_raw; split; [done|]; explode h 20%nat;
       do 17 (destruct n as [|n]; [split; reflexivity|]); lia.
  1-3: eexists; rewrite Build_raw; split; [done|]; apply parse_op3; done || lia.
  destruct (_ =? _); eexists; rewrite Build_raw; split; reflexivity.
Qed.
Lemma standard_programs_recognised_witness :
  ∃ p, DepositProgram 3 (replicate 20 9) = Ok p ∧ IsOpDeposit p = true
       ∧ GetAddressFromOpDeposit p = Ok (replicate 20 9).
Proof.
  refine (proj1 (proj2 (standard_programs_recognised (replicate 20 9) [1; 2] 3 _ _ _ _ _))).
  - reflexivity.
  - lia.
  - repeat constructor; ranges; lia.
  - discriminate.
  - vm_compute. discriminate.
Defined.

(** The program that pays to a contract starts with FAIL, which the function
    that should recognise it refuses as a version. *)
Lemma P2ContractProgram_not_recognised :
  match P2ContractProgram VM_EVM (replicate 20 9) with
  | Ok p => IsP2ContractProgram p = false ∧ IsP2WScript p = false
  | _ => False
  end.
Proof. vm_compute. split; reflexivity. Qed.
