(* ===== verification/VmRun.v ===== *)
(** * Execution: the opcode table, [step], [run] and [Verify]

    [ops.go] (the table of functions, expansion opcodes) and [vm.go].  The
    main loop has no bound of its own, so [run_loop] takes the number of rounds
    it may still make; a child machine started by CHECKPREDICATE gets the
    rounds left at that point. *)

From S2P Require Import Prelude Checked GoSlice VmProgram VmMachine VmOps EvmTransition.
From S2P Require Import VmEvmOps.

Section run.
Context `{E : VmEnv}.
Local Open Scope vm_scope.

(** [ops[op].fn]; [None] is an opcode with no entry ([isExpansion]) *)
Definition op_fn (childRun : M unit) (op : Z) : option (M unit) :=
  if ((OP_DATA_1 <=? op) && (op <=? OP_DATA_75)) || ((OP_1 <=? op) && (op <=? OP_16))
  then Some opPushdata
  else
  match op with
  | OP_FALSE => Some opFalse
  | OP_PUSHDATA1 | OP_PUSHDATA2 | OP_PUSHDATA4 => Some opPushdata
  | OP_1NEGATE => Some op1Negate
  | OP_NOP => Some opNop
  | OP_JUMP => Some opJump
  | OP_JUMPIF => Some opJumpIf
  | OP_VERIFY => Some opVerify
  | OP_FAIL => Some opFail
  | OP_TOALTSTACK => Some opToAltStack
  | OP_FROMALTSTACK => Some opFromAltStack
  | OP_2DROP => Some op2Drop
  | OP_2DUP => Some op2Dup
  | OP_3DUP => Some op3Dup
  | OP_2OVER => Some op2Over
  | OP_2ROT => Some op2Rot
  | OP_2SWAP => Some op2Swap
  | OP_IFDUP => Some opIfDup
  | OP_DEPTH => Some opDepth
  | OP_DROP => Some opDrop
  | OP_DUP => Some opDup
  | OP_NIP => Some opNip
  | OP_OVER => Some opOver
  | OP_PICK => Some opPick
  | OP_ROLL => Some opRoll
  | OP_ROT => Some opRot
  | OP_SWAP => Some opSwap
  | OP_TUCK => Some opTuck
  | OP_CAT => Some opCat
  | OP_SUBSTR => Some opSubstr
  | OP_LEFT => Some opLeft
  | OP_RIGHT => Some opRight
  | OP_SIZE => Some opSize
  | OP_CATPUSHDATA => Some opCatpushdata
  | OP_INVERT => Some opInvert
  | OP_AND => Some opAnd
  | OP_OR => Some opOr
  | OP_XOR => Some opXor
  | OP_EQUAL => Some opEqual
  | OP_EQUALVERIFY => Some opEqualVerify
  | OP_1ADD => Some op1Add
  | OP_1SUB => Some op1Sub
  | OP_2MUL => Some op2Mul
  | OP_2DIV => Some op2Div
  | OP_NEGATE => Some opNegate
  | OP_ABS => Some opAbs
  | OP_NOT => Some opNot
  | OP_0NOTEQUAL => Some op0NotEqual
  | OP_ADD => Some opAdd
  | OP_SUB => Some opSub
  | OP_MUL => Some opMul
  | OP_DIV => Some opDiv
  | OP_MOD => Some opMod
  | OP_LSHIFT => Some opLshift
  | OP_RSHIFT => Some opRshift
  | OP_BOOLAND => Some opBoolAnd
  | OP_BOOLOR => Some opBoolOr
  | OP_NUMEQUAL => Some opNumEqual
  | OP_NUMEQUALVERIFY => Some opNumEqualVerify
  | OP_NUMNOTEQUAL => Some opNumNotEqual
  | OP_LESSTHAN => Some opLessThan
  | OP_GREATERTHAN => Some opGreaterThan
  | OP_LESSTHANOREQUAL => Some opLessThanOrEqual
  | OP_GREATERTHANOREQUAL => Some opGreaterThanOrEqual
  | OP_MIN => Some opMin
  | OP_MAX => Some opMax
  | OP_WITHIN => Some opWithin
  | OP_SHA256 => Some opSha256
  | OP_SHA3 => Some opSha3
  | OP_HASH160 => Some opHash160
  | OP_CHECKSIG => Some opCheckSig
  | OP_CHECKMULTISIG => Some opCheckMultiSig
  | OP_TXSIGHASH => Some opTxSigHash
  | OP_CHECKPREDICATE => Some (opCheckPredicate childRun)
  | OP_CHECKOUTPUT => Some opCheckOutput
  | OP_ASSET => Some opAsset
  | OP_AMOUNT => Some opAmount
  | OP_PROGRAM => Some opProgram
  | OP_TXDATA => Some opTxData
  | OP_ENTRYDATA => Some opEntryData
  | OP_INDEX => Some opIndex
  | OP_ENTRYID => Some opEntryID
  | OP_OUTPUTID => Some opOutputID
  | OP_BLOCKHEIGHT => Some opBlockHeight
  | OP_CREATE => Some opCreate
  | OP_CALL => Some opCall
  | OP_CONTRACT => Some opContract
  | OP_DEPOSIT => Some opDeposit
  | OP_WITHDRAW => Some opWithdraw
  | _ => None
  end.

(** The instruction at the machine's program counter *)
Definition next_inst (s : State) : outcome error Instruction :=
  ParseOp (bytes (hp s) (program (vm s))) (pc (vm s)).

Definition exec_op (f : M unit) (inst : Instruction) : M unit :=
  modify (λ s, set_data (Data inst) (set_deferredCost 0 s)) ;;
  f ;;
  d <- gets (λ s, deferredCost (vm s)) ;;
  applyCost d ;;
  modify (λ s, set_pc (nextPC (vm s)) s).

Definition exec_expansion : M unit :=
  er <- gets (λ s, expansionReserved (vm s)) ;;
  if (er : bool) then throw ErrDisallowedOpcode
  else modify (λ s, set_pc (nextPC (vm s)) s) ;; applyCost 1.

Definition step (childRun : M unit) : M unit :=
  o <- gets next_inst ;;
  inst <- lift o ;;
  modify (λ s, set_nextPC (uint32 (pc (vm s) + Len inst)) s) ;;
  match op_fn childRun (Op inst) with
  | None => exec_expansion
  | Some f => exec_op f inst
  end.

Definition running (s : State) : bool := pc (vm s) <? uint32 (slen (program (vm s))).

Fixpoint run_loop (fuel : nat) : M unit :=
  match fuel with
  | O => lift Fuel
  | S fuel =>
      b <- gets running ;;
      if (b : bool)
      then step (modify (set_pc 0) ;; run_loop fuel) ;; run_loop fuel
      else ret tt
  end.

Definition run (fuel : nat) : M unit := modify (set_pc 0) ;; run_loop fuel.

Record VerifyResult := mkVerifyResult {
  v_res : option slice;
  v_gasLeft : Z;
  v_err : option error;
}.

Fixpoint push_args (args : list slice) : M unit :=
  match args with
  | [] => ret tt
  | a :: rest => push a false ;; push_args rest
  end.

Definition initVM (ctx : Context) (gasLimit : Z) : virtualMachine :=
  mkVM ctx (Code ctx) 0 0 gasLimit 0 (bool_decide (TxVersion ctx = Some 1)) [] 0 [] [].

(** A panic anywhere below is recovered into [ErrUnexpected], with the named
    results at their zero values.  [None]: more rounds are needed. *)
Definition Verify (fuel : nat) (ctx : Context) (gasLimit : Z) (h : heap) (d : StateDB)
    : option (VerifyResult * State) :=
  let s0 := mkState (initVM ctx gasLimit) h d in
  if negb (VMVersion ctx =? 1)
  then Some (mkVerifyResult None gasLimit (Some ErrUnsupportedVM), s0)
  else
    match push_args (Arguments_ ctx) s0 with
    | (Err e, s) => Some (mkVerifyResult None (runLimit (vm s)) (Some e), s)
    | (Panic, s) => Some (mkVerifyResult None 0 (Some ErrUnexpected), s)
    | (Fuel, s) => None
    | (Ok _, s1) =>
        let finish err s :=
          let ds := dataStack (vm s) in
          let res := if 1 <? len ds then last ds else None in
          Some (mkVerifyResult res (runLimit (vm s)) err, s) in
        match run fuel s1 with
        | (Ok _, s) => finish (if falseResult s then Some ErrFalseVMResult else None) s
        | (Err e, s) => finish (Some e) s
        | (Panic, s) => Some (mkVerifyResult None 0 (Some ErrUnexpected), s)
        | (Fuel, s) => None
        end
    end.
End run.

(** ** A concrete environment, for evaluating programs

    Digests of constant bytes, no signature verifies, one balance per account
    kept in an association list, an EVM that returns its input for all the gas
    it gets, [append] allocating exactly what is needed. *)
Definition toy_db : Type := list (Address * Z).

Fixpoint toy_balance (d : toy_db) (a : Address) : Z :=
  match d with
  | [] => 0
  | (b, v) :: r => if bool_decide (a = b) then v else toy_balance r a
  end.

#[global] Instance toy_env : VmEnv := {|
  growcap := λ _ n, n;
  sha256_Sum := λ bs, replicate 32 (len bs mod 256);
  sha3_Sum256 := λ bs, replicate 32 (len bs mod 256);
  Ripemd160 := λ bs, replicate 20 (len bs mod 256);
  ed25519_Verify := λ _ _ _, false;
  StateDB := toy_db;
  GetBalance := toy_balance;
  AddBalance := λ d a v, (a, toy_balance d a + v) :: d;
  SubBalance := λ d a v, (a, toy_balance d a - v) :: d;
  GetNonce := λ _ _, 0;
  SetNonce := λ d _ _, d;
  GetRefund := λ _, 0;
  evm_Create := λ _ d _ _ g _, mkEvmResult None 0 None d;
  evm_Call := λ _ d _ _ input g _, mkEvmResult (Some (input, 0%nat)) 0 None d;
  CreateAddress := λ a _, a;
|}.

#[global] Instance toy_evm_ok : EvmOk.
Proof. split; intros; simpl; ranges; lia. Qed.

(** The heap a node starts with: [trueBytes] at position 0, then the program. *)
Definition start_heap (prog : list Z) : heap := [[1]; prog].

Definition start_context (prog : list Z) : Context :=
  mkContext (0, 0, 0) 1 (mkSlice (Some 1%nat) 0 (length prog) (length prog)) [] nil_slice
    (Some 1) (Some 0) (Some 0) None None None None None None None None.

(** Result, contents of the returned item and data stack of a closed run *)
Definition eval_program (fuel : nat) (prog : list Z) (gas : Z)
    : option (option error * Z * list (list Z)) :=
  match Verify fuel (start_context prog) gas (start_heap prog) ([] : toy_db) with
  | Some (r, s) => Some (v_err r, v_gasLeft r, bytes (hp s) <$> dataStack (vm s))
  | None => None
  end.
