(* ===== verification/VmLogic.v ===== *)
(** * A program logic for the machine's opcodes

    Weakest preconditions over the monad [M], with a separate postcondition for
    errors, and the gas invariant the opcode proofs use.  [Pre r0 g s] holds
    inside an opcode started with run limit [r0]: the net gas (run limit less
    deferred cost) is at most [g], and run limit, deferred cost and the cost of
    the two stacks together stay below [BOUND], far from the int64 limits.
    [Post r0 g s] is what is left of it after a final deferred push. *)

From S2P Require Import Prelude Checked GoSlice VmProgram VmProgramSpec VmMachine VmOps.

Section wp.
Context `{E : VmEnv}.

Definition wp {A} (m : M A) (Q : A → State → Prop) (X : State → Prop) (s : State) : Prop :=
  match m s with
  | (Ok a, s') => Q a s'
  | (Err _, s') => X s'
  | (Panic, _) => True
  | (Fuel, _) => False
  end.

Lemma wp_bind {A B} (m : M A) (k : A → M B) Q X s :
  wp m (λ a s', wp (k a) Q X s') X s → wp (bind m k) Q X s.
Proof. unfold wp, bind. destruct (m s) as [[a|e| |] s']; done. Qed.

Lemma wp_mono {A} (m : M A) (Q Q' : A → State → Prop) X s :
  (∀ a s', Q a s' → Q' a s') → wp m Q X s → wp m Q' X s.
Proof. unfold wp. destruct (m s) as [[a|e| |] s']; auto. Qed.

Lemma wp_ret {A} (a : A) Q X s : Q a s → wp (ret a) Q X s.
Proof. done. Qed.
Lemma wp_throw {A} e (Q : A → State → Prop) (X : State → Prop) s : X s → wp (throw e) Q X s.
Proof. done. Qed.
Lemma wp_panic {A} (Q : A → State → Prop) X s : wp panic Q X s.
Proof. done. Qed.
Lemma wp_gets {A} (f : State → A) Q X s : Q (f s) s → wp (gets f) Q X s.
Proof. done. Qed.
Lemma wp_modify f Q X s : Q tt (f s) → wp (modify f) Q X s.
Proof. done. Qed.

(** [lift] of a computation that is not out of rounds *)
Lemma wp_lift {A} (o : outcome error A) (Q : A → State → Prop) (X : State → Prop) s :
  o ≠ Fuel → X s → (∀ a, o = Ok a → Q a s) → wp (lift o) Q X s.
Proof. unfold wp, lift. destruct o; auto. Qed.

(** ** The cost of a stack, without wrap-around *)

Definition scost (ds : list slice) : Z := 8 * len ds + foldr (λ i acc, slen i + acc) 0 ds.

Lemma scost_nil : scost [] = 0.
Proof. done. Qed.

Lemma scost_cons x ds : scost (x :: ds) = 8 + slen x + scost ds.
Proof. unfold scost, len. cbn [length foldr]. lia. Qed.

Lemma scost_app ds es : scost (ds ++ es) = scost ds + scost es.
Proof. induction ds as [|x ds IH]; [done|]. simpl. rewrite !scost_cons, IH. lia. Qed.

Lemma scost_nonneg ds : 0 <= scost ds.
Proof. induction ds; [done|]. rewrite scost_cons. pose proof (slen_nonneg a). lia. Qed.

Lemma last_take {A} (ds : list A) x : last ds = Some x → ds = take (length ds - 1) ds ++ [x].
Proof.
  intros H. destruct (last_Some ds x) as [Hl _]. destruct (Hl H) as [l' ->].
  rewrite length_app; simpl. by rewrite Nat.add_sub, take_app_length.
Qed.

Lemma scost_last ds x : last ds = Some x → scost (take (length ds - 1) ds) = scost ds - 8 - slen x.
Proof. intros H. rewrite (last_take ds x H) at 3. rewrite scost_app, scost_cons, scost_nil. lia. Qed.

Lemma scost_take_le n ds : scost (take n ds) <= scost ds.
Proof.
  rewrite <- (take_drop n ds) at 2. rewrite scost_app. pose proof (scost_nonneg (drop n ds)). lia.
Qed.

Lemma scost_lookup ds i x : ds !! i = Some x → 8 + slen x <= scost ds.
Proof.
  intros H. rewrite <- (take_drop_middle _ _ _ H), scost_app, scost_cons.
  pose proof (scost_nonneg (take i ds)). pose proof (scost_nonneg (drop (S i) ds)). lia.
Qed.

Lemma scost_perm ds es : ds ≡ₚ es → scost ds = scost es.
Proof. induction 1; rewrite ?scost_cons in *; lia. Qed.

(** ** The gas invariant *)

Definition BOUND : Z := 2 ^ 60.

(** A context an opcode can use: the data pushed with a deferred cost is below
    the bound, and the output check returns a verdict or an error. *)
Record ctx_small (c : Context) : Prop := {
  small_data : Forall (λ o, match o with Some sl => slen sl <= BOUND | None => True end)
    [AssetID c; Some (Code c); TxData c; EntryData c; Some (EntryID c); SpentOutputID c];
  small_check : ∀ f i a aid v code x, CheckOutput c = Some f → f i a aid v code x ≠ Fuel;
}.

Definition stacks (s : State) : Z := scost (dataStack (vm s)) + scost (altStack (vm s)).

Record Pre (r0 g : Z) (s : State) : Prop := {
  pre_run : 0 <= runLimit (vm s) <= r0;
  pre_sum : runLimit (vm s) + Z.abs (deferredCost (vm s)) + stacks s <= BOUND;
  pre_net : runLimit (vm s) - deferredCost (vm s) <= g;
  pre_ctx : ctx_small (context (vm s));
}.

Record Post (r0 g : Z) (s : State) : Prop := {
  post_run : 0 <= runLimit (vm s) <= r0;
  post_sum : runLimit (vm s) - deferredCost (vm s) + stacks s <= BOUND;
  post_def : Z.abs (deferredCost (vm s)) <= 4 * BOUND;
  post_net : runLimit (vm s) - deferredCost (vm s) <= g;
  post_ctx : ctx_small (context (vm s));
}.

(** What an error leaves: the run limit has not grown. *)
Definition Fail (r0 : Z) (s : State) : Prop := 0 <= runLimit (vm s) <= r0.

Lemma stacks_nonneg s : 0 <= stacks s.
Proof.
  unfold stacks. pose proof (scost_nonneg (dataStack (vm s))).
  pose proof (scost_nonneg (altStack (vm s))). lia.
Qed.

Lemma Pre_Fail r0 g s : Pre r0 g s → Fail r0 s.
Proof. intros []. done. Qed.

Lemma Pre_Post r0 g s : Pre r0 g s → Post r0 g s.
Proof. intros []. pose proof (stacks_nonneg s). split; done || unfold BOUND in *; lia. Qed.

Lemma Pre_weaken r0 g g' s : g <= g' → Pre r0 g s → Pre r0 g' s.
Proof. intros Hg []. split; done || lia. Qed.

Lemma Post_weaken r0 g g' s : g <= g' → Post r0 g s → Post r0 g' s.
Proof. intros Hg []. split; done || lia. Qed.

Section rules.
Context (r0 : Z).
Implicit Types (Q : unit → State → Prop) (X : State → Prop).

Lemma wp_applyCost g n Q s : Pre r0 g s → 0 <= n →
  (∀ s', Pre r0 (g - n) s' → dataStack (vm s') = dataStack (vm s) → Q tt s') →
  wp (applyCost n) Q (Fail r0) s.
Proof.
  intros [Hr Hs Hn Hc] Hpos HQ. unfold wp, applyCost.
  destruct (Z.ltb_spec (runLimit (vm s)) n); simpl; [unfold Fail; simpl; lia|].
  pose proof (stacks_nonneg s). unfold BOUND in *.
  rewrite int64_id by (ranges; lia).
  apply HQ; [|done]. split; simpl; done || unfold stacks, BOUND in *; simpl in *; lia.
Qed.

(** A cost paid at once and credited again at the end of the opcode *)
Lemma wp_prepay g n Q s : Pre r0 g s → 0 <= n →
  (∀ s', Pre r0 g s' → dataStack (vm s') = dataStack (vm s) → Q tt s') →
  wp (bind (applyCost n) (λ _, deferCost (- n))) Q (Fail r0) s.
Proof.
  intros [Hr Hs Hn Hc] Hpos HQ. unfold wp, bind, applyCost.
  destruct (Z.ltb_spec (runLimit (vm s)) n); simpl; [unfold Fail; simpl; lia|].
  pose proof (stacks_nonneg s). unfold BOUND in *.
  rewrite !int64_id by (ranges; lia).
  apply HQ; [|done]. split; simpl; done || unfold stacks, BOUND in *; simpl in *; lia.
Qed.

Lemma wp_pop g b (Q : slice → State → Prop) s : Pre r0 g s →
  (∀ sl s', Pre r0 (g - 8) s' → 0 <= slen sl <= BOUND → Q sl s') →
  wp (pop b) Q (Fail r0) s.
Proof.
  intros HP HQ. pose proof HP as [Hr Hs Hn Hc]. unfold wp, pop, bind, gets.
  destruct (last (dataStack (vm s))) as [x|] eqn:El; simpl; [|by eapply Pre_Fail].
  pose proof (stacks_nonneg s). pose proof (slen_nonneg x). pose proof (scost_last _ _ El) as HL.
  pose proof (scost_nonneg (take (length (dataStack (vm s)) - 1) (dataStack (vm s)))).
  pose proof (scost_nonneg (altStack (vm s))).
  assert (8 + slen x <= stacks s) by (unfold stacks; lia).
  destruct b; simpl.
  - unfold BOUND in *. rewrite int64_id by (ranges; lia).
    apply HQ; [|lia]. split; simpl; done || unfold stacks, BOUND in *; simpl in *; lia.
  - unfold applyCost. destruct (Z.ltb_spec (runLimit (vm s)) (8 + slen x)); simpl; [unfold Fail; simpl; lia|].
    unfold BOUND in *. rewrite int64_id by (ranges; lia).
    apply HQ; [|lia]. split; simpl; done || unfold stacks, BOUND in *; simpl in *; lia.
Qed.

Lemma wp_push g d Q s : Pre r0 g s →
  (∀ s', Pre r0 (g - 8) s' → dataStack (vm s') = dataStack (vm s) ++ [d] → Q tt s') →
  wp (push d false) Q (Fail r0) s.
Proof.
  intros [Hr Hs Hn Hc] HQ. unfold wp, push, bind, applyCost. pose proof (slen_nonneg d).
  destruct (Z.ltb_spec (runLimit (vm s)) (8 + slen d)); simpl; [unfold Fail; simpl; lia|].
  pose proof (stacks_nonneg s). unfold BOUND in *.
  rewrite int64_id by (ranges; lia). apply HQ; [|done].
  split; simpl; try done; unfold stacks, BOUND in *; simpl in *; rewrite ?scost_app, ?scost_cons, ?scost_nil; lia.
Qed.

Lemma wp_push_deferred g d Q s : Pre r0 g s → slen d <= 2 * BOUND + 8 →
  (∀ s', Post r0 (g - 8) s' → Q tt s') →
  wp (push d true) Q (Fail r0) s.
Proof.
  intros [Hr Hs Hn Hc] Hd HQ. unfold wp, push, bind, deferCost, modify. simpl. pose proof (slen_nonneg d).
  pose proof (stacks_nonneg s). unfold BOUND in *.
  rewrite int64_id by (ranges; lia). apply HQ.
  split; simpl; try done; unfold stacks, BOUND in *; simpl in *; rewrite ?scost_app, ?scost_cons, ?scost_nil; lia.
Qed.

(** Changing only the heap, the database or the jump target keeps the invariant. *)
Lemma Pre_same g s s' : runLimit (vm s') = runLimit (vm s) → deferredCost (vm s') = deferredCost (vm s) →
  stacks s' = stacks s → context (vm s') = context (vm s) → Pre r0 g s → Pre r0 g s'.
Proof. intros H1 H2 H3 H4 []. split; rewrite ?H1, ?H2, ?H3, ?H4; done. Qed.

Lemma wp_new_bytes g bs c (Q : slice → State → Prop) s : Pre r0 g s →
  (∀ sl s', Pre r0 g s' → slen sl = len bs → dataStack (vm s') = dataStack (vm s) → sl_cap sl = Nat.max c (length bs) → Q sl s') →
  wp (new_bytes bs c) Q (Fail r0) s.
Proof. intros HP HQ. unfold wp, new_bytes. simpl. apply HQ; [by apply (Pre_same g s)|done..]. Qed.

Lemma slen_append h a bs : slen (go_append growcap h a bs).1 <= slen a + len bs.
Proof.
  unfold go_append, slen, len, bytes. case_decide as Hd; destruct (sl_arr a); simpl;
    rewrite ?length_app, ?length_take; lia.
Qed.

Lemma wp_append_bytes g a bs (Q : slice → State → Prop) s : Pre r0 g s →
  (∀ sl s', Pre r0 g s' → slen sl <= slen a + len bs → Q sl s') →
  wp (append_bytes a bs) Q (Fail r0) s.
Proof.
  intros HP HQ. unfold wp, append_bytes. pose proof (slen_append (hp s) a bs) as HL.
  destruct (go_append growcap (hp s) a bs) as [sl h]. apply HQ; [by apply (Pre_same g s)|done].
Qed.

Lemma len_bytes_le h sl : len (bytes h sl) <= slen sl.
Proof. unfold len, slen, bytes. destruct (sl_arr sl); simpl; rewrite ?length_take; lia. Qed.

Lemma wp_read sl (Q : list Z → State → Prop) X s :
  (∀ bs, len bs <= slen sl → Q bs s) → wp (read sl) Q X s.
Proof. intros HQ. unfold wp, read, gets. apply HQ, len_bytes_le. Qed.

Lemma wp_Int64Slice g n (Q : slice → State → Prop) s : Pre r0 g s →
  (∀ sl s', Pre r0 g s' → slen sl <= 8 → dataStack (vm s') = dataStack (vm s) → Q sl s') →
  wp (Int64Slice n) Q (Fail r0) s.
Proof.
  intros HP HQ. unfold Int64Slice. destruct (n =? 0).
  - apply (wp_new_bytes g); [done|]. intros sl s' HP' Hl Hd _. apply HQ; [done| |done]. rewrite Hl. done.
  - apply wp_bind, (wp_new_bytes g); [done|]. intros sl s' HP' Hl Hd _.
    unfold reslice. case_decide as Hc; [|done]. apply wp_ret, HQ; [done| |done].
    unfold slen, len in *. simpl. rewrite length_le_bytes in Hl.
    pose proof (length_Int64Bytes n). lia.
Qed.

Lemma wp_pushInt64 g n Q s : Pre r0 g s →
  (∀ s', Pre r0 (g - 8) s' → Q tt s') → wp (pushInt64 n false) Q (Fail r0) s.
Proof.
  intros HP HQ. apply wp_bind, (wp_Int64Slice g); [done|]. intros sl s' HP' _ _.
  apply (wp_push g); [done|]. auto.
Qed.

Lemma wp_pushInt64_deferred g n Q s : Pre r0 g s →
  (∀ s', Post r0 (g - 8) s' → Q tt s') → wp (pushInt64 n true) Q (Fail r0) s.
Proof.
  intros HP HQ. apply wp_bind, (wp_Int64Slice g); [done|]. intros sl s' HP' Hl _.
  apply (wp_push_deferred g); [done|unfold BOUND; lia|]. auto.
Qed.

Lemma wp_BoolBytes g b (Q : slice → State → Prop) s : Pre r0 g s →
  (∀ sl s', Pre r0 g s' → slen sl <= 1 → Q sl s') → wp (BoolBytes b) Q (Fail r0) s.
Proof.
  intros HP HQ. destruct b; [apply wp_ret, HQ; done|].
  apply (wp_new_bytes g); [done|]. intros sl s' HP' Hl _ _. apply HQ; [done|]. by rewrite Hl.
Qed.

Lemma wp_pushBool g b Q s : Pre r0 g s →
  (∀ s', Pre r0 (g - 8) s' → Q tt s') → wp (pushBool b false) Q (Fail r0) s.
Proof.
  intros HP HQ. apply wp_bind, (wp_BoolBytes g); [done|]. intros sl s' HP' _.
  apply (wp_push g); [done|]. auto.
Qed.

Lemma wp_pushBool_deferred g b Q s : Pre r0 g s →
  (∀ s', Post r0 (g - 8) s' → Q tt s') → wp (pushBool b true) Q (Fail r0) s.
Proof.
  intros HP HQ. apply wp_bind, (wp_BoolBytes g); [done|]. intros sl s' HP' Hl.
  apply (wp_push_deferred g); [done|unfold BOUND; lia|]. auto.
Qed.

Lemma AsInt64_not_fuel b : AsInt64 b ≠ Fuel.
Proof. unfold AsInt64. repeat case_match; done. Qed.

Lemma wp_popInt64 g b (Q : Z → State → Prop) s : Pre r0 g s →
  (∀ n s', Pre r0 (g - 8) s' → Q n s') → wp (popInt64 b) Q (Fail r0) s.
Proof.
  intros HP HQ. apply wp_bind, (wp_pop g); [done|]. intros sl s' HP' _.
  apply wp_bind, wp_read. intros bs _. apply wp_lift; [apply AsInt64_not_fuel|by eapply Pre_Fail|].
  intros n _. by apply HQ.
Qed.

Lemma wp_top g (Q : slice → State → Prop) s : Pre r0 g s →
  (∀ sl, last (dataStack (vm s)) = Some sl → 0 <= slen sl <= BOUND → Q sl s) → wp top Q (Fail r0) s.
Proof.
  intros HP HQ. unfold wp, top, bind, gets. destruct (last _) as [x|] eqn:El; simpl; [|by eapply Pre_Fail].
  apply HQ; [done|]. destruct HP as [Hr Hs Hn Hc]. rewrite last_lookup in El. apply scost_lookup in El.
  pose proof (scost_nonneg (altStack (vm s))). pose proof (slen_nonneg x). unfold stacks in Hs. lia.
Qed.

Lemma wp_stack_at g i (Q : slice → State → Prop) s : Pre r0 g s →
  (∀ sl, dataStack (vm s) !! Z.to_nat i = Some sl → Q sl s) → wp (stack_at i) Q (Fail r0) s.
Proof.
  intros HP HQ. unfold wp, stack_at, bind, gets. destruct (i <? 0); [done|].
  destruct (dataStack (vm s) !! Z.to_nat i) eqn:El; [|done]. by apply HQ.
Qed.

(** Rearranging the data stack without making it more expensive *)
Lemma wp_put_stack g ds Q s : Pre r0 g s → scost ds <= scost (dataStack (vm s)) →
  (∀ s', Pre r0 g s' → dataStack (vm s') = ds → Q tt s') → wp (put_stack ds) Q (Fail r0) s.
Proof.
  intros [Hr Hs Hn Hc] Hd HQ. unfold wp, put_stack, modify. apply HQ; [|done].
  split; simpl; done || unfold stacks in *; simpl in *; lia.
Qed.
End rules.
End wp.
