(* ===== verification/VmGas.v ===== *)
(** * Gas: every opcode except CHECKPREDICATE costs at least one unit

    The opcode-by-opcode gas lemmas and what they give for execution: a run
    that meets no CHECKPREDICATE makes at most [runLimit] steps, ends within
    that many rounds of the main loop, and never has more gas than it was
    given. *)

From S2P Require Import Prelude Checked GoSlice VmProgram VmProgramSpec VmMachine VmOps.
From S2P Require Import EvmTransition VmEvmOps VmRun VmLogic.

(** ** Proof automation for straight-line opcodes *)

Section prepay.
Context `{E : VmEnv}.
Lemma wp_prepay_bind r0 g n (k : M unit) Q s : Pre r0 g s → 0 <= n →
  (∀ s', Pre r0 g s' → dataStack (vm s') = dataStack (vm s) → wp k Q (Fail r0) s') →
  wp (bind (applyCost n) (λ _, bind (deferCost (- n)) (λ _, k))) Q (Fail r0) s.
Proof.
  intros HP Hn HQ. pose proof (wp_prepay r0 g n (λ _ s', wp k Q (Fail r0) s') s HP Hn HQ) as H.
  revert H. unfold wp, bind at 1 2. destruct (applyCost n s) as [[a|e| |] s']; done.
Qed.
End prepay.

Ltac nonneg := first [apply slen_nonneg | lia
  | match goal with |- context [if ?b then _ else _] => destruct b; lia end].

Ltac close_post :=
  match goal with
  | H : Post ?r0 _ ?s |- Post ?r0 _ ?s => eapply Post_weaken; [|exact H]; lia
  | H : Pre ?r0 _ ?s |- Post ?r0 _ ?s => apply Pre_Post; eapply Pre_weaken; [|exact H]; lia
  | H : Pre ?r0 _ ?s |- Pre ?r0 _ ?s => eapply Pre_weaken; [|exact H]; lia
  | H : Pre ?r0 _ ?s |- Fail ?r0 ?s => eapply Pre_Fail; exact H
  end.

Create HintDb vm_gas.

Ltac vm_prim :=
  match goal with
  | |- wp (bind (applyCost ?n) (λ _, bind (deferCost (- ?n)) (λ _, _))) _ _ _ =>
      eapply wp_prepay_bind; [eassumption|nonneg|intros ? ? ?]
  | |- wp (bind _ _) _ _ _ => apply wp_bind
  | |- wp (applyCost _) _ _ _ => eapply wp_applyCost; [eassumption|nonneg|intros ? ? ?]
  | |- wp (pop _) _ _ _ => eapply wp_pop; [eassumption|intros ? ? ? ?]
  | |- wp (popInt64 _) _ _ _ => eapply wp_popInt64; [eassumption|intros ? ? ?]
  | |- wp (push _ false) _ _ _ => eapply wp_push; [eassumption|intros ? ? ?]
  | |- wp (push _ true) _ _ _ => eapply wp_push_deferred; [eassumption| |intros ? ?]
  | |- wp (pushInt64 _ false) _ _ _ => eapply wp_pushInt64; [eassumption|intros ? ?]
  | |- wp (pushInt64 _ true) _ _ _ => eapply wp_pushInt64_deferred; [eassumption|intros ? ?]
  | |- wp (pushBool _ false) _ _ _ => eapply wp_pushBool; [eassumption|intros ? ?]
  | |- wp (pushBool _ true) _ _ _ => eapply wp_pushBool_deferred; [eassumption|intros ? ?]
  | |- wp (new_bytes _ _) _ _ _ => eapply wp_new_bytes; [eassumption|intros ? ? ? ? ? ?]
  | |- wp (append_bytes _ _) _ _ _ => eapply wp_append_bytes; [eassumption|intros ? ? ? ?]
  | |- wp (read _) _ _ _ => apply wp_read; intros ? ?
  | |- wp top _ _ _ => eapply wp_top; [eassumption|intros ? ? ?]
  | |- wp (stack_at _) _ _ _ => eapply wp_stack_at; [eassumption|intros ? ?]
  | |- wp get_stack _ _ _ => apply wp_gets
  | |- wp (gets _) _ _ _ => apply wp_gets
  | |- wp (read_all _) _ _ _ => apply wp_gets
  | |- wp (ret _) _ _ _ => apply wp_ret
  | |- wp (throw _) _ _ _ => apply wp_throw; close_post
  | |- wp panic _ _ _ => apply wp_panic
  | |- wp (put_stack _) _ _ _ => eapply wp_put_stack; [eassumption| |intros ? ? ?]
  | |- wp (let _ := _ in _) _ _ _ => cbv zeta
  | |- wp (if ?b then _ else _) _ _ _ => destruct b eqn:?
  | |- wp (match ?o with _ => _ end) _ _ _ => destruct o eqn:?
  end.

(** Use what the rules recorded of lengths and of the data stack. *)
Ltac use_len := match goal with H : slen ?x = _ |- context [slen ?x] => rewrite H end.
Ltac use_stack := repeat match goal with
  | H : dataStack (vm ?a) = dataStack (vm ?b) |- _ => rewrite H in *; clear H end.

Ltac vm_auto := repeat vm_prim; try close_post.

Section gas.
Context `{E : VmEnv} `{HE : !EvmOk}.

(** [m] is an opcode that costs at least one unit of gas. *)
Definition op_gas (m : M unit) : Prop :=
  ∀ r0 s, Pre r0 r0 s → wp m (λ _ s', Post r0 (r0 - 1) s') (Fail r0) s.

Tactic Notation "gas_op" reference(f) := intros r0 s HP; unfold f; vm_auto.

(** *** Numeric opcodes *)

Tactic Notation "numeric" reference(f) :=
  intros r0 s HP; unfold f, push_checked; vm_auto.

Lemma gas_op1Add : op_gas op1Add. Proof. numeric op1Add. Qed.
Lemma gas_op1Sub : op_gas op1Sub. Proof. numeric op1Sub. Qed.
Lemma gas_op2Mul : op_gas op2Mul. Proof. numeric op2Mul. Qed.
Lemma gas_op2Div : op_gas op2Div. Proof. numeric op2Div. Qed.
Lemma gas_opNegate : op_gas opNegate. Proof. numeric opNegate. Qed.
Lemma gas_opAbs : op_gas opAbs. Proof. numeric opAbs. Qed.
Lemma gas_opNot : op_gas opNot. Proof. numeric opNot. Qed.
Lemma gas_op0NotEqual : op_gas op0NotEqual. Proof. numeric op0NotEqual. Qed.
Lemma gas_opAdd : op_gas opAdd. Proof. numeric opAdd. Qed.
Lemma gas_opSub : op_gas opSub. Proof. numeric opSub. Qed.
Lemma gas_opMul : op_gas opMul. Proof. numeric opMul. Qed.
Lemma gas_opDiv : op_gas opDiv. Proof. numeric opDiv. Qed.
Lemma gas_opMod : op_gas opMod. Proof. numeric opMod. Qed.
Lemma gas_opLshift : op_gas opLshift. Proof. numeric opLshift. Qed.
Lemma gas_opRshift : op_gas opRshift. Proof. numeric opRshift. Qed.
Lemma gas_opBoolAnd : op_gas opBoolAnd. Proof. numeric opBoolAnd. Qed.
Lemma gas_opBoolOr : op_gas opBoolOr. Proof. numeric opBoolOr. Qed.
Lemma gas_doNumCompare c : op_gas (doNumCompare c). Proof. numeric doNumCompare. Qed.
Lemma gas_opNumEqualVerify : op_gas opNumEqualVerify. Proof. numeric opNumEqualVerify. Qed.
Lemma gas_opMin : op_gas opMin. Proof. numeric opMin. Qed.
Lemma gas_opMax : op_gas opMax. Proof. numeric opMax. Qed.
Lemma gas_opWithin : op_gas opWithin. Proof. numeric opWithin. Qed.

(** *** Stack opcodes *)

Lemma wp_dup_loop r0 g n k s : Pre r0 g s →
  wp (repeatM n (bind get_stack (λ cur, bind (stack_at (len cur - k)) (λ x, push x false))))
    (λ _ s', Pre r0 g s') (Fail r0) s.
Proof.
  revert s. induction n as [|n IH]; intros s HP; [done|]. cbn [repeatM].
  vm_auto. apply IH. close_post.
Qed.

(** After a sub-computation that kept [Pre], close with the cost already paid. *)
Lemma wp_frame_post r0 g (m : M unit) s : g <= r0 - 1 → Pre r0 g s →
  wp m (λ _ s', Pre r0 g s') (Fail r0) s → wp m (λ _ s', Post r0 (r0 - 1) s') (Fail r0) s.
Proof.
  intros Hg _. apply wp_mono. intros _ s' HP. close_post.
Qed.

Lemma gas_nDup n : (1 <= n)%nat → op_gas (nDup n).
Proof.
  intros Hn. gas_op nDup. eapply wp_frame_post; [|eassumption|by apply wp_dup_loop]. lia.
Qed.

Lemma gas_op2Over : op_gas op2Over.
Proof. gas_op op2Over. eapply wp_frame_post; [|eassumption|by apply wp_dup_loop]. lia. Qed.

Lemma gas_op2Drop : op_gas op2Drop.
Proof. gas_op op2Drop. cbn [repeatM]. vm_auto. Qed.

Lemma gas_opIfDup : op_gas opIfDup. Proof. gas_op opIfDup. Qed.
Lemma gas_opDepth : op_gas opDepth. Proof. gas_op opDepth. Qed.
Lemma gas_opDrop : op_gas opDrop. Proof. gas_op opDrop. Qed.
Lemma gas_opOver : op_gas opOver. Proof. gas_op opOver. Qed.
Lemma gas_opPick : op_gas opPick. Proof. gas_op opPick. Qed.

(** Moving one item to the top *)
Lemma scost_move ds i x j : ds !! i = Some x → j = S i →
  scost (take i ds ++ drop j ds ++ [x]) = scost ds.
Proof.
  intros H ->. apply scost_perm. rewrite <- (take_drop_middle _ _ _ H) at 3.
  apply Permutation_app_head. by rewrite Permutation_app_comm.
Qed.

Lemma wp_rot r0 g n s : g <= r0 - 1 → Pre r0 g s →
  wp (rot n) (λ _ s', Post r0 (r0 - 1) s') (Fail r0) s.
Proof.
  intros Hg HP. unfold rot. vm_auto.
  rewrite (scost_move _ (Z.to_nat (len (dataStack (vm s)) - n)) sl); [done..|]. lia.
Qed.

Lemma gas_opRoll : op_gas opRoll.
Proof. gas_op opRoll. eapply wp_rot; [|eassumption]. lia. Qed.

Lemma gas_opRot : op_gas opRot.
Proof. gas_op opRot. eapply wp_rot; [|eassumption]. lia. Qed.

(** Two adjacent items taken to the top *)
Lemma scost_move2 ds i x y k : ds !! i = Some x → ds !! S i = Some y → k = S (S i) →
  scost (take i ds ++ drop k ds ++ [x] ++ [y]) = scost ds.
Proof.
  intros Hx Hy ->. apply scost_perm. rewrite <- (take_drop i ds) at 3.
  apply Permutation_app_head. rewrite (drop_S _ _ _ Hx), (drop_S _ _ _ Hy).
  by rewrite Permutation_app_comm.
Qed.

(** Positions counted from the top, as [nat] *)
Lemma top_index (ds : list slice) k : Z.to_nat (len ds - Z.of_nat k) = (length ds - k)%nat.
Proof. unfold len. lia. Qed.

Lemma gas_op2Rot : op_gas op2Rot.
Proof.
  gas_op op2Rot. rewrite (top_index _ 6) in H1. rewrite (top_index _ 5) in H2.
  apply Z.eq_le_incl, scost_move2; [done|rewrite <- H2; f_equal|]; unfold len in *; lia.
Qed.

Lemma gas_op2Swap : op_gas op2Swap.
Proof.
  gas_op op2Swap. rewrite (top_index _ 4) in H1. rewrite (top_index _ 3) in H2.
  apply Z.eq_le_incl, scost_move2; [done|rewrite <- H2; f_equal|]; unfold len in *; lia.
Qed.

Lemma scost_insert (ds : list slice) i x y : ds !! i = Some y →
  scost (<[i := x]> ds) = scost ds - slen y + slen x.
Proof.
  intros H. rewrite (insert_take_drop ds i x) by (by eapply lookup_lt_Some).
  rewrite <- (take_drop_middle _ _ _ H) at 3. rewrite !scost_app, !scost_cons. lia.
Qed.

Lemma gas_opSwap : op_gas opSwap.
Proof.
  gas_op opSwap. unfold len in *.
  rewrite (scost_insert _ _ sl0 sl), (scost_insert _ _ sl sl0); [lia|done|].
  rewrite list_lookup_insert_ne by lia. done.
Qed.

(** Opcodes that move items between the stacks with no cost accounting *)
Ltac unfold_state :=
  split; simpl; try done; unfold stacks in *; simpl in *;
  rewrite ?scost_app, ?scost_cons, ?scost_nil in *; try lia.

Lemma gas_opToAltStack : op_gas opToAltStack.
Proof.
  gas_op opToAltStack. apply wp_modify. apply wp_modify. destruct H as [Hr Hs Hn Hc].
  pose proof (scost_last _ _ Heqo). apply Pre_Post. unfold_state.
Qed.

Lemma gas_opFromAltStack : op_gas opFromAltStack.
Proof.
  gas_op opFromAltStack. apply wp_modify. apply wp_modify. destruct H as [Hr Hs Hn Hc].
  pose proof (scost_last _ _ Heqo). apply Pre_Post. unfold_state.
Qed.

(** A pop while an item is set aside: its cost is kept in the bound. *)
Lemma gas_opNip : op_gas opNip.
Proof.
  intros r0 s HP. unfold opNip. do 7 vm_prim. rename H into HP1. apply wp_modify.
  destruct HP1 as [Hr Hs Hn Hc]. pose proof (scost_last _ _ H1) as HL.
  set (ds1 := take (length (dataStack (vm s')) - 1) (dataStack (vm s'))) in *.
  unfold wp, pop, bind, gets, modify, ret. simpl. destruct (last ds1) as [y|] eqn:Ey; simpl; [|unfold Fail; simpl; lia].
  pose proof (scost_last _ _ Ey). pose proof (slen_nonneg y). pose proof (stacks_nonneg s').
  unfold applyCost; simpl. destruct (Z.ltb_spec (runLimit (vm s')) (8 + slen y)); simpl; [unfold Fail; simpl; lia|].
  unfold BOUND in *. rewrite int64_id by (ranges; lia). apply Pre_Post.
  pose proof (slen_nonneg sl). unfold_state. all: unfold BOUND in *; lia.
Qed.

Lemma gas_opTuck : op_gas opTuck.
Proof.
  intros r0 s HP. unfold opTuck. do 4 vm_prim. vm_prim; [vm_auto|]. do 5 vm_prim.
  rename H into HP1. rewrite (top_index _ 2) in H1. rewrite (top_index _ 1) in H2.
  apply wp_modify. destruct HP1 as [Hr Hs Hn Hc].
  set (ds := dataStack (vm s')) in *.
  assert (ds = take (length ds - 2) ds ++ [sl; sl0]) as Hds.
  { rewrite <- (take_drop (length ds - 2) ds) at 1. f_equal.
    rewrite (drop_S _ _ _ H1), (drop_S _ sl0). 2: { rewrite <- H2. f_equal. unfold len in *; lia. }
    rewrite drop_ge by lia. done. }
  pose proof (f_equal scost Hds) as HL. rewrite scost_app, !scost_cons, scost_nil in HL.
  pose proof (slen_nonneg sl0). pose proof (slen_nonneg sl). pose proof (stacks_nonneg s').
  unfold wp, push, bind, applyCost, modify; simpl.
  destruct (Z.ltb_spec (runLimit (vm s')) (8 + slen sl0)); simpl; [unfold Fail; simpl; lia|].
  unfold BOUND in *. rewrite int64_id by (ranges; lia). apply Pre_Post.
  unfold_state. all: unfold BOUND, ds in *; lia.
Qed.

(** *** Data pushing, bitwise and splice opcodes *)

Lemma gas_opFalse : op_gas opFalse. Proof. gas_op opFalse. Qed.
Lemma gas_opPushdata : op_gas opPushdata. Proof. gas_op opPushdata. Qed.
Lemma gas_op1Negate : op_gas op1Negate. Proof. gas_op op1Negate. Qed.
Lemma gas_opNop : op_gas opNop. Proof. gas_op opNop. Qed.

Lemma len_zip_with (f : Z → Z → Z) (xs ys : list Z) : len (zip_with f xs ys) <= len xs.
Proof. unfold len. rewrite length_zip_with. lia. Qed.

Lemma len_zip_long f xs ys : len (zip_long f xs ys) = Z.max (len xs) (len ys).
Proof.
  unfold len. revert ys. induction xs as [|x xs IH]; intros [|y ys]; cbn [zip_long length];
    rewrite ?length_fmap; cbn [length]; try lia.
  specialize (IH ys). lia.
Qed.

Lemma gas_opAnd : op_gas opAnd.
Proof.
  gas_op opAnd. use_len. etransitivity; [apply len_zip_with|]. unfold BOUND in *. lia.
Qed.

Lemma gas_doOr b : op_gas (doOr b).
Proof. gas_op doOr. use_len. rewrite len_zip_long. unfold BOUND in *. lia. Qed.

Lemma gas_opInvert : op_gas opInvert.
Proof.
  gas_op opInvert. use_stack. rewrite scost_app, scost_cons, scost_nil. use_len.
  erewrite scost_last by eassumption. unfold len in *. rewrite length_fmap. lia.
Qed.

Lemma wp_doEqual r0 g s : Pre r0 g s →
  wp doEqual (λ _ s', Pre r0 (g - 17) s') (Fail r0) s.
Proof. intros HP. unfold doEqual. vm_auto. Qed.

Lemma gas_opEqual : op_gas opEqual.
Proof.
  gas_op opEqual. eapply wp_mono; [|by apply wp_doEqual]. simpl. intros a s' HP'. vm_auto.
Qed.

Lemma gas_opEqualVerify : op_gas opEqualVerify.
Proof.
  gas_op opEqualVerify. eapply wp_mono; [|by apply wp_doEqual]. simpl. intros a s' HP'. vm_auto.
Qed.

Lemma gas_opCat : op_gas opCat.
Proof. gas_op opCat. unfold BOUND in *. lia. Qed.

Lemma wp_push_reslice r0 g str i j s : Pre r0 g s → 0 <= i → j <= slen str → slen str <= BOUND →
  wp (push_reslice str i j) (λ _ s', Post r0 (g - 8) s') (Fail r0) s.
Proof.
  intros HP Hi Hj Hb. unfold push_reslice, reslice. case_decide; vm_auto.
  unfold slen, BOUND in *. simpl. lia.
Qed.

Ltac reslice_end := eapply wp_mono; [|eapply wp_push_reslice; [eassumption|..]; lia];
  simpl; intros ? ? ?; close_post.

Lemma gas_opSubstr : op_gas opSubstr.
Proof. gas_op opSubstr. reslice_end. Qed.
Lemma gas_opLeft : op_gas opLeft.
Proof. gas_op opLeft. reslice_end. Qed.
Lemma gas_opRight : op_gas opRight.
Proof. gas_op opRight. reslice_end. Qed.
Lemma gas_opSize : op_gas opSize. Proof. gas_op opSize. Qed.

Lemma gas_opCatpushdata : op_gas opCatpushdata.
Proof.
  gas_op opCatpushdata.
  match goal with H : context [PushdataBytes ?b] |- _ => pose proof (len_PushdataBytes_le b) end.
  unfold BOUND in *. lia.
Qed.

(** *** Control flow, cryptography, introspection *)

Lemma gas_opVerify : op_gas opVerify. Proof. gas_op opVerify. Qed.
Lemma gas_opFail : op_gas opFail. Proof. gas_op opFail. Qed.

Lemma wp_set_nextPC r0 g a s : Pre r0 g s →
  wp (modify (set_nextPC a)) (λ _ s', Pre r0 g s') (Fail r0) s.
Proof. intros HP. apply wp_modify. by apply (Pre_same r0 g s). Qed.

Lemma gas_opJump : op_gas opJump.
Proof.
  gas_op opJump. unfold jump_address. vm_auto. eapply wp_frame_post; [|eassumption|by apply wp_set_nextPC]. lia.
Qed.

Lemma gas_opJumpIf : op_gas opJumpIf.
Proof.
  gas_op opJumpIf. unfold jump_address. vm_auto. eapply wp_frame_post; [|eassumption|by apply wp_set_nextPC]. lia.
Qed.

Lemma gas_doHash sum : op_gas (doHash sum).
Proof. gas_op doHash. destruct (_ <? 64); close_post. Qed.

Lemma gas_opCheckSig : op_gas opCheckSig. Proof. gas_op opCheckSig. Qed.

Lemma wp_popN r0 g n s : Pre r0 g s → wp (popN n) (λ _ s', Pre r0 g s') (Fail r0) s.
Proof.
  revert s. induction n as [|n IH]; intros s HP; [done|]. cbn [popN]. vm_auto.
  eapply wp_mono; [|apply IH; close_post]. simpl. intros a s1 HP1. vm_auto.
Qed.

Lemma gas_opCheckMultiSig : op_gas opCheckMultiSig.
Proof.
  gas_op opCheckMultiSig. assert (0 <= z) as Hz.
  { revert Heqo. destruct (Z.ltb_spec n 0); [done|]. rewrite MulInt64_exact. unfold exact.
    destruct (_ && _); intros; simplify_eq. lia. }
  vm_auto. eapply wp_mono; [|by apply wp_popN]. simpl. intros ks s1 HP1. vm_auto.
  eapply wp_mono; [|by apply wp_popN]. simpl. intros sgs s2 HP2. vm_auto.
Qed.

Lemma gas_opTxSigHash : op_gas opTxSigHash. Proof. gas_op opTxSigHash. Qed.
Lemma gas_opHash160 : op_gas opHash160. Proof. gas_op opHash160. Qed.

Lemma gas_push_field f :
  (∀ c, ctx_small c → match f c with Some sl => slen sl <= BOUND | None => True end) →
  op_gas (push_field f).
Proof.
  intros Hf. gas_op push_field. pose proof (Hf _ (pre_ctx _ _ _ H)) as Hs.
  rewrite Heqo in Hs. unfold BOUND in *. lia.
Qed.

Lemma gas_push_uint_field f : op_gas (push_uint_field f).
Proof. gas_op push_uint_field. Qed.

Ltac field := apply gas_push_field; intros c [Hc _];
  decompose_Forall; done.

Lemma gas_opAsset : op_gas opAsset. Proof. field. Qed.
Lemma gas_opProgram : op_gas opProgram. Proof. field. Qed.
Lemma gas_opTxData : op_gas opTxData. Proof. field. Qed.
Lemma gas_opEntryData : op_gas opEntryData. Proof. field. Qed.
Lemma gas_opEntryID : op_gas opEntryID. Proof. field. Qed.
Lemma gas_opOutputID : op_gas opOutputID. Proof. field. Qed.

Lemma gas_opCheckOutput : op_gas opCheckOutput.
Proof.
  gas_op opCheckOutput. apply wp_lift; [|close_post|].
  - eapply small_check; [by eapply pre_ctx|done].
  - intros b _. vm_auto.
Qed.

(** *** Accounts and contracts *)

Lemma wp_deref {A} r0 g (f : Context → option A) (Q : A → State → Prop) s : Pre r0 g s →
  (∀ a, f (context (vm s)) = Some a → Q a s) → wp (deref f) Q (Fail r0) s.
Proof. intros HP HQ. unfold deref. vm_auto. by apply HQ. Qed.

Lemma wp_pop_zero r0 g e (Q : unit → State → Prop) s : Pre r0 g s →
  (∀ s', Pre r0 (g - 8) s' → Q tt s') → wp (pop_zero e) Q (Fail r0) s.
Proof. intros HP HQ. unfold pop_zero. vm_auto. by apply HQ. Qed.

Lemma wp_set_db r0 g f (Q : unit → State → Prop) s : Pre r0 g s →
  (∀ s', Pre r0 g s' → runLimit (vm s') = runLimit (vm s) → Q tt s') →
  wp (modify (λ s, set_db (f s) s)) Q (Fail r0) s.
Proof. intros HP HQ. apply wp_modify, HQ; [|done]. by apply (Pre_same r0 g s). Qed.

Ltac evm_prim :=
  match goal with
  | |- wp (deref _) _ _ _ => eapply wp_deref; [eassumption|intros ? ?]
  | |- wp (pop_zero _) _ _ _ => eapply wp_pop_zero; [eassumption|intros ? ?]
  | |- wp (modify (λ s, set_db _ s)) _ _ _ => eapply wp_set_db; [eassumption|intros ? ? ?]
  | |- wp (modify (set_db ?d)) _ _ _ => eapply (wp_set_db _ _ (λ _, d)); [eassumption|intros ? ? ?]
  end.
Ltac evm_auto := repeat (vm_prim || evm_prim); try close_post.

Lemma gas_opDeposit : op_gas opDeposit.
Proof. intros r0 s HP. unfold opDeposit. evm_auto. Qed.

Lemma gas_opWithdraw : op_gas opWithdraw.
Proof. intros r0 s HP. unfold opWithdraw. evm_auto. Qed.

Lemma wp_run_message r0 g aid amt info from to nonce input (Q : option (list Z * nat) → State → Prop) s :
  Pre r0 g s → (∀ r s', Pre r0 g s' → Q r s') →
  wp (run_message aid amt info from to nonce input) Q (Fail r0) s.
Proof.
  intros HP HQ. unfold run_message. do 2 vm_prim. cbv zeta.
  apply wp_bind. eapply (wp_mono _ (λ _ s', Pre r0 g s')).
  2: { destruct (bool_decide _); evm_auto. }
  simpl. intros _ s1 HP1. do 4 vm_prim.
  assert (is_uint64 (runLimit (vm s1))) as Hu.
  { destruct HP1 as [Hr Hs _ _]. pose proof (stacks_nonneg s1). unfold BOUND in *. ranges. lia. }
  rewrite (uint64_id (runLimit (vm s1))) by done.
  match goal with |- context [ApplyMessage ?c ?d ?m ?gp] =>
    pose proof (ApplyMessage_gas c d m Hu) as HA; destruct (ApplyMessage c d m gp) as [o d'] end.
  simpl in HA. vm_prim. evm_prim. destruct o as [[rv used]| | |]; [|vm_auto|done|done].
  destruct HP1 as [Hr Hs _ _]. pose proof (stacks_nonneg s1).
  assert (int64 used = used) as -> by (apply int64_id; unfold BOUND in *; ranges; lia).
  vm_auto. apply HQ. close_post.
Qed.

Lemma wp_push_ret r0 g r (Q : unit → State → Prop) s : Pre r0 g s →
  (∀ s', Pre r0 (g - 8) s' → Q tt s') → wp (push_ret r) Q (Fail r0) s.
Proof. intros HP HQ. unfold push_ret. vm_auto; by apply HQ. Qed.

Ltac message_op :=
  evm_auto; eapply wp_run_message; [eassumption|]; intros ? ? ?; simpl;
  repeat (vm_prim || (eapply wp_push_ret; [eassumption|intros ? ?])); try close_post.

Lemma gas_opCall : op_gas opCall.
Proof. intros r0 s HP. unfold opCall. message_op. Qed.
Lemma gas_opCreate : op_gas opCreate.
Proof. intros r0 s HP. unfold opCreate. message_op. Qed.
Lemma gas_opContract : op_gas opContract.
Proof. intros r0 s HP. unfold opContract. message_op. Qed.

(** ** One step of the machine *)

#[local] Hint Resolve gas_op1Add gas_op1Sub gas_op2Mul gas_op2Div gas_opNegate gas_opAbs gas_opNot
  gas_op0NotEqual gas_opAdd gas_opSub gas_opMul gas_opDiv gas_opMod gas_opLshift gas_opRshift
  gas_opBoolAnd gas_opBoolOr gas_doNumCompare gas_opNumEqualVerify gas_opMin gas_opMax gas_opWithin
  gas_op2Over gas_op2Drop gas_opIfDup gas_opDepth gas_opDrop gas_opOver gas_opPick gas_opRoll
  gas_opRot gas_op2Rot gas_op2Swap gas_opSwap gas_opToAltStack gas_opFromAltStack gas_opNip
  gas_opTuck gas_opFalse gas_opPushdata gas_op1Negate gas_opNop gas_opAnd gas_doOr gas_opInvert
  gas_opEqual gas_opEqualVerify gas_opCat gas_opSubstr gas_opLeft gas_opRight gas_opSize
  gas_opCatpushdata gas_opVerify gas_opFail gas_opJump gas_opJumpIf gas_doHash gas_opCheckSig
  gas_opCheckMultiSig gas_opTxSigHash gas_opHash160 gas_push_uint_field gas_opAsset gas_opProgram
  gas_opTxData gas_opEntryData gas_opEntryID gas_opOutputID gas_opCheckOutput gas_opDeposit
  gas_opWithdraw gas_opCall gas_opCreate gas_opContract : vm_gas.

Lemma op_fn_gas childRun op f : op ≠ OP_CHECKPREDICATE → op_fn childRun op = Some f → op_gas f.
Proof.
  intros Hne. unfold op_fn. destruct (_ || _); [intros [= <-]; auto with vm_gas|].
  repeat case_match; intros; simplify_eq; try done;
    first [solve [auto with vm_gas] | apply gas_nDup; lia | apply gas_doNumCompare
          | apply gas_doOr | apply gas_doHash | apply gas_push_uint_field].
Qed.

(** A machine between two steps *)
Record StepInv (s : State) : Prop := {
  si_run : 0 <= runLimit (vm s);
  si_sum : runLimit (vm s) + stacks s <= BOUND;
  si_ctx : ctx_small (context (vm s));
}.

Lemma exec_op_gas f inst s : op_gas f → StepInv s →
  wp (exec_op f inst) (λ _ s', StepInv s' ∧ runLimit (vm s') <= runLimit (vm s) - 1)
    (Fail (runLimit (vm s))) s.
Proof.
  intros Hf [Hr Hs Hc]. unfold exec_op. apply wp_bind, wp_modify, wp_bind.
  set (r0 := runLimit (vm s)) in *.
  eapply wp_mono; [|apply (Hf r0); split; simpl; done || unfold stacks in *; simpl; lia].
  simpl. intros _ s1 [Hr1 Hs1 Hd1 Hn1 Hc1]. apply wp_bind, wp_gets, wp_bind.
  unfold wp, applyCost. destruct (Z.ltb_spec (runLimit (vm s1)) (deferredCost (vm s1))); simpl.
  { unfold Fail; simpl; lia. }
  pose proof (stacks_nonneg s1). unfold BOUND in *. rewrite int64_id by (ranges; lia).
  split; [|lia]. split; simpl; done || unfold stacks, BOUND in *; simpl in *; lia.
Qed.

Lemma ParseOp_not_fuel prog p : ParseOp prog p ≠ Fuel.
Proof.
  unfold ParseOp, parse_body, parse_DATA, parse_PUSHDATA1, parse_PUSHDATA2, parse_PUSHDATA4,
    parse_JUMP, byte_at, sub_bytes, obind.
  repeat case_match; done.
Qed.

(** A step that is not CHECKPREDICATE costs at least one unit of gas. *)
Lemma step_gas childRun s : StepInv s →
  (∀ i, next_inst s = Ok i → Op i ≠ OP_CHECKPREDICATE) →
  wp (step childRun) (λ _ s', StepInv s' ∧ runLimit (vm s') <= runLimit (vm s) - 1)
    (Fail (runLimit (vm s))) s.
Proof.
  intros Hinv Hcp. pose proof Hinv as [Hr Hs Hc]. unfold step. apply wp_bind, wp_gets, wp_bind, wp_lift.
  - apply ParseOp_not_fuel.
  - unfold Fail. lia.
  - intros i Hi. apply wp_bind, wp_modify. destruct (op_fn childRun (Op i)) as [f|] eqn:Ef.
    + apply (exec_op_gas f i (set_nextPC _ s)); [|by destruct Hinv; split].
      eapply op_fn_gas; [|done]. by apply Hcp.
    + unfold exec_expansion. apply wp_bind, wp_gets. destruct (expansionReserved _).
      { apply wp_throw. unfold Fail; simpl; lia. }
      apply wp_bind, wp_modify. unfold wp, applyCost; simpl.
      destruct (Z.ltb_spec (runLimit (vm s)) 1); simpl; [unfold Fail; simpl; lia|].
      pose proof (stacks_nonneg s). unfold BOUND in *. rewrite int64_id by (ranges; lia).
      split; [|lia]. split; simpl; done || unfold stacks, BOUND in *; simpl in *; lia.
Qed.

(** ** Sequences of steps *)

(** [n] successful steps, none of them a CHECKPREDICATE *)
Inductive plain_steps : nat → State → State → Prop :=
| plain_refl s : plain_steps 0 s s
| plain_step n s i s1 s2 : running s = true → next_inst s = Ok i → Op i ≠ OP_CHECKPREDICATE →
    step (lift Fuel) s = (Ok tt, s1) → plain_steps n s1 s2 → plain_steps (S n) s s2.

(** Without CHECKPREDICATE the child runner is not used. *)
Lemma step_child c1 c2 s i : next_inst s = Ok i → Op i ≠ OP_CHECKPREDICATE → step c1 s = step c2 s.
Proof.
  intros Hi Hne. unfold step, bind, gets, lift. rewrite Hi. simpl.
  replace (op_fn c1 (Op i)) with (op_fn c2 (Op i)); [done|].
  unfold op_fn. destruct (_ || _); [done|]. repeat case_match; done || congruence.
Qed.

Lemma plain_steps_gas n s s' : StepInv s → plain_steps n s s' →
  StepInv s' ∧ Z.of_nat n <= runLimit (vm s) - runLimit (vm s').
Proof.
  intros Hinv H. induction H as [s|n s i s1 s2 _ Hi Hne Hst _ IH]; [split; [done|lia]|].
  pose proof (step_gas (lift Fuel) s Hinv) as Hg. unfold wp in Hg. rewrite Hst in Hg.
  destruct Hg as [Hinv1 Hr1]; [intros j Hj; congruence|].
  destruct (IH Hinv1) as [Hinv2 Hr2]. split; [done|]. lia.
Qed.

Definition is_predicate (s : State) : Prop :=
  running s = true ∧ ∃ i, next_inst s = Ok i ∧ Op i = OP_CHECKPREDICATE.

Lemma run_loop_cases fuel s : StepInv s → runLimit (vm s) < Z.of_nat fuel →
  (∃ o s', run_loop fuel s = (o, s') ∧ o ≠ Fuel
           ∧ (o = Panic ∨ 0 <= runLimit (vm s') <= runLimit (vm s)))
  ∨ (∃ n s', plain_steps n s s' ∧ is_predicate s').
Proof.
  revert s. induction fuel as [|fuel IH]; intros s Hinv Hf; [destruct Hinv; lia|].
  cbn [run_loop]. unfold bind at 1, gets. destruct (running s) eqn:Erun.
  2: { left. exists (Ok tt), s. destruct Hinv. split; [done|]. split; [done|]. right. lia. }
  destruct (next_inst s) as [i|e| |] eqn:Ei.
  2,3: left; unfold step, bind, gets, lift; rewrite Ei; do 2 eexists; split; [done|];
    split; [done|]; destruct Hinv; auto with lia.
  2: { destruct (ParseOp_not_fuel _ _ Ei). }
  destruct (decide (Op i = OP_CHECKPREDICATE)) as [Hcp|Hne].
  { right. exists 0%nat, s. split; [constructor|]. split; eauto. }
  unfold bind at 1. rewrite (step_child _ (lift Fuel) s i Ei Hne).
  pose proof (step_gas (lift Fuel) s Hinv) as Hg. unfold wp in Hg.
  destruct (step (lift Fuel) s) as [[[]|e| |] s1] eqn:Est.
  - destruct Hg as [Hinv1 Hr1]; [intros j Hj; congruence|].
    destruct (IH s1 Hinv1 ltac:(lia)) as [(o & s2 & Hrun & Ho & Hb)|(n & s2 & Hp & Hq)].
    + left. exists o, s2. split; [done|]. split; [done|]. destruct Hb; [by left|right; lia].
    + right. exists (S n), s2. split; [by econstructor|done].
  - left. do 2 eexists. split; [done|]. split; [done|]. right. apply Hg. intros j Hj; congruence.
  - left. do 2 eexists. split; [done|]. split; [done|]. by left.
  - destruct Hg. intros j Hj; congruence.
Qed.

(** ** Independence of the round bound *)

(** [m'] gives the same answer as [m] whenever [m] has enough rounds. *)
Definition extends {A} (m m' : M A) : Prop := ∀ s, (m s).1 ≠ Fuel → m' s = m s.

Lemma extends_refl {A} (m : M A) : extends m m.
Proof. done. Qed.

Lemma extends_bind {A B} (m m' : M A) (k k' : A → M B) :
  extends m m' → (∀ a, extends (k a) (k' a)) → extends (bind m k) (bind m' k').
Proof.
  intros Hm Hk s Hs. unfold bind in *. specialize (Hm s).
  destruct (m s) as [[a|e| |] s1]; simpl in *; rewrite Hm by done; try done. by apply Hk.
Qed.

Lemma extends_run_child c c' v : extends c c' → extends (run_child c v) (run_child c' v).
Proof.
  intros Hc s Hs. unfold run_child in *. specialize (Hc (set_vm v s)).
  destruct (c (set_vm v s)) as [[a|e| |] s1]; simpl in *; rewrite Hc by done; done.
Qed.

Lemma extends_opCheckPredicate c c' :
  extends c c' → extends (opCheckPredicate c) (opCheckPredicate c').
Proof.
  intros Hc. unfold opCheckPredicate.
  repeat (apply extends_bind; [apply extends_refl|intros ?]).
  destruct (_ <? _); [apply extends_refl|]. apply extends_bind; [apply extends_refl|intros ?].
  cbv zeta. destruct (_ <? _); [apply extends_refl|].
  repeat (apply extends_bind; [first [apply extends_refl | by apply extends_run_child]|intros ?]).
  apply extends_refl.
Qed.

Lemma extends_step c c' : extends c c' → extends (step c) (step c').
Proof.
  intros Hc. unfold step. repeat (apply extends_bind; [apply extends_refl|intros ?]).
  match goal with |- context [op_fn c (Op ?i)] => destruct (decide (Op i = OP_CHECKPREDICATE)) as [->|Hne] end.
  - change (op_fn c OP_CHECKPREDICATE) with (Some (opCheckPredicate c)).
    change (op_fn c' OP_CHECKPREDICATE) with (Some (opCheckPredicate c')). cbv iota.
    unfold exec_op. apply extends_bind; [apply extends_refl|intros ?].
    apply extends_bind; [by apply extends_opCheckPredicate|intros ?]. apply extends_refl.
  - match goal with |- context [op_fn c ?o] => replace (op_fn c' o) with (op_fn c o) end;
      [apply extends_refl|].
    unfold op_fn. destruct (_ || _); [done|]. repeat case_match; done || congruence.
Qed.

Lemma extends_run_loop n m : (n <= m)%nat → extends (run_loop n) (run_loop m).
Proof.
  revert m. induction n as [|n IH]; intros [|m] Hnm; try (by intros s []); [lia|].
  cbn [run_loop]. apply extends_bind; [apply extends_refl|intros b]. destruct b; [|apply extends_refl].
  apply extends_bind; [|intros ?; apply IH; lia].
  apply extends_step, extends_bind; [apply extends_refl|intros ?; apply IH; lia].
Qed.

(** ** Properties *)

(** Gas bounds the length of every execution that meets no CHECKPREDICATE:
    [n] successful steps use at least [n] units, and the machine's invariant
    (a run limit that is not negative, costs far from the int64 limits) is kept. *)
Theorem plain_steps_bounded_by_gas n s s' : StepInv s → plain_steps n s s' →
  StepInv s' ∧ Z.of_nat n <= runLimit (vm s) - runLimit (vm s').
Proof. apply plain_steps_gas. Qed.

(** C2: the main loop ends within [runLimit + 1] rounds, with a result, an
    error or a recovered panic and with no more gas than it started with,
    unless it reaches a CHECKPREDICATE instruction. *)
Theorem run_loop_terminates fuel s : StepInv s → runLimit (vm s) < Z.of_nat fuel →
  (∃ o s', run_loop fuel s = (o, s') ∧ o ≠ Fuel
           ∧ (o = Panic ∨ 0 <= runLimit (vm s') <= runLimit (vm s)))
  ∨ (∃ n s', plain_steps n s s' ∧ is_predicate s').
Proof. apply run_loop_cases. Qed.

(** The bound on the rounds is only a bound: once the loop has an answer,
    any larger bound gives the same answer and the same final state. *)
Theorem run_loop_fuel_irrelevant n m s o s' : (n <= m)%nat →
  run_loop n s = (o, s') → o ≠ Fuel → run_loop m s = (o, s').
Proof.
  intros Hnm Hrun Ho. rewrite (extends_run_loop n m Hnm s); [done|]. by rewrite Hrun.
Qed.
End gas.

(** ** Witnesses *)

(** 2 3 ADD *)
Definition add_prog : list Z := [0x52; 0x53; 0x93].
Definition add_state : State :=
  mkState (initVM (start_context add_prog) 100) (start_heap add_prog) ([] : toy_db).
Lemma add_state_inv : StepInv add_state.
Proof.
  split; [vm_compute; discriminate..|]. split; [|done].
  repeat constructor; vm_compute; discriminate.
Qed.

(** Executable form of [plain_steps], to evaluate concrete runs *)
Fixpoint exec_plain (n : nat) (s : State) : option State :=
  match n with
  | O => Some s
  | S n =>
      match running s, next_inst s with
      | true, Ok i =>
          if decide (Op i = OP_CHECKPREDICATE) then None
          else match step (lift Fuel) s with
               | (Ok _, s') => exec_plain n s'
               | _ => None
               end
      | _, _ => None
      end
  end.

Lemma exec_plain_steps n s s' : exec_plain n s = Some s' → plain_steps n s s'.
Proof.
  revert s. induction n as [|n IH]; intros s; simpl; [intros [= <-]; constructor|].
  destruct (running s) eqn:Er; [|done]. destruct (next_inst s) as [i| | |] eqn:Ei; try done.
  case_decide as Hd; [done|]. destruct (step (lift Fuel) s) as [[[]| | |] s1] eqn:Es; try done.
  intros H. econstructor; eauto.
Qed.

Lemma plain_steps_bounded_by_gas_witness :
  ∃ s', plain_steps 3 add_state s' ∧ StepInv s' ∧ 3 <= 100 - runLimit (vm s').
Proof.
  destruct (exec_plain 3 add_state) as [s'|] eqn:Es'.
  - apply exec_plain_steps in Es'. exists s'. split; [exact Es'|].
    exact (plain_steps_bounded_by_gas 3 add_state s' add_state_inv Es').
  - assert (match exec_plain 3 add_state with Some _ => true | None => false end = true) as H
      by (vm_compute; reflexivity).
    rewrite Es' in H. discriminate H.
Defined.

Lemma run_loop_terminates_witness : runLimit (vm add_state) < 101 ∧
  ((∃ o s', run_loop 101 add_state = (o, s') ∧ o ≠ Fuel
           ∧ (o = Panic ∨ 0 <= runLimit (vm s') <= runLimit (vm add_state)))
   ∨ (∃ n s', plain_steps n add_state s' ∧ is_predicate s')).
Proof.
  split; [vm_compute; reflexivity|].
  apply (run_loop_terminates 101); [exact add_state_inv|vm_compute; reflexivity].
Defined.

Lemma run_loop_fuel_irrelevant_witness :
  ∃ s', run_loop 4 add_state = (Ok tt, s') ∧ run_loop 50 add_state = (Ok tt, s').
Proof.
  assert (match run_loop 4 add_state with (Ok _, _) => true | _ => false end = true) as H
    by (vm_compute; reflexivity).
  destruct (run_loop 4 add_state) as [[[]| | |] s'] eqn:Es'; try discriminate H.
  exists s'. split; [reflexivity|].
  apply (run_loop_fuel_irrelevant 4 50 add_state); [lia|exact Es'|discriminate].
Defined.
