(* ===== verification/VmAlias.v ===== *)
(** * Sharing of byte arrays between stack items

    Which opcodes may change bytes that are already on a stack, in the program
    or in the context.  All but CAT, CATPUSHDATA and (through its child)
    CHECKPREDICATE only add arrays to the heap, so whatever was readable before
    them reads the same after.  CAT appends in place when its first operand has
    spare capacity, and the consequences are proved on concrete programs. *)

From S2P Require Import Prelude Checked GoSlice VmProgram VmMachine VmOps EvmTransition.
From S2P Require Import VmEvmOps VmRun.

(** ** Frames: what a command leaves as it was, whatever its outcome *)

Section keeps.
Context `{E : VmEnv}.

(** A relation between the states before and after that no change of gas, of
    the stacks or of the account database breaks, and no new array *)
Class FrameRel (R : State → State → Prop) : Prop := {
  frame_preorder :: PreOrder R;
  frame_runLimit x s : R s (set_runLimit x s);
  frame_deferredCost x s : R s (set_deferredCost x s);
  frame_dataStack x s : R s (set_dataStack x s);
  frame_altStack x s : R s (set_altStack x s);
  frame_db d s : R s (set_db d s);
  frame_hp h s : hp s `prefix_of` h → R s (set_hp h s);
}.

Context (R : State → State → Prop) `{HR : !FrameRel R}.

Definition keeps {A} (m : M A) : Prop := ∀ s, R s (m s).2.

Lemma keeps_bind {A B} (m : M A) (k : A → M B) : keeps m → (∀ a, keeps (k a)) → keeps (bind m k).
Proof using HR.
  intros Hm Hk s. unfold bind. specialize (Hm s).
  destruct (m s) as [[a|e| |] s1]; simpl in *; try done.
  etransitivity; [exact Hm|apply Hk].
Qed.

Lemma keeps_ret {A} (a : A) : keeps (ret a). Proof using HR. intros s. reflexivity. Qed.
Lemma keeps_throw {A} e : keeps (throw e : M A). Proof using HR. intros s. reflexivity. Qed.
Lemma keeps_panic {A} : keeps (panic : M A). Proof using HR. intros s. reflexivity. Qed.
Lemma keeps_gets {A} (f : State → A) : keeps (gets f). Proof using HR. intros s. reflexivity. Qed.
Lemma keeps_lift {A} (o : outcome error A) : keeps (lift o).
Proof using HR. intros s. reflexivity. Qed.
Lemma keeps_modify f : (∀ s, R s (f s)) → keeps (modify f).
Proof. intros Hf s. apply Hf. Qed.
Lemma keeps_applyCost n : keeps (applyCost n).
Proof using HR. intros s. unfold applyCost. destruct (_ <? _); apply frame_runLimit. Qed.
Lemma keeps_new_bytes bs c : keeps (new_bytes bs c).
Proof using HR. intros s. unfold new_bytes. apply frame_hp, alloc_prefix. Qed.

Lemma keeps_append_nil bs : keeps (append_bytes nil_slice bs).
Proof using HR.
  intros s. unfold append_bytes, go_append.
  case_decide; simpl; apply frame_hp; [reflexivity|by eexists].
Qed.

Ltac keeps_tac :=
  repeat match goal with
  | |- keeps (bind _ _) => apply keeps_bind; [|intros ?]
  | |- keeps (ret _) => apply keeps_ret
  | |- keeps (throw _) => apply keeps_throw
  | |- keeps panic => apply keeps_panic
  | |- keeps (gets _) => apply keeps_gets
  | |- keeps (lift _) => apply keeps_lift
  | |- keeps (modify _) => apply keeps_modify; intros ?; cbv beta;
      first [apply frame_dataStack | apply frame_altStack | apply frame_deferredCost | apply frame_db]
  | |- keeps (applyCost _) => apply keeps_applyCost
  | |- keeps (new_bytes _ _) => apply keeps_new_bytes
  | |- keeps (append_bytes nil_slice _) => apply keeps_append_nil
  | |- keeps (let _ := _ in _) => cbv zeta
  | |- keeps (if ?b then _ else _) => destruct b
  | |- keeps (match ?o with _ => _ end) => destruct o
  | |- keeps (deferCost _) => unfold deferCost
  | |- keeps (push _ _) => unfold push
  | |- keeps (pop _) => unfold pop
  | |- keeps (popInt64 _) => unfold popInt64
  | |- keeps (read _) => apply keeps_gets
  | |- keeps (read_all _) => apply keeps_gets
  | |- keeps get_stack => apply keeps_gets
  | |- keeps (put_stack _) => unfold put_stack
  | |- keeps top => unfold top
  | |- keeps (stack_at _) => unfold stack_at
  | |- keeps (BoolBytes _) => unfold BoolBytes
  | |- keeps (pushBool _ _) => unfold pushBool
  | |- keeps (Int64Slice _) => unfold Int64Slice
  | |- keeps (pushInt64 _ _) => unfold pushInt64
  | |- keeps (push_checked _) => unfold push_checked
  | |- keeps (push_reslice _ _ _) => unfold push_reslice
  | |- keeps (rot _) => unfold rot
  | |- keeps doEqual => unfold doEqual
  | |- keeps jump_address => unfold jump_address
  | |- keeps (pop_zero _) => unfold pop_zero
  | |- keeps (deref _) => unfold deref
  | |- keeps (push_ret _) => unfold push_ret
  end.

Lemma keeps_repeatM n m : keeps m → keeps (repeatM n m).
Proof using HR. intros Hm. induction n; cbn [repeatM]; keeps_tac; done. Qed.

Lemma keeps_popN n : keeps (popN n).
Proof using HR. induction n; cbn [popN]; keeps_tac; done. Qed.

Lemma keeps_run_message aid amt info from to nonce input :
  keeps (run_message aid amt info from to nonce input).
Proof using HR. unfold run_message. keeps_tac. Qed.

(** The opcodes that can write into an existing array, and those that set the
    next program counter *)
Definition writes_in_place (op : Z) : bool :=
  (op =? OP_CAT) || (op =? OP_CATPUSHDATA) || (op =? OP_CHECKPREDICATE).
Definition is_jump (op : Z) : bool := (op =? OP_JUMP) || (op =? OP_JUMPIF).

Lemma op_fn_keeps childRun op f : writes_in_place op = false →
  (is_jump op = true → ∀ x s, R s (set_nextPC x s)) → op_fn childRun op = Some f → keeps f.
Proof using HR.
  intros Hw Hj. unfold op_fn. destruct (_ || _).
  { intros [= <-]. unfold opPushdata. keeps_tac. }
  repeat case_match; intros; simplify_eq; try done;
  autounfold with vm_ops; keeps_tac;
    first [ apply keeps_repeatM; keeps_tac | apply keeps_popN | apply keeps_run_message
          | apply keeps_modify; intros ?; by apply Hj ].
Qed.
End keeps.

(** ** The heap *)

Section frame.
Context `{E : VmEnv}.

(** Only new arrays *)
Definition heap_kept (s s' : State) : Prop := hp s `prefix_of` hp s'.

#[export] Instance heap_kept_frame : FrameRel heap_kept.
Proof.
  split; try (intros; unfold heap_kept; simpl; done). split.
  - intros s. unfold heap_kept. reflexivity.
  - intros s1 s2 s3. unfold heap_kept. by etransitivity.
Qed.

Lemma heap_kept_same f : (∀ s, hp (f s) = hp s) → keeps heap_kept (modify f).
Proof. intros Hf s. unfold heap_kept. simpl. by rewrite Hf. Qed.

Lemma step_keeps childRun s i : next_inst s = Ok i → writes_in_place (Op i) = false →
  hp s `prefix_of` hp (step childRun s).2.
Proof.
  intros Hi Hw. unfold step, bind at 1, gets, bind at 1, lift. rewrite Hi.
  revert s Hi. cut (keeps heap_kept (bind (modify (λ s, set_nextPC (uint32 (pc (vm s) + Len i)) s))
    (λ _, match op_fn childRun (Op i) with None => exec_expansion | Some f => exec_op f i end))).
  { intros HK s _. apply HK. }
  apply keeps_bind; [apply _|by apply heap_kept_same|intros _].
  destruct (op_fn childRun (Op i)) as [f|] eqn:Ef.
  - unfold exec_op. apply keeps_bind; [apply _|by apply heap_kept_same|intros _].
    apply keeps_bind; [apply _| |intros _].
    { eapply op_fn_keeps; [apply _|done| |done]. intros _ x s. unfold heap_kept. done. }
    apply keeps_bind; [apply _|apply keeps_gets, _|intros d].
    apply keeps_bind; [apply _|apply keeps_applyCost, _|intros _]. by apply heap_kept_same.
  - unfold exec_expansion. apply keeps_bind; [apply _|apply keeps_gets, _|intros b].
    destruct b; [apply keeps_throw, _|].
    apply keeps_bind; [apply _|by apply heap_kept_same|intros _; apply keeps_applyCost, _].
Qed.

(** C8: a step whose opcode is not CAT, CATPUSHDATA or CHECKPREDICATE never
    changes the bytes behind a slice that existed before it: not those of a
    stack item, of the program, of the context, nor the shared [trueBytes]. *)
Theorem step_preserves_bytes childRun s i sl :
  next_inst s = Ok i → writes_in_place (Op i) = false → slice_ok (hp s) sl →
  bytes (hp (step childRun s).2) sl = bytes (hp s) sl.
Proof. intros Hi Hw Hok. apply bytes_prefix; [by eapply step_keeps|done]. Qed.
End frame.

Lemma step_preserves_bytes_witness :
  let s := mkState (initVM (start_context [0x51]) 100) (start_heap [0x51]) ([] : toy_db) in
  bytes (hp (step (lift Fuel) s).2) trueBytes = [1].
Proof.
  intros s. rewrite (step_preserves_bytes (lift Fuel) s (mkInst 0x51 1 [1]) trueBytes).
  - reflexivity.
  - vm_compute. reflexivity.
  - vm_compute. reflexivity.
  - exists [1]. split; [reflexivity|]. simpl. lia.
Defined.

(** ** What CAT can overwrite *)

Section overwrite.
Context `{E : VmEnv}.

(** Run [prog], loaded as a new array on top of heap [h]: the verdict of
    [Verify] and the heap left behind. *)
Definition load_and_run (fuel : nat) (prog : list Z) (gas : Z) (h : heap) (d : StateDB)
    : option (option error * list (list Z) * heap) :=
  let code := mkSlice (Some (length h)) 0 (length prog) (length prog) in
  let ctx := mkContext (0, 0, 0) 1 code [] nil_slice (Some 1) (Some 0) (Some 0)
               None None None None None None None None in
  match Verify fuel ctx gas (h ++ [prog]) d with
  | Some (r, s) => Some (v_err r, bytes (hp s) <$> dataStack (vm s), hp s)
  | None => None
  end.

(** The heap of a process that has run nothing: only [trueBytes] *)
Definition fresh_heap : heap := [[1]].

(** 1 1 NUMEQUAL 0 LEFT 0x00 CAT *)
Definition poison_prog : list Z := [0x51; 0x51; 0x9c; 0x00; 0x80; 0x01; 0x00; 0x7e].
(** 1 1 NUMEQUAL *)
Definition equal_prog : list Z := [0x51; 0x51; 0x9c].

(** C9: CAT can overwrite the process-wide constant [trueBytes].  Cutting a
    boolean true down to length 0 with LEFT and appending a zero byte with CAT
    writes that byte into the shared array; afterwards every boolean result is
    false, so a program that succeeds in a fresh process fails in this one. *)
Theorem CAT_overwrites_trueBytes (d : StateDB) :
  ∃ h, option_map snd (load_and_run 20 poison_prog 1000 fresh_heap d) = Some h
       ∧ bytes h trueBytes = [0]
       ∧ (option_map (λ r, r.1.1) (load_and_run 20 equal_prog 1000 fresh_heap d) = Some None)
       ∧ (option_map (λ r, r.1.1) (load_and_run 20 equal_prog 1000 h d) = Some (Some ErrFalseVMResult)).
Proof.
  eexists. split; [vm_compute; reflexivity|].
  split; [reflexivity|]. split; vm_compute; reflexivity.
Qed.

(** 'abcdef' DUP 2 LEFT 'XY' CAT DROP *)
Definition dup_left_cat_prog : list Z :=
  [0x06; 97; 98; 99; 100; 101; 102; 0x76; 0x52; 0x80; 0x02; 88; 89; 0x7e; 0x75].

(** CAT on a prefix taken with LEFT changes the string the prefix was
    taken from: the copy of [abcdef] kept below on the stack reads [abXYef]. *)
Theorem CAT_changes_other_items (d : StateDB) :
  option_map (λ r, r.1) (load_and_run 20 dup_left_cat_prog 1000 fresh_heap d)
  = Some (None, [[97; 98; 88; 89; 101; 102]]).
Proof. vm_compute. reflexivity. Qed.

(** PROGRAM 0 LEFT <4 times NOP> CAT *)
Definition self_modifying_prog : list Z :=
  [0xc4; 0x00; 0x80; 0x04; 0x61; 0x61; 0x61; 0x61; 0x7e].

(** A program can rewrite its own code, which is the control program of
    the transaction being validated: after the run the array that held the
    program starts with the four appended bytes. *)
Theorem CAT_rewrites_the_program (d : StateDB) :
  option_map (λ r, (r.1.1, r.2 !! 1%nat)) (load_and_run 20 self_modifying_prog 1000 fresh_heap d)
  = Some (None, Some [0x61; 0x61; 0x61; 0x61; 0x61; 0x61; 0x61; 0x61; 0x7e]).
Proof. vm_compute. reflexivity. Qed.
End overwrite.
