(* ===== verification/VmPredicate.v ===== *)
(** * CHECKPREDICATE can create gas

    A child machine that fails on a deferred push keeps the pushed item on its
    stack without having paid for it, and the parent is refunded the cost of
    the child's stacks.  A program that exploits this in a loop gains gas in
    every round, so the gas limit does not bound its execution. *)

From S2P Require Import Prelude Checked GoSlice VmProgram VmProgramSpec VmMachine VmOps.
From S2P Require Import EvmTransition VmEvmOps VmRun VmLogic VmGas.

(** ** Symbolic execution of the machine's primitives

    Each primitive on a state where it succeeds, as an equation, and a tactic
    that runs straight-line opcodes with them. *)

Section exec.
Context `{E : VmEnv}.

Lemma bind_ok {A B} (m : M A) (k : A → M B) s a s' :
  m s = (Ok a, s') → bind m k s = k a s'.
Proof. intros H. unfold bind. by rewrite H. Qed.

Lemma bind_err {A B} (m : M A) (k : A → M B) s e s' :
  m s = (Err e, s') → bind m k s = (Err e, s').
Proof. intros H. unfold bind. by rewrite H. Qed.

Lemma applyCost_ok n s : n <= runLimit (vm s) → is_int64 (runLimit (vm s) - n) →
  applyCost n s = (Ok tt, set_runLimit (runLimit (vm s) - n) s).
Proof.
  intros Hn Hr. unfold applyCost. rewrite (proj2 (Z.ltb_ge _ _)) by done. by rewrite int64_id.
Qed.

Lemma applyCost_err n s : runLimit (vm s) < n →
  applyCost n s = (Err ErrRunLimitExceeded, set_runLimit 0 s).
Proof. intros Hn. unfold applyCost. by rewrite (proj2 (Z.ltb_lt _ _)). Qed.

Lemma deferCost_ok n s : is_int64 (deferredCost (vm s) + n) →
  deferCost n s = (Ok tt, set_deferredCost (deferredCost (vm s) + n) s).
Proof. intros H. unfold deferCost, modify. by rewrite int64_id. Qed.

Lemma push_ok d s : 8 + slen d <= runLimit (vm s) → is_int64 (runLimit (vm s) - (8 + slen d)) →
  push d false s = (Ok tt, set_dataStack (dataStack (vm s) ++ [d])
                             (set_runLimit (runLimit (vm s) - (8 + slen d)) s)).
Proof. intros H1 H2. unfold push. erewrite bind_ok by (by apply applyCost_ok). done. Qed.

Lemma push_deferred_ok d s : is_int64 (deferredCost (vm s) + (8 + slen d)) →
  push d true s = (Ok tt, set_dataStack (dataStack (vm s) ++ [d])
                            (set_deferredCost (deferredCost (vm s) + (8 + slen d)) s)).
Proof. intros H. unfold push. erewrite bind_ok by (by apply deferCost_ok). done. Qed.

Lemma pop_ok ds x s : dataStack (vm s) = ds ++ [x] → 8 + slen x <= runLimit (vm s) →
  is_int64 (runLimit (vm s) - (8 + slen x)) →
  pop false s = (Ok x, set_dataStack ds (set_runLimit (runLimit (vm s) - (8 + slen x)) s)).
Proof.
  intros Hs H1 H2. unfold pop. erewrite bind_ok by done. cbv beta. rewrite Hs, last_snoc.
  erewrite bind_ok by (by apply applyCost_ok). unfold bind, modify, ret.
  rewrite length_app; simpl. by rewrite Nat.add_sub, take_app_length.
Qed.

Lemma pop_deferred_ok ds x s : dataStack (vm s) = ds ++ [x] →
  is_int64 (deferredCost (vm s) + (8 + slen x)) →
  pop true s = (Ok x, set_dataStack ds (set_deferredCost (deferredCost (vm s) + (8 + slen x)) s)).
Proof.
  intros Hs H2. unfold pop. erewrite bind_ok by done. cbv beta. rewrite Hs, last_snoc.
  erewrite bind_ok by (by apply deferCost_ok). unfold bind, modify, ret.
  rewrite length_app; simpl. by rewrite Nat.add_sub, take_app_length.
Qed.

Lemma popInt64_deferred_ok ds x n s : dataStack (vm s) = ds ++ [x] →
  is_int64 (deferredCost (vm s) + (8 + slen x)) → AsInt64 (bytes (hp s) x) = Ok n →
  popInt64 true s = (Ok n, set_dataStack ds (set_deferredCost (deferredCost (vm s) + (8 + slen x)) s)).
Proof.
  intros Hs H2 Hn. unfold popInt64. erewrite bind_ok by (by apply pop_deferred_ok).
  unfold bind, read, gets, lift. simpl. by rewrite Hn.
Qed.

Lemma popInt64_ok ds x n s : dataStack (vm s) = ds ++ [x] → 8 + slen x <= runLimit (vm s) →
  is_int64 (runLimit (vm s) - (8 + slen x)) → AsInt64 (bytes (hp s) x) = Ok n →
  popInt64 false s = (Ok n, set_dataStack ds (set_runLimit (runLimit (vm s) - (8 + slen x)) s)).
Proof.
  intros Hs H1 H2 Hn. unfold popInt64. erewrite bind_ok by (by apply pop_ok).
  unfold bind, read, gets, lift. simpl. by rewrite Hn.
Qed.
End exec.

(** ** The program *)

Section predicate.
Context `{E : VmEnv}.

(** 0 <PROGRAM> 1 CHECKPREDICATE DROP JUMP:0, then 300 bytes that are never run *)
Definition loop_prog : list Z :=
  [0x00; 0x01; 0xc4; 0x51; 0xc0; 0x75; 0x63; 0; 0; 0; 0] ++ replicate 300 0x61.

Definition loop_code : slice := mkSlice (Some 1%nat) 0 311 311.
Definition loop_ctx : Context :=
  mkContext (0, 0, 0) 1 loop_code [] nil_slice (Some 1) (Some 0) (Some 0)
    None None None None None None None None.

(** The machine in the loop: the fields every step overwrites are free. *)
Definition loop_state (d : StateDB) (h : heap) (g p np dc : Z) (dt : list Z) (ds : list slice) : State :=
  mkState (mkVM loop_ctx loop_code p np g dc true dt 0 ds []) h d.

Definition heap_has_loop (h : heap) : Prop := h !! 1%nat = Some loop_prog.

Lemma loop_bytes h : heap_has_loop h → bytes h loop_code = loop_prog.
Proof. intros H. unfold bytes, arr. simpl. rewrite H. reflexivity. Qed.

Lemma heap_has_loop_app h a : heap_has_loop h → heap_has_loop (h ++ [a]).
Proof. intros H. by apply lookup_app_l_Some. Qed.

Lemma parse0 : ParseOp loop_prog 0 = Ok (mkInst 0 1 []). Proof. vm_compute. reflexivity. Qed.
Lemma parse1 : ParseOp loop_prog 1 = Ok (mkInst 1 2 [0xc4]). Proof. vm_compute. reflexivity. Qed.
Lemma parse3 : ParseOp loop_prog 3 = Ok (mkInst 0x51 1 [1]). Proof. vm_compute. reflexivity. Qed.
Lemma parse4 : ParseOp loop_prog 4 = Ok (mkInst 0xc0 1 []). Proof. vm_compute. reflexivity. Qed.
Lemma parse5 : ParseOp loop_prog 5 = Ok (mkInst 0x75 1 []). Proof. vm_compute. reflexivity. Qed.
Lemma parse6 : ParseOp loop_prog 6 = Ok (mkInst 0x63 5 [0; 0; 0; 0]). Proof. vm_compute. reflexivity. Qed.

Lemma op_fn_loop c : op_fn c 0 = Some opFalse ∧ op_fn c 1 = Some opPushdata
  ∧ op_fn c 0x51 = Some opPushdata ∧ op_fn c 0xc0 = Some (opCheckPredicate c)
  ∧ op_fn c 0x75 = Some opDrop ∧ op_fn c 0x63 = Some opJump.
Proof. repeat split. Qed.

(** ** The primitives on a machine in the loop *)

Abbreviation gas_ok g := (0 <= g <= 2 ^ 62).

Lemma loop_applyCost n d h g p np dc dt ds : gas_ok g → gas_ok (g - n) → n <= g →
  applyCost n (loop_state d h g p np dc dt ds) = (Ok tt, loop_state d h (g - n) p np dc dt ds).
Proof. intros H1 H2 H3. by rewrite applyCost_ok by (simpl; ranges; lia). Qed.

Lemma loop_deferCost n d h g p np dc dt ds : -2000 <= dc + n <= 2000 →
  deferCost n (loop_state d h g p np dc dt ds) = (Ok tt, loop_state d h g p np (dc + n) dt ds).
Proof. intros H. by rewrite deferCost_ok by (simpl; ranges; lia). Qed.

Lemma loop_push x d h g p np dc dt ds : gas_ok g → gas_ok (g - (8 + slen x)) →
  push x false (loop_state d h g p np dc dt ds)
  = (Ok tt, loop_state d h (g - (8 + slen x)) p np dc dt (ds ++ [x])).
Proof. intros H1 H2. by rewrite push_ok by (simpl; ranges; lia). Qed.

Lemma loop_push_deferred x d h g p np dc dt ds : -2000 <= dc + (8 + slen x) <= 2000 →
  push x true (loop_state d h g p np dc dt ds)
  = (Ok tt, loop_state d h g p np (dc + (8 + slen x)) dt (ds ++ [x])).
Proof. intros H. by rewrite push_deferred_ok by (simpl; ranges; lia). Qed.

Lemma loop_pop x d h g p np dc dt ds : gas_ok g → gas_ok (g - (8 + slen x)) →
  pop false (loop_state d h g p np dc dt (ds ++ [x]))
  = (Ok x, loop_state d h (g - (8 + slen x)) p np dc dt ds).
Proof. intros H1 H2. by rewrite (pop_ok ds x) by (simpl; first [done | ranges; lia]). Qed.

Lemma loop_pop_deferred x d h g p np dc dt ds : -2000 <= dc + (8 + slen x) <= 2000 →
  pop true (loop_state d h g p np dc dt (ds ++ [x]))
  = (Ok x, loop_state d h g p np (dc + (8 + slen x)) dt ds).
Proof. intros H. by rewrite (pop_deferred_ok ds x) by (simpl; first [done | ranges; lia]). Qed.

Lemma loop_popInt64_deferred x n d h g p np dc dt ds : AsInt64 (bytes h x) = Ok n →
  -2000 <= dc + (8 + slen x) <= 2000 →
  popInt64 true (loop_state d h g p np dc dt (ds ++ [x]))
  = (Ok n, loop_state d h g p np (dc + (8 + slen x)) dt ds).
Proof. intros Hn H. by rewrite (popInt64_deferred_ok ds x n) by (simpl; first [done | ranges; lia]). Qed.

Lemma loop_new_bytes bs d h g p np dc dt ds :
  new_bytes bs (length bs) (loop_state d h g p np dc dt ds)
  = (Ok (mkSlice (Some (length h)) 0 (length bs) (length bs)),
     loop_state d (h ++ [bs]) g p np dc dt ds).
Proof. unfold new_bytes, alloc. by rewrite Nat.max_id, Nat.sub_diag, app_nil_r. Qed.

(** From the opcode's own effect to the effect of the step *)
Lemma loop_step c i f np' d h g p np dc dt ds h1 g1 np1 dc1 dt1 ds1 : heap_has_loop h →
  ParseOp loop_prog p = Ok i → op_fn c (Op i) = Some f → uint32 (p + Len i) = np' →
  f (loop_state d h g p np' 0 (Data i) ds) = (Ok tt, loop_state d h1 g1 p np1 dc1 dt1 ds1) →
  gas_ok g1 → gas_ok (g1 - dc1) → -2000 <= dc1 <= 2000 →
  step c (loop_state d h g p np dc dt ds)
  = (Ok tt, loop_state d h1 (g1 - dc1) np1 np1 dc1 dt1 ds1).
Proof.
  intros Hh Hi Hf <- Hex H1 H2 H3. unfold step, bind at 1 2 3, gets, lift, modify, next_inst.
  simpl. rewrite (loop_bytes h Hh), Hi, Hf. unfold exec_op.
  erewrite bind_ok by done. erewrite bind_ok by exact Hex. erewrite bind_ok by done.
  erewrite bind_ok by (apply loop_applyCost; simpl; lia). done.
Qed.

(** Run the next command of a straight-line opcode *)
Ltac exec_by L := erewrite bind_ok by (apply L; first [done | unfold slen; simpl; lia]).

Lemma op_False_loop d h g p np dt ds : 300 <= g <= 2 ^ 62 →
  opFalse (loop_state d h g p np 0 dt ds)
  = (Ok tt, loop_state d (h ++ [[]]) (g - 1 - 8) p np 0 dt
              (ds ++ [mkSlice (Some (length h)) 0 0 0])).
Proof.
  intros Hg. unfold opFalse, pushBool, BoolBytes. exec_by loop_applyCost.
  erewrite bind_ok by apply (loop_new_bytes []). apply loop_push; unfold slen; simpl; lia.
Qed.

Lemma op_Pushdata_loop x d h g p np ds : 200 <= g <= 2 ^ 62 →
  opPushdata (loop_state d h g p np 0 [x] ds)
  = (Ok tt, loop_state d (h ++ [[x]]) (g - 1 - 9) p np 0 [x]
              (ds ++ [mkSlice (Some (length h)) 0 1 1])).
Proof.
  intros Hg. unfold opPushdata. exec_by loop_applyCost.
  erewrite bind_ok by done. erewrite bind_ok by apply (loop_new_bytes [x]).
  apply loop_push; unfold slen; simpl; lia.
Qed.

Lemma op_Drop_loop x d h g p np dt : 200 <= g <= 2 ^ 62 → slen x = 0 →
  opDrop (loop_state d h g p np 0 dt [x])
  = (Ok tt, loop_state d h (g - 1 - 8) p np 0 dt []).
Proof.
  intros Hg Hx. unfold opDrop. exec_by loop_applyCost.
  erewrite bind_ok by (apply (loop_pop x _ _ _ _ _ _ _ []); lia). by rewrite Hx.
Qed.

Lemma op_Jump_loop d h g p np ds : 200 <= g <= 2 ^ 62 →
  opJump (loop_state d h g p np 0 [0; 0; 0; 0] ds)
  = (Ok tt, loop_state d h (g - 1) p 0 0 [0; 0; 0; 0] ds).
Proof. intros Hg. unfold opJump. exec_by loop_applyCost. done. Qed.

(** ** The child machine *)

Definition child_state (d : StateDB) (h : heap) (pred : slice) : State :=
  mkState (mkVM loop_ctx pred 0 0 1 0 false [] 1 [] []) h d.

(** The child runs the one-opcode program PROGRAM with one unit of gas: the
    opcode's own cost takes it, the deferred cost of the push is refused, and
    the pushed program is still on the child's stack. *)
Lemma parse_child : ParseOp [0xc4] 0 = Ok (mkInst 0xc4 1 []).
Proof. vm_compute. reflexivity. Qed.

Lemma op_fn_program c : op_fn c 0xc4 = Some opProgram.
Proof. reflexivity. Qed.

Lemma child_fails n d h pred : bytes h pred = [0xc4] → sl_len pred = 1%nat →
  ∃ s', (modify (set_pc 0) ;; run_loop (S n))%vm (child_state d h pred) = (Err ErrRunLimitExceeded, s')
  ∧ hp s' = h ∧ db s' = d ∧ runLimit (vm s') = 0
  ∧ dataStack (vm s') = [loop_code] ∧ altStack (vm s') = [].
Proof.
  intros Hb Hl. eexists. split; [|split_and!].
  { unfold bind at 1. cbn [modify run_loop]. unfold bind at 1, gets.
    assert (running (set_pc 0 (child_state d h pred)) = true) as ->.
    { unfold running, slen. simpl. by rewrite Hl. }
    unfold step. erewrite bind_err; [done|].
    unfold bind at 1 2 3, gets, lift, modify, next_inst.
    cbn [set_pc set_vm child_state vm hp db program pc]. rewrite Hb, parse_child.
    cbn [Op]. rewrite op_fn_program. unfold exec_op.
    erewrite bind_ok by done. erewrite bind_ok.
    2: { unfold opProgram, push_field. erewrite bind_ok by (apply applyCost_ok; simpl; ranges; lia).
         erewrite bind_ok by done. apply push_deferred_ok. simpl; unfold slen; simpl; ranges; lia. }
    erewrite bind_ok by done. erewrite bind_err; [done|].
    apply applyCost_err. unfold slen; simpl; lia. }
  all: reflexivity.
Qed.

Lemma run_child_err cr child s e s' : cr (set_vm child s) = (Err e, s') →
  run_child cr child s = (Ok (false, vm s'), mkState (vm s) (hp s') (db s')).
Proof. intros H. unfold run_child. by rewrite H. Qed.

Lemma AsInt64_loop : AsInt64 [] = Ok 0 ∧ AsInt64 [1] = Ok 1.
Proof. split; vm_compute; reflexivity. Qed.

Ltac else_branch :=
  match goal with |- context [if ?c then ?a else ?b] => change (if c then a else b) with b end.

Lemma op_CheckPredicate_loop n x y z d h g p np dt : 200 <= g <= 2 ^ 62 →
  bytes h x = [] → slen x = 0 → bytes h y = [0xc4] → sl_len y = 1%nat →
  bytes h z = [1] → slen z = 1 → 257 <= g →
  opCheckPredicate (modify (set_pc 0) ;; run_loop (S n))%vm (loop_state d h g p np 0 dt [x; y; z])
  = (Ok tt, loop_state d (h ++ [[]]) (g - 256 - 1) p np (-477) dt
              [mkSlice (Some (length h)) 0 0 0]).
Proof.
  intros Hg Bx Lx By Ly Bz Lz Hg'. destruct AsInt64_loop as [I0 I1].
  assert (slen y = 1) as Ly' by (unfold slen; lia).
  unfold opCheckPredicate. exec_by loop_applyCost. exec_by loop_deferCost.
  rewrite (app_assoc [x] [y] [z] : [x; y; z] = _).
  erewrite bind_ok by (apply loop_popInt64_deferred; [by rewrite Bz|lia]).
  erewrite bind_ok by (apply (loop_pop_deferred y _ _ _ _ _ _ _ [x]); lia).
  erewrite bind_ok by (apply (loop_popInt64_deferred x 0 _ _ _ _ _ _ _ []); [by rewrite Bx|lia]).
  else_branch. erewrite bind_ok by done. cbv zeta. else_branch. erewrite bind_ok by done.
  cbv zeta. else_branch.
  exec_by loop_applyCost. erewrite bind_ok by done. erewrite bind_ok by done.
  destruct (child_fails n d h y By Ly) as ([v h' d'] & Hc & <- & <- & Hr & Hd & Ha). simpl in Hr, Hd, Ha.
  erewrite bind_ok by (eapply run_child_err; exact Hc).
  cbn [fst snd vm hp db]. rewrite Hr, Hd, Ha.
  assert (stackCost [loop_code] = 319) as -> by (vm_compute; reflexivity).
  assert (stackCost [] = 0) as -> by (vm_compute; reflexivity).
  rewrite Lx, Lz, Ly'.
  match goal with |- bind _ _ ?s = _ =>
    change s with (loop_state d' h' (g - 256 - 1) p np (-166) dt []) end.
  do 3 erewrite bind_ok by (apply loop_deferCost; lia).
  unfold pushBool. erewrite bind_ok by apply (loop_new_bytes []).
  apply loop_push_deferred. unfold slen; simpl; lia.
Qed.

(** ** One round of the loop *)

Lemma bytes_at h k l : h !! k = Some l → bytes h (mkSlice (Some k) 0 (length l) (length l)) = l.
Proof. intros H. unfold bytes, arr. simpl. rewrite H. apply firstn_all. Qed.

Lemma run_loop_step n s s' : running s = true →
  step (modify (set_pc 0) ;; run_loop n)%vm s = (Ok tt, s') → run_loop (S n) s = run_loop n s'.
Proof. intros Hr Hs. cbn [run_loop]. unfold bind at 1, gets. rewrite Hr. by rewrite (bind_ok _ _ _ _ _ Hs). Qed.

Lemma loop_running d h g p np dc dt ds : p < 311 → running (loop_state d h g p np dc dt ds) = true.
Proof. intros Hp. unfold running. simpl. by apply Z.ltb_lt. Qed.

(** Unroll one step of [run_loop] through the effect [L] of its opcode. *)
Ltac round_step P np L Hh :=
  erewrite run_loop_step;
    [|apply loop_running; lia
     |eapply loop_step with (np' := np); [exact Hh|
        exact P|apply op_fn_loop|vm_compute; reflexivity|eapply L; unfold slen; simpl; lia|simpl; lia..]].

(** Three pushes, CHECKPREDICATE, DROP and JUMP: 181 units of gas gained *)
Lemma loop_round n d h g np dc dt : heap_has_loop h → 300 <= g → g + 200 <= 2 ^ 62 →
  ∃ h' np' dc' dt', heap_has_loop h'
  ∧ run_loop (6 + n) (loop_state d h g 0 np dc dt [])
    = run_loop n (loop_state d h' (g + 181) 0 np' dc' dt' []).
Proof.
  intros Hh Hg Hn. cbn [Nat.add].
  round_step parse0 1 op_False_loop Hh.
  pose proof (heap_has_loop_app _ [] Hh) as Hh1.
  round_step parse1 3 op_Pushdata_loop Hh1.
  pose proof (heap_has_loop_app _ [0xc4] Hh1) as Hh2.
  round_step parse3 4 op_Pushdata_loop Hh2.
  pose proof (heap_has_loop_app _ [1] Hh2) as Hh3. cbn [app].
  erewrite run_loop_step;
    [|apply loop_running; lia
     |eapply loop_step with (np' := 5); [exact Hh3|
        exact parse4|apply op_fn_loop|vm_compute; reflexivity
        |eapply op_CheckPredicate_loop|simpl; lia..]].
  2: lia.
  2: by apply (bytes_at _ _ []), lookup_app_l_Some, lookup_app_l_Some, list_lookup_middle.
  3: by apply (bytes_at _ _ [196]), lookup_app_l_Some, list_lookup_middle.
  4: by apply (bytes_at _ _ [1]), list_lookup_middle.
  2-4: reflexivity.
  2: lia.
  pose proof (heap_has_loop_app _ [] Hh3) as Hh4.
  round_step parse5 6 op_Drop_loop Hh4.
  round_step parse6 11 op_Jump_loop Hh4.
  do 4 eexists. split; [exact Hh4|].
  match goal with |- run_loop n (loop_state _ _ ?x _ _ _ _ _) = _ =>
    replace x with (g + 181) by lia end.
  reflexivity.
Qed.

Lemma loop_rounds k : ∀ d h g np dc dt, heap_has_loop h → 300 <= g →
  g + 200 * Z.of_nat k <= 2 ^ 62 → (run_loop (6 * k) (loop_state d h g 0 np dc dt [])).1 = Fuel.
Proof.
  induction k as [|k IH]; intros d h g np dc dt Hh Hg Hn; [done|].
  replace (6 * S k)%nat with (6 + 6 * k)%nat by lia.
  edestruct (loop_round (6 * k) d h g np dc dt) as (h' & np' & dc' & dt' & Hh' & ->); [done|lia..|].
  apply IH; [done|lia..].
Qed.

(** Running out of rounds after [m] rounds, the loop runs out after fewer. *)
Lemma fuel_below n m s : (n <= m)%nat → (run_loop m s).1 = Fuel → (run_loop n s).1 = Fuel.
Proof.
  intros Hnm Hm. pose proof (extends_run_loop n m Hnm s) as He.
  destruct (run_loop n s) as [[| | |] ?] eqn:Hr; simpl in *; try done; rewrite He in Hm; done.
Qed.

Definition loop_heap : heap := [[1]; loop_prog].

(** C4: the gas limit does not bound the execution of a program that uses
    CHECKPREDICATE.  With a limit of 1000 the 311-byte program
    [0 <PROGRAM> 1 CHECKPREDICATE DROP JUMP:0] (padded) is still running after
    a quadrillion instructions: a child machine that fails on the deferred
    cost of a push leaves the unpaid item on its stack, the parent is refunded
    that item's cost, and each round of the loop gains 181 units of gas. *)
Theorem CHECKPREDICATE_defeats_the_gas_limit (fuel : nat) (d : StateDB) :
  Z.of_nat fuel <= 10 ^ 15 → Verify fuel loop_ctx 1000 loop_heap d = None.
Proof.
  intros Hf. unfold Verify. cbn [VMVersion loop_ctx negb Z.eqb Pos.eqb push_args Arguments_ ret].
  assert ((run fuel (mkState (initVM loop_ctx 1000) loop_heap d)).1 = Fuel) as Hr.
  { unfold run, bind, modify. apply (fuel_below _ (6 * fuel)); [lia|].
    apply (loop_rounds fuel d loop_heap 1000 0 0 []); [reflexivity|lia..]. }
  by destruct (run fuel _) as [[| | |] ?].
Qed.
End predicate.

Lemma CHECKPREDICATE_defeats_the_gas_limit_witness :
  Verify 50 loop_ctx 1000 loop_heap ([] : toy_db) = None.
Proof. apply (CHECKPREDICATE_defeats_the_gas_limit (E := toy_env) 50). simpl. lia. Defined.
