(* ===== verification/VmSpec.v ===== *)
(** * What the data opcodes compute

    A specification of the opcodes that only compute on stack values, over
    stacks of byte strings (top first) and mathematical integers: no slices, no
    gas, no machine arithmetic.  [VmRefine] shows that the machine computes
    exactly this whenever it does not run out of gas. *)

From S2P Require Import Prelude Checked GoSlice VmProgram VmMachine.

Section spec.
Context `{E : VmEnv}.
Local Open Scope go_scope.

Abbreviation stack := (list (list Z)).
Abbreviation result A := (outcome error A).

Definition in_int64 (z : Z) : bool := (MinInt64 <=? z) && (z <=? MaxInt64).

(** A mathematical result as a machine value: encoded if it is an int64 *)
Definition ranged (z : Z) : result (list Z) :=
  if in_int64 z then Ok (Int64Bytes z) else Err ErrRange.

Definition truth (b : bool) : list Z := if b then [1] else [].

(** The top item as an integer, and the stack below it *)
Definition pop_int (st : stack) : result (Z * stack) :=
  match st with
  | [] => Err ErrDataStackUnderflow
  | x :: r => let? n := AsInt64 x in Ok (n, r)
  end.

Definition pop_item (st : stack) : result (list Z * stack) :=
  match st with
  | [] => Err ErrDataStackUnderflow
  | x :: r => Ok (x, r)
  end.

Definition unary (f : Z → result (list Z)) (st : stack) : result stack :=
  let? (n, r) := pop_int st in let? v := f n in Ok (v :: r).

Definition binary (f : Z → Z → result (list Z)) (st : stack) : result stack :=
  let? (y, r) := pop_int st in
  let? (x, r) := pop_int r in
  let? v := f x y in Ok (v :: r).

Definition items2 (f : list Z → list Z → result stack) (st : stack) : result stack :=
  let? (y, r) := pop_item st in
  let? (x, r) := pop_item r in
  let? v := f x y in Ok (v ++ r).

(** ** Numbers *)

Definition spec_div (x y : Z) : result (list Z) :=
  if y =? 0 then Err ErrDivZero else ranged (Z.quot x y).

(** The result takes the sign of the divisor; [MinInt64 mod -1] is refused. *)
Definition spec_mod (x y : Z) : result (list Z) :=
  if y =? 0 then Err ErrDivZero
  else if (x =? MinInt64) && (y =? -1) then Err ErrRange
  else Ok (Int64Bytes (x mod y)).

Definition spec_rshift (x y : Z) : result (list Z) :=
  if y <? 0 then Err ErrBadValue else Ok (Int64Bytes (x / 2 ^ y)).

(** The shift count is rejected before the other operand is looked at. *)
Definition spec_lshift (st : stack) : result stack :=
  let? (y, r) := pop_int st in
  if y <? 0 then Err ErrBadValue
  else
    let? (x, r) := pop_int r in
    let? v := ranged (x * 2 ^ y) in Ok (v :: r).

Definition spec_within (st : stack) : result stack :=
  let? (mx, r) := pop_int st in
  let? (mn, r) := pop_int r in
  let? (x, r) := pop_int r in
  Ok (truth ((mn <=? x) && (x <? mx)) :: r).

Definition numeric_spec (op : Z) : option (stack → result stack) :=
  match op with
  | OP_1ADD => Some (unary (λ n, ranged (n + 1)))
  | OP_1SUB => Some (unary (λ n, ranged (n - 1)))
  | OP_2MUL => Some (unary (λ n, ranged (n * 2)))
  | OP_2DIV => Some (unary (λ n, Ok (Int64Bytes (n / 2))))
  | OP_NEGATE => Some (unary (λ n, ranged (- n)))
  | OP_ABS => Some (unary (λ n, ranged (Z.abs n)))
  | OP_NOT => Some (unary (λ n, Ok (truth (n =? 0))))
  | OP_0NOTEQUAL => Some (unary (λ n, Ok (truth (negb (n =? 0)))))
  | OP_ADD => Some (binary (λ x y, ranged (x + y)))
  | OP_SUB => Some (binary (λ x y, ranged (x - y)))
  | OP_MUL => Some (binary (λ x y, ranged (x * y)))
  | OP_DIV => Some (binary spec_div)
  | OP_MOD => Some (binary spec_mod)
  | OP_LSHIFT => Some spec_lshift
  | OP_RSHIFT => Some (binary spec_rshift)
  | OP_NUMEQUAL => Some (binary (λ x y, Ok (truth (x =? y))))
  | OP_NUMNOTEQUAL => Some (binary (λ x y, Ok (truth (negb (x =? y)))))
  | OP_LESSTHAN => Some (binary (λ x y, Ok (truth (x <? y))))
  | OP_GREATERTHAN => Some (binary (λ x y, Ok (truth (y <? x))))
  | OP_LESSTHANOREQUAL => Some (binary (λ x y, Ok (truth (x <=? y))))
  | OP_GREATERTHANOREQUAL => Some (binary (λ x y, Ok (truth (y <=? x))))
  | OP_MIN => Some (binary (λ x y, Ok (Int64Bytes (Z.min x y))))
  | OP_MAX => Some (binary (λ x y, Ok (Int64Bytes (Z.max x y))))
  | OP_WITHIN => Some spec_within
  | OP_NUMEQUALVERIFY => Some (λ st,
      let? (y, r) := pop_int st in
      let? (x, r) := pop_int r in
      if x =? y then Ok r else Err ErrVerifyFailed)
  | _ => None
  end.

(** ** Booleans and byte strings *)

Fixpoint zip_pad (f : Z → Z → Z) (n : nat) (xs ys : list Z) : list Z :=
  match n with
  | O => []
  | S n => f (hd 0 xs) (hd 0 ys) :: zip_pad f n (tl xs) (tl ys)
  end.

(** Bytewise, the shorter string padded with zeros *)
Definition bytewise (f : Z → Z → Z) (x y : list Z) : list Z :=
  zip_pad f (Nat.max (length x) (length y)) x y.

Definition spec_left (st : stack) : result stack :=
  let? (n, r) := pop_int st in
  if n <? 0 then Err ErrBadValue
  else let? (x, r) := pop_item r in
       if len x <? n then Err ErrBadValue else Ok (take (Z.to_nat n) x :: r).

Definition spec_right (st : stack) : result stack :=
  let? (n, r) := pop_int st in
  if n <? 0 then Err ErrBadValue
  else let? (x, r) := pop_item r in
       if len x <? n then Err ErrBadValue
       else Ok (drop (Z.to_nat (len x - n)) x :: r).

Definition spec_substr (st : stack) : result stack :=
  let? (n, r) := pop_int st in
  if n <? 0 then Err ErrBadValue
  else let? (off, r) := pop_int r in
       if off <? 0 then Err ErrBadValue
       else let? (x, r) := pop_item r in
            if (MaxInt64 <? off + n) || (len x <? off + n) then Err ErrBadValue
            else Ok (take (Z.to_nat n) (drop (Z.to_nat off) x) :: r).

Definition spec_hash (h : list Z → list Z) (st : stack) : result stack :=
  let? (x, r) := pop_item st in Ok (h x :: r).

Definition spec_checksig (st : stack) : result stack :=
  let? (k, r) := pop_item st in
  let? (m, r) := pop_item r in
  let? (sg, r) := pop_item r in
  if negb (len m =? 32) then Err ErrBadValue
  else Ok (truth ((len k =? 32) && ed25519_Verify k m sg) :: r).

Definition bytes_spec (op : Z) : option (stack → result stack) :=
  match op with
  | OP_BOOLAND => Some (items2 (λ x y, Ok [truth (AsBool x && AsBool y)]))
  | OP_BOOLOR => Some (items2 (λ x y, Ok [truth (AsBool x || AsBool y)]))
  | OP_INVERT => Some (λ st, let? (x, r) := pop_item st in Ok (((λ b, Z.lxor b 255) <$> x) :: r))
  | OP_AND => Some (items2 (λ x y, Ok [zip_with Z.land x y]))
  | OP_OR => Some (items2 (λ x y, Ok [bytewise Z.lor x y]))
  | OP_XOR => Some (items2 (λ x y, Ok [bytewise Z.lxor x y]))
  | OP_EQUAL => Some (items2 (λ x y, Ok [truth (bool_decide (x = y))]))
  | OP_EQUALVERIFY => Some (items2 (λ x y, if bool_decide (x = y) then Ok [] else Err ErrVerifyFailed))
  | OP_LEFT => Some spec_left
  | OP_RIGHT => Some spec_right
  | OP_SUBSTR => Some spec_substr
  | OP_SIZE => Some (λ st, let? (x, r) := pop_item st in Ok (Int64Bytes (len x) :: x :: r))
  | OP_VERIFY => Some (λ st, let? (x, r) := pop_item st in
                             if AsBool x then Ok r else Err ErrVerifyFailed)
  | OP_SHA256 => Some (spec_hash sha256_Sum)
  | OP_SHA3 => Some (spec_hash sha3_Sum256)
  | OP_HASH160 => Some (spec_hash Ripemd160)
  | OP_CHECKSIG => Some spec_checksig
  | _ => None
  end.

(** ** Stack manipulation *)

(** The index on top of the stack; the largest int64 is refused like a
    negative one *)
Definition pop_index (st : stack) : result (nat * stack) :=
  let? (n, r) := pop_int st in
  if (n <? 0) || (n =? MaxInt64) then Err ErrBadValue
  else if len r <=? n then Err ErrDataStackUnderflow
  else Ok (Z.to_nat n, r).

Definition spec_pick (st : stack) : result stack :=
  let? (n, r) := pop_index st in
  match r !! n with
  | Some x => Ok (x :: r)
  | None => Err ErrDataStackUnderflow
  end.

Definition spec_roll (st : stack) : result stack :=
  let? (n, r) := pop_index st in
  match r !! n with
  | Some x => Ok (x :: take n r ++ drop (S n) r)
  | None => Err ErrDataStackUnderflow
  end.

(** The opcodes given by the shape of the stack they need *)
Definition shuffle (op : Z) : option (stack → option stack) :=
  match op with
  | OP_NOP => Some (λ st, Some st)
  | OP_FALSE => Some (λ st, Some ([] :: st))
  | OP_1NEGATE => Some (λ st, Some (Int64Bytes (-1) :: st))
  | OP_DEPTH => Some (λ st, Some (Int64Bytes (len st) :: st))
  | OP_DROP => Some (λ st, match st with _ :: r => Some r | _ => None end)
  | OP_2DROP => Some (λ st, match st with _ :: _ :: r => Some r | _ => None end)
  | OP_DUP => Some (λ st, match st with a :: r => Some (a :: a :: r) | _ => None end)
  | OP_2DUP => Some (λ st,
      match st with a :: b :: r => Some (a :: b :: a :: b :: r) | _ => None end)
  | OP_3DUP => Some (λ st,
      match st with a :: b :: c :: r => Some (a :: b :: c :: a :: b :: c :: r) | _ => None end)
  | OP_IFDUP => Some (λ st,
      match st with a :: r => Some (if AsBool a then a :: a :: r else a :: r) | _ => None end)
  | OP_NIP => Some (λ st, match st with a :: _ :: r => Some (a :: r) | _ => None end)
  | OP_OVER => Some (λ st, match st with a :: b :: r => Some (b :: a :: b :: r) | _ => None end)
  | OP_2OVER => Some (λ st,
      match st with
      | a :: b :: c :: d :: r => Some (c :: d :: a :: b :: c :: d :: r) | _ => None end)
  | OP_SWAP => Some (λ st, match st with a :: b :: r => Some (b :: a :: r) | _ => None end)
  | OP_2SWAP => Some (λ st,
      match st with a :: b :: c :: d :: r => Some (c :: d :: a :: b :: r) | _ => None end)
  | OP_ROT => Some (λ st, match st with a :: b :: c :: r => Some (c :: a :: b :: r) | _ => None end)
  | OP_2ROT => Some (λ st,
      match st with
      | a :: b :: c :: d :: e :: f :: r => Some (e :: f :: a :: b :: c :: d :: r) | _ => None end)
  | OP_TUCK => Some (λ st, match st with a :: b :: r => Some (a :: b :: a :: r) | _ => None end)
  | _ => None
  end.

Definition stack_spec (op : Z) : option (stack → result stack) :=
  match op with
  | OP_PICK => Some spec_pick
  | OP_ROLL => Some spec_roll
  | OP_FAIL => Some (λ _, Err ErrReturn)
  | _ => (λ f st, match f st with Some st' => Ok st' | None => Err ErrDataStackUnderflow end)
           <$> shuffle op
  end.

(** ** The two stacks *)

Definition data_spec (i : Instruction) : option (stack → result stack) :=
  if ((OP_DATA_1 <=? Op i) && (Op i <=? OP_PUSHDATA4)) || ((OP_1 <=? Op i) && (Op i <=? OP_16))
  then Some (λ st, Ok (Data i :: st))
  else match numeric_spec (Op i) with
       | Some f => Some f
       | None => match bytes_spec (Op i) with
                 | Some f => Some f
                 | None => stack_spec (Op i)
                 end
       end.

Definition abs_op (i : Instruction) : option (stack * stack → result (stack * stack)) :=
  match Op i with
  | OP_TOALTSTACK => Some (λ '(st, alt),
      match st with x :: r => Ok (r, x :: alt) | [] => Err ErrDataStackUnderflow end)
  | OP_FROMALTSTACK => Some (λ '(st, alt),
      match alt with x :: r => Ok (x :: st, r) | [] => Err ErrAltStackUnderflow end)
  | _ => (λ f '(st, alt), let? st' := f st in Ok (st', alt)) <$> data_spec i
  end.
End spec.
