(* ===== verification/VmRefine.v ===== *)
(** * The data opcodes implement their specification

    A second logic over the monad: [runs m c Q X] says that from every state
    with configuration [c] (heap, the two stacks top first, the instruction's
    data) the command ends in [Q], or stops with an error in [X], or runs out
    of gas; it never panics.  Each opcode of [VmSpec.abs_op] is shown to
    compute what the specification says. *)

From S2P Require Import Prelude Checked GoSlice VmProgram VmProgramSpec VmMachine VmOps.
From S2P Require Import EvmTransition VmEvmOps VmRun VmLogic VmSpec.

Section refine.
Context `{E : VmEnv}.

Record Cfg := mkCfg {
  c_hp : heap;
  c_ds : list slice;
  c_alt : list slice;
  c_data : list Z;
}.

Definition cfg (s : State) : Cfg :=
  mkCfg (hp s) (rev (dataStack (vm s))) (rev (altStack (vm s))) (data (vm s)).

Definition runs {A} (m : M A) (c : Cfg) (Q : A → Cfg → Prop) (X : error → Prop) : Prop :=
  ∀ s, cfg s = c →
  match m s with
  | (Ok a, s') => Q a (cfg s')
  | (Err e, _) => e = ErrRunLimitExceeded ∨ X e
  | _ => False
  end.

Lemma runs_bind {A B} (m : M A) (k : A → M B) c Q X :
  runs m c (λ a c', runs (k a) c' Q X) X → runs (bind m k) c Q X.
Proof.
  intros H s Hs. specialize (H s Hs). unfold bind.
  destruct (m s) as [[a|e| |] s']; [by apply H|done..].
Qed.

Lemma runs_ret {A} (a : A) c (Q : A → Cfg → Prop) X : Q a c → runs (ret a) c Q X.
Proof. intros H s <-. done. Qed.

Lemma runs_throw {A} e c (Q : A → Cfg → Prop) (X : error → Prop) : X e → runs (throw e) c Q X.
Proof. intros H s <-. by right. Qed.

Lemma runs_modify f c (Q : unit → Cfg → Prop) X :
  (∀ s, cfg s = c → Q tt (cfg (f s))) → runs (modify f) c Q X.
Proof. intros H s Hs. by apply H. Qed.

Lemma runs_gets {A} (f : State → A) c (Q : A → Cfg → Prop) X :
  (∀ s, cfg s = c → Q (f s) c) → runs (gets f) c Q X.
Proof. intros H s Hs. unfold gets. rewrite Hs. by apply H. Qed.

Lemma runs_applyCost n c (Q : unit → Cfg → Prop) X : Q tt c → runs (applyCost n) c Q X.
Proof. intros H s <-. unfold applyCost. destruct (_ <? _); [by left|done]. Qed.

Lemma runs_deferCost n c (Q : unit → Cfg → Prop) X : Q tt c → runs (deferCost n) c Q X.
Proof. intros H s <-. done. Qed.

Lemma runs_cost (b : bool) n c (Q : unit → Cfg → Prop) X :
  Q tt c → runs (if b then deferCost n else applyCost n) c Q X.
Proof. destruct b; [apply runs_deferCost|apply runs_applyCost]. Qed.

(** ** Stack primitives *)

Lemma runs_push x b h ds alt dt (Q : unit → Cfg → Prop) X :
  Q tt (mkCfg h (x :: ds) alt dt) → runs (push x b) (mkCfg h ds alt dt) Q X.
Proof.
  intros H. unfold push. apply runs_bind, runs_cost, runs_modify. intros s [= <- <- <- <-].
  unfold cfg. simpl. by rewrite rev_app_distr.
Qed.

Lemma rev_last (l : list slice) x r : rev l = x :: r →
  last l = Some x ∧ rev (take (length l - 1) l) = r.
Proof.
  intros H. rewrite <- (rev_involutive l), H. simpl. split; [by rewrite last_snoc|].
  rewrite length_app. simpl. by rewrite Nat.add_sub, take_app_length, rev_involutive.
Qed.

Lemma rev_nil_inv (l : list slice) : rev l = [] → l = [].
Proof. intros H. by rewrite <- (rev_involutive l), H. Qed.

Lemma runs_pop b h ds alt dt (Q : slice → Cfg → Prop) (X : error → Prop) :
  (ds = [] → X ErrDataStackUnderflow) →
  (∀ x r, ds = x :: r → Q x (mkCfg h r alt dt)) → runs (pop b) (mkCfg h ds alt dt) Q X.
Proof.
  intros Hn Hc s Hs. injection Hs as <- Hds <- <-. unfold pop, bind at 1, gets.
  destruct ds as [|x r].
  - rewrite (rev_nil_inv _ Hds). simpl. right. by apply Hn.
  - destruct (rev_last _ _ _ Hds) as [-> Ht].
    apply (runs_bind _ _ (cfg s)); [|done]. apply runs_cost, runs_bind, runs_modify.
    intros s' Hs'. apply runs_ret.
    assert (cfg (set_dataStack (take (length (dataStack (vm s)) - 1) (dataStack (vm s))) s')
      = mkCfg (hp s) r (rev (altStack (vm s))) (data (vm s))) as ->; [|by apply Hc].
    unfold cfg in *. simpl. rewrite Ht. by injection Hs' as -> _ -> ->.
Qed.

Lemma AsInt64_cases bs : (∃ n, AsInt64 bs = Ok n ∧ is_int64 n) ∨ (∃ e, AsInt64 bs = Err e).
Proof.
  unfold AsInt64. destruct (_ =? _); [left; by exists 0|].
  destruct (_ <? _); [right; by eexists|]. left. eexists. split; [done|]. apply int64_range.
Qed.

Lemma runs_popInt64 b h ds alt dt (Q : Z → Cfg → Prop) (X : error → Prop) :
  (ds = [] → X ErrDataStackUnderflow) →
  (∀ x r e, ds = x :: r → AsInt64 (bytes h x) = Err e → X e) →
  (∀ x r n, ds = x :: r → AsInt64 (bytes h x) = Ok n → is_int64 n → Q n (mkCfg h r alt dt)) →
  runs (popInt64 b) (mkCfg h ds alt dt) Q X.
Proof.
  intros Hn He Hc. unfold popInt64. apply runs_bind, runs_pop; [done|]. intros x r ->.
  apply runs_bind, runs_gets. intros s [= <- _ _ _] s' Hs'. unfold lift.
  destruct (AsInt64_cases (bytes (hp s) x)) as [(n & Hx & Hr)|(e & Hx)]; rewrite Hx.
  - rewrite Hs'. by eapply Hc.
  - right. by eapply He.
Qed.

Lemma runs_read x h ds alt dt (Q : list Z → Cfg → Prop) X :
  Q (bytes h x) (mkCfg h ds alt dt) → runs (read x) (mkCfg h ds alt dt) Q X.
Proof. intros H. apply runs_gets. by intros s [= <- _ _ _]. Qed.

Lemma runs_get_stack h ds alt dt (Q : list slice → Cfg → Prop) X :
  Q (rev ds) (mkCfg h ds alt dt) → runs get_stack (mkCfg h ds alt dt) Q X.
Proof. intros H. apply runs_gets. intros s [= <- <- <- <-]. by rewrite rev_involutive in H. Qed.

Lemma runs_put_stack l h ds alt dt (Q : unit → Cfg → Prop) X :
  Q tt (mkCfg h (rev l) alt dt) → runs (put_stack l) (mkCfg h ds alt dt) Q X.
Proof. intros H. apply runs_modify. by intros s [= <- <- <- <-]. Qed.

(** Put items on the stack without paying for them *)
Lemma runs_append l h ds alt dt (Q : unit → Cfg → Prop) X :
  Q tt (mkCfg h (rev l ++ ds) alt dt) →
  runs (modify (λ s, set_dataStack (dataStack (vm s) ++ l) s)) (mkCfg h ds alt dt) Q X.
Proof.
  intros H. apply runs_modify. intros s [= <- <- <- <-].
  unfold cfg. simpl. by rewrite rev_app_distr.
Qed.

Lemma runs_top h ds alt dt (Q : slice → Cfg → Prop) (X : error → Prop) :
  (ds = [] → X ErrDataStackUnderflow) →
  (∀ x r, ds = x :: r → Q x (mkCfg h ds alt dt)) → runs top (mkCfg h ds alt dt) Q X.
Proof.
  intros Hn Hc. unfold top. apply runs_bind, runs_gets. intros s [= <- Hds <- <-].
  destruct ds as [|x r].
  - rewrite (rev_nil_inv _ Hds). apply runs_throw. by apply Hn.
  - destruct (rev_last _ _ _ Hds) as [-> _]. by eapply runs_ret, Hc.
Qed.

Lemma len_rev {A} (l : list A) : len (rev l) = len l.
Proof. unfold len. by rewrite length_rev. Qed.

(** The item [k] places below the top *)
Lemma runs_stack_at k i h ds alt dt x (Q : slice → Cfg → Prop) X : ds !! k = Some x →
  i = len ds - 1 - Z.of_nat k → Q x (mkCfg h ds alt dt) →
  runs (stack_at i) (mkCfg h ds alt dt) Q X.
Proof.
  intros Hk -> HQ. unfold stack_at. apply runs_bind, runs_gets. intros s [= <- <- <- <-].
  apply lookup_lt_Some in Hk as Hlt. rewrite length_rev in Hlt. unfold len. rewrite length_rev.
  rewrite (proj2 (Z.ltb_ge _ _)) by lia.
  replace (Z.to_nat _) with (length (dataStack (vm s)) - S k)%nat by lia.
  rewrite rev_alt in Hk. fold (reverse (dataStack (vm s))) in Hk. rewrite reverse_lookup in Hk by done. rewrite Hk. by apply runs_ret.
Qed.

Lemma runs_new_bytes bs cap h ds alt dt (Q : slice → Cfg → Prop) X :
  (∀ h' sl, h `prefix_of` h' → slice_ok h' sl → bytes h' sl = bs → Q sl (mkCfg h' ds alt dt)) →
  runs (new_bytes bs cap) (mkCfg h ds alt dt) Q X.
Proof.
  intros H s [= <- <- <- <-]. unfold new_bytes.
  specialize (H _ _ (alloc_prefix (hp s) bs cap) (alloc_ok (hp s) bs cap) (alloc_bytes (hp s) bs cap)).
  by destruct (alloc (hp s) bs cap).
Qed.

(** ** Ends of opcodes: the stack below the result is untouched *)

Definition Done (h : heap) (alt : list slice) (dt : list Z) (res : outcome error (list (list Z)))
    : unit → Cfg → Prop := λ _ c',
  ∃ h' ds', c' = mkCfg h' ds' alt dt ∧ h `prefix_of` h' ∧ Forall (slice_ok h') ds'
            ∧ res = Ok (bytes h' <$> ds').

Definition Bad (res : outcome error (list (list Z))) : error → Prop := λ e, res = Err e.

Lemma slices_grow h h' ds : h `prefix_of` h' → Forall (slice_ok h) ds → Forall (slice_ok h') ds.
Proof.
  intros Hp Hds. eapply Forall_impl; [exact Hds|]. intros x. simpl.
  apply slice_ok_grow. by apply prefix_heap_grow.
Qed.

Lemma bytes_grow h h' ds : h `prefix_of` h' → Forall (slice_ok h) ds →
  bytes h' <$> ds = bytes h <$> ds.
Proof.
  intros Hp Hds. apply list_fmap_ext. intros i x Hx. apply bytes_prefix; [done|].
  by eapply Forall_lookup_1.
Qed.

Lemma Done_here h ds alt dt res : Forall (slice_ok h) ds → res = Ok (bytes h <$> ds) →
  Done h alt dt res tt (mkCfg h ds alt dt).
Proof. intros Hds ->. by exists h, ds. Qed.

(** A fresh value [bs] on top of old items *)
Lemma Done_value h h' sl bs ds alt dt res : Forall (slice_ok h) ds → h `prefix_of` h' →
  slice_ok h' sl → bytes h' sl = bs → res = Ok (bs :: (bytes h <$> ds)) →
  Done h alt dt res tt (mkCfg h' (sl :: ds) alt dt).
Proof.
  intros Hds Hp Hsl <- ->. exists h', (sl :: ds). split_and!; try done.
  - constructor; [done|]. by eapply slices_grow.
  - simpl. by rewrite (bytes_grow h h').
Qed.

Lemma trim_zeros_take l : take (length (trim_zeros l)) l = trim_zeros l.
Proof. rewrite <- (trim_zeros_pad l) at 2. apply take_app_length. Qed.

Section ends.
Context (h : heap) (ds alt : list slice) (dt : list Z).
Hypothesis Hds : Forall (slice_ok h) ds.

Lemma runs_end_bytes bs cap b res X : res = Ok (bs :: (bytes h <$> ds)) →
  runs (new_bytes bs cap) (mkCfg h ds alt dt)
    (λ sl c', runs (push sl b) c' (Done h alt dt res) X) X.
Proof.
  intros Hres. apply runs_new_bytes. intros h' sl ???.
  apply runs_push. by eapply Done_value.
Qed.

Lemma runs_end_int n b res X : res = Ok (Int64Bytes n :: (bytes h <$> ds)) →
  runs (pushInt64 n b) (mkCfg h ds alt dt) (Done h alt dt res) X.
Proof.
  intros Hres. unfold pushInt64, Int64Slice. unfold Int64Bytes in Hres at 1.
  destruct (Z.eqb_spec n 0) as [->|Hn].
  { simpl in Hres. by apply runs_bind, runs_end_bytes. }
  apply runs_bind, runs_bind, runs_new_bytes. intros h' sl Hp Hok Hb.
  assert (length (Int64Bytes n) <= sl_len sl)%nat as Hl.
  { rewrite <- (length_bytes h' sl Hok), Hb, length_le_bytes. apply length_Int64Bytes. }
  assert (sl_len sl <= sl_cap sl)%nat as Hc.
  { unfold slice_ok in Hok. destruct (sl_arr sl); [by destruct Hok as (? & ? & ? & ?)|].
    by rewrite Hok. }
  destruct (reslice sl 0 (length (Int64Bytes n))) as [r|] eqn:Hr.
  2: { unfold reslice in Hr. case_decide; [done|lia]. }
  apply runs_ret, runs_push. eapply Done_value; [done|done|by eapply reslice_ok|done|].
  rewrite (reslice_bytes h' sl 0 _ r Hok Hl Hr), Hb, Hres. rewrite drop_0, Nat.sub_0_r.
  f_equal. f_equal. unfold Int64Bytes. rewrite (proj2 (Z.eqb_neq n 0) Hn). by rewrite trim_zeros_take.
Qed.

Lemma runs_end_bool (v b : bool) res X : h !! 0%nat = Some [1] →
  res = Ok (truth v :: (bytes h <$> ds)) →
  runs (pushBool v b) (mkCfg h ds alt dt) (Done h alt dt res) X.
Proof.
  intros H0 Hres. unfold pushBool, BoolBytes. destruct v; [|by apply runs_bind, runs_end_bytes].
  apply runs_bind, runs_ret, runs_push. eapply Done_value; [done|done| | |done].
  - exists [1]. simpl. split; [done|]. lia.
  - unfold bytes, arr. simpl. by rewrite H0.
Qed.

Lemma runs_end_checked o z res : o = exact_i64 z →
  res = (let? v := ranged z in Ok (v :: (bytes h <$> ds)))%go →
  runs (push_checked o) (mkCfg h ds alt dt) (Done h alt dt res) (Bad res).
Proof.
  intros -> Hres. unfold ranged, in_int64 in Hres. unfold push_checked, exact_i64, exact.
  destruct (_ && _); [by apply runs_end_int|by apply runs_throw].
Qed.
End ends.

(** ** The opcodes *)

Definition refines (f : M unit) (φ : list (list Z) → outcome error (list (list Z))) : Prop :=
  ∀ h ds alt dt, Forall (slice_ok h) ds → h !! 0%nat = Some [1] →
  let res := φ (bytes h <$> ds) in
  runs f (mkCfg h ds alt dt) (Done h alt dt res) (Bad res).

(** Rewrite the specification's side with what is known of the operands. *)
Ltac spec_eval :=
  cbv [unary binary items2 pop_int pop_item spec_div spec_mod spec_rshift spec_lshift spec_within
    Bad spec_left spec_right spec_substr spec_hash spec_checksig
    spec_pick spec_roll pop_index];
  repeat (cbn [fmap list_fmap obind];
    match goal with H : AsInt64 _ = _ |- _ => rewrite !H; clear H end); cbn [fmap list_fmap obind].

Ltac forall_inv :=
  repeat match goal with H : Forall _ (_ :: _) |- _ => apply Forall_cons in H as [? ?] end.

(** One primitive of an opcode *)
Ltac run1 :=
  match goal with
  | |- runs (bind _ _) _ _ _ => apply runs_bind
  | |- runs (applyCost _) _ _ _ => apply runs_applyCost
  | |- runs (deferCost _) _ _ _ => apply runs_deferCost
  | |- runs (read _) _ _ _ => apply runs_read
  | |- runs get_stack _ _ _ => apply runs_get_stack
  | |- runs (ret _) _ _ _ => apply runs_ret
  | |- runs (pop _) _ _ _ =>
      apply runs_pop; [intros ->; by spec_eval|intros ? ? ->; forall_inv]
  | |- runs top _ _ _ =>
      apply runs_top; [intros ->; by spec_eval|intros ? ? ->]
  | |- runs (popInt64 _) _ _ _ =>
      apply runs_popInt64;
        [intros ->; by spec_eval|intros ? ? ? -> ?; by spec_eval
        |intros ? ? ? -> ? ?; forall_inv]
  end.
Ltac run := repeat run1.

Ltac start := intros h ds alt dt Hds H0; cbv zeta.

Lemma checked_unary f spec : (∀ n, is_int64 n → f n = exact_i64 (spec n)) →
  refines (applyCost 2 ;; n <- popInt64 true ;; push_checked (f n))%vm
          (unary (λ n, ranged (spec n))).
Proof.
  intros Hf. start. run. apply runs_end_checked with (z := spec n); [done|by apply Hf|].
  by spec_eval.
Qed.

Lemma checked_binary c f spec : (∀ x y, is_int64 x → is_int64 y → f x y = exact_i64 (spec x y)) →
  refines (applyCost c ;; y <- popInt64 true ;; x <- popInt64 true ;; push_checked (f x y))%vm
          (binary (λ x y, ranged (spec x y))).
Proof.
  intros Hf. start. run. eapply runs_end_checked; [done|by apply Hf|]. by spec_eval.
Qed.

Lemma compare_binary op spec : (∀ x y, spec x y =
    match op with
    | cmpLess => x <? y
    | cmpLessEqual => x <=? y
    | cmpGreater => x >? y
    | cmpGreaterEqual => x >=? y
    | cmpEqual => x =? y
    | cmpNotEqual => negb (x =? y)
    end) →
  refines (doNumCompare op) (binary (λ x y, Ok (truth (spec x y)))).
Proof.
  intros Hf. start. unfold doNumCompare. run. apply runs_end_bool; [done|done|].
  spec_eval. by rewrite Hf.
Qed.

Lemma refines_abs : refines opAbs (unary (λ n, ranged (Z.abs n))).
Proof.
  start. unfold opAbs. run. destruct (Z.eqb_spec n MinInt64) as [->|Hn].
  - apply runs_throw. by spec_eval.
  - apply runs_end_int; [done|]. spec_eval. ranges. unfold ranged, in_int64.
    rewrite (proj2 (andb_true_iff _ _)) by (split; apply Z.leb_le; lia). simpl. do 3 f_equal.
    destruct (Z.ltb_spec n 0); [rewrite int64_id by (ranges; lia)|]; lia.
Qed.

Lemma refines_div : refines opDiv (binary spec_div).
Proof.
  start. unfold opDiv. run. destruct (n =? 0) eqn:Hz.
  - apply runs_throw. spec_eval. by rewrite Hz.
  - apply Z.eqb_neq in Hz as Hn. eapply runs_end_checked; [done|by apply DivInt64_exact|].
    spec_eval. by rewrite Hz.
Qed.

(** Go's remainder, corrected for operands of different signs, is the modulus. *)
Lemma rem_to_mod x y : y ≠ 0 →
  (if negb (Z.rem x y =? 0) && negb (Bool.eqb (0 <=? x) (0 <=? y))
   then Z.rem x y + y else Z.rem x y) = x mod y.
Proof.
  intros Hy. pose proof (Z.quot_rem' x y) as Hq. pose proof (Z.rem_bound_abs x y Hy) as Hb.
  pose proof (Z.rem_nonneg x y Hy) as Hp. pose proof (Z.rem_nonpos x y Hy) as Hm.
  set (q := Z.quot x y) in *. set (r := Z.rem x y) in *.
  destruct (Z.eqb_spec r 0) as [Hr|Hr]; simpl.
  - symmetry. rewrite Hr. apply Z.mod_divide; [done|]. exists q. lia.
  - destruct (Z.leb_spec 0 x), (Z.leb_spec 0 y); simpl.
    + apply (Z.mod_unique _ _ q); [left|]; lia.
    + apply (Z.mod_unique _ _ (q - 1)); [right|]; lia.
    + apply (Z.mod_unique _ _ (q - 1)); [left|]; lia.
    + apply (Z.mod_unique _ _ q); [right|]; lia.
Qed.

Lemma refines_mod : refines opMod (binary spec_mod).
Proof.
  start. unfold opMod. run. rename x into sx, n into y, n0 into x. destruct (y =? 0) eqn:Hz.
  - apply runs_throw. spec_eval. by rewrite Hz.
  - apply Z.eqb_neq in Hz as Hn. rewrite ModInt64_exact by done.
    destruct ((x =? MinInt64) && (y =? -1)) eqn:Hm.
    + apply runs_throw. spec_eval. by rewrite Hz, Hm.
    + apply runs_end_int; [done|]. spec_eval. rewrite Hz, Hm. simpl. do 3 f_equal.
      pose proof (rem_to_mod x y Hn) as Hr. revert Hr.
      destruct (negb _ && negb _); intros Hr; [|done].
      rewrite Hr. symmetry. apply int64_id. ranges.
      destruct (Z.lt_trichotomy y 0) as [?|[?|?]]; [|done|].
      * pose proof (Z.mod_neg_bound x y ltac:(done)). lia.
      * pose proof (Z.mod_pos_bound x y ltac:(done)). lia.
Qed.

Lemma shift_out_of_range x y : x ≠ 0 → 64 <= y → in_int64 (x * 2 ^ y) = false.
Proof.
  intros Hx Hy. assert (2 ^ 64 <= 2 ^ y) by (apply Z.pow_le_mono_r; lia).
  unfold in_int64. apply andb_false_iff.
  destruct (Z.lt_trichotomy x 0) as [?|[?|?]]; [left|done|right]; apply Z.leb_gt; nia.
Qed.

Lemma refines_lshift : refines opLshift spec_lshift.
Proof.
  start. unfold opLshift. run. rename x into sx, n into y.
  destruct (y <? 0) eqn:Hy.
  { apply runs_throw. spec_eval. by rewrite Hy. }
  apply Z.ltb_ge in Hy as Hy'. apply runs_bind. apply runs_popInt64.
  { intros ->. spec_eval. by rewrite Hy. }
  { intros ? ? ? -> ?. spec_eval. by rewrite Hy. }
  intros ? ? x -> ? ?; forall_inv.
  destruct ((x =? 0) || (y =? 0)) eqn:Hxy.
  - assert (x * 2 ^ y = x) as Hm.
    { apply orb_true_iff in Hxy as [Hv | Hv]; apply Z.eqb_eq in Hv; subst; lia. }
    apply runs_end_int; [done|]. spec_eval. rewrite Hy, Hm. unfold ranged, in_int64. ranges.
    by rewrite (proj2 (andb_true_iff _ _)) by (split; apply Z.leb_le; lia).
  - apply orb_false_iff in Hxy as [Hx%Z.eqb_neq _]. rewrite LshiftInt64_exact by done.
    destruct (Z.leb_spec 64 y).
    + apply runs_throw. spec_eval. rewrite Hy. cbn [obind]. unfold ranged.
      by rewrite shift_out_of_range.
    + eapply runs_end_checked; [done|done|]. spec_eval. by rewrite Hy.
Qed.

Lemma refines_rshift : refines opRshift (binary spec_rshift).
Proof.
  start. unfold opRshift. run. destruct (n <? 0) eqn:Hy.
  - apply runs_throw. spec_eval. by rewrite Hy.
  - apply Z.ltb_ge in Hy as Hy'. apply runs_end_int; [done|]. spec_eval.
    rewrite Hy, Z.shiftr_div_pow2 by done. done.
Qed.

Lemma refines_within : refines opWithin spec_within.
Proof.
  start. unfold opWithin. run. apply runs_end_bool; [done|done|]. spec_eval. by rewrite Z.geb_leb.
Qed.

Lemma is_int64_1 : is_int64 1.
Proof. ranges. lia. Qed.

Lemma refines_1add : refines op1Add (unary (λ n, ranged (n + 1))).
Proof. apply checked_unary. intros. by apply AddInt64_exact, is_int64_1. Qed.
Lemma refines_1sub : refines op1Sub (unary (λ n, ranged (n - 1))).
Proof. apply checked_unary. intros. by apply SubInt64_exact, is_int64_1. Qed.
Lemma refines_2mul : refines op2Mul (unary (λ n, ranged (n * 2))).
Proof. apply checked_unary. intros. apply MulInt64_exact. Qed.
Lemma refines_negate : refines opNegate (unary (λ n, ranged (- n))).
Proof. apply checked_unary. intros. by apply NegateInt64_exact. Qed.
Lemma refines_add : refines opAdd (binary (λ x y, ranged (x + y))).
Proof. apply checked_binary. intros. by apply AddInt64_exact. Qed.
Lemma refines_sub : refines opSub (binary (λ x y, ranged (x - y))).
Proof. apply checked_binary. intros. by apply SubInt64_exact. Qed.
Lemma refines_mul : refines opMul (binary (λ x y, ranged (x * y))).
Proof. apply checked_binary. intros. apply MulInt64_exact. Qed.

Lemma refines_2div : refines op2Div (unary (λ n, Ok (Int64Bytes (n / 2)))).
Proof.
  start. unfold op2Div. run. apply runs_end_int; [done|]. spec_eval. by rewrite Z.shiftr_div_pow2.
Qed.
Lemma refines_not : refines opNot (unary (λ n, Ok (truth (n =? 0)))).
Proof. start. unfold opNot. run. apply runs_end_bool; [done|done|]. by spec_eval. Qed.
Lemma refines_0notequal : refines op0NotEqual (unary (λ n, Ok (truth (negb (n =? 0))))).
Proof. start. unfold op0NotEqual. run. apply runs_end_bool; [done|done|]. by spec_eval. Qed.
Lemma refines_min : refines opMin (binary (λ x y, Ok (Int64Bytes (Z.min x y)))).
Proof.
  start. unfold opMin. run. apply runs_end_int; [done|]. spec_eval. do 3 f_equal. zcases; lia.
Qed.
Lemma refines_max : refines opMax (binary (λ x y, Ok (Int64Bytes (Z.max x y)))).
Proof.
  start. unfold opMax. run. apply runs_end_int; [done|]. spec_eval. do 3 f_equal. zcases; lia.
Qed.
Lemma refines_numequalverify : refines opNumEqualVerify (λ st,
    let? (y, r) := pop_int st in
    let? (x, r) := pop_int r in
    if x =? y then Ok r else Err ErrVerifyFailed)%go.
Proof.
  start. unfold opNumEqualVerify. run. destruct (_ =? _) eqn:He.
  - apply runs_ret, Done_here; [done|]. spec_eval. by rewrite He.
  - apply runs_throw. spec_eval. by rewrite He.
Qed.

Lemma refines_numeric c op φ f : numeric_spec op = Some φ → op_fn c op = Some f → refines f φ.
Proof.
  unfold numeric_spec. intros Hφ Hf. repeat case_match; try discriminate; injection Hφ as <-;
    injection Hf as <-.
  all: first
    [ apply compare_binary; intros; rewrite ?Z.gtb_ltb, ?Z.geb_leb; done
    | apply refines_1add | apply refines_1sub | apply refines_2mul | apply refines_2div
    | apply refines_negate | apply refines_abs | apply refines_not | apply refines_0notequal
    | apply refines_add | apply refines_sub | apply refines_mul | apply refines_div
    | apply refines_mod | apply refines_lshift | apply refines_rshift | apply refines_min
    | apply refines_max | apply refines_within | apply refines_numequalverify ].
Qed.

(** ** Byte strings *)

Lemma runs_append_nil bs h ds alt dt (Q : slice → Cfg → Prop) X :
  (∀ h' sl, h `prefix_of` h' → slice_ok h' sl → bytes h' sl = bs → Q sl (mkCfg h' ds alt dt)) →
  runs (append_bytes nil_slice bs) (mkCfg h ds alt dt) Q X.
Proof.
  intros H s [= <- <- <- <-]. unfold append_bytes, go_append. simpl.
  case_decide as Hl.
  - destruct bs; [|simpl in Hl; lia]. by apply (H (hp s) nil_slice).
  - specialize (H _ _ (alloc_prefix (hp s) bs (growcap 0 (length bs)))
      (alloc_ok (hp s) bs (growcap 0 (length bs))) (alloc_bytes (hp s) bs (growcap 0 (length bs)))).
    by destruct (alloc (hp s) bs (growcap 0 (length bs))).
Qed.

Lemma runs_end_reslice str i j h ds alt dt res X : slice_ok h str → Forall (slice_ok h) ds →
  0 <= i <= j → j <= slen str →
  res = Ok (take (Z.to_nat (j - i)) (drop (Z.to_nat i) (bytes h str)) :: (bytes h <$> ds)) →
  runs (push_reslice str i j) (mkCfg h ds alt dt) (Done h alt dt res) X.
Proof.
  intros Hs Hds Hi Hj Hres. unfold push_reslice, slen in *.
  assert (sl_len str <= sl_cap str)%nat as Hc.
  { unfold slice_ok in Hs. destruct (sl_arr str); [by destruct Hs as (? & ? & ? & ?)|by rewrite Hs]. }
  destruct (reslice str (Z.to_nat i) (Z.to_nat j)) as [r|] eqn:Hr.
  2: { unfold reslice in Hr. case_decide; [done|lia]. }
  apply runs_push. eapply (Done_value h h); [done|done|by eapply reslice_ok|done|].
  rewrite (reslice_bytes h str (Z.to_nat i) (Z.to_nat j) r Hs ltac:(lia) Hr), Hres. do 3 f_equal. lia.
Qed.

Lemma zip_pad_nil_l f ys : zip_pad f (length ys) [] ys = f 0 <$> ys.
Proof. induction ys as [|y ys IH]; [done|]. cbn [length zip_pad hd tl]. by rewrite IH. Qed.

Lemma zip_pad_nil_r f xs : zip_pad f (length xs) xs [] = (λ x, f x 0) <$> xs.
Proof. induction xs as [|x xs IH]; [done|]. cbn [length zip_pad hd tl]. by rewrite IH. Qed.

Lemma zip_long_pad f xs ys : zip_long f xs ys = bytewise f xs ys.
Proof.
  unfold bytewise. revert ys. induction xs as [|x xs IH]; intros ys.
  - symmetry. apply zip_pad_nil_l.
  - destruct ys as [|y ys]; [by rewrite Nat.max_0_r, zip_pad_nil_r|].
    cbn [zip_long length Nat.max zip_pad hd tl]. by rewrite IH.
Qed.

(** Opcodes on two items that end by pushing bytes or a truth value *)
Lemma refines_booland : refines opBoolAnd (items2 (λ x y, Ok [truth (AsBool x && AsBool y)])).
Proof. start. unfold opBoolAnd. run. apply runs_end_bool; [done|done|]. by spec_eval. Qed.
Lemma refines_boolor : refines opBoolOr (items2 (λ x y, Ok [truth (AsBool x || AsBool y)])).
Proof. start. unfold opBoolOr. run. apply runs_end_bool; [done|done|]. by spec_eval. Qed.
Lemma refines_and : refines opAnd (items2 (λ x y, Ok [zip_with Z.land x y])).
Proof. start. unfold opAnd. run. apply runs_end_bytes; [done|]. by spec_eval. Qed.

Lemma refines_doOr xor : refines (doOr xor)
  (items2 (λ x y, Ok [bytewise (if xor then Z.lxor else Z.lor) x y])).
Proof.
  start. unfold doOr. run. apply runs_end_bytes; [done|]. spec_eval. by rewrite zip_long_pad.
Qed.

Lemma refines_equal : refines opEqual (items2 (λ x y, Ok [truth (bool_decide (x = y))])).
Proof. start. unfold opEqual, doEqual. run. apply runs_end_bool; [done|done|]. by spec_eval. Qed.

Lemma refines_equalverify : refines opEqualVerify
  (items2 (λ x y, if bool_decide (x = y) then Ok [] else Err ErrVerifyFailed)).
Proof.
  start. unfold opEqualVerify, doEqual. run. case_bool_decide.
  - apply runs_ret, Done_here; [done|]. spec_eval. by rewrite bool_decide_true.
  - apply runs_throw. spec_eval. by rewrite bool_decide_false.
Qed.

Lemma refines_invert : refines opInvert
  (λ st, let? (x, r) := pop_item st in Ok (((λ b, Z.lxor b 255) <$> x) :: r))%go.
Proof.
  start. unfold opInvert. run. apply runs_new_bytes. intros h' sl ???. run.
  apply runs_put_stack. rewrite rev_app_distr. simpl. rewrite length_app. simpl.
  rewrite Nat.add_sub, take_app_length, rev_involutive. forall_inv.
  eapply Done_value; [done|done|done|done|]. by spec_eval.
Qed.

Lemma refines_verify : refines opVerify
  (λ st, let? (x, r) := pop_item st in if AsBool x then Ok r else Err ErrVerifyFailed)%go.
Proof.
  start. unfold opVerify. run. destruct (AsBool _) eqn:Hb.
  - apply runs_ret, Done_here; [done|]. spec_eval. by rewrite Hb.
  - apply runs_throw. spec_eval. by rewrite Hb.
Qed.

Lemma refines_size : refines opSize
  (λ st, let? (x, r) := pop_item st in Ok (Int64Bytes (len x) :: x :: r))%go.
Proof.
  start. unfold opSize. run. apply runs_end_int; [done|]. spec_eval. forall_inv. by rewrite len_bytes.
Qed.

Lemma refines_hash g : refines (doHash g) (spec_hash g).
Proof.
  start. unfold doHash. run. apply runs_append_nil. intros h' sl ???.
  apply runs_push. eapply Done_value; [done|done|done|done|]. by spec_eval.
Qed.

Lemma refines_hash160 : refines opHash160 (spec_hash Ripemd160).
Proof.
  start. unfold opHash160. run. apply runs_append_nil. intros h' sl ???.
  apply runs_push. eapply Done_value; [done|done|done|done|]. by spec_eval.
Qed.

Lemma refines_checksig : refines opCheckSig spec_checksig.
Proof.
  start. unfold opCheckSig. run. rewrite <- !(len_bytes h) by done.
  destruct (len (bytes h x0) =? 32) eqn:Hm; cbn [negb].
  2: { apply runs_throw. spec_eval. by rewrite Hm. }
  destruct (len (bytes h x) =? 32) eqn:Hk; cbn [negb].
  - run. apply runs_end_bool; [done|done|]. spec_eval. by rewrite Hm, Hk.
  - apply runs_end_bool; [done|done|]. spec_eval. by rewrite Hm, Hk.
Qed.

Lemma refines_left : refines opLeft spec_left.
Proof.
  start. unfold opLeft. run. destruct (n <? 0) eqn:Hn.
  { apply runs_throw. spec_eval. by rewrite Hn. }
  apply Z.ltb_ge in Hn as Hn'. do 4 run1. apply runs_bind, runs_pop.
  { intros ->. spec_eval. by rewrite Hn. }
  intros str ? ->. forall_inv. rewrite <- (len_bytes h) by done. destruct (_ <? n) eqn:Hl.
  - apply runs_throw. spec_eval. by rewrite Hn; simpl; rewrite Hl.
  - apply Z.ltb_ge in Hl as Hl'. rewrite len_bytes in Hl' by done.
    apply runs_end_reslice; [done|done|lia|done|]. spec_eval. rewrite Hn. simpl.
    rewrite Hl, Z.sub_0_r. done.
Qed.

Lemma refines_right : refines opRight spec_right.
Proof.
  start. unfold opRight. run. destruct (n <? 0) eqn:Hn.
  { apply runs_throw. spec_eval. by rewrite Hn. }
  apply Z.ltb_ge in Hn as Hn'. do 4 run1. apply runs_bind, runs_pop.
  { intros ->. spec_eval. by rewrite Hn. }
  intros str ? ->. forall_inv. cbv zeta. destruct (slen str <? n) eqn:Hl.
  - apply runs_throw. spec_eval. rewrite Hn; simpl. by rewrite len_bytes, Hl.
  - apply Z.ltb_ge in Hl as Hl'.
    apply runs_end_reslice; [done|done|lia|lia|]. spec_eval. rewrite Hn. simpl.
    rewrite len_bytes, Hl by done. do 2 f_equal. symmetry. apply take_ge.
    rewrite length_drop, length_bytes by done. unfold slen in *. lia.
Qed.

Lemma refines_substr : refines opSubstr spec_substr.
Proof.
  start. unfold opSubstr. run. destruct (n <? 0) eqn:Hn.
  { apply runs_throw. spec_eval. by rewrite Hn. }
  apply Z.ltb_ge in Hn as Hn'. do 4 run1. apply runs_bind, runs_popInt64.
  { intros ->. spec_eval. by rewrite Hn. }
  { intros ? ? ? -> ?. spec_eval. by rewrite Hn. }
  intros ? ? off -> ? ?. forall_inv. destruct (off <? 0) eqn:Ho.
  { apply runs_throw. spec_eval. rewrite Hn. cbn [obind]. by rewrite Ho. }
  apply Z.ltb_ge in Ho as Ho'. apply runs_bind, runs_pop.
  { intros ->. spec_eval. rewrite Hn. cbn [obind]. by rewrite Ho. }
  intros str r2 ->. forall_inv. rewrite AddInt64_exact by done. unfold exact.
  assert (∀ res, res = (if (MaxInt64 <? off + n) || (slen str <? off + n) then Err ErrBadValue
    else Ok (take (Z.to_nat n) (drop (Z.to_nat off) (bytes h str)) :: (bytes h <$> r2))) →
    runs match (if (MinInt64 <=? off + n) && (off + n <=? MaxInt64) then Some (off + n) else None) with
         | Some e => if slen str <? e then throw ErrBadValue else push_reslice str off e
         | None => throw ErrBadValue
         end (mkCfg h r2 alt dt) (Done h alt dt res) (Bad res)) as Hend.
  { intros res Hres. rewrite (proj2 (Z.leb_le _ _)) by (ranges; lia). rewrite Z.leb_antisym.
    destruct (Z.ltb_spec MaxInt64 (off + n)); simpl in *; [by apply runs_throw|].
    destruct (Z.ltb_spec (slen str) (off + n)); [by apply runs_throw|].
    apply runs_end_reslice; [done|done|lia|lia|]. by replace (off + n - off) with n by lia. }
  apply Hend. spec_eval. rewrite Hn; cbn [obind]. rewrite Ho. by rewrite len_bytes.
Qed.

Lemma refines_bytes c op φ f : bytes_spec op = Some φ → op_fn c op = Some f → refines f φ.
Proof.
  unfold bytes_spec. intros Hφ Hf. repeat case_match; try discriminate; injection Hφ as <-;
    injection Hf as <-.
  all: first
    [ apply refines_booland | apply refines_boolor | apply refines_invert | apply refines_and
    | apply (refines_doOr false) | apply (refines_doOr true) | apply refines_equal
    | apply refines_equalverify | apply refines_left | apply refines_right | apply refines_substr
    | apply refines_size | apply refines_verify | apply refines_hash160 | apply refines_hash
    | apply refines_checksig ].
Qed.

(** ** Stack manipulation *)

Lemma rev_take_rev {A} k (l : list A) : rev (take (length (rev l) - k) (rev l)) = drop k l.
Proof.
  rewrite <- (take_drop k l) at 1 2. rewrite rev_app_distr, length_app, !length_rev, length_take.
  rewrite take_app_le by (rewrite length_rev, length_drop; lia).
  rewrite take_ge by (rewrite length_rev, length_drop; lia). apply rev_involutive.
Qed.

Lemma rev_drop_rev {A} k (l : list A) : rev (drop (length (rev l) - k) (rev l)) = take k l.
Proof.
  destruct (decide (k <= length l)%nat) as [Hk|Hk].
  - rewrite <- (take_drop k l) at 1 2. rewrite rev_app_distr, length_app, !length_rev, length_take.
    replace (_ - k)%nat with (length (rev (drop k l))) by (rewrite length_rev, length_drop; lia).
    rewrite drop_app_length. apply rev_involutive.
  - rewrite length_rev, take_ge by lia. replace (length l - k)%nat with 0%nat by lia.
    rewrite drop_0. apply rev_involutive.
Qed.

(** Decide a test on the depth of the stack. *)
Ltac depth :=
  match goal with
  | |- context [len (rev ?l) <? ?y] =>
      first [ rewrite (proj2 (Z.ltb_lt (len (rev l)) y)) by (rewrite len_rev; unfold len; cbn [length]; lia)
            | rewrite (proj2 (Z.ltb_ge (len (rev l)) y)) by (rewrite len_rev; unfold len; cbn [length]; lia) ]
  end.

Ltac item k := eapply (runs_stack_at k); [reflexivity|rewrite ?len_rev; unfold len; cbn [length]; lia|].

Ltac done_here := forall_inv; apply Done_here; [by repeat constructor|by spec_eval].

(** Too few items: the guard of the opcode refuses *)
Ltac too_few := cbn [bind]; run; depth; apply runs_throw; by spec_eval.

Definition shape (f : list (list Z) → option (list (list Z))) (st : list (list Z))
    : outcome error (list (list Z)) :=
  match f st with Some st' => Ok st' | None => Err ErrDataStackUnderflow end.

Lemma refines_dup : refines opDup (shape (λ st,
  match st with a :: r => Some (a :: a :: r) | _ => None end)).
Proof.
  start. unfold opDup, nDup. cbn [repeatM Z.of_nat Pos.of_succ_nat]. run.
  destruct ds as [|a r]; depth; [by apply runs_throw|].
  run. item 0%nat. apply runs_push. run. done_here.
Qed.

Lemma refines_2dup : refines op2Dup (shape (λ st,
  match st with a :: b :: r => Some (a :: b :: a :: b :: r) | _ => None end)).
Proof.
  start. unfold op2Dup, nDup. cbn [repeatM Z.of_nat Pos.of_succ_nat Pos.succ]. run.
  destruct ds as [|a [|b r]]; depth; try by apply runs_throw.
  do 2 (run; item 1%nat; apply runs_push). run. done_here.
Qed.

Lemma refines_3dup : refines op3Dup (shape (λ st,
  match st with a :: b :: c :: r => Some (a :: b :: c :: a :: b :: c :: r) | _ => None end)).
Proof.
  start. unfold op3Dup, nDup. cbn [repeatM Z.of_nat Pos.of_succ_nat Pos.succ]. run.
  destruct ds as [|a [|b [|c r]]]; depth; try by apply runs_throw.
  do 3 (run; item 2%nat; apply runs_push). run. done_here.
Qed.

Lemma refines_2over : refines op2Over (shape (λ st,
  match st with a :: b :: c :: d :: r => Some (c :: d :: a :: b :: c :: d :: r) | _ => None end)).
Proof.
  start. unfold op2Over. cbn [repeatM]. run.
  destruct ds as [|a [|b [|c [|d r]]]]; depth; try by apply runs_throw.
  do 2 (run; item 3%nat; apply runs_push). run. done_here.
Qed.

Lemma refines_2rot : refines op2Rot (shape (λ st,
  match st with
  | a :: b :: c :: d :: e :: f :: r => Some (e :: f :: a :: b :: c :: d :: r) | _ => None end)).
Proof.
  start. unfold op2Rot. run.
  destruct ds as [|a [|b [|c [|d [|e [|f r]]]]]]; depth; try by apply runs_throw.
  run. item 5%nat. run. item 4%nat. apply runs_put_stack.
  rewrite !rev_app_distr, rev_take_rev, rev_drop_rev. done_here.
Qed.

Lemma refines_2swap : refines op2Swap (shape (λ st,
  match st with a :: b :: c :: d :: r => Some (c :: d :: a :: b :: r) | _ => None end)).
Proof.
  start. unfold op2Swap. run.
  destruct ds as [|a [|b [|c [|d r]]]]; depth; try by apply runs_throw.
  run. item 3%nat. run. item 2%nat. apply runs_put_stack.
  rewrite !rev_app_distr, rev_take_rev, rev_drop_rev. done_here.
Qed.

Lemma refines_ifdup : refines opIfDup (shape (λ st,
  match st with a :: r => Some (if AsBool a then a :: a :: r else a :: r) | _ => None end)).
Proof.
  start. unfold opIfDup. run. destruct (AsBool _) eqn:Hb.
  - apply runs_push. forall_inv. apply Done_here; [by repeat constructor|]. cbn. by rewrite Hb.
  - apply runs_ret, Done_here; [done|]. cbn. by rewrite Hb.
Qed.

Lemma refines_depth : refines opDepth (shape (λ st, Some (Int64Bytes (len st) :: st))).
Proof.
  start. unfold opDepth. run. apply runs_end_int; [done|]. unfold shape, len.
  by rewrite length_rev, length_fmap.
Qed.

Lemma refines_nop : refines opNop (shape Some).
Proof. start. unfold opNop. apply runs_applyCost. by apply Done_here. Qed.

Lemma refines_false : refines opFalse (shape (λ st, Some ([] :: st))).
Proof. start. unfold opFalse. run. by apply runs_end_bool. Qed.

Lemma refines_1negate : refines op1Negate (shape (λ st, Some (Int64Bytes (-1) :: st))).
Proof. start. unfold op1Negate. run. by apply runs_end_int. Qed.

Lemma refines_drop : refines opDrop (shape (λ st, match st with _ :: r => Some r | _ => None end)).
Proof. start. unfold opDrop. run. done_here. Qed.

Lemma refines_2drop : refines op2Drop (shape (λ st,
  match st with _ :: _ :: r => Some r | _ => None end)).
Proof. start. unfold op2Drop. cbn [repeatM]. run. done_here. Qed.

Lemma refines_nip : refines opNip (shape (λ st,
  match st with a :: _ :: r => Some (a :: r) | _ => None end)).
Proof.
  start. unfold opNip. run. apply runs_put_stack. rewrite rev_take_rev. change (drop 1 (x :: r)) with r. run.
  apply runs_append. done_here.
Qed.

Lemma refines_over : refines opOver (shape (λ st,
  match st with a :: b :: r => Some (b :: a :: b :: r) | _ => None end)).
Proof.
  start. unfold opOver. run. destruct ds as [|a [|b r]]; depth; try by apply runs_throw.
  run. item 1%nat. apply runs_push. done_here.
Qed.

Lemma refines_tuck : refines opTuck (shape (λ st,
  match st with a :: b :: r => Some (a :: b :: a :: r) | _ => None end)).
Proof.
  start. unfold opTuck. run. destruct ds as [|a [|b r]]; depth; try by apply runs_throw.
  run. item 1%nat. run. item 0%nat. run. apply runs_put_stack. rewrite rev_take_rev. change (drop 2 (a :: b :: r)) with r.
  run. apply runs_push, runs_append. done_here.
Qed.

Lemma refines_swap : refines opSwap (shape (λ st,
  match st with a :: b :: r => Some (b :: a :: r) | _ => None end)).
Proof.
  start. unfold opSwap. run. cbv zeta.
  destruct ds as [|a [|b r]]; depth; try by apply runs_throw.
  run. item 1%nat. run. item 0%nat. apply runs_put_stack.
  assert (rev (<[Z.to_nat (len (rev (a :: b :: r)) - 2) := a]>
    (<[Z.to_nat (len (rev (a :: b :: r)) - 1) := b]> (rev (a :: b :: r)))) = b :: a :: r) as ->.
  { rewrite len_rev. unfold len. cbn [length rev]. rewrite <- app_assoc. cbn [app].
    replace (Z.to_nat (Z.of_nat (S (S (length r))) - 1)) with (length (rev r) + 1)%nat
      by (rewrite length_rev; lia).
    replace (Z.to_nat (Z.of_nat (S (S (length r))) - 2)) with (length (rev r) + 0)%nat
      by (rewrite length_rev; lia).
    rewrite !insert_app_r. cbn. by rewrite rev_app_distr, rev_involutive. }
  done_here.
Qed.

(** [rot n] brings the item [n - 1] places below the top to the top. *)
Lemma runs_rot k h ds alt dt (Q : unit → Cfg → Prop) (X : error → Prop) :
  (len ds <= Z.of_nat k → X ErrDataStackUnderflow) →
  (∀ x, ds !! k = Some x → Q tt (mkCfg h (x :: take k ds ++ drop (S k) ds) alt dt)) →
  runs (rot (Z.of_nat k + 1)) (mkCfg h ds alt dt) Q X.
Proof.
  intros Hn Hc. unfold rot. rewrite (proj2 (Z.ltb_ge _ _)) by lia. run. rewrite len_rev.
  destruct (Z.ltb_spec (len ds) (Z.of_nat k + 1)) as [Hl|Hl].
  { apply runs_throw, Hn. lia. }
  unfold len in *. destruct (lookup_lt_is_Some_2 ds k) as [x Hx]; [lia|]. cbv zeta. run.
  eapply (runs_stack_at k); [done|unfold len; lia|]. apply runs_put_stack.
  rewrite <- (length_rev ds).
  replace (Z.to_nat (Z.of_nat (length (rev ds)) - (Z.of_nat k + 1)))
    with (length (rev ds) - S k)%nat by lia.
  replace (Z.to_nat (Z.of_nat (length (rev ds)) - (Z.of_nat k + 1) + 1))
    with (length (rev ds) - k)%nat by (rewrite length_rev; lia).
  rewrite !rev_app_distr, rev_take_rev, rev_drop_rev. by apply Hc.
Qed.

Lemma refines_rot : refines opRot (shape (λ st,
  match st with a :: b :: c :: r => Some (c :: a :: b :: r) | _ => None end)).
Proof.
  start. unfold opRot. run. apply (runs_rot 2).
  - destruct ds as [|a [|b [|c r]]]; try done. unfold len. cbn [length]. lia.
  - destruct ds as [|a [|b [|c r]]]; try done. intros x [= <-]. done_here.
Qed.

Lemma refines_roll : refines opRoll spec_roll.
Proof.
  start. unfold opRoll. run. rename x into sx.
  assert (spec_roll (bytes h <$> sx :: r) = (if (n <? 0) || (n =? MaxInt64) then Err ErrBadValue
    else if len r <=? n then Err ErrDataStackUnderflow
    else match r !! Z.to_nat n with
         | Some x => Ok (bytes h <$> x :: take (Z.to_nat n) r ++ drop (S (Z.to_nat n)) r)
         | None => Err ErrDataStackUnderflow end)) as ->.
  { spec_eval. destruct (_ || _); [done|]. unfold len.
    rewrite length_fmap. destruct (_ <=? n); [done|]. cbn [obind]. rewrite list_lookup_fmap.
    destruct (r !! Z.to_nat n); [|done]. cbn. by rewrite fmap_app, fmap_take, fmap_drop. }
  destruct (n <? 0) eqn:Hn; [by apply runs_throw|]. apply Z.ltb_ge in Hn. simpl.
  rewrite AddInt64_exact by (done || apply is_int64_1). unfold exact. ranges.
  rewrite (proj2 (Z.leb_le _ _)) by lia.
  destruct (Z.eqb_spec n MaxInt64) as [->|Hm]; [by apply runs_throw|].
  rewrite (proj2 (Z.leb_le _ _)) by lia. rewrite <- (Z2Nat.id n Hn) at 1. simpl.
  apply runs_rot; rewrite ?Z2Nat.id by done.
  - intros Hl. unfold Bad. by rewrite (proj2 (Z.leb_le _ _)).
  - intros x Hx. apply lookup_lt_Some in Hx as Hlt. unfold len.
    rewrite (proj2 (Z.leb_gt _ _)), Hx by lia. apply Done_here; [|done].
    constructor; [by eapply Forall_lookup_1|]. apply Forall_app. split; [by apply Forall_take|].
    by apply Forall_drop.
Qed.

Lemma refines_pick : refines opPick spec_pick.
Proof.
  start. unfold opPick. run. rename x into sx.
  assert (spec_pick (bytes h <$> sx :: r) = (if (n <? 0) || (n =? MaxInt64) then Err ErrBadValue
    else if len r <=? n then Err ErrDataStackUnderflow
    else match r !! Z.to_nat n with
         | Some x => Ok (bytes h <$> x :: r)
         | None => Err ErrDataStackUnderflow end)) as ->.
  { spec_eval. destruct (_ || _); [done|]. unfold len.
    rewrite length_fmap. destruct (_ <=? n); [done|]. cbn [obind]. rewrite list_lookup_fmap.
    by destruct (r !! Z.to_nat n). }
  destruct (n <? 0) eqn:Hn; [by apply runs_throw|]. apply Z.ltb_ge in Hn. simpl.
  rewrite AddInt64_exact by (done || apply is_int64_1). unfold exact. ranges.
  rewrite (proj2 (Z.leb_le _ _)) by lia.
  destruct (Z.eqb_spec n MaxInt64) as [->|Hm]; [by apply runs_throw|].
  rewrite (proj2 (Z.leb_le _ _)) by lia. simpl. run. rewrite len_rev.
  destruct (Z.leb_spec (len r) n) as [Hl|Hl].
  { rewrite (proj2 (Z.ltb_lt _ _)) by lia. by apply runs_throw. }
  rewrite (proj2 (Z.ltb_ge _ _)) by lia. unfold len in *.
  destruct (lookup_lt_is_Some_2 r (Z.to_nat n)) as [x Hx]; [lia|]. rewrite Hx. run.
  eapply (runs_stack_at (Z.to_nat n)); [done|unfold len; lia|]. apply runs_push, Done_here; [|done].
  constructor; [by eapply Forall_lookup_1|done].
Qed.

Lemma refines_fail : refines opFail (λ _, Err ErrReturn).
Proof. start. unfold opFail. run. by apply runs_throw. Qed.

Lemma refines_stack c op φ f : stack_spec op = Some φ → op_fn c op = Some f → refines f φ.
Proof.
  unfold stack_spec, shuffle. intros Hφ Hf. repeat case_match; try discriminate; injection Hφ as <-;
    injection Hf as <-.
  all: first
    [ apply refines_nop | apply refines_false | apply refines_1negate | apply refines_depth
    | apply refines_drop | apply refines_2drop | apply refines_dup | apply refines_2dup
    | apply refines_3dup | apply refines_ifdup | apply refines_nip | apply refines_over
    | apply refines_2over | apply refines_swap | apply refines_2swap | apply refines_rot
    | apply refines_2rot | apply refines_tuck | apply refines_pick | apply refines_roll
    | apply refines_fail ].
Qed.
End refine.
