(* ===== verification/VmSimulation.v ===== *)
(** * The machine simulates its specification, step by step and run by run

    [step_implements_spec] lifts the opcode lemmas of [VmRefine] to [step];
    [run_implements_spec] to whole straight-line programs. *)

From S2P Require Import Prelude Checked GoSlice VmProgram VmProgramSpec VmMachine VmOps.
From S2P Require Import EvmTransition VmEvmOps VmRun VmLogic VmAlias VmSpec VmRefine.

Section simulation.
Context `{E : VmEnv}.

(** The contents of the two stacks, top first *)
Definition view (s : State) : list (list Z) * list (list Z) :=
  (bytes (hp s) <$> rev (dataStack (vm s)), bytes (hp s) <$> rev (altStack (vm s))).

(** Every item is a window on an existing array, and nobody has written into
    the array of [trueBytes]. *)
Record wf_state (s : State) : Prop := {
  wf_data : Forall (slice_ok (hp s)) (rev (dataStack (vm s)));
  wf_alt : Forall (slice_ok (hp s)) (rev (altStack (vm s)));
  wf_true : hp s !! 0%nat = Some [1];
}.

(** What an opcode's run says about the state it started in *)
Definition simulates (f : M unit) (dt : list Z)
    (φ : list (list Z) * list (list Z) → outcome error (list (list Z) * list (list Z))) : Prop :=
  ∀ s, wf_state s → data (vm s) = dt →
  match f s with
  | (Ok _, s') => φ (view s) = Ok (view s') ∧ wf_state s'
  | (Err e, _) => e = ErrRunLimitExceeded ∨ φ (view s) = Err e
  | _ => False
  end.

Definition on_data (φ : list (list Z) → outcome error (list (list Z)))
    : list (list Z) * list (list Z) → outcome error (list (list Z) * list (list Z)) :=
  λ '(st, alt), (let? st' := φ st in Ok (st', alt))%go.

Lemma runs_simulates f dt φ :
  (∀ h ds alt, Forall (slice_ok h) ds → h !! 0%nat = Some [1] →
   runs f (mkCfg h ds alt dt) (Done h alt dt (φ (bytes h <$> ds))) (Bad (φ (bytes h <$> ds)))) →
  simulates f dt (on_data φ).
Proof.
  intros Hf s [Hd Ha H0] Hdt.
  specialize (Hf _ _ (rev (altStack (vm s))) Hd H0 s). unfold cfg in Hf. rewrite Hdt in Hf.
  specialize (Hf eq_refl). destruct (f s) as [[[]|e| |] s']; [|destruct Hf as [->|Hf]|done..].
  - destruct Hf as (h' & ds' & Hc & Hp & Hok & Hres). injection Hc as <- <- Halt _.
    unfold view, on_data. rewrite Hres, Halt. cbn [obind]. rewrite (bytes_grow _ _ _ Hp Ha).
    split; [done|]. split; [done|by rewrite Halt; eapply slices_grow|].
    destruct Hp as [k ->]. by apply lookup_app_l_Some.
  - by left.
  - right. unfold view, on_data. by rewrite Hf.
Qed.

Lemma refines_simulates f dt φ : refines f φ → simulates f dt (on_data φ).
Proof. intros Hf. apply runs_simulates. intros h ds alt Hds H0. by apply Hf. Qed.

Lemma pushdata_simulates dt : simulates opPushdata dt (on_data (λ st, Ok (dt :: st))).
Proof.
  apply runs_simulates. intros h ds alt Hds H0. unfold opPushdata.
  apply runs_bind, runs_applyCost, runs_bind, runs_gets. intros s [= _ _ _ ->].
  by apply runs_bind, runs_end_bytes.
Qed.

Lemma data_simulates c i φ : data_spec i = Some φ →
  ∃ f, op_fn c (Op i) = Some f ∧ simulates f (Data i) (on_data φ).
Proof.
  unfold data_spec. destruct (_ || _) eqn:Hp.
  - intros [= <-]. exists opPushdata. split; [|apply pushdata_simulates]. unfold op_fn.
    match goal with |- (if ?b then _ else _) = _ => destruct b eqn:Hq; [done|] end.
    assert (Op i = OP_PUSHDATA1 ∨ Op i = OP_PUSHDATA2 ∨ Op i = OP_PUSHDATA4) as [->|[->| ->]] by lia;
      done.
  - intros Hφ. assert (∃ f, op_fn c (Op i) = Some f) as [f Hf].
    { revert Hφ. unfold numeric_spec, bytes_spec, stack_spec, shuffle, op_fn. clear Hp.
      destruct (_ || _); [by eexists|]. repeat case_match; try discriminate; by eexists. }
    exists f. split; [done|]. apply refines_simulates.
    destruct (numeric_spec (Op i)) eqn:?; [simplify_eq; by eapply refines_numeric|].
    destruct (bytes_spec (Op i)) eqn:?; [simplify_eq; by eapply refines_bytes|].
    by eapply refines_stack.
Qed.

Lemma wf_view s s' : hp s' = hp s → dataStack (vm s') = dataStack (vm s) →
  altStack (vm s') = altStack (vm s) → (wf_state s → wf_state s') ∧ view s' = view s.
Proof.
  intros Hh Hd Ha. unfold view. rewrite Hh, Hd, Ha. split; [|done].
  intros []. split; by rewrite Hh, ?Hd, ?Ha.
Qed.

Lemma toalt_simulates dt : simulates opToAltStack dt (λ '(st, alt),
  match st with x :: r => Ok (r, x :: alt) | [] => Err ErrDataStackUnderflow end).
Proof.
  intros s [Hd Ha H0] _. unfold opToAltStack, bind at 1, applyCost.
  destruct (_ <? _); [by left|]. unfold bind, get_stack, gets; simpl.
  destruct (rev (dataStack (vm s))) as [|x r] eqn:Hs.
  - rewrite (rev_nil_inv _ Hs). by right.
  - destruct (rev_last _ _ _ Hs) as [-> Ht]. unfold view. simpl. rewrite ?Hs, Ht, rev_app_distr. simpl.
    split; [done|]. apply Forall_cons in Hd as [? ?].
    split; simpl; [by rewrite Ht|rewrite rev_app_distr; by constructor|done].
Qed.

Lemma fromalt_simulates dt : simulates opFromAltStack dt (λ '(st, alt),
  match alt with x :: r => Ok (x :: st, r) | [] => Err ErrAltStackUnderflow end).
Proof.
  intros s [Hd Ha H0] _. unfold opFromAltStack, bind at 1, applyCost.
  destruct (_ <? _); [by left|]. unfold bind, gets; simpl.
  destruct (rev (altStack (vm s))) as [|x r] eqn:Hs.
  - rewrite (rev_nil_inv _ Hs). by right.
  - destruct (rev_last _ _ _ Hs) as [-> Ht]. unfold view. simpl. rewrite ?Hs, Ht, rev_app_distr. simpl.
    split; [done|]. apply Forall_cons in Ha as [? ?].
    split; simpl; [rewrite rev_app_distr; by constructor|by rewrite Ht|done].
Qed.

Lemma op_simulates c i φ : abs_op i = Some φ →
  ∃ f, op_fn c (Op i) = Some f ∧ simulates f (Data i) φ.
Proof.
  assert (∀ ψ, data_spec i = Some ψ → φ = on_data ψ →
    ∃ f, op_fn c (Op i) = Some f ∧ simulates f (Data i) φ) as Hdata.
  { intros ψ Hψ ->. by apply data_simulates. }
  intros Ha. unfold abs_op in Ha.
  destruct (decide (Op i = OP_TOALTSTACK)) as [Ho|Ho1].
  { rewrite Ho in *. injection Ha as <-. exists opToAltStack. split; [done|apply toalt_simulates]. }
  destruct (decide (Op i = OP_FROMALTSTACK)) as [Ho|Ho2].
  { rewrite Ho in *. injection Ha as <-. exists opFromAltStack. split; [done|apply fromalt_simulates]. }
  assert ((λ f '(st, alt), (let? st' := f st in Ok (st', alt))%go) <$> data_spec i = Some φ) as Hs.
  { repeat case_match; try done; lia. }
  destruct (data_spec i) as [ψ|]; [|done]. injection Hs as <-. by eapply Hdata.
Qed.

Lemma exec_op_simulates f i φ s : simulates f (Data i) φ → wf_state s →
  match exec_op f i s with
  | (Ok _, s') => φ (view s) = Ok (view s') ∧ wf_state s'
  | (Err e, _) => e = ErrRunLimitExceeded ∨ φ (view s) = Err e
  | _ => False
  end.
Proof.
  intros Hf Hw. unfold exec_op, bind at 1, modify at 1.
  destruct (wf_view s (set_data (Data i) (set_deferredCost 0 s))) as [Hw1 Hv1]; [done..|].
  specialize (Hf _ (Hw1 Hw) eq_refl). rewrite Hv1 in Hf.
  unfold bind at 1. destruct (f _) as [[[]|e| |] s1]; [|done..]. destruct Hf as [Hφ Hw2].
  unfold bind at 1, gets. unfold bind, applyCost. destruct (_ <? _); [by left|].
  destruct (wf_view s1 (set_pc (nextPC (vm s1))
    (set_runLimit (int64 (runLimit (vm s1) - deferredCost (vm s1))) s1))) as [Hw3 Hv3]; [done..|].
  unfold modify. split; [by rewrite Hφ, <- Hv3|by apply Hw3].
Qed.

Lemma step_simulates c s i φ : next_inst s = Ok i → abs_op i = Some φ → wf_state s →
  match step c s with
  | (Ok _, s') => φ (view s) = Ok (view s') ∧ wf_state s'
  | (Err e, _) => e = ErrRunLimitExceeded ∨ φ (view s) = Err e
  | _ => False
  end.
Proof.
  intros Hi Ha Hw. destruct (op_simulates c i φ Ha) as (f & Hf & Hsim).
  unfold step, bind at 1 2 3, gets, lift, modify. rewrite Hi, Hf.
  destruct (wf_view s (set_nextPC (uint32 (pc (vm s) + Len i)) s)) as [Hw1 Hv1]; [done..|].
  rewrite <- Hv1. by apply exec_op_simulates; [|apply Hw1].
Qed.

(** ** Straight-line programs *)

(** The program and the next program counter are left alone. *)
Definition stays (s s' : State) : Prop :=
  program (vm s') = program (vm s) ∧ nextPC (vm s') = nextPC (vm s).

#[export] Instance stays_frame : FrameRel stays.
Proof.
  split; try (intros; by split). split.
  - intros s. by split.
  - intros s1 s2 s3 [] []. split; congruence.
Qed.

Lemma abs_op_plain i φ : abs_op i = Some φ →
  writes_in_place (Op i) = false ∧ is_jump (Op i) = false.
Proof.
  intros Ha. split; apply not_true_is_false; intros Hw; unfold writes_in_place, is_jump in Hw;
    rewrite ?orb_true_iff, ?Z.eqb_eq in Hw; destruct_or! Hw; unfold abs_op, data_spec in Ha;
    rewrite Hw in Ha; discriminate.
Qed.

Lemma step_stays c s s' i φ : next_inst s = Ok i → abs_op i = Some φ → step c s = (Ok tt, s') →
  program (vm s') = program (vm s) ∧ pc (vm s') = uint32 (pc (vm s) + Len i).
Proof.
  intros Hi Ha. destruct (op_simulates c i φ Ha) as (f & Hf & _).
  destruct (abs_op_plain i φ Ha) as [Hw Hj].
  assert (keeps stays f) as Hk.
  { eapply op_fn_keeps; [apply _|done| |done]. by rewrite Hj. }
  unfold step, bind at 1 2 3, gets, lift, modify. rewrite Hi, Hf. unfold exec_op, bind at 1, modify.
  unfold bind at 1. set (s1 := set_data _ _). specialize (Hk s1).
  destruct (f s1) as [[[]|?| |] s2]; try done. destruct Hk as [Hp Hn]. simpl in Hp, Hn.
  unfold bind, gets, applyCost. destruct (_ <? _); [done|]. intros [= <-]. simpl. by rewrite Hp, Hn.
Qed.

(** The specification of a list of instructions; [None] when one of them has
    no specification *)
Fixpoint abs_run (insts : list Instruction) (v : list (list Z) * list (list Z))
    : option (outcome error (list (list Z) * list (list Z))) :=
  match insts with
  | [] => Some (Ok v)
  | i :: rest =>
      match abs_op i with
      | None => None
      | Some φ => match φ v with Ok v' => abs_run rest v' | o => Some o end
      end
  end.

Lemma run_loop_simulates prog insts : ∀ pfuel fuel s,
  wf_state s → slice_ok (hp s) (program (vm s)) → bytes (hp s) (program (vm s)) = prog →
  parse_loop pfuel prog (pc (vm s)) = Ok insts → Forall (λ i, is_Some (abs_op i)) insts →
  (length insts < fuel)%nat →
  match run_loop fuel s with
  | (Ok _, s') => abs_run insts (view s) = Some (Ok (view s'))
  | (Err e, _) => e = ErrRunLimitExceeded ∨ abs_run insts (view s) = Some (Err e)
  | _ => False
  end.
Proof.
  induction insts as [|i insts IH]; intros pfuel fuel s Hw Hok Hb Hp Hall Hfuel.
  all: destruct pfuel as [|pfuel], fuel as [|fuel]; simpl in Hfuel; try lia; try done.
  all: cbn [parse_loop] in Hp; cbn [run_loop]; unfold bind at 1, gets, running.
  all: rewrite <- (len_bytes _ _ Hok), Hb; destruct (_ <? _).
  - unfold obind in Hp. repeat case_match; done.
  - by simpl.
  - destruct (ParseOp prog (pc (vm s))) as [i'| | |] eqn:Hi; try done. cbn [obind] in Hp.
    destruct (AddUint32 (pc (vm s)) (Len i')) as [pc'|] eqn:Hpc; [|done].
    destruct (parse_loop pfuel prog pc') as [rest| | |] eqn:Hrest; try done.
    injection Hp as -> ->. apply Forall_cons in Hall as [[φ Hφ] Hall].
    assert (next_inst s = Ok i) as Hn by (unfold next_inst; by rewrite Hb).
    set (c := bind (modify (set_pc 0)) _). unfold bind at 1. cbn [abs_run]. rewrite Hφ.
    pose proof (step_simulates c s i φ Hn Hφ Hw) as Hstep.
    pose proof (step_keeps c s i Hn (proj1 (abs_op_plain i φ Hφ))) as Hkeep.
    destruct (step c s) as [[[]|e| |] s1] eqn:Hs; [|by destruct Hstep as [->| ->]; [left|right]|done..].
    destruct Hstep as [-> Hw1]. destruct (step_stays c s s1 i φ Hn Hφ Hs) as [Hprog Hpc1].
    assert (pc (vm s1) = pc') as Hpc2.
    { rewrite Hpc1. unfold AddUint32 in Hpc. destruct (_ <? _); [done|]. by injection Hpc. }
    simpl in Hkeep. eapply IH; rewrite ?Hprog, ?Hpc2; try done; [|by rewrite (bytes_prefix (hp s))|lia].
    eapply slice_ok_grow; [by apply prefix_heap_grow|done].
  - done.
Qed.

(** ** CAT *)

Lemma runs_append_bytes a bs h ds alt dt (Q : slice → Cfg → Prop) X : slice_ok h a →
  (∀ h' sl, heap_grow h h' → slice_ok h' sl → bytes h' sl = bytes h a ++ bs →
            (sl_cap a = sl_len a → h `prefix_of` h') → Q sl (mkCfg h' ds alt dt)) →
  runs (append_bytes a bs) (mkCfg h ds alt dt) Q X.
Proof.
  intros Ha H s [= <- <- <- <-]. unfold append_bytes.
  specialize (H _ _ (go_append_grow growcap (hp s) a bs Ha) (go_append_ok growcap (hp s) a bs Ha)
    (go_append_bytes growcap (hp s) a bs Ha) (go_append_full growcap (hp s) a bs Ha)).
  by destruct (go_append growcap (hp s) a bs).
Qed.

(** CAT replaces its two operands by their concatenation, whatever arrays
    they share, and only fails for lack of gas; when the first operand has no
    spare capacity, the other stack items keep their contents. *)
Theorem CAT_concatenates s x y r : wf_state s → rev (dataStack (vm s)) = y :: x :: r →
  match opCat s with
  | (Ok _, s') => ∃ z, rev (dataStack (vm s')) = z :: r
      ∧ bytes (hp s') z = bytes (hp s) x ++ bytes (hp s) y
      ∧ (sl_cap x = sl_len x → view s' = ((bytes (hp s) x ++ bytes (hp s) y) :: (bytes (hp s) <$> r),
                                          bytes (hp s) <$> rev (altStack (vm s))))
  | (Err e, _) => e = ErrRunLimitExceeded
  | _ => False
  end.
Proof.
  intros [Hd Ha _] Hs. rewrite Hs in Hd. apply Forall_cons in Hd as [Hy [Hx Hr]%Forall_cons].
  assert (runs opCat (mkCfg (hp s) (y :: x :: r) (rev (altStack (vm s))) (data (vm s)))
    (λ _ c', ∃ z, c_ds c' = z :: r ∧ c_alt c' = rev (altStack (vm s))
       ∧ bytes (c_hp c') z = bytes (hp s) x ++ bytes (hp s) y
       ∧ (sl_cap x = sl_len x → hp s `prefix_of` c_hp c')) (λ _, False)) as Hrun.
  { unfold opCat. apply runs_bind, runs_applyCost, runs_bind, runs_pop; [done|]. intros ? ? [= <- <-].
    apply runs_bind, runs_pop; [done|]. intros ? ? [= <- <-]. cbv zeta.
    apply runs_bind, runs_applyCost, runs_bind, runs_deferCost, runs_bind, runs_read, runs_bind.
    apply runs_append_bytes; [done|]. intros h' sl _ _ Hb Hp. apply runs_push. by exists sl. }
  specialize (Hrun s). unfold cfg in Hrun at 1. rewrite Hs in Hrun. specialize (Hrun eq_refl).
  destruct (opCat s) as [[[]|e| |] s']; [|by destruct Hrun|done..].
  destruct Hrun as (z & Hz & Halt & Hb & Hp). simpl in *. exists z. split_and!; [done|done|].
  intros Hc. specialize (Hp Hc). unfold view. rewrite Hz, Halt. simpl.
  by rewrite Hb, !(bytes_grow _ _ _ Hp).
Qed.

(** C12: an instruction with a specification (the 65 opcodes that compute on
    the stacks: numbers, comparisons, byte strings, hashes, signatures, stack
    and alt-stack manipulation, and every push of data) computes exactly that specification.  A
    step that succeeds leaves the specified stacks; a step that fails reports
    the specified error or that the gas ran out; no step panics. *)
Theorem step_implements_spec childRun s i φ :
  next_inst s = Ok i → abs_op i = Some φ → wf_state s →
  match step childRun s with
  | (Ok _, s') => φ (view s) = Ok (view s') ∧ wf_state s'
  | (Err e, _) => e = ErrRunLimitExceeded ∨ φ (view s) = Err e
  | _ => False
  end.
Proof. apply step_simulates. Qed.

(** C13: a program made of such instructions, run from its start with more
    rounds than it has instructions, finishes: with the stacks its
    specification computes, or with the error the specification stops at, or
    out of gas.  It neither panics nor needs more rounds. *)
Theorem run_implements_spec fuel s insts : wf_state s → slice_ok (hp s) (program (vm s)) →
  ParseProgram (bytes (hp s) (program (vm s))) = Ok insts →
  Forall (λ i, is_Some (abs_op i)) insts → (length insts < fuel)%nat →
  match run fuel s with
  | (Ok _, s') => abs_run insts (view s) = Some (Ok (view s'))
  | (Err e, _) => e = ErrRunLimitExceeded ∨ abs_run insts (view s) = Some (Err e)
  | _ => False
  end.
Proof.
  intros Hw Hok Hp Hall Hf. unfold run, bind, modify.
  destruct (wf_view s (set_pc 0 s)) as [Hw1 <-]; [done..|].
  by eapply run_loop_simulates; [apply Hw1|..].
Qed.
End simulation.

(** ** Witnesses *)

(** -7 3 MOD DUP 2 NUMEQUAL *)
Definition mod_prog : list Z := [0x01; 0x07; 0x8f; 0x53; 0x97; 0x76; 0x52; 0x9c].
Definition mod_state : State :=
  mkState (initVM (start_context mod_prog) 1000) (start_heap mod_prog) ([] : toy_db).

Lemma mod_state_wf : wf_state mod_state ∧ slice_ok (hp mod_state) (program (vm mod_state)).
Proof. split; [by split|]. exists mod_prog. split; [done|]. simpl. lia. Qed.

Lemma step_implements_spec_witness : next_inst mod_state = Ok (mkInst 1 2 [7])
  ∧ (∃ s', step (ret tt) mod_state = (Ok tt, s') ∧ view s' = ([[7]], [])).
Proof.
  assert (next_inst mod_state = Ok (mkInst 1 2 [7])) as Hn by (vm_compute; reflexivity).
  split; [exact Hn|].
  pose proof (step_implements_spec (ret tt) mod_state (mkInst 1 2 [7]) _ Hn eq_refl
    (proj1 mod_state_wf)) as H.
  assert ((step (ret tt) mod_state).1 = Ok tt) as Hok by (vm_compute; reflexivity).
  destruct (step (ret tt) mod_state) as [o s']. simpl in Hok. subst o.
  exists s'. split; [reflexivity|]. symmetry. apply (Ok_inj (E:=error)). exact (proj1 H).
Defined.

(** "a" "bc" CAT on exact slices *)
Definition cat_state : State :=
  mkState (mkVM (start_context []) nil_slice 0 0 100 0 true [] 0
             [mkSlice (Some 1%nat) 0 1 1; mkSlice (Some 2%nat) 0 2 2] [])
          [[1]; [0x61]; [0x62; 0x63]] ([] : toy_db).

Lemma CAT_concatenates_witness : match opCat cat_state with
  | (Ok _, s') => view s' = ([[0x61; 0x62; 0x63]], [])
  | _ => False
  end.
Proof.
  pose proof (CAT_concatenates cat_state (mkSlice (Some 1%nat) 0 1 1) (mkSlice (Some 2%nat) 0 2 2) []) as H.
  specialize (H ltac:(split; [repeat constructor; eexists; (split; [done|simpl; lia])|done|done]) eq_refl).
  assert ((opCat cat_state).1 = Ok tt) as Hok by (vm_compute; reflexivity).
  destruct (opCat cat_state) as [o s']. simpl in Hok. subst o.
  destruct H as (z & _ & _ & Hv). exact (Hv eq_refl).
Defined.

Lemma run_implements_spec_witness :
  ∃ s', run 10 mod_state = (Ok tt, s') ∧ view s' = ([[1]; [2]], []).
Proof.
  pose proof (run_implements_spec 10 mod_state
    [mkInst 1 2 [7]; mkInst 0x8f 1 []; mkInst 0x53 1 [3]; mkInst 0x97 1 []; mkInst 0x76 1 [];
     mkInst 0x52 1 [2]; mkInst 0x9c 1 []] (proj1 mod_state_wf) (proj2 mod_state_wf)) as H.
  specialize (H ltac:(vm_compute; reflexivity) ltac:(repeat constructor; by eexists) ltac:(simpl; lia)).
  assert ((run 10 mod_state).1 = Ok tt) as Hok by (vm_compute; reflexivity).
  destruct (run 10 mod_state) as [o s']. simpl in Hok. subst o.
  exists s'. split; [reflexivity|].
  assert (abs_run [mkInst 1 2 [7]; mkInst 0x8f 1 []; mkInst 0x53 1 [3]; mkInst 0x97 1 [];
    mkInst 0x76 1 []; mkInst 0x52 1 [2]; mkInst 0x9c 1 []] (view mod_state)
    = Some (Ok ([[1]; [2]], []))) as Ha by (vm_compute; reflexivity).
  rewrite Ha in H. symmetry. apply (Ok_inj (E:=error)). congruence.
Defined.
