(* ===== verification/VmAccounts.v ===== *)
(** * Accounts: messages, deposits and withdrawals

    What the opcodes that reach the account database promise: the gas a message
    reports, and the balance changes of DEPOSIT and WITHDRAW. *)

From S2P Require Import Prelude Checked GoSlice VmProgram VmMachine VmOps EvmTransition.
From S2P Require Import VmEvmOps VmRun VmLogic VmRefine VmSimulation.

Section accounts.
Context `{E : VmEnv}.

(** [tracks m s Q]: [Q] holds of the outcome and the state [m] ends in. *)
Definition tracks {A} (m : M A) (s : State) (Q : outcome error A → State → Prop) : Prop :=
  Q (m s).1 (m s).2.

Lemma tracks_bind {A B} (m : M A) (k : A → M B) s Q :
  tracks m s (λ o s', match o with
                      | Ok a => tracks (k a) s' Q
                      | Err e => Q (Err e) s'
                      | Panic => Q Panic s'
                      | Fuel => Q Fuel s'
                      end) → tracks (bind m k) s Q.
Proof. unfold tracks, bind. by destruct (m s) as [[a|e| |] s1]. Qed.

Lemma tracks_deref {A} (f : Context → option A) a s (Q : outcome error A → State → Prop) :
  f (context (vm s)) = Some a → Q (Ok a) s → tracks (deref f) s Q.
Proof. intros Hf H. unfold tracks, deref, bind, gets. by rewrite Hf. Qed.

(** Popping keeps the database, the context and the heap. *)
Lemma tracks_pop b x r s (Q : outcome error slice → State → Prop) :
  rev (dataStack (vm s)) = x :: r → (∀ e s', db s' = db s → Q (Err e) s') →
  (∀ s', rev (dataStack (vm s')) = r → db s' = db s → context (vm s') = context (vm s) →
     hp s' = hp s → Q (Ok x) s') → tracks (pop b) s Q.
Proof.
  intros Hs He H. unfold tracks, pop, bind, gets. destruct (rev_last _ _ _ Hs) as [-> Ht].
  unfold applyCost, deferCost, modify, ret.
  destruct b; [|destruct (_ <? _); [by apply (He _ (set_runLimit 0 s))|]]; by apply H.
Qed.

Lemma tracks_pop_zero e x r s (Q : outcome error unit → State → Prop) :
  rev (dataStack (vm s)) = x :: r → (∀ e s', db s' = db s → Q (Err e) s') →
  (∀ s', rev (dataStack (vm s')) = r → db s' = db s → context (vm s') = context (vm s) →
     hp s' = hp s → Q (Ok tt) s') → tracks (pop_zero e) s Q.
Proof.
  intros Hs He H. unfold pop_zero. apply tracks_bind, (tracks_pop _ x r); [done|done|].
  intros s' ? ? ? ?. unfold tracks, bind, read, gets. destruct (_ <? _); [by apply (He _ s')|by apply (H s')].
Qed.

(** The opcode's last act, the truth value that reports success *)
Lemma tracks_pushBool s (Q : outcome error unit → State → Prop) :
  (∀ s', db s' = db s → Q (Err ErrRunLimitExceeded) s') → (∀ s', db s' = db s → Q (Ok tt) s') →
  tracks (pushBool true false) s Q.
Proof.
  intros He H. unfold tracks, pushBool, BoolBytes, bind, ret, push, bind, applyCost, modify.
  destruct (_ <? _); [by apply (He (set_runLimit 0 s))|by eapply H].
Qed.

(** What the opcode may do to the database: nothing, or the change [d'] when
    [ok]; the change without success only for lack of gas *)
Definition account_post (ok : Prop) (d d' : StateDB) (o : outcome error unit) (s' : State) : Prop :=
  match o with
  | Ok _ => ok ∧ db s' = d'
  | Err e => db s' = d ∨ (e = ErrRunLimitExceeded ∧ ok ∧ db s' = d')
  | _ => False
  end.

Section operands.
Context (s : State) (addr vt ver aid : slice) (r : list slice) (amt : Z).
Hypothesis Hstack : rev (dataStack (vm s)) = addr :: vt :: ver :: r.
Hypothesis Hasset : AssetID (context (vm s)) = Some aid.
Hypothesis Hamount : Amount (context (vm s)) = Some amt.

Definition caller_of : Address := BytesToAddress (bytes (hp s) addr).
Definition is_native : bool := bool_decide (bytes (hp s) aid = NativeAssetID).

(** DEPOSIT and WITHDRAW read their operands, then act on the account. *)
Lemma account_op (act : Address → Z → bool → M unit) Q :
  (∀ e s', db s' = db s → Q (Err e) s') →
  (∀ s1, db s1 = db s → tracks (act caller_of amt is_native) s1 Q) →
  tracks (assetID <- deref AssetID ;; assetAmount <- deref Amount ;; address <- pop false ;;
          pop_zero ErrUnknownVmType ;; pop_zero ErrUnknownVersion ;;
          addr <- read address ;; aid <- read assetID ;;
          act (BytesToAddress addr) assetAmount (bool_decide (aid = NativeAssetID)))%vm s Q.
Proof using Hstack Hasset Hamount.
  intros He Hact. apply tracks_bind, (tracks_deref _ aid); [done|].
  apply tracks_bind, (tracks_deref _ amt); [done|].
  apply tracks_bind; eapply tracks_pop; [exact Hstack|by intros; apply He|].
  intros s1 Hs1 Hd1 _ Hh1. apply tracks_bind; eapply tracks_pop_zero; [exact Hs1|by intros; apply He; congruence|].
  intros s2 Hs2 Hd2 _ Hh2. apply tracks_bind; eapply tracks_pop_zero; [exact Hs2|by intros; apply He; congruence|].
  intros s3 _ Hd3 _ Hh3. unfold tracks, bind, read, gets.
  assert (hp s3 = hp s) as -> by congruence. apply Hact. congruence.
Qed.

(** C15: WITHDRAW of the native asset succeeds only when the caller's balance
    covers the amount, and then debits exactly that amount; for another asset
    it changes nothing.  An error leaves the database alone, except that the
    debit has already happened when the gas runs out on the final push (the
    block validation reverts the database then). *)
Theorem WITHDRAW_debits_covered_amounts :
  if is_native
  then tracks opWithdraw s (account_post (amt <= GetBalance (db s) caller_of) (db s)
                              (SubBalance (db s) caller_of amt))
  else tracks opWithdraw s (account_post True (db s) (db s)).
Proof using Hstack Hasset Hamount.
  enough (∀ ok d', (if is_native then ok = (amt <= GetBalance (db s) caller_of)
      ∧ d' = SubBalance (db s) caller_of amt else ok = True ∧ d' = db s) →
    tracks opWithdraw s (account_post ok (db s) d')) as H by (destruct is_native; by apply H).
  intros ok d' Hd'. apply (account_op (λ caller amount native,
    (if (native : bool) then d <- gets db ;;
       if CanTransfer d caller amount then modify (set_db (SubBalance d caller amount))
       else throw (ErrEvm ErrInsufficientBalance)
     else ret tt) ;; pushBool true false)%vm); [by left|].
  intros s1 Hs1. apply tracks_bind. destruct is_native; destruct Hd' as [-> ->].
  - unfold tracks at 1, bind, gets, CanTransfer. rewrite Hs1.
    destruct (Z.leb_spec amt (GetBalance (db s) caller_of)); simpl; [|by left].
    apply tracks_pushBool; intros s' Hs'; rewrite ?Hs'; [right|]; done.
  - apply tracks_pushBool; intros s' Hs'; simpl in Hs'; [left|split; [done|]]; congruence.
Qed.

(** DEPOSIT of the native asset credits the caller with exactly the
    spent amount; for another asset it changes nothing. *)
Theorem DEPOSIT_credits_the_amount :
  tracks opDeposit s (account_post True (db s)
    (if is_native then AddBalance (db s) caller_of amt else db s)).
Proof using Hstack Hasset Hamount.
  apply (account_op (λ caller amount native,
    (if (native : bool) then modify (λ s, set_db (AddBalance (db s) caller amount) s)
     else ret tt) ;; pushBool true false)%vm); [by left|].
  intros s1 Hs1. apply tracks_bind. destruct is_native; unfold tracks at 1; simpl.
  - apply tracks_pushBool; intros s' Hs'; simpl in Hs'; unfold account_post; rewrite Hs', Hs1; [right|]; done.
  - apply tracks_pushBool; intros s' Hs'; simpl in Hs'; [left|split; [done|]]; congruence.
Qed.
End operands.

(** C17: whatever the EVM does with a message, the gas it is charged for lies
    between zero and the message's own limit, and the accounting around the
    EVM run never panics (the block's gas pool starts full, as the opcodes
    start it). *)
Theorem message_gas_within_limit `{!EvmOk} ctx d msg : is_uint64 (msgGas msg) →
  match (ApplyMessage ctx d msg MaxUint64).1 with
  | Ok (_, used) => 0 <= used <= msgGas msg
  | Err _ => True
  | _ => False
  end.
Proof. apply ApplyMessage_gas. Qed.
End accounts.

(** ** Witnesses *)

(** Version 0, vm type 0 and an address of 20 bytes; a balance of 5 *)
Definition bank_heap : heap := [[1]; NativeAssetID; replicate 20 7; []; []].
Definition bank_state (amount : Z) : State :=
  mkState (mkVM (mkContext (0, 0, 0) 1 nil_slice [] nil_slice (Some 1) (Some 0) (Some 0)
                   (Some (mkSlice (Some 1%nat) 0 32 32)) (Some amount) None None None None None None)
             nil_slice 0 0 1000 0 true [] 0
             [mkSlice (Some 3%nat) 0 0 0; mkSlice (Some 4%nat) 0 0 0; mkSlice (Some 2%nat) 0 20 20] [])
          bank_heap ([(replicate 20 7, 5)] : toy_db).

Lemma WITHDRAW_debits_covered_amounts_witness :
  (if is_native (bank_state 3) (mkSlice (Some 1%nat) 0 32 32)
   then tracks opWithdraw (bank_state 3)
     (account_post (3 <= 5) (db (bank_state 3)) ((replicate 20 7, 2) :: [(replicate 20 7, 5)]))
   else False).
Proof.
  pose proof (WITHDRAW_debits_covered_amounts (bank_state 3) (mkSlice (Some 2%nat) 0 20 20)
    (mkSlice (Some 4%nat) 0 0 0) (mkSlice (Some 3%nat) 0 0 0) (mkSlice (Some 1%nat) 0 32 32) [] 3
    eq_refl eq_refl eq_refl) as H.
  assert (is_native (bank_state 3) (mkSlice (Some 1%nat) 0 32 32) = true) as Hn by (vm_compute; reflexivity).
  rewrite Hn in *. exact H.
Defined.

Lemma DEPOSIT_credits_the_amount_witness :
  tracks opDeposit (bank_state 3) (account_post True (db (bank_state 3))
    (if is_native (bank_state 3) (mkSlice (Some 1%nat) 0 32 32)
     then (replicate 20 7, 8) :: [(replicate 20 7, 5)] else [])).
Proof.
  pose proof (DEPOSIT_credits_the_amount (bank_state 3) (mkSlice (Some 2%nat) 0 20 20)
    (mkSlice (Some 4%nat) 0 0 0) (mkSlice (Some 3%nat) 0 0 0) (mkSlice (Some 1%nat) 0 32 32) [] 3
    eq_refl eq_refl eq_refl) as H.
  assert (is_native (bank_state 3) (mkSlice (Some 1%nat) 0 32 32) = true) as Hn by (vm_compute; reflexivity).
  rewrite Hn in *. exact H.
Defined.

Lemma message_gas_within_limit_witness :
  match (ApplyMessage (mkEvmContext [] [] 0 0 0) ([] : toy_db)
           (mkMessage [] (Some []) 0 0 100000 0 [] true) MaxUint64).1 with
  | Ok (_, used) => 0 <= used <= 100000
  | _ => False
  end.
Proof.
  pose proof (message_gas_within_limit (mkEvmContext [] [] 0 0 0) ([] : toy_db)
    (mkMessage [] (Some []) 0 0 100000 0 [] true) ltac:(ranges; simpl; lia)) as H.
  destruct (ApplyMessage _ _ _ _) as [o d] eqn:Ha. simpl in *.
  assert (o = Ok (Some ([], 0%nat), 100000)) as ->; [|exact H].
  apply (f_equal fst) in Ha. simpl in Ha. rewrite <- Ha. vm_compute. reflexivity.
Defined.

(** 2 3 ADD 5 NUMEQUAL *)
Example eval_add : eval_program 10 [0x52; 0x53; 0x93; 0x55; 0x9c] 1000
  = Some (None, 912, [[1]]).
Proof. vm_compute. reflexivity. Qed.
