(* ===== verification/Encoding.v ===== *)
(** * Primitive encodings ([basis/encoding/blockchain])

    Variable-length integers, strings and lists of strings, as they are read
    from a buffer and written to one.  A reader is a function from the unread
    bytes to an outcome and the bytes left (also after an error); a writer
    returns its error, if any, and the bytes it has written. *)

From S2P Require Import Prelude.

Section encoding.
Local Open Scope go_scope.

(** The errors of this package, and those of the readers built on it in
    [protocol/bc/types] *)
Inductive enc_error :=
| ErrRange
| EOF
| ErrUnexpectedEOF
| ErrVarintOverflow
| ErrSerflags
| ErrVMVersion
| ErrInputType
| errBadAssetID
| ErrTrailing
| ErrHex.

Definition Reader (A : Type) : Type := list Z → outcome enc_error A * list Z.
Definition Writer : Type := option enc_error * list Z.

Definition ReadByte : Reader Z := λ buf,
  match buf with
  | [] => (Err EOF, [])
  | b :: rest => (Ok b, rest)
  end.

(** [Reader.Read] into a slice of [n] bytes: the bytes read, and EOF once the
    buffer is empty *)
Definition Read (n : nat) (buf : list Z) : list Z * option enc_error * list Z :=
  let rest := drop n buf in
  (take n buf, if bool_decide (rest = []) then Some EOF else None, rest).

(** [binary.ReadUvarint] over [ReadByte]: [x], [s] and [i] are its variables *)
Fixpoint uvarint_loop (x s i : Z) (buf : list Z) : outcome enc_error Z * list Z :=
  match buf with
  | [] => (Err EOF, [])
  | b :: rest =>
      if b <? 0x80 then
        if (9 <? i) || ((i =? 9) && (1 <? b)) then (Err ErrVarintOverflow, rest)
        else (Ok (Z.lor x (uint64 (Z.shiftl b s))), rest)
      else uvarint_loop (Z.lor x (uint64 (Z.shiftl (Z.land b 0x7f) s))) (s + 7) (i + 1) rest
  end.

Definition ReadUvarint : Reader Z := uvarint_loop 0 0 0.

Definition bind_reader {A B} (r : Reader A) (k : A → Reader B) : Reader B := λ buf,
  match r buf with
  | (Ok a, rest) => k a rest
  | (Err e, rest) => (Err e, rest)
  | (Panic, rest) => (Panic, rest)
  | (Fuel, rest) => (Fuel, rest)
  end.

Definition fail {A} (e : enc_error) : Reader A := λ buf, (Err e, buf).
Definition give {A} (a : A) : Reader A := λ buf, (Ok a, buf).

Definition ReadVarint31 : Reader Z :=
  bind_reader ReadUvarint (λ val, if MaxInt32 <? val then fail ErrRange else give (uint32 val)).

Definition ReadVarint63 : Reader Z :=
  bind_reader ReadUvarint (λ val, if MaxInt64 <? val then fail ErrRange else give val).

Definition ReadVarstr31 : Reader (list Z) :=
  bind_reader ReadVarint31 (λ l buf,
    if l =? 0 then (Ok [], buf)
    else if len buf <? l then (Err ErrUnexpectedEOF, buf)
    else (Ok (take (Z.to_nat l) buf), drop (Z.to_nat l) buf)).

(** The loop of [ReadVarstrList]; its result so far is lost when it fails *)
Fixpoint varstr_loop (nelts : nat) : Reader (list (list Z)) :=
  match nelts with
  | O => give []
  | S n => bind_reader ReadVarstr31 (λ s, bind_reader (varstr_loop n) (λ r, give (s :: r)))
  end.

Definition ReadVarstrList : Reader (list (list Z)) :=
  bind_reader ReadVarint31 (λ nelts, varstr_loop (Z.to_nat nelts)).

(** [f] consumes a prefix of the string; what it leaves is the suffix *)
Definition ReadExtensibleString {A} (f : Reader A) : Reader (A * list Z) :=
  bind_reader ReadVarstr31 (λ s buf,
    match f s with
    | (Ok a, suffix) => (Ok (a, suffix), buf)
    | (Err e, _) => (Err e, buf)
    | (Panic, _) => (Panic, buf)
    | (Fuel, _) => (Fuel, buf)
    end).

(** [binary.PutUvarint] for values below [2 ^ (7 * n)] *)
Fixpoint PutUvarint (n : nat) (x : Z) : list Z :=
  match n with
  | O => []
  | S n => if x <? 0x80 then [uint8 x]
           else Z.lor (uint8 x) 0x80 :: PutUvarint n (Z.shiftr x 7)
  end.

(** The code writes into a buffer of 9 bytes; a tenth would be a panic. *)
Definition WriteVarint31 (val : Z) : Writer :=
  if MaxInt32 <? val then (Some ErrRange, []) else (None, PutUvarint 10 val).

Definition WriteVarint63 (val : Z) : Writer :=
  if MaxInt64 <? val then (Some ErrRange, []) else (None, PutUvarint 10 val).

Definition seq_writer (w : Writer) (k : Writer) : Writer :=
  match w with
  | (Some e, bs) => (Some e, bs)
  | (None, bs) => let '(e, bs') := k in (e, bs ++ bs')
  end.

Definition WriteVarstr31 (str : list Z) : Writer :=
  seq_writer (WriteVarint31 (uint64 (len str))) (None, str).

Definition WriteVarstrList (l : list (list Z)) : Writer :=
  seq_writer (WriteVarint31 (uint64 (len l)))
    (foldr (λ s w, seq_writer (WriteVarstr31 s) w) (None, []) l).

(** [f]'s output and the suffix, as one string *)
Definition WriteExtensibleString (suffix : list Z) (f : Writer) : Writer :=
  match f with
  | (Some e, _) => (Some e, [])
  | (None, bs) => WriteVarstr31 (bs ++ suffix)
  end.

(** ** Varints *)

Lemma land_7f b : 0 <= b → Z.land b 0x7f = b mod 128.
Proof. intros. change 0x7f with (Z.ones 7). by rewrite Z.land_ones. Qed.

Lemma lor_add a b : Z.land a b = 0 → Z.lor a b = a + b.
Proof. intros H. by rewrite Z.add_nocarry_lxor, Z.lxor_lor. Qed.

Lemma lor_80 b : 0 <= b < 128 → Z.lor b 0x80 = b + 128.
Proof.
  intros Hb. apply lor_add, Z.bits_inj'. intros n Hn.
  rewrite Z.bits_0, Z.land_spec. change 0x80 with (2 ^ 7). rewrite Z.pow2_bits_eqb by done.
  destruct (Z.eqb_spec 7 n) as [<-|]; [|by rewrite andb_false_r].
  rewrite andb_true_r. apply Z.testbit_false; [done|]. rewrite Z.div_small by lia. done.
Qed.

(** Bits above the ones already read *)
Lemma lor_shift x v s : 0 <= s → 0 <= x < 2 ^ s → 0 <= v → Z.lor x (v * 2 ^ s) = x + v * 2 ^ s.
Proof.
  intros Hs Hx Hv. apply lor_add, Z.bits_inj'. intros n Hn.
  rewrite Z.bits_0, Z.land_spec. destruct (Z.ltb_spec n s).
  - rewrite Z.mul_pow2_bits_low by done. apply andb_false_r.
  - destruct (Z.eqb_spec x 0) as [->|]; [by rewrite Z.bits_0|].
    rewrite (Z.bits_above_log2 x n); [done|lia|].
    apply Z.log2_lt_pow2; [lia|]. pose proof (Z.pow_le_mono_r 2 s n). lia.
Qed.

Lemma pow7_split s n : 0 <= s → 2 ^ (7 * Z.of_nat (S n)) = 2 ^ 7 * 2 ^ (7 * Z.of_nat n).
Proof. intros _. rewrite <- Z.pow_add_r by lia. f_equal. lia. Qed.

(** Reading what was written: [x] holds the [s] bits read so far *)
Lemma uvarint_put n : ∀ v x s i rest, 0 <= v < 2 ^ (7 * Z.of_nat n) → (0 < n)%nat → 0 <= i →
  s = 7 * i → i + Z.of_nat n <= 9 → 0 <= x < 2 ^ s →
  uvarint_loop x s i (PutUvarint n v ++ rest) = (Ok (x + v * 2 ^ s), rest).
Proof.
  induction n as [|n IH]; intros v x s i rest Hv Hn Hi -> Hin Hx; [lia|].
  assert (0 < 2 ^ (7 * i)) by (apply Z.pow_pos_nonneg; lia).
  assert (2 ^ (7 * i) * 2 ^ 7 <= 2 ^ 63) as Hs63.
  { rewrite <- Z.pow_add_r by lia. apply Z.pow_le_mono_r; lia. }
  cbn [PutUvarint]. destruct (Z.ltb_spec v 0x80) as [Hs|Hs].
  - cbn [app uvarint_loop]. unfold uint8, wrapU. rewrite Z.mod_small by lia.
    rewrite (proj2 (Z.ltb_lt v 128)) by lia.
    replace ((9 <? i) || ((i =? 9) && (1 <? v))) with false by lia.
    rewrite Z.shiftl_mul_pow2, uint64_id by (ranges; nia || lia). by rewrite lor_shift by lia.
  - assert (0 < n)%nat as Hn'.
    { destruct n; [|lia]. change (2 ^ (7 * Z.of_nat 1)) with 128 in Hv. lia. }
    cbn [app uvarint_loop]. set (b := v mod 128).
    assert (0 <= b < 128) as Hb by (apply Z.mod_pos_bound; lia).
    assert (Z.lor (uint8 v) 128 = 128 + v mod 128) as ->.
    { unfold uint8, wrapU. change (2 ^ 8) with 256. pose proof (Z.mod_pos_bound v 256 ltac:(lia)).
      assert (v mod 128 = (v mod 256) mod 128) as -> by (symmetry; apply Z.mod_mod_divide; by exists 2).
      destruct (Z.ltb_spec (v mod 256) 128).
      - rewrite lor_80 by lia. rewrite (Z.mod_small (v mod 256)) by lia. lia.
      - assert (v mod 256 = Z.lor (v mod 256 - 128) 128) as Hm by (rewrite lor_80; lia).
        rewrite Hm at 1. rewrite <- Z.lor_assoc, Z.lor_diag, lor_80 by lia.
        replace ((v mod 256) mod 128) with (v mod 256 - 128); [lia|].
        apply (Z.mod_unique _ _ 1); lia. }
    fold b. rewrite (proj2 (Z.ltb_ge (128 + b) 128)) by lia.
    rewrite land_7f by lia. replace ((128 + b) mod 128) with b
      by (apply (Z.mod_unique _ _ 1); lia).
    rewrite Z.shiftl_mul_pow2, uint64_id by (ranges; nia || lia).
    rewrite lor_shift by lia. rewrite Z.shiftr_div_pow2 by lia. change (2 ^ 7) with 128 in *.
    assert (2 ^ (7 * i + 7) = 2 ^ (7 * i) * 128) as Hp by (by rewrite Z.pow_add_r by lia).
    rewrite IH with (s := 7 * i + 7); [|..].
    + do 2 f_equal. rewrite Hp. unfold b. pose proof (Z.div_mod v 128). lia.
    + rewrite (pow7_split 0 n) in Hv by lia. change (2 ^ 7) with 128 in Hv. split; [apply Z.div_pos; lia|].
      apply Z.div_lt_upper_bound; lia.
    + done.
    + lia.
    + lia.
    + lia.
    + rewrite Hp. nia.
Qed.

Lemma put_fuel n : ∀ v, 0 <= v < 2 ^ (7 * Z.of_nat n) → (0 < n)%nat →
  PutUvarint (S n) v = PutUvarint n v.
Proof.
  induction n as [|n IH]; intros v Hv Hn; [lia|].
  change (PutUvarint (S (S n)) v) with
    (if v <? 0x80 then [uint8 v] else Z.lor (uint8 v) 0x80 :: PutUvarint (S n) (Z.shiftr v 7)).
  cbn [PutUvarint]. destruct (Z.ltb_spec v 0x80); [done|]. f_equal. fold PutUvarint.
  destruct n; [change (2 ^ (7 * Z.of_nat 1)) with 128 in Hv; lia|].
  apply IH; [|lia]. rewrite (pow7_split 0) in Hv by lia. change (2 ^ 7) with 128 in Hv.
  rewrite Z.shiftr_div_pow2 by lia. change (2 ^ 7) with 128.
  split; [apply Z.div_pos; lia|apply Z.div_lt_upper_bound; lia].
Qed.

Lemma length_put n : ∀ v, (length (PutUvarint n v) <= n)%nat.
Proof.
  induction n as [|n IH]; intros v; cbn [PutUvarint]; [done|].
  destruct (_ <? _); simpl; [lia|]. specialize (IH (Z.shiftr v 7)). lia.
Qed.

Lemma put_bytes n : ∀ v, 0 <= v → Forall is_byte (PutUvarint n v).
Proof.
  induction n as [|n IH]; intros v Hv; cbn [PutUvarint]; [constructor|].
  pose proof (Z.mod_pos_bound v 256 ltac:(lia)) as Hm. unfold uint8, wrapU. change (2 ^ 8) with 256.
  destruct (_ <? _); [repeat constructor; ranges; lia|].
  constructor; [ranges|apply IH, Z.shiftr_nonneg; lia].
  assert (Z.lor (v mod 256) 128 < 2 ^ 8); [|split; [apply Z.lor_nonneg; lia|lia]].
  apply Z.log2_lt_cancel. rewrite Z.log2_lor, Z.log2_pow2 by lia.
  change (Z.log2 128) with 7. apply Z.max_lub_lt; [|lia].
  destruct (Z.eqb_spec (v mod 256) 0) as [->|]; [done|]. apply Z.log2_lt_pow2; lia.
Qed.

Lemma ReadUvarint_put v rest : 0 <= v <= MaxInt64 →
  ReadUvarint (PutUvarint 10 v ++ rest) = (Ok v, rest).
Proof.
  intros Hv. rewrite (put_fuel 9) by lia. unfold ReadUvarint.
  rewrite (uvarint_put 9) by lia. do 2 f_equal. lia.
Qed.

Lemma ReadVarint31_write v rest : 0 <= v <= MaxInt32 →
  ReadVarint31 (PutUvarint 10 v ++ rest) = (Ok v, rest).
Proof.
  intros Hv. unfold ReadVarint31, bind_reader. rewrite ReadUvarint_put by lia.
  rewrite (proj2 (Z.ltb_ge _ _)) by lia. unfold give. by rewrite uint32_id by (ranges; lia).
Qed.

Lemma WriteVarstr31_ok str : len str <= MaxInt32 →
  WriteVarstr31 str = (None, PutUvarint 10 (len str) ++ str).
Proof.
  intros Hl. unfold WriteVarstr31, WriteVarint31. pose proof (len_nonneg str).
  rewrite uint64_id by (ranges; lia). by rewrite (proj2 (Z.ltb_ge _ _)) by lia.
Qed.

Lemma ReadVarstr31_write str rest : len str <= MaxInt32 →
  ReadVarstr31 ((PutUvarint 10 (len str) ++ str) ++ rest) = (Ok str, rest).
Proof.
  intros Hl. unfold ReadVarstr31, bind_reader. pose proof (len_nonneg str) as Hn.
  rewrite <- app_assoc, ReadVarint31_write by lia.
  destruct (Z.eqb_spec (len str) 0) as [H0|H0].
  { unfold len in H0. destruct str; [done|simpl in H0; lia]. }
  rewrite len_app, (proj2 (Z.ltb_ge _ _)) by (pose proof (len_nonneg rest); lia).
  unfold len. by rewrite Nat2Z.id, take_app_length, drop_app_length.
Qed.

(** The bytes of a list of strings *)
Definition varstrs (l : list (list Z)) : list Z :=
  concat ((λ s, PutUvarint 10 (len s) ++ s) <$> l).

Lemma WriteVarstrs_ok l : Forall (λ s, len s <= MaxInt32) l →
  foldr (λ s w, seq_writer (WriteVarstr31 s) w) (None, []) l = (None, varstrs l).
Proof. induction 1 as [|s l Hs _ IH]; [done|]. simpl. by rewrite IH, WriteVarstr31_ok. Qed.

Lemma varstr_loop_write l rest : Forall (λ s, len s <= MaxInt32) l →
  varstr_loop (length l) (varstrs l ++ rest) = (Ok l, rest).
Proof.
  induction 1 as [|s l Hs _ IH]; [done|]. cbn [length varstr_loop varstrs fmap list_fmap concat].
  unfold bind_reader at 1. change (concat _) with (varstrs l). rewrite <- app_assoc, ReadVarstr31_write by done.
  unfold bind_reader. rewrite IH. done.
Qed.

(** ** Claims *)

(** Every value below [2 ^ 63] is written in at most nine bytes (the size
    of the code's scratch buffer) and read back as itself, with the rest of
    the buffer untouched; larger values are refused. *)
Theorem varint63_roundtrip v rest : is_uint64 v →
  if v <=? MaxInt64 then
    ∃ bs, WriteVarint63 v = (None, bs) ∧ (length bs <= 9)%nat ∧ Forall is_byte bs
          ∧ ReadVarint63 (bs ++ rest) = (Ok v, rest)
  else WriteVarint63 v = (Some ErrRange, []).
Proof.
  intros Hv. unfold WriteVarint63. ranges. destruct (Z.leb_spec v MaxInt64).
  - rewrite (proj2 (Z.ltb_ge _ _)) by lia. exists (PutUvarint 10 v). split_and!; [done| | |].
    + rewrite (put_fuel 9) by lia. apply length_put.
    + apply put_bytes. lia.
    + unfold ReadVarint63, bind_reader. rewrite ReadUvarint_put by lia.
      by rewrite (proj2 (Z.ltb_ge _ _)) by lia.
  - by rewrite (proj2 (Z.ltb_lt _ _)) by lia.
Qed.

(** A list of strings of representable lengths is read back from what
    [WriteVarstrList] wrote, and the bytes that follow it are left unread. *)
Theorem varstr_list_roundtrip l rest : len l <= MaxInt32 → Forall (λ s, len s <= MaxInt32) l →
  ∃ bs, WriteVarstrList l = (None, bs) ∧ ReadVarstrList (bs ++ rest) = (Ok l, rest).
Proof.
  intros Hl Hs. pose proof (len_nonneg l). unfold WriteVarstrList, WriteVarint31.
  rewrite uint64_id by (ranges; lia). rewrite (proj2 (Z.ltb_ge _ _)) by lia. rewrite WriteVarstrs_ok by done.
  eexists. split; [done|]. unfold ReadVarstrList, bind_reader at 1.
  rewrite <- app_assoc, ReadVarint31_write by lia. unfold len. rewrite Nat2Z.id. by apply varstr_loop_write.
Qed.

(** An extensible string gives its reader exactly what was written and
    returns the unread suffix, so old readers skip the fields added later. *)
Theorem extensible_string_roundtrip {A} (f : Reader A) (a : A) bs suffix rest :
  len (bs ++ suffix) <= MaxInt32 → f (bs ++ suffix) = (Ok a, suffix) →
  ∃ out, WriteExtensibleString suffix (None, bs) = (None, out)
         ∧ ReadExtensibleString f (out ++ rest) = (Ok (a, suffix), rest).
Proof.
  intros Hl Hf. unfold WriteExtensibleString. rewrite WriteVarstr31_ok by done.
  eexists. split; [done|]. unfold ReadExtensibleString, bind_reader.
  by rewrite ReadVarstr31_write, Hf by done.
Qed.
End encoding.

Lemma varint63_roundtrip_witness : ∃ bs, WriteVarint63 300 = (None, bs) ∧ (length bs <= 9)%nat
  ∧ Forall is_byte bs ∧ ReadVarint63 (bs ++ [7]) = (Ok 300, [7]).
Proof. apply (varint63_roundtrip 300 [7]). ranges. lia. Defined.

Lemma varstr_list_roundtrip_witness : ∃ bs, WriteVarstrList [[1; 2]; []; [3]] = (None, bs)
  ∧ ReadVarstrList (bs ++ [9]) = (Ok [[1; 2]; []; [3]], [9]).
Proof. apply varstr_list_roundtrip; [done|]. repeat constructor; done. Defined.

Lemma extensible_string_roundtrip_witness : ∃ out, WriteExtensibleString [8; 8] (None, [42]) = (None, out)
  ∧ ReadExtensibleString ReadByte (out ++ [9]) = (Ok (42, [8; 8]), [9]).
Proof. by apply (extensible_string_roundtrip ReadByte 42 [42] [8; 8] [9]). Defined.
