(* ===== verification/Bc.v ===== *)
(** * The entries of the chain ([protocol/bc])

    The protocol buffer records of [bc.pb.go] and the lookups of [bc.Tx]. *)

From S2P Require Import Prelude.
From stdpp Require Export gmap.
#[global] Open Scope Z_scope.

(** ** Hashes: four big-endian 64-bit words ([hash.go]) *)

Record Hash := mkHash { V0 : Z; V1 : Z; V2 : Z; V3 : Z }.

#[global] Instance Hash_eq_dec : EqDecision Hash.
Proof. solve_decision. Defined.
#[global] Instance Hash_countable : Countable Hash.
Proof.
  refine (inj_countable' (λ h, (V0 h, V1 h, V2 h, V3 h)) (λ '(a, b, c, d), mkHash a b c d) _).
  by intros [].
Defined.

Abbreviation AssetId := Hash.

(** [binary.BigEndian.Uint64] of 8 bytes and its inverse *)
Definition be64 (bs : list Z) : Z := be_value (take 8 bs).
Definition put_be64 (v : Z) : list Z := rev (le_bytes 8 v).

Definition NewHash (b32 : list Z) : Hash :=
  mkHash (be64 b32) (be64 (drop 8 b32)) (be64 (drop 16 b32)) (be64 (drop 24 b32)).

Definition Byte32 (h : Hash) : list Z :=
  put_be64 (V0 h) ++ put_be64 (V1 h) ++ put_be64 (V2 h) ++ put_be64 (V3 h).

(** [consensus.NativeAssetID] *)
Definition NativeAsset : AssetId := mkHash MaxUint64 MaxUint64 MaxUint64 MaxUint64.

(** ** Records of [bc.pb.go]

    A pointer the code compares with nil somewhere, or that may be nil in a
    transaction made by [MapTx], is an [option]. *)

Record AssetAmount := mkAssetAmount { aa_AssetId : option AssetId; aa_Amount : Z }.
Record Program := mkProgram { VmVersion : Z; pr_Code : list Z }.
Record AssetDefinition := mkAssetDefinition { ad_IssuanceProgram : Program; ad_Data : Hash }.
Record ValueSource := mkValueSource {
  vs_Ref : option Hash;
  vs_Value : option AssetAmount;
  vs_Position : Z;
}.
Record ValueDestination := mkValueDestination {
  vd_Ref : option Hash;
  vd_Value : option AssetAmount;
  vd_Position : Z;
}.

Record TxHeader := mkTxHeader {
  h_Version : Z;
  h_SerializedSize : Z;
  h_TimeRange : Z;
  h_ResultIds : list Hash;
  h_MuxId : Hash;
  h_Data : Hash;
}.
Record Mux := mkMux {
  mux_Sources : list (option ValueSource);
  mux_Program : Program;
  mux_WitnessDestinations : list (option ValueDestination);
}.
Record Coinbase := mkCoinbase { cb_WitnessDestination : option ValueDestination; cb_Arbitrary : list Z }.
Record Output := mkOutput { out_Source : option ValueSource; out_ControlProgram : Program; out_Ordinal : Z }.
Record Retirement := mkRetirement { ret_Source : option ValueSource; ret_Ordinal : Z }.
Record Issuance := mkIssuance {
  is_NonceHash : Hash;
  is_Value : AssetAmount;
  is_WitnessDestination : option ValueDestination;
  is_WitnessAssetDefinition : AssetDefinition;
  is_WitnessArguments : list (list Z);
  is_Ordinal : Z;
}.
Record Spend := mkSpend {
  sp_SpentOutputId : option Hash;
  sp_WitnessDestination : option ValueDestination;
  sp_WitnessArguments : list (list Z);
  sp_Ordinal : Z;
}.
Record Creation := mkCreation {
  cr_Nonce : Z;
  cr_WitnessDestination : option ValueDestination;
  cr_From : Program;
  cr_Input : Program;
  cr_WitnessArguments : list (list Z);
  cr_Ordinal : Z;
}.
Record Call := mkCall {
  ca_Nonce : Z;
  ca_WitnessDestination : option ValueDestination;
  ca_From : Program;
  ca_To : Program;
  ca_Input : Program;
  ca_WitnessArguments : list (list Z);
  ca_Ordinal : Z;
}.
Record Contract := mkContract {
  co_Nonce : Z;
  co_WitnessDestination : option ValueDestination;
  co_From : Program;
  co_To : list Z;
  co_Input : Program;
  co_WitnessArguments : list (list Z);
  co_Ordinal : Z;
}.
Record Deposit := mkDeposit { dp_Source : option ValueSource; dp_ControlProgram : Program; dp_Ordinal : Z }.
Record Withdrawal := mkWithdrawal {
  wd_ControlProgram : Program;
  wd_Value : AssetAmount;
  wd_WithdrawProgram : Program;
  wd_WitnessDestination : option ValueDestination;
  wd_WitnessArguments : list (list Z);
  wd_Ordinal : Z;
}.

(** The entries a transaction's map can hold *)
Record TxLog := mkTxLog { lg_Address : list Z; lg_Topics : list (list Z); lg_Data : list Z }.
Record TxVerifyResult := mkTxVerifyResult { StatusFail : bool; Logs : list TxLog }.
Record TransactionStatus := mkTransactionStatus { ts_Version : Z; VerifyStatus : list TxVerifyResult }.

(** The header of a block, [bc.BlockHeader] *)
Record BcBlockHeader := mkBcHeader {
  bb_Version : Z;
  bb_Height : Z;
  bb_PreviousBlockId : Hash;
  bb_Timestamp : Z;
  bb_TransactionsRoot : Hash;
  bb_TransactionStatusHash : Hash;
  bb_StateRoot : Hash;
  bb_Nonce : Z;
  bb_Bits : Z;
  bb_TransactionStatus : option TransactionStatus;
}.

Inductive Entry :=
| ETxHeader (h : TxHeader)
| EMux (m : Mux)
| ECoinbase (c : Coinbase)
| EOutput (o : Output)
| ERetirement (r : Retirement)
| EIssuance (i : Issuance)
| ESpend (s : Spend)
| ECreation (c : Creation)
| ECall (c : Call)
| EContract (c : Contract)
| EDeposit (d : Deposit)
| EWithdrawal (w : Withdrawal)
| EBlockHeader (bh : BcBlockHeader).

Record Tx := mkTx {
  tx_Header : TxHeader;
  tx_ID : Hash;
  Entries : gmap Hash Entry;
  InputIDs : list Hash;
  SpentOutputIDs : list Hash;
  GasInputIDs : list Hash;
}.

(** The embedded header's field *)
Definition ResultIds (tx : Tx) : list Hash := h_ResultIds (tx_Header tx).

Record Block := mkBlock { blk_Header : BcBlockHeader; blk_ID : Hash; Transactions : list Tx }.
Definition blk_Version (b : Block) : Z := bb_Version (blk_Header b).
Definition blk_Height (b : Block) : Z := bb_Height (blk_Header b).

(** The header of a block as it is stored and sent, [types.BlockHeader] *)
Record BlockCommitment := mkCommitment {
  bc_TransactionsMerkleRoot : Hash;
  bc_TransactionStatusHash : Hash;
  bc_StateRoot : Hash;
}.
Record BlockHeader := mkHeader {
  bh_Version : Z;
  bh_Height : Z;
  bh_PreviousBlockHash : Hash;
  bh_Timestamp : Z;
  bh_Nonce : Z;
  bh_Bits : Z;
  bh_BlockCommitment : BlockCommitment;
}.

Inductive bc_error :=
| ErrMissingEntry
| ErrEntryType
| ErrStatusRange
| ErrStatusOrder.

(** ** Lookups ([tx.go], [tx_status.go]) *)

Definition tx_Output (tx : Tx) (id : Hash) : outcome bc_error Output :=
  match Entries tx !! id with
  | None => Err ErrMissingEntry
  | Some (EOutput o) => Ok o
  | Some _ => Err ErrEntryType
  end.

Definition tx_Spend (tx : Tx) (id : Hash) : outcome bc_error Spend :=
  match Entries tx !! id with
  | None => Err ErrMissingEntry
  | Some (ESpend s) => Ok s
  | Some _ => Err ErrEntryType
  end.

Definition tx_Deposit (tx : Tx) (id : Hash) : outcome bc_error Deposit :=
  match Entries tx !! id with
  | None => Err ErrMissingEntry
  | Some (EDeposit d) => Ok d
  | Some _ => Err ErrEntryType
  end.

Definition tx_Issuance (tx : Tx) (id : Hash) : outcome bc_error Issuance :=
  match Entries tx !! id with
  | None => Err ErrMissingEntry
  | Some (EIssuance x) => Ok x
  | Some _ => Err ErrEntryType
  end.

Definition tx_Creation (tx : Tx) (id : Hash) : outcome bc_error Creation :=
  match Entries tx !! id with
  | None => Err ErrMissingEntry
  | Some (ECreation x) => Ok x
  | Some _ => Err ErrEntryType
  end.

Definition tx_Call (tx : Tx) (id : Hash) : outcome bc_error Call :=
  match Entries tx !! id with
  | None => Err ErrMissingEntry
  | Some (ECall x) => Ok x
  | Some _ => Err ErrEntryType
  end.

Definition tx_Contract (tx : Tx) (id : Hash) : outcome bc_error Contract :=
  match Entries tx !! id with
  | None => Err ErrMissingEntry
  | Some (EContract x) => Ok x
  | Some _ => Err ErrEntryType
  end.

Definition tx_Withdrawal (tx : Tx) (id : Hash) : outcome bc_error Withdrawal :=
  match Entries tx !! id with
  | None => Err ErrMissingEntry
  | Some (EWithdrawal x) => Ok x
  | Some _ => Err ErrEntryType
  end.

Definition GetStatus (ts : TransactionStatus) (i : nat) : outcome bc_error bool :=
  match VerifyStatus ts !! i with
  | None => Err ErrStatusRange
  | Some r => Ok (StatusFail r)
  end.

Definition NewTransactionStatus : TransactionStatus := mkTransactionStatus 1 [].

(** [SetStatus] and [SetLogs]: the entry after the last one is added, an
    earlier one is updated. *)
Definition set_result (ts : TransactionStatus) (i : nat) (new : TxVerifyResult)
    (update : TxVerifyResult → TxVerifyResult) : outcome bc_error TransactionStatus :=
  let vs := VerifyStatus ts in
  if decide (length vs < i)%nat then Err ErrStatusOrder
  else if decide (i = length vs) then Ok (mkTransactionStatus (ts_Version ts) (vs ++ [new]))
  else Ok (mkTransactionStatus (ts_Version ts) (alter update i vs)).

Definition SetStatus (ts : TransactionStatus) (i : nat) (gasOnly : bool)
    : outcome bc_error TransactionStatus :=
  set_result ts i (mkTxVerifyResult gasOnly []) (λ r, mkTxVerifyResult gasOnly (Logs r)).

Definition SetLogs (ts : TransactionStatus) (i : nat) (logs : list TxLog)
    : outcome bc_error TransactionStatus :=
  set_result ts i (mkTxVerifyResult false logs) (λ r, mkTxVerifyResult (StatusFail r) logs).

Definition GetLogs (ts : TransactionStatus) (i : nat) : outcome bc_error (list TxLog) :=
  match VerifyStatus ts !! i with
  | None => Err ErrStatusRange
  | Some r => Ok (Logs r)
  end.

(** ** Round trips *)

Lemma be_value_snoc bs b : be_value (bs ++ [b]) = 256 * be_value bs + b.
Proof. unfold be_value. by rewrite fold_left_app. Qed.

Lemma be_value_rev bs : be_value (rev bs) = le_value bs.
Proof. induction bs as [|b bs IH]; [done|]. simpl. rewrite be_value_snoc, IH. lia. Qed.

Lemma length_put_be64 v : length (put_be64 v) = 8%nat.
Proof. unfold put_be64. by rewrite length_rev, length_le_bytes. Qed.

Lemma be64_put v rest : is_uint64 v → be64 (put_be64 v ++ rest) = v.
Proof.
  intros Hv. unfold be64. rewrite <- (length_put_be64 v), take_app_length.
  unfold put_be64. rewrite be_value_rev, le_value_bytes. apply Z.mod_small. ranges. simpl. lia.
Qed.

Lemma put_be64_value bs : length bs = 8%nat → Forall is_byte bs → put_be64 (be_value bs) = bs.
Proof.
  intros Hl Hb. unfold put_be64. rewrite <- (rev_involutive bs) at 1.
  rewrite be_value_rev. replace 8%nat with (length (rev bs)) by (by rewrite length_rev).
  rewrite le_bytes_value; [apply rev_involutive|]. by apply Forall_rev.
Qed.

Lemma drop_put_be64 k v rest : drop (8 + k) (put_be64 v ++ rest) = drop k rest.
Proof. rewrite <- (length_put_be64 v). by rewrite <- drop_drop, drop_app_length. Qed.

Record hash_ok (h : Hash) : Prop := {
  ok_V0 : is_uint64 (V0 h);
  ok_V1 : is_uint64 (V1 h);
  ok_V2 : is_uint64 (V2 h);
  ok_V3 : is_uint64 (V3 h);
}.

Lemma hash_ok_NewHash bs : length bs = 32%nat → Forall is_byte bs → hash_ok (NewHash bs).
Proof.
  intros Hl Hb. assert (∀ k, is_uint64 (be64 (drop k bs))) as H.
  { intros k. unfold be64. rewrite <- (rev_involutive (take 8 _)), be_value_rev.
    pose proof (le_value_bound (rev (take 8 (drop k bs)))) as Hv.
    assert (Forall is_byte (rev (take 8 (drop k bs)))) as Hr by (by apply Forall_rev, Forall_take, Forall_drop).
    specialize (Hv Hr). assert (length (rev (take 8 (drop k bs))) <= 8)%nat as Hle.
    { rewrite length_rev, length_take. lia. }
    assert (256 ^ Z.of_nat (length (rev (take 8 (drop k bs)))) <= 256 ^ 8) by (apply Z.pow_le_mono_r; lia).
    unfold len in Hv. ranges. lia. }
  split; [apply (H 0%nat)|apply H..].
Qed.

Lemma NewHash_Byte32 h : hash_ok h → NewHash (Byte32 h) = h.
Proof.
  intros [H0 H1 H2 H3]. unfold NewHash, Byte32. destruct h as [v0 v1 v2 v3]; cbn [V0 V1 V2 V3] in *.
  rewrite (drop_put_be64 0), (drop_put_be64 8), (drop_put_be64 0), (drop_put_be64 16),
    (drop_put_be64 8), (drop_put_be64 0), !drop_0, !be64_put by done.
  rewrite <- (app_nil_r (put_be64 v3)), be64_put by done. done.
Qed.

Lemma length_Byte32 h : length (Byte32 h) = 32%nat.
Proof. unfold Byte32. by rewrite !length_app, !length_put_be64. Qed.

Lemma Byte32_NewHash bs : length bs = 32%nat → Forall is_byte bs → Byte32 (NewHash bs) = bs.
Proof.
  intros Hl Hb. unfold NewHash, Byte32, be64; cbn [V0 V1 V2 V3].
  rewrite !put_be64_value by (rewrite ?length_take, ?length_drop; lia || by repeat (apply Forall_take || apply Forall_drop)).
  transitivity (take 8 bs ++ drop 8 bs); [f_equal|apply take_drop].
  transitivity (take 8 (drop 8 bs) ++ drop 8 (drop 8 bs)); [rewrite drop_drop; f_equal|apply take_drop].
  transitivity (take 8 (drop 16 bs) ++ drop 8 (drop 16 bs)); [rewrite drop_drop; f_equal|apply take_drop].
  apply take_ge. rewrite length_drop. lia.
Qed.

(** A hash survives the conversion to its 32 bytes and back, and every
    string of 32 bytes is the encoding of a hash. *)
Theorem hash_bytes_roundtrip h bs : hash_ok h → length bs = 32%nat → Forall is_byte bs →
  NewHash (Byte32 h) = h ∧ length (Byte32 h) = 32%nat ∧ Byte32 (NewHash bs) = bs.
Proof. auto using NewHash_Byte32, length_Byte32, Byte32_NewHash. Qed.

Lemma hash_bytes_roundtrip_witness : Byte32 (NewHash (Z.of_nat <$> seq 0 32)) = Z.of_nat <$> seq 0 32.
Proof.
  apply (hash_bytes_roundtrip NativeAsset).
  - split; ranges; simpl; lia.
  - reflexivity.
  - repeat constructor; ranges; lia.
Defined.
