(* ===== verification/EntryHash.v ===== *)
(** * The identifiers of entries ([protocol/bc/entry.go])

    Every entry is named by a hash of its type and of the bytes its
    [writeForHash] method writes.  [writeForHash] of the code walks over any
    value by reflection; here there is one writer per type it meets.  The hash
    function is a parameter, so the theorem about identifiers says what a
    collision of identifiers gives: the same contents, or a collision of the
    hash function. *)

From S2P Require Import Prelude Encoding Bc.
From Stdlib Require Import Ascii.
From Stdlib Require String.
Import String.StringSyntax.
#[local] Open Scope string_scope.
#[local] Open Scope Z_scope.

Fixpoint str_bytes (s : String.string) : list Z :=
  match s with
  | String.EmptyString => []
  | String.String a r => Z.of_N (N_of_ascii a) :: str_bytes r
  end.

(** ** [writeForHash] by type *)

Definition no_bytes : Writer := (None, []).
Definition then_write (a b : Writer) : Writer := seq_writer a b.
Infix "+>" := then_write (at level 60, right associativity) : go_scope.
#[local] Open Scope go_scope.

Definition write_uint64 (v : Z) : Writer := (None, le_bytes 8 v).
Definition write_hash (h : Hash) : Writer := (None, Byte32 h).

(** A nil [*Hash] or [*AssetID] is 32 zeros; any other nil pointer is nothing. *)
Definition write_hash_ptr (h : option Hash) : Writer :=
  match h with Some h => write_hash h | None => (None, replicate 32 0) end.
Definition write_ptr {A} (f : A → Writer) (p : option A) : Writer :=
  match p with Some a => f a | None => no_bytes end.
Definition write_slice {A} (f : A → Writer) (l : list A) : Writer :=
  WriteVarint31 (uint64 (len l)) +> foldr (λ a w, f a +> w) no_bytes l.

Definition write_AssetAmount (a : AssetAmount) : Writer :=
  write_hash_ptr (aa_AssetId a) +> write_uint64 (aa_Amount a).
Definition write_Program (p : Program) : Writer :=
  write_uint64 (VmVersion p) +> WriteVarstr31 (pr_Code p).
Definition write_AssetDefinition (d : AssetDefinition) : Writer :=
  write_Program (ad_IssuanceProgram d) +> write_hash (ad_Data d).
Definition write_ValueSource (s : ValueSource) : Writer :=
  write_hash_ptr (vs_Ref s) +> write_ptr write_AssetAmount (vs_Value s) +> write_uint64 (vs_Position s).

Definition typ (e : Entry) : String.string :=
  match e with
  | ETxHeader _ => "txheader"
  | EMux _ => "mux1"
  | ECoinbase _ => "coinbase1"
  | EOutput _ => "output1"
  | ERetirement _ => "retirement1"
  | EIssuance _ => "issuance1"
  | ESpend _ => "spend1"
  | ECreation _ => "creation1"
  | ECall _ => "call1"
  | EContract _ => "contract1"
  | EDeposit _ => "deposit1"
  | EWithdrawal _ => "withdrawal1"
  | EBlockHeader _ => "blockheader"
  end.

Definition writeForHash (e : Entry) : Writer :=
  match e with
  | ETxHeader h =>
      write_uint64 (h_Version h) +> write_uint64 (h_TimeRange h)
      +> write_slice write_hash (h_ResultIds h) +> write_hash (h_MuxId h) +> write_hash (h_Data h)
  | EMux m => write_slice (write_ptr write_ValueSource) (mux_Sources m) +> write_Program (mux_Program m)
  | ECoinbase c => WriteVarstr31 (cb_Arbitrary c)
  | EOutput o => write_ptr write_ValueSource (out_Source o) +> write_Program (out_ControlProgram o)
  | ERetirement r => write_ptr write_ValueSource (ret_Source r)
  | EIssuance i => write_hash (is_NonceHash i) +> write_AssetAmount (is_Value i)
  | ESpend s => write_hash_ptr (sp_SpentOutputId s)
  | ECreation c => write_uint64 (cr_Nonce c) +> write_Program (cr_From c) +> write_Program (cr_Input c)
  | ECall c =>
      write_uint64 (ca_Nonce c) +> write_Program (ca_From c) +> write_Program (ca_To c)
      +> write_Program (ca_Input c)
  | EContract c =>
      write_uint64 (co_Nonce c) +> write_Program (co_From c) +> WriteVarstr31 (co_To c)
      +> write_Program (co_Input c)
  | EDeposit d => write_ptr write_ValueSource (dp_Source d) +> write_Program (dp_ControlProgram d)
  | EWithdrawal w =>
      write_Program (wd_ControlProgram w) +> write_AssetAmount (wd_Value w)
      +> write_Program (wd_WithdrawProgram w)
  | EBlockHeader h =>
      write_uint64 (bb_Version h) +> write_uint64 (bb_Height h) +> write_hash (bb_PreviousBlockId h)
      +> write_uint64 (bb_Timestamp h) +> write_hash (bb_TransactionsRoot h)
      +> write_hash (bb_TransactionStatusHash h) +> write_hash (bb_StateRoot h)
      +> write_uint64 (bb_Bits h) +> write_uint64 (bb_Nonce h)
  end.

Section ids.
(** [sha3pool]: SHA3-256 *)
Context (Sum256 : list Z → list Z).

Definition entry_preimage (e : Entry) (body : list Z) : list Z :=
  str_bytes "entryid:" ++ str_bytes (typ e) ++ str_bytes ":" ++ Sum256 body.

(** [mustWriteForHash] panics when a length does not fit.  A nil entry has the
    zero identifier. *)
Definition EntryID {X} (e : option Entry) : outcome X Hash :=
  match e with
  | None => Ok (mkHash 0 0 0 0)
  | Some e =>
      match writeForHash e with
      | (Some _, _) => Panic
      | (None, body) => Ok (NewHash (Sum256 (entry_preimage e body)))
      end
  end.

(** [mapBlockHeader]: the header as an entry, without a status; [BlockHeader.Hash]
    is its identifier, which always exists ([header_Hash_EntryID]). *)
Definition mapBlockHeader (old : BlockHeader) : BcBlockHeader :=
  let c := bh_BlockCommitment old in
  mkBcHeader (bh_Version old) (bh_Height old) (bh_PreviousBlockHash old) (bh_Timestamp old)
    (bc_TransactionsMerkleRoot c) (bc_TransactionStatusHash c) (bc_StateRoot c) (bh_Nonce old) (bh_Bits old) None.
Definition header_Hash (bh : BlockHeader) : Hash :=
  let e := EBlockHeader (mapBlockHeader bh) in NewHash (Sum256 (entry_preimage e (writeForHash e).2)).

Lemma header_Hash_EntryID {X} bh :
  EntryID (X:=X) (Some (EBlockHeader (mapBlockHeader bh))) = Ok (header_Hash bh).
Proof. done. Qed.

(** [AssetDefinition.ComputeAssetID] ignores the writer's error. *)
Definition ComputeAssetID (ad : AssetDefinition) : AssetId :=
  NewHash (Sum256 (write_AssetDefinition ad).2).

(** [Tx.SigHash] and the closure of [NewTxVMContext] *)
Definition sig_hash (entryID txID : Hash) : Hash := NewHash (Sum256 (Byte32 entryID ++ Byte32 txID)).

Definition SigHash {X} (tx : Tx) (n : nat) : outcome X Hash :=
  match InputIDs tx !! n with
  | Some id => Ok (sig_hash id (tx_ID tx))
  | None => Panic
  end.
End ids.

(** ** Unambiguous writers

    [unambiguous w P R]: what [w] writes for two values satisfying [P] can be
    told from what follows it, and equal bytes mean values related by [R]. *)

Definition unambiguous {A} (w : A → Writer) (P : A → Prop) (R : A → A → Prop) : Prop :=
  ∀ a b x y ra rb, P a → P b → w a = (None, x) → w b = (None, y) → x ++ ra = y ++ rb →
  R a b ∧ ra = rb.

Lemma seq_ok (v w : Writer) x : v +> w = (None, x) →
  ∃ x1 x2, v = (None, x1) ∧ w = (None, x2) ∧ x = x1 ++ x2.
Proof. destruct v as [[?|] x1], w as [[?|] x2]; simpl; intros [= <-]. eauto. Qed.

Lemma unambiguous_seq {A} (f g : A → Writer) P Q R S :
  unambiguous f P R → unambiguous g Q S →
  unambiguous (λ a, f a +> g a) (λ a, P a ∧ Q a) (λ a b, R a b ∧ S a b).
Proof.
  intros Hf Hg a b x y ra rb [Pa Qa] [Pb Qb] Ha Hb Hxy.
  apply seq_ok in Ha as (x1 & x2 & Ha1 & Ha2 & ->). apply seq_ok in Hb as (y1 & y2 & Hb1 & Hb2 & ->).
  rewrite <- !app_assoc in Hxy. destruct (Hf a b _ _ _ _ Pa Pb Ha1 Hb1 Hxy) as [HR Hr].
  destruct (Hg a b _ _ _ _ Qa Qb Ha2 Hb2 Hr) as [HS Hr']. done.
Qed.

Lemma unambiguous_field {A B} (p : A → B) (w : B → Writer) P R :
  unambiguous w P R → unambiguous (λ a, w (p a)) (λ a, P (p a)) (λ a b, R (p a) (p b)).
Proof. intros Hw a b. apply Hw. Qed.

Lemma unambiguous_weaken {A} (w : A → Writer) (P P' : A → Prop) (R R' : A → A → Prop) :
  unambiguous w P R → (∀ a, P' a → P a) → (∀ a b, P' a → P' b → R a b → R' a b) → unambiguous w P' R'.
Proof. intros Hw HP HR a b x y ra rb Pa Pb Ha Hb Hxy. destruct (Hw a b x y ra rb); auto. Qed.

Lemma unambiguous_fixed {A} (w : A → Writer) (P : A → Prop) (n : nat) :
  (∀ a, ∃ x, w a = (None, x) ∧ length x = n) →
  (∀ a b, P a → P b → w a = w b → a = b) → unambiguous w P eq.
Proof.
  intros Hn Hinj a b x y ra rb Pa Pb Ha Hb Hxy.
  destruct (Hn a) as (x' & Ha' & Hx), (Hn b) as (y' & Hb' & Hy). simplify_eq.
  apply app_inj_1 in Hxy as [-> ->]; [|congruence]. split; [|done]. apply Hinj; congruence.
Qed.

Lemma le_bytes_inj n a b : 0 <= a < 256 ^ Z.of_nat n → 0 <= b < 256 ^ Z.of_nat n →
  le_bytes n a = le_bytes n b → a = b.
Proof.
  intros Ha Hb H. apply (f_equal le_value) in H. rewrite !le_value_bytes in H.
  by rewrite !Z.mod_small in H.
Qed.

Lemma unambiguous_uint64 : unambiguous write_uint64 is_uint64 eq.
Proof.
  apply (unambiguous_fixed _ _ 8).
  - intros a. eexists. split; [done|]. apply length_le_bytes.
  - unfold write_uint64. intros a b Ha Hb H%(f_equal snd). ranges. revert H.
    apply (le_bytes_inj 8); change (256 ^ Z.of_nat 8) with (2 ^ 64); lia.
Qed.

Lemma Byte32_inj a b : hash_ok a → hash_ok b → Byte32 a = Byte32 b → a = b.
Proof. intros Ha Hb H. by rewrite <- (NewHash_Byte32 a), <- (NewHash_Byte32 b), H. Qed.

Lemma unambiguous_hash : unambiguous write_hash hash_ok eq.
Proof.
  apply (unambiguous_fixed _ _ 32).
  - intros a. eexists. split; [done|]. apply length_Byte32.
  - unfold write_hash. intros a b Ha Hb H%(f_equal snd). by apply Byte32_inj.
Qed.

(** Present pointers *)
Definition set_and {A} (P : A → Prop) (o : option A) : Prop := ∃ a, o = Some a ∧ P a.

Lemma unambiguous_hash_ptr : unambiguous write_hash_ptr (set_and hash_ok) eq.
Proof.
  intros a b x y ra rb (a' & -> & Ha) (b' & -> & Hb). simpl. intros Hx Hy Hxy.
  destruct (unambiguous_hash _ _ _ _ _ _ Ha Hb Hx Hy Hxy) as [-> ->]. done.
Qed.

Lemma unambiguous_ptr {A} (w : A → Writer) P :
  unambiguous w P eq → unambiguous (write_ptr w) (set_and P) eq.
Proof.
  intros Hw a b x y ra rb (a' & -> & Ha) (b' & -> & Hb). simpl. intros Hx Hy Hxy.
  destruct (Hw _ _ _ _ _ _ Ha Hb Hx Hy Hxy) as [-> ->]. done.
Qed.

(** The length of a Go slice is an int. *)
Definition go_len {A} (l : list A) : Prop := len l <= MaxInt64.

Lemma varint31_written n x : 0 <= n <= MaxInt64 → WriteVarint31 (uint64 n) = (None, x) →
  n <= MaxInt32 ∧ x = PutUvarint 10 n.
Proof.
  intros Hn. rewrite uint64_id by (ranges; lia). unfold WriteVarint31.
  destruct (Z.ltb_spec MaxInt32 n); [by intros Hx%(f_equal fst)|]. intros Hx%(f_equal snd).
  split; [done|]. exact (eq_sym Hx).
Qed.

Lemma unambiguous_varstr : unambiguous WriteVarstr31 go_len eq.
Proof.
  intros a b x y ra rb Ha Hb Hx Hy Hxy. pose proof (len_nonneg a). pose proof (len_nonneg b).
  assert (∀ s z, go_len s → 0 <= len s → WriteVarstr31 s = (None, z) →
    len s <= MaxInt32 ∧ z = PutUvarint 10 (len s) ++ s) as Hw.
  { intros s z Hs Hp (x1 & x2 & H1 & H2%(f_equal snd) & ->)%seq_ok. simpl in H2. subst x2.
    apply varint31_written in H1 as [? ->]; [done|unfold go_len in Hs; lia]. }
  apply Hw in Hx as [Hla ->], Hy as [Hlb ->]; [|done..].
  pose proof (ReadVarstr31_write a ra Hla) as H1. pose proof (ReadVarstr31_write b rb Hlb) as H2.
  rewrite Hxy, H2 in H1. by injection H1 as -> ->.
Qed.

Lemma unambiguous_elems {A} (w : A → Writer) P : unambiguous w P eq →
  ∀ l k x y ra rb, length l = length k → Forall P l → Forall P k →
  foldr (λ a v, w a +> v) no_bytes l = (None, x) → foldr (λ a v, w a +> v) no_bytes k = (None, y) →
  x ++ ra = y ++ rb → l = k ∧ ra = rb.
Proof.
  intros Hw. induction l as [|a l IH]; intros [|b k] x y ra rb; simpl; try done.
  { intros _ _ _ [= <-] [= <-]. done. }
  intros [= Hlen] [Ha Hl]%Forall_cons [Hb Hk]%Forall_cons
    (x1 & x2 & Hx1 & Hx2 & ->)%seq_ok (y1 & y2 & Hy1 & Hy2 & ->)%seq_ok.
  rewrite <- !app_assoc. intros Hxy.
  destruct (Hw a b _ _ _ _ Ha Hb Hx1 Hy1 Hxy) as [-> Hr].
  destruct (IH k _ _ _ _ Hlen Hl Hk Hx2 Hy2 Hr) as [-> ->]. done.
Qed.

(** A slice whose elements satisfy [P] *)
Definition list_ok {A} (P : A → Prop) (l : list A) : Prop := go_len l ∧ Forall P l.

Lemma unambiguous_slice {A} (w : A → Writer) P : unambiguous w P eq →
  unambiguous (write_slice w) (list_ok P) eq.
Proof.
  intros Hw l k x y ra rb [Hl HPl] [Hk HPk] (x1 & x2 & Hx1 & Hx2 & ->)%seq_ok
    (y1 & y2 & Hy1 & Hy2 & ->)%seq_ok Hxy.
  pose proof (len_nonneg l). pose proof (len_nonneg k). unfold go_len in Hl, Hk.
  apply varint31_written in Hx1 as [Hl31 ->]; [|lia]. apply varint31_written in Hy1 as [Hk31 ->]; [|lia].
  rewrite <- !app_assoc in Hxy.
  pose proof (ReadVarint31_write (len l) (x2 ++ ra) ltac:(lia)) as H1.
  rewrite Hxy, ReadVarint31_write in H1 by lia. injection H1 as Hlen Hr.
  eapply (unambiguous_elems w P Hw); try done. unfold len in Hlen. lia.
Qed.

(** ** Entries *)

(** Fields of their Go types, with every pointer set *)
Definition amount_ok (a : AssetAmount) : Prop := set_and hash_ok (aa_AssetId a) ∧ is_uint64 (aa_Amount a).
Definition program_ok (p : Program) : Prop := is_uint64 (VmVersion p) ∧ go_len (pr_Code p).
Definition source_ok (s : ValueSource) : Prop :=
  set_and hash_ok (vs_Ref s) ∧ set_and amount_ok (vs_Value s) ∧ is_uint64 (vs_Position s).

(** The committed part of an entry has the types it should have. *)
Definition entry_ok (e : Entry) : Prop :=
  match e with
  | ETxHeader h => is_uint64 (h_Version h) ∧ is_uint64 (h_TimeRange h)
      ∧ list_ok hash_ok (h_ResultIds h) ∧ hash_ok (h_MuxId h) ∧ hash_ok (h_Data h)
  | EMux m => list_ok (set_and source_ok) (mux_Sources m) ∧ program_ok (mux_Program m)
  | ECoinbase c => go_len (cb_Arbitrary c)
  | EOutput o => set_and source_ok (out_Source o) ∧ program_ok (out_ControlProgram o)
  | ERetirement r => set_and source_ok (ret_Source r)
  | EIssuance i => hash_ok (is_NonceHash i) ∧ amount_ok (is_Value i)
  | ESpend s => set_and hash_ok (sp_SpentOutputId s)
  | ECreation c => is_uint64 (cr_Nonce c) ∧ program_ok (cr_From c) ∧ program_ok (cr_Input c)
  | ECall c => is_uint64 (ca_Nonce c) ∧ program_ok (ca_From c) ∧ program_ok (ca_To c) ∧ program_ok (ca_Input c)
  | EContract c => is_uint64 (co_Nonce c) ∧ program_ok (co_From c) ∧ go_len (co_To c) ∧ program_ok (co_Input c)
  | EDeposit d => set_and source_ok (dp_Source d) ∧ program_ok (dp_ControlProgram d)
  | EWithdrawal w => program_ok (wd_ControlProgram w) ∧ amount_ok (wd_Value w) ∧ program_ok (wd_WithdrawProgram w)
  | EBlockHeader h => is_uint64 (bb_Version h) ∧ is_uint64 (bb_Height h) ∧ hash_ok (bb_PreviousBlockId h)
      ∧ is_uint64 (bb_Timestamp h) ∧ hash_ok (bb_TransactionsRoot h) ∧ hash_ok (bb_TransactionStatusHash h)
      ∧ hash_ok (bb_StateRoot h) ∧ is_uint64 (bb_Bits h) ∧ is_uint64 (bb_Nonce h)
  end.

(** An entry without what its identifier does not cover: witnesses, ordinals,
    the size of the transaction, the status of a block's transactions *)
Definition committed (e : Entry) : Entry :=
  match e with
  | ETxHeader h => ETxHeader (mkTxHeader (h_Version h) 0 (h_TimeRange h) (h_ResultIds h) (h_MuxId h) (h_Data h))
  | EMux m => EMux (mkMux (mux_Sources m) (mux_Program m) [])
  | ECoinbase c => ECoinbase (mkCoinbase None (cb_Arbitrary c))
  | EOutput o => EOutput (mkOutput (out_Source o) (out_ControlProgram o) 0)
  | ERetirement r => ERetirement (mkRetirement (ret_Source r) 0)
  | EIssuance i => EIssuance (mkIssuance (is_NonceHash i) (is_Value i) None
                                (mkAssetDefinition (mkProgram 0 []) (mkHash 0 0 0 0)) [] 0)
  | ESpend s => ESpend (mkSpend (sp_SpentOutputId s) None [] 0)
  | ECreation c => ECreation (mkCreation (cr_Nonce c) None (cr_From c) (cr_Input c) [] 0)
  | ECall c => ECall (mkCall (ca_Nonce c) None (ca_From c) (ca_To c) (ca_Input c) [] 0)
  | EContract c => EContract (mkContract (co_Nonce c) None (co_From c) (co_To c) (co_Input c) [] 0)
  | EDeposit d => EDeposit (mkDeposit (dp_Source d) (dp_ControlProgram d) 0)
  | EWithdrawal w => EWithdrawal (mkWithdrawal (wd_ControlProgram w) (wd_Value w) (wd_WithdrawProgram w) None [] 0)
  | EBlockHeader h => EBlockHeader (mkBcHeader (bb_Version h) (bb_Height h) (bb_PreviousBlockId h) (bb_Timestamp h)
      (bb_TransactionsRoot h) (bb_TransactionStatusHash h) (bb_StateRoot h) (bb_Nonce h) (bb_Bits h) None)
  end.

Create HintDb unamb.
#[local] Hint Resolve unambiguous_uint64 unambiguous_hash unambiguous_hash_ptr unambiguous_varstr : unamb.

Lemma unambiguous_AssetAmount : unambiguous write_AssetAmount amount_ok eq.
Proof.
  eapply unambiguous_weaken; [apply unambiguous_seq; apply unambiguous_field; eauto with unamb|done|].
  intros [] [] _ _ [? ?]. simpl in *. congruence.
Qed.

Lemma unambiguous_Program : unambiguous write_Program program_ok eq.
Proof.
  eapply unambiguous_weaken; [apply unambiguous_seq; apply unambiguous_field; eauto with unamb|done|].
  intros [] [] _ _ [? ?]. simpl in *. congruence.
Qed.
#[local] Hint Resolve unambiguous_AssetAmount unambiguous_Program unambiguous_ptr unambiguous_slice : unamb.

Lemma unambiguous_ValueSource : unambiguous write_ValueSource source_ok eq.
Proof.
  eapply unambiguous_weaken;
    [apply unambiguous_seq; [|apply unambiguous_seq]; apply unambiguous_field; eauto with unamb|done|].
  intros [] [] _ _ (? & ? & ?). simpl in *. congruence.
Qed.
#[local] Hint Resolve unambiguous_ValueSource : unamb.

(** Equal bytes of two sequences of writers: the first writers wrote the same,
    and so did the rest. *)
Lemma unambiguous_first {A} (f : A → Writer) P a b v w x y : unambiguous f P eq → P a → P b →
  f a +> v = (None, x) → f b +> w = (None, y) → x = y →
  a = b ∧ ∃ x' y', v = (None, x') ∧ w = (None, y') ∧ x' = y'.
Proof.
  intros Hf Ha Hb (x1 & x2 & Hx1 & Hx2 & ->)%seq_ok (y1 & y2 & Hy1 & Hy2 & ->)%seq_ok Hxy.
  destruct (Hf a b _ _ _ _ Ha Hb Hx1 Hy1 Hxy) as [-> ->]. eauto 6.
Qed.

Lemma unambiguous_last {A} (f : A → Writer) P a b x y : unambiguous f P eq → P a → P b →
  f a = (None, x) → f b = (None, y) → x = y → a = b.
Proof. intros Hf Ha Hb Hx Hy ->. by apply (Hf a b y y [] []). Qed.

Ltac read_fields :=
  repeat match goal with
  | H1 : ?f ?a +> _ = (None, ?x), H2 : ?f ?b +> _ = (None, ?y), Hxy : ?x = ?y |- _ =>
      let Hf := fresh in
      eassert (unambiguous f _ eq) as Hf by (eauto with unamb);
      destruct (unambiguous_first f _ a b _ _ _ _ Hf ltac:(eassumption) ltac:(eassumption) H1 H2 Hxy)
        as (<- & ? & ? & ? & ? & ?); clear Hf H1 H2 Hxy
  | H1 : ?f ?a = (None, ?x), H2 : ?f ?b = (None, ?y), Hxy : ?x = ?y |- _ =>
      let Hf := fresh in
      eassert (unambiguous f _ eq) as Hf by (eauto with unamb);
      pose proof (unambiguous_last f _ a b _ _ Hf ltac:(eassumption) ltac:(eassumption) H1 H2 Hxy) as <-;
      clear Hf H1 H2 Hxy
  end.

#[local] Arguments then_write : simpl never.
#[local] Arguments write_uint64 : simpl never.
#[local] Arguments write_hash : simpl never.
#[local] Arguments write_hash_ptr : simpl never.
#[local] Arguments write_ptr : simpl never.
#[local] Arguments write_slice : simpl never.
#[local] Arguments write_Program : simpl never.
#[local] Arguments write_AssetAmount : simpl never.
#[local] Arguments WriteVarstr31 : simpl never.

Lemma body_committed e1 e2 x y : typ e1 = typ e2 → entry_ok e1 → entry_ok e2 →
  writeForHash e1 = (None, x) → writeForHash e2 = (None, y) → x = y → committed e1 = committed e2.
Proof.
  destruct e1 as [[]|[]|[]|[]|[]|[]|[]|[]|[]|[]|[]|[]|[]], e2 as [[]|[]|[]|[]|[]|[]|[]|[]|[]|[]|[]|[]|[]];
    try done; intros _; simpl; intros Ha Hb Hx Hy Hxy; destruct_and?; read_fields; done.
Qed.

Lemma str_bytes_inj s : ∀ t, str_bytes s = str_bytes t → s = t.
Proof.
  induction s as [|a s IH]; intros [|b t]; simpl; try done. intros [= Hab Hst].
  apply N2Z.inj in Hab. rewrite <- (ascii_N_embedding a), Hab, ascii_N_embedding. f_equal. by apply IH.
Qed.

Section identifiers.
Context (Sum256 : list Z → list Z).

(** SHA3-256 returns 32 bytes. *)
Hypothesis Sum256_size : ∀ bs, length (Sum256 bs) = 32%nat ∧ Forall is_byte (Sum256 bs).

(** Two of the given inputs have the same hash.  (Some inputs always do: what a
    theorem can exclude is a collision among the inputs that are hashed.) *)
Definition collision (inputs : list (list Z)) : Prop :=
  ∃ a b, a ∈ inputs ∧ b ∈ inputs ∧ a ≠ b ∧ Sum256 a = Sum256 b.

Lemma equal_or_collision inputs a b : Sum256 a = Sum256 b → a ∈ inputs → b ∈ inputs → a = b ∨ collision inputs.
Proof. intros H Ha Hb. destruct (decide (a = b)); [by left|right; by exists a, b]. Qed.

Lemma collision_mono l1 l2 : l1 ⊆ l2 → collision l1 → collision l2.
Proof. intros Hl (a & b & ? & ? & ? & ?). exists a, b. auto. Qed.

Lemma NewHash_Sum256_inj a b : NewHash (Sum256 a) = NewHash (Sum256 b) → Sum256 a = Sum256 b.
Proof.
  intros H. destruct (Sum256_size a), (Sum256_size b).
  by rewrite <- (Byte32_NewHash (Sum256 a)), <- (Byte32_NewHash (Sum256 b)), H.
Qed.

Lemma EntryID_body {X} e (id : Hash) : EntryID (X:=X) Sum256 (Some e) = Ok id →
  ∃ body, writeForHash e = (None, body) ∧ id = NewHash (Sum256 (entry_preimage Sum256 e body)).
Proof. unfold EntryID. destruct (writeForHash e) as [[?|] body]; [done|]. intros [= <-]. eauto. Qed.

Lemma preimage_inj e1 e2 b1 b2 : entry_preimage Sum256 e1 b1 = entry_preimage Sum256 e2 b2 →
  typ e1 = typ e2 ∧ Sum256 b1 = Sum256 b2.
Proof.
  unfold entry_preimage. intros H%app_inv_head. rewrite !app_assoc in H.
  apply app_inj_2 in H as [H Hs]; [|by rewrite !(proj1 (Sum256_size _))].
  apply app_inj_2 in H as [H _]; [|done]. split; [by apply str_bytes_inj|done].
Qed.

(** What [EntryID] hashes: the encoding of the entry, and the type with the
    hash of the encoding *)
Definition entry_inputs (e : Entry) : list (list Z) :=
  [snd (writeForHash e); entry_preimage Sum256 e (snd (writeForHash e))].

(** C31: an identifier stands for one entry.  Two entries with the same
    identifier are of the same kind and agree on everything their identifier
    commits to (all but witnesses, ordinals and the transaction's size), unless
    two of the four strings that are hashed for them collide. *)
Theorem EntryID_identifies e1 e2 (id : Hash) : entry_ok e1 → entry_ok e2 →
  EntryID (X:=unit) Sum256 (Some e1) = Ok id → EntryID (X:=unit) Sum256 (Some e2) = Ok id →
  (typ e1 = typ e2 ∧ committed e1 = committed e2) ∨ collision (entry_inputs e1 ++ entry_inputs e2).
Proof.
  intros H1 H2 (b1 & Hb1 & ->)%EntryID_body (b2 & Hb2 & Hid)%EntryID_body.
  unfold entry_inputs. rewrite Hb1, Hb2. cbn [snd app].
  match goal with |- _ ∨ collision ?x => set (l := x) end. apply NewHash_Sum256_inj in Hid.
  destruct (equal_or_collision l _ _ Hid ltac:(unfold l; set_solver) ltac:(unfold l; set_solver))
    as [[Ht Hs]%preimage_inj|]; [|by right].
  destruct (equal_or_collision l _ _ Hs ltac:(unfold l; set_solver) ltac:(unfold l; set_solver)) as [Hb|];
    [|by right].
  left. split; [done|]. by eapply body_committed.
Qed.
End identifiers.

(** ** Witness *)

(** A stand-in for a hash function: 32 bytes of a polynomial of the input *)
Definition toy_sum (bs : list Z) : list Z :=
  le_bytes 32 (fold_left (λ acc b, Z.land (acc * 257 + b + 1) MaxUint64) bs 7).

Definition toy_source : ValueSource :=
  mkValueSource (Some (mkHash 1 2 3 4)) (Some (mkAssetAmount (Some NativeAsset) 5)) 0.
Definition toy_output (ordinal : Z) : Entry :=
  EOutput (mkOutput (Some toy_source) (mkProgram 1 [0x51]) ordinal).

Lemma toy_sum_size bs : length (toy_sum bs) = 32%nat ∧ Forall is_byte (toy_sum bs).
Proof. split; [apply length_le_bytes|apply le_bytes_range]. Qed.

Lemma toy_output_ok n : entry_ok (toy_output n).
Proof.
  split; [|split; ranges; vm_compute; repeat split; discriminate].
  exists toy_source. split; [done|]. split_and!; [| |split; vm_compute; discriminate].
  - eexists. split; [done|]. split; split; vm_compute; discriminate.
  - eexists. split; [done|]. split; [|split; vm_compute; discriminate]. eexists. split; [done|].
    split; split; vm_compute; discriminate.
Qed.

Lemma EntryID_identifies_witness :
  EntryID (X:=unit) toy_sum (Some (toy_output 0)) = EntryID toy_sum (Some (toy_output 3)) ∧
  ((typ (toy_output 0) = typ (toy_output 3) ∧ committed (toy_output 0) = committed (toy_output 3))
   ∨ collision toy_sum (entry_inputs toy_sum (toy_output 0) ++ entry_inputs toy_sum (toy_output 3))).
Proof.
  split; [vm_compute; reflexivity|].
  eapply (EntryID_identifies toy_sum toy_sum_size (toy_output 0) (toy_output 3)).
  - apply toy_output_ok.
  - apply toy_output_ok.
  - vm_compute; reflexivity.
  - vm_compute; reflexivity.
Defined.
