(* ===== verification/Merkle.v ===== *)
(** * Merkle trees ([protocol/bc/types/merkle.go])

    The roots a block header commits to, and proofs that some transactions
    belong to a block.  A [merkleNode] is the byte string its [WriteTo] method
    writes: the 32 bytes of a transaction's identifier, or the JSON text of a
    transaction's status.  The functions on proofs consume linked lists from
    the front; here they return what is left of the lists. *)

From S2P Require Import Prelude Encoding Bc EntryHash.
From Stdlib Require String.
Import String.StringSyntax.
#[local] Open Scope string_scope.
#[local] Open Scope Z_scope.
#[local] Open Scope go_scope.
#[local] Set Default Goal Selector "!".

Abbreviation FlagAssist := 0.
Abbreviation FlagTxParent := 1.
Abbreviation FlagTxLeaf := 2.

(** ** What the nodes write *)

(** [encoding/base64], with padding *)
Definition b64_char (n : Z) : Z :=
  if n <? 26 then 65 + n else if n <? 52 then 71 + n else if n <? 62 then n - 4
  else if n =? 62 then 43 else 47.
Fixpoint base64 (bs : list Z) : list Z :=
  match bs with
  | [] => []
  | [a] => [b64_char (a / 4); b64_char (a mod 4 * 16); 61; 61]
  | [a; b] => [b64_char (a / 4); b64_char (a mod 4 * 16 + b / 16); b64_char (b mod 16 * 4); 61]
  | a :: b :: c :: r =>
      [b64_char (a / 4); b64_char (a mod 4 * 16 + b / 16); b64_char (b mod 16 * 4 + c / 64); b64_char (c mod 64)]
      ++ base64 r
  end.

(** [encoding/json] for the two record types: fields tagged [omitempty] are
    left out when they are false or empty. *)
Definition json_sep (l : list (list Z)) : list Z :=
  match l with [] => [] | x :: r => x ++ concat ((λ y, str_bytes "," ++ y) <$> r) end.
Definition json_list (l : list (list Z)) : list Z := str_bytes "[" ++ json_sep l ++ str_bytes "]".
Definition json_object (l : list (list Z)) : list Z := str_bytes "{" ++ json_sep l ++ str_bytes "}".
Definition json_bytes (bs : list Z) : list Z := [34] ++ base64 bs ++ [34].
Definition json_field (name : String.string) (omit : bool) (value : list Z) : list (list Z) :=
  if omit then [] else [[34] ++ str_bytes name ++ [34] ++ str_bytes ":" ++ value].

Definition json_TxLog (l : TxLog) : list Z :=
  json_object (json_field "address" (bool_decide (lg_Address l = [])) (json_bytes (lg_Address l))
               ++ json_field "topics" (bool_decide (lg_Topics l = [])) (json_list (json_bytes <$> lg_Topics l))
               ++ json_field "data" (bool_decide (lg_Data l = [])) (json_bytes (lg_Data l))).

(** [TxVerifyResult.WriteTo] *)
Definition write_result (r : TxVerifyResult) : list Z :=
  json_object (json_field "status_fail" (negb (StatusFail r)) (str_bytes "true")
               ++ json_field "logs" (bool_decide (length (Logs r) = 0%nat)) (json_list (json_TxLog <$> Logs r))).

(** [prevPowerOfTwo]: [math.Log2], truncated, is the exact logarithm for every
    number of nodes that fits memory. *)
Definition prevPowerOfTwo (n : Z) : Z :=
  if Z.land n (n - 1) =? 0 then Z.quot n 2 else Z.shiftl 1 (Z.log2 n).

Section merkle.
(** [sha3pool]: SHA3-256 *)
Context (Sum256 : list Z → list Z).

(** ** Roots *)

Definition EmptyStringHash : Hash := NewHash (Sum256 []).
Definition interiorMerkleHash (left right : Hash) : Hash := NewHash (Sum256 ([1] ++ Byte32 left ++ Byte32 right)).
Definition leafMerkleHash (node : list Z) : Hash := NewHash (Sum256 ([0] ++ node)).

Definition split_at (nodes : list (list Z)) : nat := Z.to_nat (prevPowerOfTwo (len nodes)).

(** The recursion is on parts of the list; its length bounds the depth. *)
Fixpoint merkle_root_rec (fuel : nat) (nodes : list (list Z)) : outcome unit Hash :=
  match fuel with
  | O => Fuel
  | S fuel =>
      match nodes with
      | [] => Ok EmptyStringHash
      | [node] => Ok (leafMerkleHash node)
      | _ =>
          let k := split_at nodes in
          let? lt := merkle_root_rec fuel (take k nodes) in
          let? rt := merkle_root_rec fuel (drop k nodes) in
          Ok (interiorMerkleHash lt rt)
      end
  end.
Definition merkleRoot (nodes : list (list Z)) : outcome unit Hash := merkle_root_rec (S (length nodes)) nodes.

Definition TxStatusMerkleRoot (tvrs : list TxVerifyResult) : outcome unit Hash := merkleRoot (write_result <$> tvrs).
Definition TxMerkleRoot (transactions : list Tx) : outcome unit Hash :=
  merkleRoot ((λ tx, Byte32 (tx_ID tx)) <$> transactions).

(** ** Trees *)

(** A pointer to a node: nil, or a hash with the left and right children *)
Inductive merkleTreeNode :=
| MNil
| MNode (hash : Hash) (lt rt : merkleTreeNode).

Definition node_hash (t : merkleTreeNode) : outcome unit Hash :=
  match t with MNil => Panic | MNode h _ _ => Ok h end.

Fixpoint build_tree_rec (fuel : nat) (rawDatas : list (list Z)) : outcome unit merkleTreeNode :=
  match fuel with
  | O => Fuel
  | S fuel =>
      match rawDatas with
      | [] => Ok MNil
      | [rawData] => Ok (MNode (leafMerkleHash rawData) MNil MNil)
      | _ =>
          let k := split_at rawDatas in
          let? lt := build_tree_rec fuel (take k rawDatas) in
          let? rt := build_tree_rec fuel (drop k rawDatas) in
          let? lh := node_hash lt in
          let? rh := node_hash rt in
          Ok (MNode (interiorMerkleHash lh rh) lt rt)
      end
  end.
Definition buildMerkleTree (rawDatas : list (list Z)) : outcome unit merkleTreeNode :=
  build_tree_rec (S (length rawDatas)) rawDatas.

(** ** Proofs *)

Definition proof : Type := list Hash * list Z.

Definition is_nil (t : merkleTreeNode) : bool := match t with MNil => true | MNode _ _ _ => false end.

(** The part of a child in the proof of its parent *)
Definition child_part (child : merkleTreeNode) (p : proof) : outcome unit proof :=
  if (0 <? len p.1) then Ok p
  else let? h := node_hash child in Ok ([h], [FlagAssist]).

(** [merkleTreeNode.getMerkleTreeProof]; the set holds printed hashes *)
Fixpoint tree_proof (related : list Hash) (node : merkleTreeNode) : outcome unit proof :=
  match node with
  | MNil => Panic
  | MNode hash lt rt =>
      if is_nil lt && is_nil rt then
        Ok (if bool_decide (hash ∈ related) then ([hash], [FlagTxLeaf]) else ([], []))
      else
        let? lp := (if is_nil lt then Ok ([], []) else tree_proof related lt) in
        let? rp := (if is_nil rt then Ok ([], []) else tree_proof related rt) in
        if (0 <? len lp.1) || (0 <? len rp.1) then
          let? l := child_part lt lp in
          let? r := child_part rt rp in
          Ok (l.1 ++ r.1, [FlagTxParent] ++ l.2 ++ r.2)
        else Ok ([], [])
  end.

Definition getMerkleTreeProof (rawDatas relatedRawDatas : list (list Z)) : outcome unit proof :=
  let? tree := buildMerkleTree rawDatas in
  match tree with
  | MNil => Ok ([], [])
  | MNode hash _ _ =>
      if bool_decide (relatedRawDatas = []) then Ok ([hash], [FlagAssist])
      else tree_proof (leafMerkleHash <$> relatedRawDatas) tree
  end.

(** [merkleTreeNode.getMerkleTreeProofByFlags]: the hashes and the flags left *)
Fixpoint proof_by_flags (node : merkleTreeNode) (flags : list Z) : outcome unit (list Hash * list Z) :=
  match flags with
  | [] => Ok ([], [])
  | flag :: flags =>
      match node with
      | MNil => Panic
      | MNode hash lt rt =>
          if (flag =? FlagTxLeaf) || (flag =? FlagAssist) then Ok ([hash], flags)
          else
            let? l := (if is_nil lt then Ok ([], flags) else proof_by_flags lt flags) in
            let? r := (if is_nil rt then Ok ([], l.2) else proof_by_flags rt l.2) in
            Ok (l.1 ++ r.1, r.2)
      end
  end.

Definition getMerkleTreeProofByFlags (rawDatas : list (list Z)) (flags : list Z) : outcome unit (list Hash) :=
  let? tree := buildMerkleTree rawDatas in
  let? r := proof_by_flags tree flags in
  Ok r.1.

Definition GetTxMerkleTreeProof (txs relatedTxs : list Tx) : outcome unit proof :=
  getMerkleTreeProof ((λ tx, Byte32 (tx_ID tx)) <$> txs) ((λ tx, Byte32 (tx_ID tx)) <$> relatedTxs).
Definition GetStatusMerkleTreeProof (statuses : list TxVerifyResult) (flags : list Z) : outcome unit (list Hash) :=
  getMerkleTreeProofByFlags (write_result <$> statuses) flags.

(** ** Checking a proof *)

Record lists := mkLists { l_hashes : list Hash; l_flags : list Z; l_related : list Hash }.

(** [getMerkleRootByProof]: each call takes a flag, so the number of flags
    bounds the depth. *)
Fixpoint root_by_proof (fuel : nat) (s : lists) : outcome unit (Hash * lists) :=
  match fuel with
  | O => Fuel
  | S fuel =>
      match l_flags s, l_hashes s with
      | flag :: flags, hash :: hashes =>
          if flag =? FlagAssist then Ok (hash, mkLists hashes flags (l_related s))
          else if flag =? FlagTxLeaf then
            match l_related s with
            | [] => Ok (EmptyStringHash, mkLists (hash :: hashes) flags [])
            | r :: rs =>
                if bool_decide (hash = r) then Ok (hash, mkLists hashes flags rs)
                else Ok (EmptyStringHash, mkLists (hash :: hashes) flags (r :: rs))
            end
          else if flag =? FlagTxParent then
            let? l := root_by_proof fuel (mkLists (hash :: hashes) flags (l_related s)) in
            let? r := root_by_proof fuel l.2 in
            Ok (interiorMerkleHash l.1 r.1, r.2)
          else Ok (EmptyStringHash, mkLists (hash :: hashes) flags (l_related s))
      | _, _ => Ok (EmptyStringHash, s)
      end
  end.
Definition getMerkleRootByProof (s : lists) : outcome unit (Hash * lists) :=
  root_by_proof (S (length (l_flags s))) s.

Definition validateMerkleTreeProof (hashes : list Hash) (flags : list Z) (relatedNodes : list (list Z))
    (root : Hash) : outcome unit bool :=
  let? r := getMerkleRootByProof (mkLists hashes flags (leafMerkleHash <$> relatedNodes)) in
  Ok (bool_decide (r.1 = root) && bool_decide (l_related r.2 = [])).

Definition ValidateTxMerkleTreeProof (hashes : list Hash) (flags : list Z) (relatedHashes : list Hash) (root : Hash)
    : outcome unit bool := validateMerkleTreeProof hashes flags (Byte32 <$> relatedHashes) root.
Definition ValidateStatusMerkleTreeProof (hashes : list Hash) (flags : list Z) (relatedStatus : list TxVerifyResult)
    (root : Hash) : outcome unit bool := validateMerkleTreeProof hashes flags (write_result <$> relatedStatus) root.
End merkle.
