(* ===== verification/MerkleSpec.v ===== *)
(** * Roots commit to transactions, and proofs are sound and complete

    The trees that [buildMerkleTree] builds are described by the relation
    [Tree]; what the code computes is then followed along it. *)

From S2P Require Import Prelude Encoding Bc EntryHash Merkle.
#[local] Open Scope Z_scope.
#[local] Open Scope go_scope.
#[local] Set Default Goal Selector "!".
#[local] Set Warnings "-clear-no-such-hyp".

Lemma cons_eq {A} (x y : A) l k : x :: l = y :: k → x = y ∧ l = k.
Proof. by intros [= -> ->]. Qed.

(** ** Where a list is split *)

Lemma land_pred_odd n : Z.odd n = true → Z.land n (n - 1) = n - 1.
Proof.
  intros Ho. apply Z.odd_spec in Ho as [m ->]. replace (2 * m + 1 - 1) with (2 * m) by lia.
  apply Z.bits_inj'. intros k Hk. rewrite Z.land_spec.
  destruct (decide (k = 0)) as [->|]; [by rewrite Z.testbit_even_0, andb_false_r|].
  replace k with (Z.succ (k - 1)) by lia. rewrite Z.testbit_odd_succ, Z.testbit_even_succ by lia.
  apply andb_diag.
Qed.

Lemma prevPowerOfTwo_bounds n : 2 <= n → 0 < prevPowerOfTwo n < n ∧ n <= 2 * prevPowerOfTwo n.
Proof.
  intros Hn. unfold prevPowerOfTwo. destruct (Z.eqb_spec (Z.land n (n - 1)) 0) as [Hl|Hl].
  - rewrite Z.quot_div_nonneg by lia. destruct (Z.odd n) eqn:Ho.
    + rewrite land_pred_odd in Hl by done. lia.
    + rewrite <- Z.negb_even, negb_false_iff in Ho. apply Z.even_spec in Ho as [m ->].
      rewrite Z.mul_comm, Z.div_mul by lia. lia.
  - rewrite Z.shiftl_1_l. pose proof (Z.log2_spec n ltac:(lia)) as [Hlo Hhi].
    rewrite Z.pow_succ_r in Hhi by apply Z.log2_nonneg.
    assert (2 ^ Z.log2 n ≠ n) as Hne; [|assert (0 < 2 ^ Z.log2 n) by (apply Z.pow_pos_nonneg; [lia|apply Z.log2_nonneg]); lia].
    intros Heq. apply Hl. rewrite <- Heq at 1 2.
    replace (2 ^ Z.log2 n - 1) with (Z.ones (Z.log2 n)) by (rewrite Z.ones_equiv; lia).
    rewrite Z.land_ones by apply Z.log2_nonneg. apply Z_mod_same_full.
Qed.

Lemma split_at_bounds (nodes : list (list Z)) : (2 <= length nodes)%nat →
  (0 < split_at nodes < length nodes)%nat.
Proof.
  intros Hn. pose proof (prevPowerOfTwo_bounds (len nodes)) as H. unfold split_at, len in *. lia.
Qed.

Section merkle.
Context (Sum256 : list Z → list Z).

(** A tree over the nodes; [inputs] has what is hashed for it. *)
Inductive Tree (inputs : list (list Z)) : list (list Z) → merkleTreeNode → Prop :=
| Tree_leaf n : [0] ++ n ∈ inputs → Tree inputs [n] (MNode (leafMerkleHash Sum256 n) MNil MNil)
| Tree_fork ns1 ns2 t1 t2 h1 h2 : Tree inputs ns1 t1 → Tree inputs ns2 t2 →
    node_hash t1 = Ok h1 → node_hash t2 = Ok h2 → [1] ++ Byte32 h1 ++ Byte32 h2 ∈ inputs →
    Tree inputs (ns1 ++ ns2) (MNode (interiorMerkleHash Sum256 h1 h2) t1 t2).

Lemma Tree_mono l1 l2 ns t : l1 ⊆ l2 → Tree l1 ns t → Tree l2 ns t.
Proof. induction 2; constructor; auto. Qed.

(** What [merkleRoot] hashes *)
Fixpoint root_inputs_rec (fuel : nat) (nodes : list (list Z)) : list (list Z) :=
  match fuel with
  | O => []
  | S fuel =>
      match nodes with
      | [] => [[]]
      | [node] => [[0] ++ node]
      | _ =>
          let k := split_at nodes in
          match merkle_root_rec Sum256 fuel (take k nodes), merkle_root_rec Sum256 fuel (drop k nodes) with
          | Ok lt, Ok rt => [[1] ++ Byte32 lt ++ Byte32 rt]
          | _, _ => []
          end ++ root_inputs_rec fuel (take k nodes) ++ root_inputs_rec fuel (drop k nodes)
      end
  end.
Definition root_inputs (nodes : list (list Z)) : list (list Z) := root_inputs_rec (S (length nodes)) nodes.

Lemma Tree_node l ns t : Tree l ns t → ns ≠ [] ∧ ∃ h l r, t = MNode h l r.
Proof.
  induction 1 as [n|ns1 ns2 t1 t2 h1 h2 _ [Hne _] _ _ _ _ _]; [split; [done|eauto]|].
  split; [by destruct ns1|eauto].
Qed.

Lemma Tree_is_nil i ns t : Tree i ns t → is_nil t = false.
Proof. intros (_ & h & l & r & ->)%Tree_node. done. Qed.

(** ** The root is the hash of the tree *)

Lemma merkle_root_tree fuel : ∀ nodes, nodes ≠ [] → (length nodes < fuel)%nat →
  ∃ t h, build_tree_rec Sum256 fuel nodes = Ok t ∧ Tree (root_inputs_rec fuel nodes) nodes t ∧ node_hash t = Ok h
         ∧ merkle_root_rec Sum256 fuel nodes = Ok h.
Proof.
  induction fuel as [|fuel IH]; intros nodes Hne Hf; [lia|].
  destruct nodes as [|n [|n' nodes]]; [done| |].
  { eexists _, _. split; [done|]. split; [|done]. constructor. apply list_elem_of_here. }
  cbn [build_tree_rec merkle_root_rec root_inputs_rec]. set (ns := n :: n' :: nodes) in *.
  pose proof (split_at_bounds ns ltac:(cbn; lia)) as Hk. set (k := split_at ns) in *. clearbody k ns.
  assert (length (take k ns) = k) as Ht by (rewrite length_take; lia).
  assert (length (drop k ns) = length ns - k)%nat as Hd by apply length_drop.
  destruct (IH (take k ns)) as (t1 & h1 & Ht1 & HT1 & Hh1 & Hr1); [intros E%(f_equal length); rewrite Ht in E; simpl in E; lia|lia|].
  destruct (IH (drop k ns)) as (t2 & h2 & Ht2 & HT2 & Hh2 & Hr2); [intros E%(f_equal length); rewrite Hd in E; simpl in E; lia|lia|].
  exists (MNode (interiorMerkleHash Sum256 h1 h2) t1 t2), (interiorMerkleHash Sum256 h1 h2).
  rewrite Ht1, Ht2, Hr1, Hr2. cbn [obind]. rewrite Hh1, Hh2. split_and!; try done.
  rewrite <- (take_drop k ns) at 3. constructor; [eapply Tree_mono; [|done]; set_solver..|done|done|set_solver].
Qed.

Lemma merkleRoot_cases nodes root : merkleRoot Sum256 nodes = Ok root →
  (nodes = [] ∧ root = EmptyStringHash Sum256) ∨ (∃ t, Tree (root_inputs nodes) nodes t ∧ node_hash t = Ok root ∧ buildMerkleTree Sum256 nodes = Ok t).
Proof.
  unfold merkleRoot, buildMerkleTree. intros Hr. destruct (decide (nodes = [])) as [->|Hne].
  - left. injection Hr as <-. done.
  - right. destruct (merkle_root_tree (S (length nodes)) nodes) as (t & h & Ht & HT & Hh & Hr'); [done|lia|].
    exists t. split_and!; [done|congruence|done].
Qed.

(** C34: [merkleRoot], which computes the root of a list without building a
    tree, always returns, and agrees with the tree that [buildMerkleTree]
    builds: nil for no nodes, and otherwise a binary tree over the nodes in
    their order whose hash is the root, made by hashing the same strings. *)
Theorem merkle_root_is_the_tree_hash nodes :
  ∃ root t, merkleRoot Sum256 nodes = Ok root ∧ buildMerkleTree Sum256 nodes = Ok t
  ∧ (if decide (nodes = []) then t = MNil ∧ root = EmptyStringHash Sum256
     else Tree (root_inputs nodes) nodes t ∧ node_hash t = Ok root).
Proof.
  unfold merkleRoot, buildMerkleTree. case_decide as Hn; [subst; by repeat econstructor|].
  destruct (merkle_root_tree (S (length nodes)) nodes) as (t & h & Ht & HT & Hh & Hr); [done|lia|].
  by exists h, t.
Qed.

(** ** Hashes are injective, or collide *)

Hypothesis Sum256_size : ∀ bs, length (Sum256 bs) = 32%nat ∧ Forall is_byte (Sum256 bs).
#[local] Abbreviation collision := (EntryHash.collision Sum256).

Lemma hash_ok_Sum256 bs : hash_ok (NewHash (Sum256 bs)).
Proof. destruct (Sum256_size bs). by apply hash_ok_NewHash. Qed.

Lemma Tree_hash_ok l ns t h : Tree l ns t → node_hash t = Ok h → hash_ok h.
Proof. destruct 1; intros [= <-]; apply hash_ok_Sum256. Qed.

Section inputs.
Context (inputs : list (list Z)).

Lemma hash_inj a b : NewHash (Sum256 a) = NewHash (Sum256 b) → a ∈ inputs → b ∈ inputs → a = b ∨ collision inputs.
Proof. intros H Ha Hb. apply equal_or_collision; [by apply NewHash_Sum256_inj|done..]. Qed.

Lemma leaf_inj n m : leafMerkleHash Sum256 n = leafMerkleHash Sum256 m →
  [0] ++ n ∈ inputs → [0] ++ m ∈ inputs → n = m ∨ collision inputs.
Proof. intros H Hn Hm. destruct (hash_inj _ _ H Hn Hm) as [E%(app_inv_head [0])|]; auto. Qed.

Lemma leaf_interior n a b : leafMerkleHash Sum256 n = interiorMerkleHash Sum256 a b →
  [0] ++ n ∈ inputs → [1] ++ Byte32 a ++ Byte32 b ∈ inputs → collision inputs.
Proof. intros H Hn Hm. by destruct (hash_inj _ _ H Hn Hm). Qed.

Lemma interior_inj a b c d : hash_ok a → hash_ok b → hash_ok c → hash_ok d →
  interiorMerkleHash Sum256 a b = interiorMerkleHash Sum256 c d →
  [1] ++ Byte32 a ++ Byte32 b ∈ inputs → [1] ++ Byte32 c ++ Byte32 d ∈ inputs → (a = c ∧ b = d) ∨ collision inputs.
Proof.
  intros Ha Hb Hc Hd H H1 H2. destruct (hash_inj _ _ H H1 H2) as [E%(app_inv_head [1])|]; [|by right]. left.
  apply app_inj_1 in E as [E1 E2]; [|by rewrite !length_Byte32]. split; by apply Byte32_inj.
Qed.

Lemma Tree_not_empty ns t : Tree inputs ns t → node_hash t = Ok (EmptyStringHash Sum256) → [] ∈ inputs →
  collision inputs.
Proof. destruct 1; intros Heq%Ok_inj He; by destruct (hash_inj _ _ Heq). Qed.

(** ** A root commits to its nodes *)

Lemma Tree_commits ns1 t1 : Tree inputs ns1 t1 → ∀ ns2 t2 h, Tree inputs ns2 t2 →
  node_hash t1 = Ok h → node_hash t2 = Ok h → ns1 = ns2 ∨ collision inputs.
Proof.
  induction 1 as [n Hn|ns1 ns2 t1 t2 h1 h2 HT1 IH1 HT2 IH2 Hh1 Hh2 Hi]; intros ms u h HT; cbn [node_hash].
  - destruct HT as [m Hm|ms1 ms2 u1 u2 k1 k2 HU1 HU2 Hk1 Hk2 Hm]; intros <-%Ok_inj Heq%Ok_inj.
    + destruct (leaf_inj _ _ Heq) as [->|]; auto.
    + right. by eapply leaf_interior.
  - destruct HT as [m Hm|ms1 ms2 u1 u2 k1 k2 HU1 HU2 Hk1 Hk2 Hm]; intros <-%Ok_inj Heq%Ok_inj.
    + right. by eapply leaf_interior.
    + assert (hash_ok h1 ∧ hash_ok h2 ∧ hash_ok k1 ∧ hash_ok k2) as (? & ? & ? & ?)
        by eauto 10 using Tree_hash_ok.
      apply interior_inj in Heq as [[-> ->]|]; [|by right|done..].
      destruct (IH1 _ _ _ HU1 Hh1 Hk1) as [->|]; [|by right].
      destruct (IH2 _ _ _ HU2 Hh2 Hk2) as [->|]; [|by right]. by left.
Qed.
End inputs.

Lemma root_inputs_nil : [] ∈ root_inputs [].
Proof. apply list_elem_of_here. Qed.

Lemma merkleRoot_commits ns1 ns2 root : merkleRoot Sum256 ns1 = Ok root → merkleRoot Sum256 ns2 = Ok root →
  ns1 = ns2 ∨ collision (root_inputs ns1 ++ root_inputs ns2).
Proof.
  set (l := root_inputs ns1 ++ root_inputs ns2).
  assert (∀ ns t, Tree (root_inputs ns) ns t → root_inputs ns ⊆ l → Tree l ns t) as Hmono by eauto using Tree_mono.
  intros [[-> ->]|(t1 & HT1 & Hh1 & _)]%merkleRoot_cases [[-> Hr]|(t2 & HT2 & Hh2 & _)]%merkleRoot_cases; [by left|right..|].
  - eapply (Tree_not_empty l); [apply Hmono; [done|unfold l; set_solver]|done|].
    apply elem_of_app. left. apply root_inputs_nil.
  - subst root. eapply (Tree_not_empty l); [apply Hmono; [done|unfold l; set_solver]|done|].
    apply elem_of_app. right. apply root_inputs_nil.
  - eapply Tree_commits; [apply Hmono; [done|unfold l; set_solver]..|done|done].
Qed.

Lemma NewHash_fmap l : Forall hash_ok l → NewHash <$> (Byte32 <$> l) = l.
Proof. induction 1 as [|h l Hh _ IH]; [done|]. rewrite !fmap_cons, IH, NewHash_Byte32; done. Qed.

(** ** Proofs of membership are complete *)

(** A part of a proof, put before any other, is consumed with the leaves it
    stands for and gives the hash of its tree. *)
Definition consumed_as (h : Hash) (p : proof) (found : list (list Z)) : Prop :=
  p.1 ≠ [] ∧ ∀ fuel hashes flags related, (length p.2 <= fuel)%nat →
    root_by_proof Sum256 fuel (mkLists (p.1 ++ hashes) (p.2 ++ flags) ((leafMerkleHash Sum256 <$> found) ++ related))
    = Ok (h, mkLists hashes flags related).

Definition found_in (S : list Hash) (ns : list (list Z)) : list (list Z) :=
  filter (λ n, leafMerkleHash Sum256 n ∈ S) ns.

Lemma consumed_assist h : consumed_as h ([h], [FlagAssist]) [].
Proof. split; [done|]. intros [|fuel] hashes flags related Hf; [cbn in Hf; lia|done]. Qed.

Lemma consumed_leaf n : consumed_as (leafMerkleHash Sum256 n) ([leafMerkleHash Sum256 n], [FlagTxLeaf]) [n].
Proof.
  split; [done|]. intros [|fuel] hashes flags related Hf; [cbn in Hf; lia|].
  cbn. by rewrite bool_decide_true.
Qed.

Lemma consumed_fork h1 h2 p1 p2 f1 f2 : consumed_as h1 p1 f1 → consumed_as h2 p2 f2 →
  consumed_as (interiorMerkleHash Sum256 h1 h2) (p1.1 ++ p2.1, [FlagTxParent] ++ p1.2 ++ p2.2) (f1 ++ f2).
Proof.
  intros [Hn1 H1] [Hn2 H2]. split; [by destruct p1 as [[|]]|]. cbn [fst snd].
  intros [|fuel] hashes flags related Hf; [cbn in Hf; lia|]. cbn [app length] in Hf. rewrite length_app in Hf.
  rewrite fmap_app, <- !app_assoc. cbn [root_by_proof l_flags l_hashes l_related app].
  destruct (p1.1 ++ p2.1 ++ hashes) as [|x xs] eqn:Hx; [by destruct p1 as [[|]]|].
  cbn [Z.eqb Pos.eqb]. rewrite <- Hx, H1 by lia. cbn [obind snd fst]. rewrite H2 by lia. done.
Qed.

Lemma tree_proof_consumed S i ns t : Tree i ns t → ∃ h p, node_hash t = Ok h ∧ tree_proof S t = Ok p
  ∧ (if decide (found_in S ns = []) then p = ([], []) else consumed_as h p (found_in S ns)).
Proof.
  induction 1 as [n|ns1 ns2 t1 t2 h1 h2 HT1 (k1 & p1 & Hk1 & Hp1 & IH1) HT2 (k2 & p2 & Hk2 & Hp2 & IH2) Hh1 Hh2 _].
  - cbn [tree_proof is_nil andb node_hash]. eexists _, _. split_and!; [done..|].
    unfold found_in. rewrite filter_cons, filter_nil. case_bool_decide as Hin.
    + destruct (decide (leafMerkleHash Sum256 n ∈ S)); [|done]. apply consumed_leaf.
    + by destruct (decide (leafMerkleHash Sum256 n ∈ S)).
  - cbn [tree_proof node_hash]. rewrite (Tree_is_nil _ _ _ HT1), (Tree_is_nil _ _ _ HT2), Hp1, Hp2.
    cbn [andb obind]. rewrite Hh1 in Hk1. rewrite Hh2 in Hk2. injection Hk1 as <-. injection Hk2 as <-.
    assert (∀ t h p ns, node_hash t = Ok h →
      (if decide (found_in S ns = []) then p = ([], []) else consumed_as h p (found_in S ns)) →
      ∃ q, child_part t p = Ok q ∧ consumed_as h q (found_in S ns)
      ∧ (0 <? len p.1) = negb (bool_decide (found_in S ns = []))) as Hpart.
    { intros t h p ns Ht. unfold child_part.
      destruct (decide (found_in S ns = [])) as [Hf|Hf].
      - intros ->. cbn. rewrite Ht, Hf. eexists. split_and!; [done|apply consumed_assist|done].
      - intros Hc. pose proof Hc as [Hp _]. rewrite bool_decide_false by done.
        destruct p as [[|x xs] fs]; [done|]. exists (x :: xs, fs). by split_and!. }
    destruct (Hpart t1 h1 p1 ns1 Hh1 IH1) as (q1 & Hq1 & Hc1 & Hl1).
    destruct (Hpart t2 h2 p2 ns2 Hh2 IH2) as (q2 & Hq2 & Hc2 & Hl2). rewrite Hl1, Hl2, Hq1, Hq2. cbn [obind].
    assert (found_in S (ns1 ++ ns2) = found_in S ns1 ++ found_in S ns2) as -> by apply filter_app.
    eexists _. destruct (bool_decide (found_in S ns1 = []) && bool_decide (found_in S ns2 = [])) eqn:Hb.
    + apply andb_true_iff in Hb as [H1 H2]. rewrite H1, H2. apply bool_decide_eq_true in H1, H2.
      rewrite H1, H2. by eexists.
    + rewrite <- negb_andb, Hb. cbn [negb]. eexists. split_and!; [done..|].
      rewrite decide_False; [by apply consumed_fork|]. intros [H1 H2]%app_nil.
      by rewrite !bool_decide_true in Hb.
Qed.

(** What is hashed for leaves *)
Definition leaf_inputs (nodes : list (list Z)) : list (list Z) := (λ n, [0] ++ n) <$> nodes.

Lemma found_in_related related nodes :
  found_in (leafMerkleHash Sum256 <$> related) nodes = filter (.∈ related) nodes
  ∨ collision (leaf_inputs nodes ++ leaf_inputs related).
Proof.
  destruct (decide (Forall (λ n, leafMerkleHash Sum256 n ∈ (leafMerkleHash Sum256 <$> related) → n ∈ related) nodes)) as [Hf|Hf].
  - left. unfold found_in. induction Hf as [|n ns Hn _ IH]; [done|]. rewrite !filter_cons, IH.
    assert (leafMerkleHash Sum256 n ∈ (leafMerkleHash Sum256 <$> related) ↔ n ∈ related) as Hiff
      by (split; auto using list_elem_of_fmap_2).
    by rewrite (decide_ext _ _ _ _ Hiff).
  - right. apply not_Forall_Exists, Exists_exists in Hf as (n & Hnn & Hn); [|intros ?; apply _].
    destruct (decide (leafMerkleHash Sum256 n ∈ (leafMerkleHash Sum256 <$> related))) as [Hin|]; [|naive_solver].
    apply list_elem_of_fmap in Hin as (m & Heq & Hm).
    destruct (leaf_inj (leaf_inputs nodes ++ leaf_inputs related) _ _ Heq) as [->|]; [| |naive_solver|done];
      apply elem_of_app; [left|right]; by apply (list_elem_of_fmap_2 (λ n, [0] ++ n)).
Qed.

Lemma proof_complete nodes related root : merkleRoot Sum256 nodes = Ok root →
  related = filter (.∈ related) nodes →
  (∃ p, getMerkleTreeProof Sum256 nodes related = Ok p
        ∧ validateMerkleTreeProof Sum256 p.1 p.2 related root = Ok true)
  ∨ collision (leaf_inputs nodes ++ leaf_inputs related).
Proof.
  intros Hroot Hrel. unfold getMerkleTreeProof, validateMerkleTreeProof, getMerkleRootByProof.
  apply merkleRoot_cases in Hroot as [[-> ->]|(t & HT & Hh & ->)].
  { left. rewrite Hrel. eexists. split; [done|]. cbn. by rewrite bool_decide_true. }
  cbn [obind]. destruct t as [|h l r]; [done|]. injection Hh as ->. case_bool_decide as Hn.
  { left. subst related. eexists. split; [done|]. cbn. by rewrite bool_decide_true. }
  destruct (found_in_related related nodes) as [Hf|]; [|by right]. rewrite <- Hrel in Hf. left.
  destruct (tree_proof_consumed (leafMerkleHash Sum256 <$> related) _ _ _ HT) as (h & p & [= ->] & -> & Hp).
  rewrite Hf in Hp. rewrite decide_False in Hp by done. destruct Hp as [_ Hp]. exists p. split; [done|].
  cbn [l_flags]. specialize (Hp (S (length p.2)) [] [] [] ltac:(lia)). rewrite !app_nil_r in Hp. rewrite Hp.
  cbn. by rewrite bool_decide_true.
Qed.

(** ** Proofs of membership are sound *)

(** What [getMerkleRootByProof] hashes *)
Fixpoint proof_inputs_rec (fuel : nat) (s : lists) : list (list Z) :=
  match fuel with
  | O => []
  | S fuel =>
      match l_flags s, l_hashes s with
      | flag :: flags, hash :: hashes =>
          if flag =? FlagTxParent then
            match root_by_proof Sum256 fuel (mkLists (hash :: hashes) flags (l_related s)) with
            | Ok l =>
                match root_by_proof Sum256 fuel l.2 with
                | Ok r => [[1] ++ Byte32 l.1 ++ Byte32 r.1]
                | _ => []
                end ++ proof_inputs_rec fuel (mkLists (hash :: hashes) flags (l_related s)) ++ proof_inputs_rec fuel l.2
            | _ => []
            end
          else []
      | _, _ => []
      end
  end.

(** What [validateMerkleTreeProof] hashes, with the empty string of
    [EmptyStringHash] *)
Definition proof_inputs (hashes : list Hash) (flags : list Z) (related : list (list Z)) : list (list Z) :=
  [[]] ++ leaf_inputs related
  ++ proof_inputs_rec (S (length flags)) (mkLists hashes flags (leafMerkleHash Sum256 <$> related)).

Section reading.
Context (inputs : list (list Z)).
Hypothesis inputs_nil : [] ∈ inputs.

(** What a successful reading of a proof says: the leaves it used up are, in
    order, leaves of any tree with the hash it computed. *)
Definition accounts_for (h : Hash) (used : list (list Z)) : Prop :=
  hash_ok h
  ∧ (∀ ns t, Tree inputs ns t → node_hash t = Ok h → used `sublist_of` ns ∨ collision inputs)
  ∧ (h = EmptyStringHash Sum256 → used = [] ∨ collision inputs).

Lemma accounts_for_none h : hash_ok h → accounts_for h [].
Proof. intros Hh. split_and!; [done| |by left]. intros. left. apply sublist_nil_l. Qed.

Lemma accounts_for_leaf n : [0] ++ n ∈ inputs → accounts_for (leafMerkleHash Sum256 n) [n].
Proof using inputs_nil Sum256_size.
  intros Hn. split_and!.
  - apply hash_ok_Sum256.
  - intros ns t HT. destruct HT; intros Heq%Ok_inj; symmetry in Heq.
    + apply (leaf_inj inputs) in Heq as [->|]; auto.
    + right. by eapply leaf_interior.
  - intros H. by destruct (hash_inj inputs _ _ H); [..|right].
Qed.

Lemma accounts_for_fork h1 h2 u1 u2 : [1] ++ Byte32 h1 ++ Byte32 h2 ∈ inputs →
  accounts_for h1 u1 → accounts_for h2 u2 → accounts_for (interiorMerkleHash Sum256 h1 h2) (u1 ++ u2).
Proof using inputs_nil Sum256_size.
  intros Hin (Ho1 & H1 & _) (Ho2 & H2 & _). split_and!.
  - apply hash_ok_Sum256.
  - intros ns t HT. destruct HT as [n Hn|ns1 ns2 t1 t2 k1 k2 HT1 HT2 Hk1 Hk2 Hk]; intros Heq%Ok_inj.
    + right. by eapply leaf_interior.
    + assert (hash_ok k1 ∧ hash_ok k2) as [? ?] by eauto using Tree_hash_ok.
      apply (interior_inj inputs) in Heq as [[-> ->]|]; [|by right|done..].
      destruct (H1 _ _ HT1 Hk1); [|by right]. destruct (H2 _ _ HT2 Hk2); [|by right].
      left. by apply sublist_app.
  - intros H. by destruct (hash_inj inputs _ _ H); [..|right].
Qed.

Lemma root_by_proof_sound fuel : ∀ s h s' rs, root_by_proof Sum256 fuel s = Ok (h, s') →
  l_related s = leafMerkleHash Sum256 <$> rs → Forall hash_ok (l_hashes s) →
  leaf_inputs rs ⊆ inputs → proof_inputs_rec fuel s ⊆ inputs →
  Forall hash_ok (l_hashes s') ∧
  ∃ used rest, rs = used ++ rest ∧ l_related s' = leafMerkleHash Sum256 <$> rest ∧ accounts_for h used.
Proof using inputs_nil Sum256_size.
  induction fuel as [|fuel IH]; intros s h s' rs; cbn [root_by_proof proof_inputs_rec]; [done|].
  assert (∀ s'', Ok (E:=unit) (EmptyStringHash Sum256, s'') = Ok (h, s') → l_hashes s'' = l_hashes s →
    l_related s'' = l_related s → l_related s = leafMerkleHash Sum256 <$> rs → Forall hash_ok (l_hashes s) →
    leaf_inputs rs ⊆ inputs → ∀ l, l ⊆ inputs → Forall hash_ok (l_hashes s') ∧
    ∃ used rest, rs = used ++ rest ∧ l_related s' = leafMerkleHash Sum256 <$> rest ∧ accounts_for h used) as Hskip.
  { intros s'' Heq Hh Hr Hrel Hok _ _ _. apply Ok_inj in Heq. injection Heq as <- <-. split; [congruence|].
    exists [], rs. split_and!; [done|congruence|]. apply accounts_for_none, hash_ok_Sum256. }
  destruct s as [hashes flags related]. cbn [l_flags l_hashes l_related] in *.
  destruct flags as [|flag flags]; [by intros Heq ????; eapply (Hskip _ Heq)|]. destruct hashes as [|hash hashes]; [by intros Heq ????; eapply (Hskip _ Heq)|].
  destruct (flag =? FlagAssist).
  { intros Heq%Ok_inj Hrel [Hh Hok]%Forall_cons _ _. injection Heq as <- <-. split; [done|].
    exists [], rs. split_and!; [done..|]. by apply accounts_for_none. }
  destruct (flag =? FlagTxLeaf).
  { destruct related as [|r related]; [by intros Heq ????; eapply (Hskip _ Heq)|]. case_bool_decide as Hr; [|by intros Heq ????; eapply (Hskip _ Heq)].
    intros Heq%Ok_inj Hrel [_ Hok]%Forall_cons Hleaf _. injection Heq as <- <-. split; [done|]. subst r.
    destruct rs as [|n rs]; [done|]. rewrite fmap_cons in Hrel. apply cons_eq in Hrel as [-> ->].
    exists [n], rs. split_and!; [done..|]. apply accounts_for_leaf, Hleaf, list_elem_of_here. }
  destruct (flag =? FlagTxParent); [|by intros Heq ????; eapply (Hskip _ Heq)]. intros H Hrel Hok Hleaf Hin.
  destruct (root_by_proof _ fuel _) as [[h1 s1]| | |] eqn:H1; try done. cbn [obind snd fst] in H.
  destruct (root_by_proof _ fuel s1) as [[h2 s2]| | |] eqn:H2; try done. cbn [obind snd fst] in H.
  apply Ok_inj in H. injection H as <- <-. cbn [fst snd] in Hin. rewrite H2 in Hin.
  destruct (IH _ _ _ _ H1 Hrel Hok Hleaf ltac:(set_solver)) as (Hok1 & u1 & r1 & -> & Hr1 & Ha1).
  unfold leaf_inputs in Hleaf. rewrite fmap_app in Hleaf.
  destruct (IH _ _ _ _ H2 Hr1 Hok1 ltac:(unfold leaf_inputs; set_solver) ltac:(set_solver)) as (Hok2 & u2 & r2 & -> & Hr2 & Ha2).
  split; [done|]. exists (u1 ++ u2), r2. split_and!; [by rewrite app_assoc|done|].
  apply accounts_for_fork; [set_solver|done|done].
Qed.
End reading.

Lemma proof_sound nodes related hashes flags root : merkleRoot Sum256 nodes = Ok root → Forall hash_ok hashes →
  validateMerkleTreeProof Sum256 hashes flags related root = Ok true →
  related `sublist_of` nodes ∨ collision (root_inputs nodes ++ proof_inputs hashes flags related).
Proof.
  intros Hroot Hok. unfold validateMerkleTreeProof.
  destruct (getMerkleRootByProof _ _) as [[h s]| | |] eqn:Hp; try done. cbn [obind fst snd].
  intros [Hh Hs]%Ok_inj%andb_true_iff. apply bool_decide_eq_true in Hh as ->. apply bool_decide_eq_true in Hs.
  set (l := root_inputs nodes ++ proof_inputs hashes flags related).
  destruct (root_by_proof_sound l ltac:(unfold l, proof_inputs; set_solver) _ _ _ _ related Hp eq_refl Hok)
    as (_ & used & rest & Hused & Hrest & _ & Ht & He); [unfold l, proof_inputs; set_solver..|].
  rewrite Hs in Hrest. destruct rest; [|done]. rewrite app_nil_r in Hused. subst used.
  apply merkleRoot_cases in Hroot as [[-> ->]|(t & HT & Hh & _)].
  - destruct He as [->|]; [done|by left|by right].
  - eapply Ht; [|done]. eapply Tree_mono; [|done]. unfold l. set_solver.
Qed.

(** ** Transactions of a block *)

Lemma filter_Byte32 rel ids : Forall hash_ok ids → Forall hash_ok rel →
  filter (.∈ (Byte32 <$> rel)) (Byte32 <$> ids) = Byte32 <$> filter (.∈ rel) ids.
Proof.
  intros Hi Hr. induction Hi as [|h ids Hh _ IH]; [done|]. rewrite fmap_cons, !filter_cons, IH.
  assert (Byte32 h ∈ (Byte32 <$> rel) ↔ h ∈ rel) as Hiff.
  { split; [|apply list_elem_of_fmap_2]. intros (h' & Heq & Hin)%list_elem_of_fmap.
    rewrite Forall_forall in Hr. by rewrite (Byte32_inj h h' Hh (Hr _ Hin) Heq). }
  rewrite (decide_ext _ _ _ _ Hiff). by case_decide.
Qed.

Lemma TxMerkleRoot_ids txs : TxMerkleRoot Sum256 txs = merkleRoot Sum256 (Byte32 <$> (tx_ID <$> txs)).
Proof. unfold TxMerkleRoot. by rewrite <- list_fmap_compose. Qed.

(** What is hashed for the transaction root of a block *)
Definition block_inputs (ids : list Hash) : list (list Z) := root_inputs (Byte32 <$> ids).

(** C35: the transaction root of a header commits to the identifiers of the
    transactions: two blocks with the same root have the same identifiers in the
    same order, or two of the strings hashed for the two roots collide.  (The
    arguments of the programs are not part of an identifier, so not of the
    root either.) *)
Theorem transaction_root_commits txs1 txs2 root :
  Forall hash_ok (tx_ID <$> txs1) → Forall hash_ok (tx_ID <$> txs2) →
  TxMerkleRoot Sum256 txs1 = Ok root → TxMerkleRoot Sum256 txs2 = Ok root →
  tx_ID <$> txs1 = tx_ID <$> txs2 ∨ collision (block_inputs (tx_ID <$> txs1) ++ block_inputs (tx_ID <$> txs2)).
Proof.
  rewrite !TxMerkleRoot_ids. intros Ho1 Ho2 H1 H2. destruct (merkleRoot_commits _ _ _ H1 H2) as [H|]; [|by right].
  left. by rewrite <- (NewHash_fmap _ Ho1), H, NewHash_fmap.
Qed.

(** C36: proofs of membership are exact.  The proof that the node makes for
    some transactions of a block, taken in block order, is accepted against the
    block's transaction root, unless the leaves collide; and whatever proof is
    accepted against that root is for identifiers that occur, in this order, in
    the block, unless the strings hashed for the root and the proof collide. *)
Theorem membership_proofs_sound_and_complete txs root :
  Forall hash_ok (tx_ID <$> txs) → TxMerkleRoot Sum256 txs = Ok root →
  (∀ related, tx_ID <$> related = filter (.∈ (tx_ID <$> related)) (tx_ID <$> txs) →
     (∃ p, GetTxMerkleTreeProof Sum256 txs related = Ok p
           ∧ ValidateTxMerkleTreeProof Sum256 p.1 p.2 (tx_ID <$> related) root = Ok true)
     ∨ collision (leaf_inputs (Byte32 <$> (tx_ID <$> txs)) ++ leaf_inputs (Byte32 <$> (tx_ID <$> related))))
  ∧ (∀ hashes flags ids, Forall hash_ok hashes → Forall hash_ok ids →
     ValidateTxMerkleTreeProof Sum256 hashes flags ids root = Ok true →
     ids `sublist_of` (tx_ID <$> txs)
     ∨ collision (block_inputs (tx_ID <$> txs) ++ proof_inputs hashes flags (Byte32 <$> ids))).
Proof.
  intros Hok Hroot. rewrite TxMerkleRoot_ids in Hroot. split.
  - intros related Hrel. unfold GetTxMerkleTreeProof, ValidateTxMerkleTreeProof.
    change (λ tx, Byte32 (tx_ID tx)) with (Byte32 ∘ tx_ID). rewrite !list_fmap_compose.
    apply proof_complete; [done|]. rewrite filter_Byte32; [by f_equal|done|].
    rewrite Hrel. apply Forall_forall. intros h [_ Hh]%list_elem_of_filter.
    rewrite Forall_forall in Hok. by apply Hok.
  - intros hashes flags ids Hh Hids Hv. destruct (proof_sound _ _ _ _ _ Hroot Hh Hv) as [Hs|]; [|by right].
    left. rewrite <- (NewHash_fmap _ Hok), <- (NewHash_fmap _ Hids). by apply fmap_sublist.
Qed.
End merkle.

(** ** Witnesses *)

Definition toy_tx (n : Z) : Tx :=
  mkTx (mkTxHeader 1 0 0 [] NativeAsset NativeAsset) (mkHash n 2 3 4) ∅ [] [] [].
Definition five_txs : list Tx := toy_tx <$> [1; 2; 3; 4; 5].
Definition five_root : Hash := match TxMerkleRoot toy_sum five_txs with Ok h => h | _ => NativeAsset end.

Lemma five_ids_ok : Forall hash_ok (tx_ID <$> five_txs).
Proof. repeat constructor; ranges; cbn; lia. Qed.

Lemma transaction_root_commits_witness :
  tx_ID <$> five_txs = tx_ID <$> (toy_tx <$> [1; 2; 3; 4; 5])
  ∨ collision toy_sum (block_inputs toy_sum (tx_ID <$> five_txs)
                       ++ block_inputs toy_sum (tx_ID <$> (toy_tx <$> [1; 2; 3; 4; 5]))).
Proof.
  apply (transaction_root_commits toy_sum toy_sum_size five_txs (toy_tx <$> [1; 2; 3; 4; 5]) five_root).
  - apply five_ids_ok.
  - apply five_ids_ok.
  - vm_compute; reflexivity.
  - vm_compute; reflexivity.
Defined.

Lemma membership_proofs_sound_and_complete_witness :
  TxMerkleRoot toy_sum five_txs = Ok five_root
  ∧ ((∃ p, GetTxMerkleTreeProof toy_sum five_txs [toy_tx 2; toy_tx 5] = Ok p
         ∧ ValidateTxMerkleTreeProof toy_sum p.1 p.2 (tx_ID <$> [toy_tx 2; toy_tx 5]) five_root = Ok true)
     ∨ collision toy_sum (leaf_inputs (Byte32 <$> (tx_ID <$> five_txs))
                          ++ leaf_inputs (Byte32 <$> (tx_ID <$> [toy_tx 2; toy_tx 5])))).
Proof.
  assert (TxMerkleRoot toy_sum five_txs = Ok five_root) as Hr by (vm_compute; reflexivity).
  split; [exact Hr|].
  apply (proj1 (membership_proofs_sound_and_complete toy_sum toy_sum_size five_txs five_root five_ids_ok Hr)).
  vm_compute; reflexivity.
Defined.

(** The proof for the second and the fifth of five transactions: one assisting
    hash on the way to each *)
Example five_proof_flags :
  match GetTxMerkleTreeProof toy_sum five_txs [toy_tx 2; toy_tx 5] with
  | Ok p => p.2 = [FlagTxParent; FlagTxParent; FlagTxParent; FlagAssist; FlagTxLeaf; FlagAssist; FlagTxLeaf]
            ∧ ValidateTxMerkleTreeProof toy_sum p.1 p.2 [tx_ID (toy_tx 2); tx_ID (toy_tx 5)] five_root = Ok true
            ∧ ValidateTxMerkleTreeProof toy_sum p.1 p.2 [tx_ID (toy_tx 5); tx_ID (toy_tx 2)] five_root = Ok false
  | _ => False
  end.
Proof. vm_compute. done. Qed.
