(* ===== verification/TxMap.v ===== *)
(** * From transactions to entries ([protocol/bc/types/map.go])

    A transaction as it is sent ([TxData]: inputs and outputs) and its mapping
    to a graph of entries.  [mapTx] builds entries, puts pointers to them into a
    map and goes on changing them through other pointers, so the model keeps a
    store of entries: a pointer is a position of the store, and two inputs with
    the same entry identifier are two objects of which the map keeps the last. *)

From S2P Require Import Prelude VmProgram VmMachine VmEvmOps Encoding Bc EntryHash StdPrograms.

(** ** Go's iteration over a map: some order of its bindings *)

Class GoRange := go_range : ∀ V, gmap Hash V → list (Hash * V).
Arguments go_range {_ V} m.
Class GoRangeOk `{GoRange} : Prop := go_range_perm : ∀ V (m : gmap Hash V), go_range m ≡ₚ map_to_list m.

(** ** Inputs and outputs ([txinput.go], [txoutput.go] and the input types) *)

Record OutputCommitment := mkOutputCommitment {
  oc_AssetAmount : AssetAmount;
  oc_VMVersion : Z;
  oc_ControlProgram : list Z;
}.
Record TxOutput := mkTxOutput {
  to_AssetVersion : Z;
  to_OutputCommitment : OutputCommitment;
  to_CommitmentSuffix : list Z;
}.

Record SpendCommitment := mkSpendCommitment {
  sc_AssetAmount : AssetAmount;
  sc_SourceID : Hash;
  sc_SourcePosition : Z;
  sc_VMVersion : Z;
  sc_ControlProgram : list Z;
}.

Inductive TypedInput :=
| IssuanceInput (Nonce : list Z) (Amount : Z) (AssetDefinition : list Z) (VMVersion : Z)
    (IssuanceProgram : list Z) (Arguments : list (list Z))
| SpendInput (SpendCommitmentSuffix : list Z) (Arguments : list (list Z)) (sc : SpendCommitment)
| CoinbaseInput (Arbitrary : list Z)
| CreationInput (Nonce : Z) (Data : list Z) (VMVersion : Z) (ControlProgram : list Z)
    (Arguments : list (list Z))
| CallInput (Nonce : Z) (To Data : list Z) (VMVersion : Z) (ControlProgram : list Z)
    (Arguments : list (list Z))
| ContractInput (Nonce : Z) (To Data : list Z) (VMVersion : Z) (ControlProgram : list Z)
    (Arguments : list (list Z))
| WithdrawalInput (aa : AssetAmount) (WithdrawProgram : list Z) (VMVersion : Z)
    (ControlProgram : list Z) (Arguments : list (list Z)).

(** [TypedInput] is nil after reading an input of an unknown asset version. *)
Record TxInput := mkTxInput {
  ti_AssetVersion : Z;
  ti_TypedInput : option TypedInput;
  ti_CommitmentSuffix : list Z;
  ti_WitnessSuffix : list Z;
}.

Record TxData := mkTxData {
  td_Version : Z;
  td_SerializedSize : Z;
  td_TimeRange : Z;
  td_Inputs : list TxInput;
  td_Outputs : list TxOutput;
  td_ReferenceData : list Z;
}.

(** ** The state of [mapTx]: objects, the map, and the slices of pointers *)

Record MapState := mkMapState {
  ms_store : list Entry;
  ms_entryMap : gmap Hash nat;
  ms_spends : list nat;
  ms_issuances : list nat;
  ms_coinbase : option nat;
  ms_creations : list nat;
  ms_calls : list nat;
  ms_contracts : list nat;
  ms_withdrawals : list nat;
}.

Definition MM (A : Type) : Type := MapState → outcome unit (A * MapState).
Definition map_ret {A} (a : A) : MM A := λ s, Ok (a, s).
Definition map_bind {A B} (m : MM A) (k : A → MM B) : MM B := λ s,
  match m s with
  | Ok (a, s') => k a s'
  | Err e => Err e
  | Panic => Panic
  | Fuel => Fuel
  end.
Definition map_panic {A} : MM A := λ _, Panic.
(** A pointer about to be dereferenced *)
Definition map_deref {A} (p : option A) : MM A := match p with Some a => map_ret a | None => map_panic end.

Declare Scope map_scope.
Delimit Scope map_scope with map.
Notation "x <~ m ; k" := (map_bind m (λ x, k))
  (at level 100, m at next level, right associativity) : map_scope.
Notation "m ;~ k" := (map_bind m (λ _, k))
  (at level 100, right associativity) : map_scope.

Definition set_store (f : list Entry → list Entry) (s : MapState) : MapState :=
  mkMapState (f (ms_store s)) (ms_entryMap s) (ms_spends s) (ms_issuances s) (ms_coinbase s)
    (ms_creations s) (ms_calls s) (ms_contracts s) (ms_withdrawals s).

Section map_tx.
Context (Sum256 : list Z → list Z).
Context `{GoRange}.
Local Open Scope map_scope.

Definition NonceHash (nonce : list Z) : Hash := NewHash (Sum256 nonce).
Definition AssetDefinitionHash (def : list Z) : Hash := NewHash (Sum256 def).

(** [IssuanceInput.AssetID] *)
Definition issuance_definition (def : list Z) (vmVersion : Z) (prog : list Z) : AssetDefinition :=
  mkAssetDefinition (mkProgram vmVersion prog) (AssetDefinitionHash def).
Definition issuance_AssetID (def : list Z) (vmVersion : Z) (prog : list Z) : AssetId :=
  ComputeAssetID Sum256 (issuance_definition def vmVersion prog).

(** Allocates the entry, and binds its identifier to the pointer *)
Definition addEntry (e : Entry) : MM (Hash * nat) := λ s,
  match EntryID Sum256 (Some e) with
  | Ok id =>
      let p := length (ms_store s) in
      Ok ((id, p), mkMapState (ms_store s ++ [e]) (<[id := p]> (ms_entryMap s)) (ms_spends s)
             (ms_issuances s) (ms_coinbase s) (ms_creations s) (ms_calls s) (ms_contracts s)
             (ms_withdrawals s))
  | Err e => Err e
  | Panic => Panic
  | Fuel => Fuel
  end.

(** The slices of pointers *)
Inductive kind := KSpend | KIssuance | KCoinbase | KCreation | KCall | KContract | KWithdrawal.
Definition remember (k : kind) (p : nat) : MM unit := λ s,
  let add (k' : kind) (l : list nat) :=
    match k, k' with
    | KSpend, KSpend | KIssuance, KIssuance | KCreation, KCreation | KCall, KCall
    | KContract, KContract | KWithdrawal, KWithdrawal => l ++ [p]
    | _, _ => l
    end in
  Ok (tt, mkMapState (ms_store s) (ms_entryMap s) (add KSpend (ms_spends s))
            (add KIssuance (ms_issuances s))
            (match k with KCoinbase => Some p | _ => ms_coinbase s end)
            (add KCreation (ms_creations s)) (add KCall (ms_calls s))
            (add KContract (ms_contracts s)) (add KWithdrawal (ms_withdrawals s))).

Definition mux_source (id : Hash) (value : AssetAmount) : option ValueSource :=
  Some (mkValueSource (Some id) (Some value) 0).

(** [&bc.AssetAmount{AssetId: &bc.AssetID{}, Amount: 0}] *)
Definition no_value : AssetAmount := mkAssetAmount (Some (mkHash 0 0 0 0)) 0.

(** One round of the loop over the inputs; an input of no known type leaves
    its mux source nil *)
Definition map_input (tx : TxData) (i : Z) (input : TxInput) : MM (option ValueSource) :=
  match ti_TypedInput input with
  | Some (IssuanceInput nonce amount def vmVersion prog args) =>
      let value := mkAssetAmount (Some (issuance_AssetID def vmVersion prog)) amount in
      r <~ addEntry (EIssuance (mkIssuance (NonceHash nonce) value None
                                  (issuance_definition def vmVersion prog) args i)) ;
      remember KIssuance (snd r) ;~ map_ret (mux_source (fst r) value)
  | Some (SpendInput _ args sc) =>
      let src := mkValueSource (Some (sc_SourceID sc)) (Some (sc_AssetAmount sc)) (sc_SourcePosition sc) in
      prevout <~ addEntry (EOutput (mkOutput (Some src)
                             (mkProgram (sc_VMVersion sc) (sc_ControlProgram sc)) 0)) ;
      r <~ addEntry (ESpend (mkSpend (Some (fst prevout)) None args i)) ;
      remember KSpend (snd r) ;~ map_ret (mux_source (fst r) (sc_AssetAmount sc))
  | Some (CoinbaseInput arbitrary) =>
      r <~ addEntry (ECoinbase (mkCoinbase None arbitrary)) ;
      remember KCoinbase (snd r) ;~
      out <~ map_deref (head (td_Outputs tx)) ;
      map_ret (mux_source (fst r) (oc_AssetAmount (to_OutputCommitment out)))
  | Some (CreationInput nonce data vmVersion prog args) =>
      r <~ addEntry (ECreation (mkCreation nonce None (mkProgram vmVersion prog)
                                  (mkProgram vmVersion data) args i)) ;
      remember KCreation (snd r) ;~ map_ret (mux_source (fst r) no_value)
  | Some (CallInput nonce to data vmVersion prog args) =>
      r <~ addEntry (ECall (mkCall nonce None (mkProgram vmVersion prog) (mkProgram vmVersion to)
                              (mkProgram vmVersion data) args i)) ;
      remember KCall (snd r) ;~ map_ret (mux_source (fst r) no_value)
  | Some (ContractInput nonce to data vmVersion prog args) =>
      r <~ addEntry (EContract (mkContract nonce None (mkProgram vmVersion prog) to
                                  (mkProgram vmVersion data) args i)) ;
      remember KContract (snd r) ;~ map_ret (mux_source (fst r) no_value)
  | Some (WithdrawalInput value withdrawProgram vmVersion prog args) =>
      r <~ addEntry (EWithdrawal (mkWithdrawal (mkProgram vmVersion prog) value
                                    (mkProgram vmVersion withdrawProgram) None args i)) ;
      remember KWithdrawal (snd r) ;~ map_ret (mux_source (fst r) value)
  | None => map_ret None
  end.

Fixpoint map_inputs (tx : TxData) (i : Z) (inputs : list TxInput) : MM (list (option ValueSource)) :=
  match inputs with
  | [] => map_ret []
  | inp :: rest =>
      src <~ map_input tx i inp ; srcs <~ map_inputs tx (i + 1) rest ; map_ret (src :: srcs)
  end.

(** ** [SetDestination] on the objects of the store *)

Definition set_destination (e : Entry) (d : ValueDestination) : Entry :=
  match e with
  | EIssuance i => EIssuance (mkIssuance (is_NonceHash i) (is_Value i) (Some d)
      (is_WitnessAssetDefinition i) (is_WitnessArguments i) (is_Ordinal i))
  | ESpend s => ESpend (mkSpend (sp_SpentOutputId s) (Some d) (sp_WitnessArguments s) (sp_Ordinal s))
  | ECoinbase c => ECoinbase (mkCoinbase (Some d) (cb_Arbitrary c))
  | ECreation c => ECreation (mkCreation (cr_Nonce c) (Some d) (cr_From c) (cr_Input c)
      (cr_WitnessArguments c) (cr_Ordinal c))
  | ECall c => ECall (mkCall (ca_Nonce c) (Some d) (ca_From c) (ca_To c) (ca_Input c)
      (ca_WitnessArguments c) (ca_Ordinal c))
  | EContract c => EContract (mkContract (co_Nonce c) (Some d) (co_From c) (co_To c) (co_Input c)
      (co_WitnessArguments c) (co_Ordinal c))
  | EWithdrawal w => EWithdrawal (mkWithdrawal (wd_ControlProgram w) (wd_Value w) (wd_WithdrawProgram w)
      (Some d) (wd_WitnessArguments w) (wd_Ordinal w))
  | e => e
  end.

(** [entryMap[id]]: the object the identifier is bound to *)
Definition entry_at (s : MapState) (id : Hash) : option Entry :=
  p ← ms_entryMap s !! id; ms_store s !! p.

(** The value and position of the destination set on an object of the loops
    that connect the inputs to the mux *)
Definition link_value (sources : list (option ValueSource)) (s : MapState) (e : Entry)
    : option (option AssetAmount * Z) :=
  let from_mux (ord : Z) := src ← mjoin (sources !! Z.to_nat ord); Some (vs_Value src, ord) in
  match e with
  | ESpend sp => id ← sp_SpentOutputId sp;
                 match entry_at s id with
                 | Some (EOutput o) => src ← out_Source o; Some (vs_Value src, sp_Ordinal sp)
                 | _ => None
                 end
  | EIssuance i => Some (Some (is_Value i), is_Ordinal i)
  | ECreation c => from_mux (cr_Ordinal c)
  | ECall c => from_mux (ca_Ordinal c)
  | EContract c => from_mux (co_Ordinal c)
  | EWithdrawal w => Some (Some (wd_Value w), wd_Ordinal w)
  | ECoinbase _ => from_mux 0
  | _ => None
  end.

Definition link (muxID : Hash) (sources : list (option ValueSource)) (p : nat) : MM unit := λ s,
  match ms_store s !! p with
  | Some e =>
      match link_value sources s e with
      | Some (v, pos) =>
          Ok (tt, set_store (insert p (set_destination e (mkValueDestination (Some muxID) v pos))) s)
      | None => Panic
      end
  | None => Panic
  end.

Fixpoint link_all (muxID : Hash) (sources : list (option ValueSource)) (ps : list nat) : MM unit :=
  match ps with
  | [] => map_ret tt
  | p :: rest => link muxID sources p ;~ link_all muxID sources rest
  end.

(** ** Results *)

Definition map_output (muxID : Hash) (i : Z) (out : TxOutput) : MM (Hash * ValueDestination) :=
  let oc := to_OutputCommitment out in
  let src := mkValueSource (Some muxID) (Some (oc_AssetAmount oc)) i in
  let prog := mkProgram (oc_VMVersion oc) (oc_ControlProgram oc) in
  r <~ addEntry (if IsUnspendable (oc_ControlProgram oc) then ERetirement (mkRetirement (Some src) i)
                 else if IsOpDeposit (oc_ControlProgram oc) then EDeposit (mkDeposit (Some src) prog i)
                 else EOutput (mkOutput (Some src) prog i)) ;
  map_ret (fst r, mkValueDestination (Some (fst r)) (Some (oc_AssetAmount oc)) 0).

Fixpoint map_outputs (muxID : Hash) (i : Z) (outs : list TxOutput) : MM (list (Hash * ValueDestination)) :=
  match outs with
  | [] => map_ret []
  | out :: rest =>
      r <~ map_output muxID i out ; rs <~ map_outputs muxID (i + 1) rest ; map_ret (r :: rs)
  end.

(** [mux.WitnessDestinations = append(...)] on the object in the store *)
Definition set_mux_destinations (p : nat) (ds : list ValueDestination) : MM unit := λ s,
  match ms_store s !! p with
  | Some (EMux m) =>
      Ok (tt, set_store (insert p (EMux (mkMux (mux_Sources m) (mux_Program m)
                                           (mux_WitnessDestinations m ++ (Some <$> ds))))) s)
  | _ => Panic
  end.

Definition mapTx (tx : TxData) : MM (Hash * TxHeader) :=
  sources <~ map_inputs tx 0 (td_Inputs tx) ;
  mux <~ addEntry (EMux (mkMux sources (mkProgram 1 [OP_TRUE]) [])) ;
  let muxID := fst mux in
  ptrs <~ (λ s, Ok (ms_spends s ++ ms_issuances s ++ ms_creations s ++ ms_calls s ++ ms_contracts s
                    ++ ms_withdrawals s ++ option_list (ms_coinbase s), s)) ;
  link_all muxID sources ptrs ;~
  results <~ map_outputs muxID 0 (td_Outputs tx) ;
  set_mux_destinations (snd mux) (snd <$> results) ;~
  let h := mkTxHeader (td_Version tx) (td_SerializedSize tx) (td_TimeRange tx) (fst <$> results) muxID
             (NewHash (Sum256 (td_ReferenceData tx))) in
  r <~ addEntry (ETxHeader h) ;
  map_ret (fst r, h).

(** ** [MapTx]: the slices of identifiers, in the order of the map *)

(** Whether an entry is a gas input; the pointers on the way are dereferenced *)
Definition gas_input (e : Entry) : outcome unit bool :=
  match e with
  | ESpend sp =>
      match _ ← sp_SpentOutputId sp; d ← sp_WitnessDestination sp; v ← vd_Value d; aa_AssetId v with
      | Some a => Ok (bool_decide (a = NativeAsset))
      | None => Panic
      end
  | EWithdrawal w =>
      match aa_AssetId (wd_Value w) with
      | Some a => Ok (bool_decide (a = NativeAsset))
      | None => Panic
      end
  | _ => Ok false
  end.

(** The ordinal of the kinds of entries that stand for inputs; deposits are
    results, but the code treats them alike *)
Definition ordinal (e : Entry) : option Z :=
  match e with
  | EIssuance i => Some (is_Ordinal i)
  | ESpend s => Some (sp_Ordinal s)
  | ECoinbase _ => Some 0
  | ECreation c => Some (cr_Ordinal c)
  | ECall c => Some (ca_Ordinal c)
  | EContract c => Some (co_Ordinal c)
  | EDeposit d => Some (dp_Ordinal d)
  | EWithdrawal w => Some (wd_Ordinal w)
  | _ => None
  end.

(** The loop over the entries: input ids, spent outputs, gas inputs *)
Fixpoint collect (n : Z) (es : list (Hash * Entry)) (inputs : list Hash) (spent : gmap Hash bool)
    (gas : list Hash) : outcome unit (list Hash * gmap Hash bool * list Hash) :=
  match es with
  | [] => Ok (inputs, spent, gas)
  | (id, e) :: rest =>
      match gas_input e with
      | Ok g =>
          let gas := if (g : bool) then gas ++ [id] else gas in
          let spent := match e with
                       | ESpend sp => match sp_SpentOutputId sp with
                                      | Some o => <[o := true]> spent
                                      | None => spent
                                      end
                       | _ => spent
                       end in
          let inputs := match ordinal e with
                        | Some ord => if n <=? ord then inputs else <[Z.to_nat ord := id]> inputs
                        | None => inputs
                        end in
          collect n rest inputs spent gas
      | Err e => Err e
      | Panic => Panic
      | Fuel => Fuel
      end
  end.

Definition empty_map_state : MapState := mkMapState [] ∅ [] [] None [] [] [] [].

Definition MapTx (oldTx : TxData) : outcome unit Tx :=
  match mapTx oldTx empty_map_state with
  | Ok ((txID, hdr), s) =>
      let entries := omap (λ p, ms_store s !! p) (ms_entryMap s) in
      let n := length (td_Inputs oldTx) in
      match collect (Z.of_nat n) (go_range entries) (replicate n (mkHash 0 0 0 0)) ∅ [] with
      | Ok (inputs, spent, gas) => Ok (mkTx hdr txID entries inputs (fst <$> go_range spent) gas)
      | Err e => Err e
      | Panic => Panic
      | Fuel => Fuel
      end
  | Err e => Err e
  | Panic => Panic
  | Fuel => Fuel
  end.
End map_tx.
