(* ===== verification/Wire.v ===== *)
(** * Transactions and blocks as bytes ([protocol/bc/types])

    The wire format of transactions, headers and blocks: transaction.go,
    txinput.go, txoutput.go, output_commitment.go, spend_commitment.go,
    block.go, block_header.go, block_commitment.go.  Readers are those of
    [Encoding]; what is read before an error is dropped, as the callers do.  A
    writer here is an outcome, since writing a nil asset identifier panics. *)

From S2P Require Import Prelude Encoding Bc EntryHash VmProgram StdPrograms TxMap.
#[local] Open Scope Z_scope.
#[local] Open Scope go_scope.

Abbreviation serRequired := 7.
Abbreviation SerBlockHeader := 1.
Abbreviation SerBlockFull := 3.
Abbreviation IssuanceInputType := 0.
Abbreviation SpendInputType := 1.
Abbreviation CoinbaseInputType := 2.
Abbreviation CreationInputType := 3.
Abbreviation CallInputType := 4.
Abbreviation ContractInputType := 5.
Abbreviation WithdrawalInputType := 6.

(** ** Readers and writers *)

Notation "x <- r ;; k" := (bind_reader r (λ x, k))
  (at level 100, r at next level, right associativity) : go_scope.

(** [io.ReadFull] into [n] bytes *)
Definition ReadFull (n : nat) : Reader (list Z) := λ buf,
  if decide (n <= length buf)%nat then (Ok (take n buf), drop n buf)
  else (Err (if bool_decide (buf = []) then EOF else ErrUnexpectedEOF), []).

Definition hash_ReadFrom : Reader Hash := b <- ReadFull 32 ;; give (NewHash b).
Definition amount_ReadFrom : Reader AssetAmount :=
  assetID <- hash_ReadFrom ;; amount <- ReadVarint63 ;; give (mkAssetAmount (Some assetID) amount).

Definition SWriter : Type := outcome enc_error (list Z).
Definition put (bs : list Z) : SWriter := Ok bs.
Definition of_writer (w : Writer) : SWriter :=
  match w with (None, bs) => Ok bs | (Some e, _) => Err e end.
Definition then_put (a b : SWriter) : SWriter := let? x := a in let? y := b in Ok (x ++ y).
Infix "@>" := then_put (at level 60, right associativity) : go_scope.

Definition put_hash (h : Hash) : SWriter := put (Byte32 h).
Definition put_varint63 (v : Z) : SWriter := of_writer (WriteVarint63 v).
Definition put_varint31 (v : Z) : SWriter := of_writer (WriteVarint31 v).
Definition put_varstr (s : list Z) : SWriter := of_writer (WriteVarstr31 s).
Definition put_list (l : list (list Z)) : SWriter := of_writer (WriteVarstrList l).
Definition put_extensible (suffix : list Z) (f : SWriter) : SWriter := let? bs := f in put_varstr (bs ++ suffix).
(** The method's receiver is a value: a nil pointer panics. *)
Definition put_amount (a : AssetAmount) : SWriter :=
  match aa_AssetId a with
  | None => Panic
  | Some id => put_hash id @> put_varint63 (aa_Amount a)
  end.
Definition put_all {A} (f : A → SWriter) (l : list A) : SWriter := foldr (λ a w, f a @> w) (put []) l.

Fixpoint read_all {A} (r : Reader A) (n : nat) : Reader (list A) :=
  match n with
  | O => give []
  | S n => a <- r ;; l <- read_all r n ;; give (a :: l)
  end.

(** ** Commitments *)

(** The contents already end with the suffix that [WriteExtensibleString]
    appends. *)
Definition oc_writeContents (oc : OutputCommitment) (suffix : list Z) (assetVersion : Z) : SWriter :=
  (if assetVersion =? 1 then
     put_amount (oc_AssetAmount oc) @> put_varint63 (oc_VMVersion oc) @> put_varstr (oc_ControlProgram oc)
   else put [])
  @> put suffix.
Definition oc_writeExtensibleString (oc : OutputCommitment) (suffix : list Z) (assetVersion : Z) : SWriter :=
  put_extensible suffix (oc_writeContents oc suffix assetVersion).

Definition no_commitment : OutputCommitment := mkOutputCommitment (mkAssetAmount None 0) 0 [].
Definition oc_readFrom (assetVersion : Z) : Reader (OutputCommitment * list Z) :=
  ReadExtensibleString
    (if assetVersion =? 1 then
       amount <- amount_ReadFrom ;; version <- ReadVarint63 ;;
       if negb (version =? 1) then fail ErrVMVersion
       else program <- ReadVarstr31 ;; give (mkOutputCommitment amount version program)
     else give no_commitment).

Definition sc_writeContents (sc : SpendCommitment) (suffix : list Z) (assetVersion : Z) : SWriter :=
  (if assetVersion =? 1 then
     put_hash (sc_SourceID sc) @> put_amount (sc_AssetAmount sc) @> put_varint63 (sc_SourcePosition sc)
     @> put_varint63 (sc_VMVersion sc) @> put_varstr (sc_ControlProgram sc)
   else put [])
  @> put suffix.
Definition sc_writeExtensibleString (sc : SpendCommitment) (suffix : list Z) (assetVersion : Z) : SWriter :=
  put_extensible suffix (sc_writeContents sc suffix assetVersion).

(** Only called with asset version 1 *)
Definition sc_readFrom : Reader (SpendCommitment * list Z) :=
  ReadExtensibleString
    (source <- hash_ReadFrom ;; amount <- amount_ReadFrom ;; position <- ReadVarint63 ;;
     version <- ReadVarint63 ;;
     if negb (version =? 1) then fail ErrVMVersion
     else program <- ReadVarstr31 ;; give (mkSpendCommitment amount source position version program)).

(** ** Outputs *)

Definition output_readFrom : Reader TxOutput :=
  version <- ReadVarint63 ;;
  oc <- oc_readFrom version ;;
  _ <- ReadVarstr31 ;;
  give (mkTxOutput version (fst oc) (snd oc)).

Definition output_writeTo (o : TxOutput) : SWriter :=
  put_varint63 (to_AssetVersion o)
  @> oc_writeExtensibleString (to_OutputCommitment o) (to_CommitmentSuffix o) (to_AssetVersion o)
  @> put_varstr [].

Section wire.
(** [sha3pool]: SHA3-256 *)
Context (Sum256 : list Z → list Z).

(** ** Inputs *)

(** The input without its witness, and the asset identifier of an issuance *)
Definition read_commitment : Reader (TypedInput * Hash) :=
  icType <- ReadFull 1 ;;
  let t := hd 0 icType in
  let plain (i : TypedInput) : Reader (TypedInput * Hash) := give (i, mkHash 0 0 0 0) in
  if t =? IssuanceInputType then
    nonce <- ReadVarstr31 ;; assetID <- hash_ReadFrom ;; amount <- ReadVarint63 ;;
    give (IssuanceInput nonce amount [] 0 [] [], assetID)
  else if t =? SpendInputType then
    sc <- sc_readFrom ;; plain (SpendInput (snd sc) [] (fst sc))
  else if t =? CoinbaseInputType then
    arbitrary <- ReadVarstr31 ;; plain (CoinbaseInput arbitrary)
  else if t =? CreationInputType then
    nonce <- ReadVarint63 ;; data <- ReadVarstr31 ;; version <- ReadVarint63 ;; program <- ReadVarstr31 ;;
    plain (CreationInput nonce data version program [])
  else if t =? CallInputType then
    nonce <- ReadVarint63 ;; to <- ReadVarstr31 ;; data <- ReadVarstr31 ;; version <- ReadVarint63 ;;
    program <- ReadVarstr31 ;; plain (CallInput nonce to data version program [])
  else if t =? ContractInputType then
    nonce <- ReadVarint63 ;; to <- ReadVarstr31 ;; data <- ReadVarstr31 ;; version <- ReadVarint63 ;;
    program <- ReadVarstr31 ;; plain (ContractInput nonce to data version program [])
  else if t =? WithdrawalInputType then
    amount <- amount_ReadFrom ;; withdraw <- ReadVarstr31 ;; version <- ReadVarint63 ;;
    program <- ReadVarstr31 ;; plain (WithdrawalInput amount withdraw version program [])
  else fail ErrInputType.

Definition read_witness (i : TypedInput) (assetID : Hash) : Reader TypedInput :=
  match i with
  | IssuanceInput nonce amount _ _ _ _ =>
      definition <- ReadVarstr31 ;; version <- ReadVarint63 ;; program <- ReadVarstr31 ;;
      if negb (bool_decide (issuance_AssetID Sum256 definition version program = assetID)) then fail errBadAssetID
      else args <- ReadVarstrList ;; give (IssuanceInput nonce amount definition version program args)
  | SpendInput suffix _ sc => args <- ReadVarstrList ;; give (SpendInput suffix args sc)
  | CoinbaseInput arbitrary => give (CoinbaseInput arbitrary)
  | CreationInput nonce data version program _ =>
      args <- ReadVarstrList ;; give (CreationInput nonce data version program args)
  | CallInput nonce to data version program _ =>
      args <- ReadVarstrList ;; give (CallInput nonce to data version program args)
  | ContractInput nonce to data version program _ =>
      args <- ReadVarstrList ;; give (ContractInput nonce to data version program args)
  | WithdrawalInput amount withdraw version program _ =>
      args <- ReadVarstrList ;; give (WithdrawalInput amount withdraw version program args)
  end.

Definition input_readFrom : Reader TxInput :=
  version <- ReadVarint63 ;;
  if version =? 1 then
    c <- ReadExtensibleString read_commitment ;;
    let '(i, assetID, suffix) := c in
    w <- ReadExtensibleString (read_witness i assetID) ;;
    give (mkTxInput version (Some (fst w)) suffix (snd w))
  else
    c <- ReadExtensibleString (give tt) ;;
    w <- ReadExtensibleString (give tt) ;;
    give (mkTxInput version None (snd c) (snd w)).

Definition writeInputCommitment (t : TxInput) : SWriter :=
  if negb (ti_AssetVersion t =? 1) then put []
  else match ti_TypedInput t with
       | Some (IssuanceInput nonce amount definition version program _) =>
           put [IssuanceInputType] @> put_varstr nonce
           @> put_hash (issuance_AssetID Sum256 definition version program) @> put_varint63 amount
       | Some (SpendInput suffix _ sc) =>
           put [SpendInputType] @> sc_writeExtensibleString sc suffix (ti_AssetVersion t)
       | Some (CoinbaseInput arbitrary) => put [CoinbaseInputType] @> put_varstr arbitrary
       | Some (CreationInput nonce data version program _) =>
           put [CreationInputType] @> put_varint63 nonce @> put_varstr data @> put_varint63 version
           @> put_varstr program
       | Some (CallInput nonce to data version program _) =>
           put [CallInputType] @> put_varint63 nonce @> put_varstr to @> put_varstr data
           @> put_varint63 version @> put_varstr program
       | Some (ContractInput nonce to data version program _) =>
           put [ContractInputType] @> put_varint63 nonce @> put_varstr to @> put_varstr data
           @> put_varint63 version @> put_varstr program
       | Some (WithdrawalInput amount withdraw version program _) =>
           put [WithdrawalInputType] @> put_amount amount @> put_varstr withdraw
           @> put_varint63 version @> put_varstr program
       | None => put []
       end.

Definition writeInputWitness (t : TxInput) : SWriter :=
  if negb (ti_AssetVersion t =? 1) then put []
  else match ti_TypedInput t with
       | Some (IssuanceInput _ _ definition version program args) =>
           put_varstr definition @> put_varint63 version @> put_varstr program @> put_list args
       | Some (SpendInput _ args _) => put_list args
       | Some (CreationInput _ _ _ _ args) => put_list args
       | Some (CallInput _ _ _ _ _ args) => put_list args
       | Some (ContractInput _ _ _ _ _ args) => put_list args
       | Some (WithdrawalInput _ _ _ _ args) => put_list args
       | Some (CoinbaseInput _) | None => put []
       end.

Definition input_writeTo (t : TxInput) : SWriter :=
  put_varint63 (ti_AssetVersion t)
  @> put_extensible (ti_CommitmentSuffix t) (writeInputCommitment t)
  @> put_extensible (ti_WitnessSuffix t) (writeInputWitness t).

(** ** Transactions *)

(** [TxData.readFrom], up to the size, which is what the reading consumed *)
Definition read_fields : Reader (Z → TxData) :=
  serflags <- ReadFull 1 ;;
  if negb (hd 0 serflags =? serRequired) then fail ErrSerflags
  else
    version <- ReadVarint63 ;;
    timeRange <- ReadVarint63 ;;
    n <- ReadVarint31 ;;
    inputs <- read_all input_readFrom (Z.to_nat n) ;;
    n <- ReadVarint31 ;;
    outputs <- read_all output_readFrom (Z.to_nat n) ;;
    referenceData <- ReadVarstr31 ;;
    give (λ size, mkTxData version size timeRange inputs outputs referenceData).

Definition readFrom : Reader TxData := λ buf,
  match read_fields buf with
  | (Ok f, rest) => (Ok (f (uint64 (len buf - len rest))), rest)
  | (Err e, rest) => (Err e, rest)
  | (Panic, rest) => (Panic, rest)
  | (Fuel, rest) => (Fuel, rest)
  end.

Definition writeTo (tx : TxData) : SWriter :=
  put [serRequired] @> put_varint63 (td_Version tx) @> put_varint63 (td_TimeRange tx)
  @> put_varint31 (uint64 (len (td_Inputs tx))) @> put_all input_writeTo (td_Inputs tx)
  @> put_varint31 (uint64 (len (td_Outputs tx))) @> put_all output_writeTo (td_Outputs tx)
  @> put_varstr (td_ReferenceData tx).

(** [types.Tx] and [NewTx] *)
Record TypesTx := mkTypesTx { tt_TxData : TxData; tt_Tx : Tx }.
Context `{R : GoRange}.
Definition NewTx (data : TxData) : outcome enc_error TypesTx :=
  match MapTx Sum256 data with
  | Ok tx => Ok (mkTypesTx data tx)
  | Err _ | Panic => Panic
  | Fuel => Fuel
  end.

(** ** Headers and blocks *)

Definition commitment_readFrom : Reader BlockCommitment :=
  txs <- hash_ReadFrom ;; status <- hash_ReadFrom ;; state <- hash_ReadFrom ;; give (mkCommitment txs status state).
Definition commitment_writeTo (c : BlockCommitment) : SWriter :=
  put_hash (bc_TransactionsMerkleRoot c) @> put_hash (bc_TransactionStatusHash c) @> put_hash (bc_StateRoot c).

(** The error of reading the flag is ignored; the flag is then 0. *)
Definition read_serflag : Reader Z := λ buf,
  match ReadFull 1 buf with (Ok b, rest) => (Ok (hd 0 b), rest) | (_, rest) => (Ok 0, rest) end.

Definition header_readFrom : Reader (Z * BlockHeader) :=
  serflag <- read_serflag ;;
  if negb ((serflag =? SerBlockHeader) || (serflag =? SerBlockFull)) then fail ErrSerflags
  else
    version <- ReadVarint63 ;; height <- ReadVarint63 ;; previous <- hash_ReadFrom ;; timestamp <- ReadVarint63 ;;
    c <- ReadExtensibleString commitment_readFrom ;;
    nonce <- ReadVarint63 ;; bits <- ReadVarint63 ;;
    give (serflag, mkHeader version height previous timestamp nonce bits (fst c)).

Definition header_writeTo (serflags : Z) (bh : BlockHeader) : SWriter :=
  put [serflags] @> put_varint63 (bh_Version bh) @> put_varint63 (bh_Height bh)
  @> put_hash (bh_PreviousBlockHash bh) @> put_varint63 (bh_Timestamp bh)
  @> put_extensible [] (commitment_writeTo (bh_BlockCommitment bh))
  @> put_varint63 (bh_Nonce bh) @> put_varint63 (bh_Bits bh).

(** [types.Block] *)
Record TypesBlock := mkTypesBlock { tb_BlockHeader : BlockHeader; tb_Transactions : list TypesTx }.

Definition read_tx : Reader TypesTx := data <- readFrom ;; λ rest, (NewTx data, rest).

Definition block_readFrom : Reader TypesBlock :=
  h <- header_readFrom ;;
  if fst h =? SerBlockHeader then give (mkTypesBlock (snd h) [])
  else
    n <- ReadVarint31 ;;
    txs <- read_all read_tx (Z.to_nat n) ;;
    give (mkTypesBlock (snd h) txs).

Definition block_writeTo (serflags : Z) (b : TypesBlock) : SWriter :=
  header_writeTo serflags (tb_BlockHeader b)
  @> (if serflags =? SerBlockHeader then put []
      else put_varint31 (uint64 (len (tb_Transactions b)))
           @> put_all (λ tx, writeTo (tt_TxData tx)) (tb_Transactions b)).

(** ** Text: hexadecimal *)

Definition hex_digit (n : Z) : Z := if n <? 10 then 48 + n else 87 + n.
Definition hex_Encode (bs : list Z) : list Z := concat ((λ b, [hex_digit (b / 16); hex_digit (b mod 16)]) <$> bs).
Definition from_hex (c : Z) : option Z :=
  if (48 <=? c) && (c <=? 57) then Some (c - 48)
  else if (97 <=? c) && (c <=? 102) then Some (c - 87)
  else if (65 <=? c) && (c <=? 70) then Some (c - 55)
  else None.
Fixpoint hex_Decode (text : list Z) : option (list Z) :=
  match text with
  | [] => Some []
  | [_] => None
  | a :: b :: r => h ← from_hex a; l ← from_hex b; rest ← hex_Decode r; Some (16 * h + l :: rest)
  end.

Definition MarshalText (b : TypesBlock) : SWriter := let? bs := block_writeTo SerBlockFull b in Ok (hex_Encode bs).
Definition UnmarshalText (text : list Z) : outcome enc_error TypesBlock :=
  match hex_Decode text with
  | None => Err ErrHex
  | Some bs =>
      match block_readFrom bs with
      | (Ok b, []) => Ok b
      | (Ok _, _ :: _) => Err ErrTrailing
      | (Err e, _) => Err e
      | (Panic, _) => Panic
      | (Fuel, _) => Fuel
      end
  end.

(** The transaction's own text functions; an error in writing gives no text
    and no error. *)
Definition tx_MarshalText (tx : TxData) : outcome enc_error (list Z) :=
  match writeTo tx with Ok bs => Ok (hex_Encode bs) | Err _ => Ok [] | Panic => Panic | Fuel => Fuel end.
Definition tx_UnmarshalText (text : list Z) : outcome enc_error TxData :=
  match hex_Decode text with
  | None => Err ErrHex
  | Some bs =>
      match readFrom bs with
      | (Ok td, []) => Ok td
      | (Ok _, _ :: _) => Err ErrTrailing
      | (Err e, _) => Err e
      | (Panic, _) => Panic
      | (Fuel, _) => Fuel
      end
  end.

(** ** Access to inputs *)

Definition AssetAmount_of (t : TxInput) : AssetAmount :=
  match ti_TypedInput t with
  | Some (IssuanceInput _ amount definition version program _) =>
      mkAssetAmount (Some (issuance_AssetID Sum256 definition version program)) amount
  | Some (SpendInput _ _ sc) => sc_AssetAmount sc
  | Some (WithdrawalInput aa _ _ _ _) => aa
  | _ => mkAssetAmount None 0
  end.

Definition SetArguments (args : list (list Z)) (t : TxInput) : TxInput :=
  mkTxInput (ti_AssetVersion t)
    (match ti_TypedInput t with
     | Some (IssuanceInput nonce amount definition version program _) =>
         Some (IssuanceInput nonce amount definition version program args)
     | Some (SpendInput suffix _ sc) => Some (SpendInput suffix args sc)
     | Some (CreationInput nonce data version program _) => Some (CreationInput nonce data version program args)
     | Some (CallInput nonce to data version program _) => Some (CallInput nonce to data version program args)
     | Some (ContractInput nonce to data version program _) => Some (ContractInput nonce to data version program args)
     | Some (WithdrawalInput aa withdraw version program _) => Some (WithdrawalInput aa withdraw version program args)
     | i => i
     end) (ti_CommitmentSuffix t) (ti_WitnessSuffix t).
End wire.
