(* ===== verification/WireSpec.v ===== *)
(** * What the node writes it reads back

    [reads_back w r a]: the bytes that the writer [w] produces are read by [r]
    as [a], with nothing of what follows them consumed.  The relation is closed
    under sequencing, so a round trip follows the structure of the format. *)

From S2P Require Import Prelude Encoding Bc EntryHash VmProgram StdPrograms TxMap Wire.
#[local] Open Scope Z_scope.
#[local] Open Scope go_scope.
#[local] Set Default Goal Selector "!".

Definition reads_back {A} (w : SWriter) (r : Reader A) (a : A) : Prop :=
  ∀ bs rest, w = Ok bs → go_len bs → r (bs ++ rest) = (Ok a, rest).

Lemma go_len_app {A} (l k : list A) : go_len (l ++ k) → go_len l ∧ go_len k.
Proof. unfold go_len. rewrite len_app. pose proof (len_nonneg l). pose proof (len_nonneg k). lia. Qed.

Lemma then_put_Ok a b bs : a @> b = Ok bs → ∃ x y, a = Ok x ∧ b = Ok y ∧ bs = x ++ y.
Proof.
  unfold then_put. destruct a as [x| | |]; cbn; try done. destruct b as [y| | |]; cbn; try done.
  intros [= <-]. by exists x, y.
Qed.

(** ** Sequences *)

Lemma reads_back_seq {A B} w1 w2 (r : Reader A) (k : A → Reader B) a b :
  reads_back w1 r a → reads_back w2 (k a) b → reads_back (w1 @> w2) (bind_reader r k) b.
Proof.
  intros H1 H2 bs rest (x & y & Hx & Hy & ->)%then_put_Ok [Hlx Hly]%go_len_app.
  rewrite <- app_assoc. unfold bind_reader. rewrite (H1 _ _ Hx Hlx). by apply H2.
Qed.

Lemma reads_back_give {A} (a : A) : reads_back (put []) (give a) a.
Proof. intros bs rest [= <-] _. done. Qed.

Lemma reads_back_last {A B} w (r : Reader A) (k : A → Reader B) a b :
  reads_back w r a → reads_back (put []) (k a) b → reads_back w (bind_reader r k) b.
Proof.
  intros H1 H2 bs rest Hbs Hl. unfold bind_reader. rewrite (H1 _ _ Hbs Hl).
  apply (H2 [] rest eq_refl). unfold go_len, len. cbn. lia.
Qed.

Lemma reads_back_nil {A} w (r : Reader A) a : reads_back w r a → reads_back (w @> put []) r a.
Proof. intros H bs rest (x & y & Hx & [= <-] & ->)%then_put_Ok Hl. rewrite app_nil_r in *. by apply H. Qed.

(** ** Pieces *)

Lemma reads_back_byte t : reads_back (put [t]) (ReadFull 1) [t].
Proof. intros bs rest [= <-] _. done. Qed.

Lemma reads_back_hash h : hash_ok h → reads_back (put_hash h) hash_ReadFrom h.
Proof.
  intros Hh bs rest [= <-] _. unfold hash_ReadFrom, bind_reader, ReadFull, give.
  rewrite decide_True by (rewrite length_app, length_Byte32; lia).
  rewrite <- (length_Byte32 h) at 1 2. rewrite take_app_length, drop_app_length. by rewrite NewHash_Byte32.
Qed.

Lemma reads_back_varint63 v : 0 <= v → reads_back (put_varint63 v) ReadVarint63 v.
Proof.
  intros Hv bs rest Hbs _. unfold put_varint63, WriteVarint63 in Hbs.
  destruct (Z.ltb_spec MaxInt64 v); [done|]. apply Ok_inj in Hbs as <-.
  unfold ReadVarint63, bind_reader. rewrite ReadUvarint_put by lia. by rewrite (proj2 (Z.ltb_ge _ _)) by lia.
Qed.

Lemma reads_back_varint31 v : 0 <= v → reads_back (put_varint31 v) ReadVarint31 v.
Proof.
  intros Hv bs rest Hbs _. unfold put_varint31, WriteVarint31 in Hbs.
  destruct (Z.ltb_spec MaxInt32 v); [done|]. apply Ok_inj in Hbs as <-. apply ReadVarint31_write. lia.
Qed.

Lemma WriteVarstr31_inv s bs : WriteVarstr31 s = (None, bs) → go_len bs →
  len s <= MaxInt32 ∧ bs = PutUvarint 10 (len s) ++ s.
Proof.
  unfold WriteVarstr31, WriteVarint31, seq_writer. destruct (Z.ltb_spec MaxInt32 (uint64 (len s))); [done|].
  intros Hbs%(f_equal snd) Hl. cbn [snd] in Hbs. subst bs. apply go_len_app in Hl as [_ Hl].
  pose proof (len_nonneg s). unfold go_len in Hl. rewrite uint64_id in * by (ranges; lia). done.
Qed.

Lemma of_writer_Ok w bs : of_writer w = Ok bs → w = (None, bs).
Proof. destruct w as [[e|] x]; cbn; [done|]. by intros <-%Ok_inj. Qed.

Lemma reads_back_varstr s : reads_back (put_varstr s) ReadVarstr31 s.
Proof.
  intros bs rest Hbs%of_writer_Ok Hl. destruct (WriteVarstr31_inv _ _ Hbs Hl) as [Hs ->].
  by apply ReadVarstr31_write.
Qed.

Lemma WriteVarstrs_inv l : ∀ bs, foldr (λ s w, seq_writer (WriteVarstr31 s) w) (None, []) l = (None, bs) →
  go_len bs → Forall (λ s, len s <= MaxInt32) l ∧ bs = varstrs l.
Proof.
  induction l as [|s l IH]; intros bs; cbn [foldr].
  { intros H _. apply (f_equal snd) in H. by subst. }
  destruct (WriteVarstr31 s) as [[e|] x] eqn:Hs; cbn [seq_writer]; [done|].
  destruct (foldr _ _ l) as [[e|] y] eqn:Hl; [done|]. intros Hbs%(f_equal snd) Hlen. cbn [snd] in Hbs. subst bs.
  apply go_len_app in Hlen as [Hx Hy]. destruct (WriteVarstr31_inv _ _ Hs Hx) as [? ->].
  destruct (IH _ eq_refl Hy) as [? ->]. split; [by constructor|done].
Qed.

Lemma reads_back_list l : go_len l → reads_back (put_list l) ReadVarstrList l.
Proof.
  intros Hl bs rest Hbs%of_writer_Ok Hlen. unfold WriteVarstrList, WriteVarint31 in Hbs.
  pose proof (len_nonneg l). unfold go_len in Hl. rewrite uint64_id in Hbs by (ranges; lia).
  destruct (Z.ltb_spec MaxInt32 (len l)); [done|]. cbn [seq_writer] in Hbs.
  destruct (foldr _ _ l) as [[e|] y] eqn:Hf; [done|]. apply (f_equal snd) in Hbs. cbn [snd] in Hbs. subst bs.
  apply go_len_app in Hlen as [_ Hy]. destruct (WriteVarstrs_inv _ _ Hf Hy) as [Hall ->].
  unfold ReadVarstrList, bind_reader. rewrite <- app_assoc, ReadVarint31_write by lia.
  unfold len. rewrite Nat2Z.id. by apply varstr_loop_write.
Qed.

Definition wire_amount (a : AssetAmount) : Prop := set_and hash_ok (aa_AssetId a) ∧ 0 <= aa_Amount a.

Lemma reads_back_amount a : wire_amount a → reads_back (put_amount a) amount_ReadFrom a.
Proof.
  intros [(id & Hid & Hok) Ha]. unfold put_amount, amount_ReadFrom. rewrite Hid.
  eapply reads_back_seq; [by apply reads_back_hash|]. eapply reads_back_last; [by apply reads_back_varint63|].
  destruct a as [i n]; cbn in *. subst i. apply reads_back_give.
Qed.

(** [out] is what the reader of the contents leaves. *)
Lemma reads_back_extensible {A} suffix out w (f : Reader A) a :
  (∀ bs, w = Ok bs → go_len bs → f (bs ++ suffix) = (Ok a, out)) →
  reads_back (put_extensible suffix w) (ReadExtensibleString f) (a, out).
Proof.
  intros Hf bs rest. unfold put_extensible. destruct w as [c| | |]; cbn [obind]; try done.
  intros Hbs Hlen. pose proof (reads_back_varstr (c ++ suffix) bs rest Hbs Hlen) as Hr.
  unfold ReadExtensibleString, bind_reader. rewrite Hr. rewrite Hf; [done|done|].
  apply of_writer_Ok in Hbs. destruct (WriteVarstr31_inv _ _ Hbs Hlen) as [_ ->].
  apply go_len_app in Hlen as [_ Hl]. by apply go_len_app in Hl as [Hl _].
Qed.

Lemma reads_back_all {A B} (f : A → SWriter) (r : Reader B) (g : A → B) l :
  Forall (λ a, reads_back (f a) r (g a)) l → reads_back (put_all f l) (read_all r (length l)) (g <$> l).
Proof.
  induction 1 as [|a l Ha _ IH]; [apply reads_back_give|]. cbn [put_all foldr length read_all].
  eapply reads_back_seq; [exact Ha|]. eapply reads_back_last; [exact IH|]. apply reads_back_give.
Qed.

Create HintDb wire.
#[export] Hint Resolve reads_back_byte reads_back_hash reads_back_varint63 reads_back_varint31 reads_back_varstr
  reads_back_list reads_back_amount : wire.

#[export] Hint Extern 1 (0 <= _) => lia : wire.

Ltac wire_step :=
  first
    [ eapply reads_back_seq; [solve [eauto with wire]|]
    | eapply reads_back_last; [solve [eauto with wire]|]
    | apply reads_back_give ];
  cbv beta.

(** ** Commitments *)

(** The suffix comes back twice: the contents end with it, and the extensible
    string appends it. *)
Lemma doubled_suffix {A} w (f : Reader A) a suffix : reads_back w f a →
  reads_back (put_extensible suffix (w @> put suffix)) (ReadExtensibleString f) (a, suffix ++ suffix).
Proof.
  intros Hw. apply reads_back_extensible. intros bs (x & y & Hx & [= <-] & ->)%then_put_Ok [Hl _]%go_len_app.
  rewrite <- app_assoc. by apply Hw.
Qed.

Lemma reads_back_contents {A} w (f : Reader A) a suffix : reads_back w f a →
  reads_back (put_extensible suffix w) (ReadExtensibleString f) (a, suffix).
Proof. intros Hw. apply reads_back_extensible. intros bs Hbs Hl. by apply Hw. Qed.

(** Fields of an output of asset version 1; of another version only the
    suffix is kept. *)
Definition wire_commitment (assetVersion : Z) (oc : OutputCommitment) : Prop :=
  if decide (assetVersion = 1) then wire_amount (oc_AssetAmount oc) ∧ oc_VMVersion oc = 1 else oc = no_commitment.

Lemma reads_back_oc v oc suffix : wire_commitment v oc →
  reads_back (oc_writeExtensibleString oc suffix v) (oc_readFrom v) (oc, suffix ++ suffix).
Proof.
  unfold wire_commitment, oc_writeExtensibleString, oc_writeContents, oc_readFrom. intros Hoc.
  apply doubled_suffix. destruct (Z.eqb_spec v 1) as [->|Hv].
  - rewrite decide_True in Hoc by done. destruct oc as [amount version program].
    cbn [oc_AssetAmount oc_VMVersion oc_ControlProgram] in *.
    destruct Hoc as [Ha ->]. do 2 wire_step. cbn [Z.eqb Pos.eqb negb]. by repeat wire_step.
  - rewrite decide_False in Hoc by done. subst. apply reads_back_give.
Qed.

Definition wire_spend (sc : SpendCommitment) : Prop :=
  hash_ok (sc_SourceID sc) ∧ wire_amount (sc_AssetAmount sc) ∧ 0 <= sc_SourcePosition sc ∧ sc_VMVersion sc = 1.

Lemma reads_back_sc sc suffix : wire_spend sc →
  reads_back (sc_writeExtensibleString sc suffix 1) sc_readFrom (sc, suffix ++ suffix).
Proof.
  unfold sc_writeExtensibleString, sc_writeContents, sc_readFrom. intros (Hs & Ha & Hp & Hv).
  apply doubled_suffix. destruct sc as [amount source position version program].
  cbn [sc_AssetAmount sc_SourceID sc_SourcePosition sc_VMVersion sc_ControlProgram Z.eqb Pos.eqb] in *. subst version.
  do 4 wire_step. cbn [Z.eqb Pos.eqb negb]. by repeat wire_step.
Qed.
#[export] Hint Resolve reads_back_oc reads_back_sc : wire.

(** ** Outputs and inputs *)

Definition wire_output (o : TxOutput) : Prop :=
  0 <= to_AssetVersion o ∧ wire_commitment (to_AssetVersion o) (to_OutputCommitment o).
Definition echo_output (o : TxOutput) : TxOutput :=
  mkTxOutput (to_AssetVersion o) (to_OutputCommitment o) (to_CommitmentSuffix o ++ to_CommitmentSuffix o).

Lemma reads_back_output o : wire_output o → reads_back (output_writeTo o) output_readFrom (echo_output o).
Proof. intros [Hv Hoc]. unfold output_writeTo, output_readFrom. by repeat wire_step. Qed.

Section spec.
Context (Sum256 : list Z → list Z).
Hypothesis Sum256_size : ∀ bs, length (Sum256 bs) = 32%nat ∧ Forall is_byte (Sum256 bs).

Definition wire_typed (i : TypedInput) : Prop :=
  match i with
  | IssuanceInput _ amount _ version _ args => 0 <= amount ∧ 0 <= version ∧ go_len args
  | SpendInput _ args sc => wire_spend sc ∧ go_len args
  | CoinbaseInput _ => True
  | CreationInput nonce _ version _ args => 0 <= nonce ∧ 0 <= version ∧ go_len args
  | CallInput nonce _ _ version _ args => 0 <= nonce ∧ 0 <= version ∧ go_len args
  | ContractInput nonce _ _ version _ args => 0 <= nonce ∧ 0 <= version ∧ go_len args
  | WithdrawalInput aa _ version _ args => wire_amount aa ∧ 0 <= version ∧ go_len args
  end.

(** Inputs of asset version 1 have a kind, others have none. *)
Definition wire_input (t : TxInput) : Prop :=
  0 <= ti_AssetVersion t ∧
  if decide (ti_AssetVersion t = 1) then set_and wire_typed (ti_TypedInput t) else ti_TypedInput t = None.

Definition echo_typed (i : TypedInput) : TypedInput :=
  match i with SpendInput suffix args sc => SpendInput (suffix ++ suffix) args sc | i => i end.
Definition echo_input (t : TxInput) : TxInput :=
  mkTxInput (ti_AssetVersion t) (echo_typed <$> ti_TypedInput t) (ti_CommitmentSuffix t) (ti_WitnessSuffix t).

(** What the commitment of an input says, and the asset identifier it names *)
Definition committed_input (i : TypedInput) : TypedInput * Hash :=
  match echo_typed i with
  | IssuanceInput nonce amount definition version program _ =>
      (IssuanceInput nonce amount [] 0 [] [], issuance_AssetID Sum256 definition version program)
  | SpendInput suffix _ sc => (SpendInput suffix [] sc, mkHash 0 0 0 0)
  | CoinbaseInput arbitrary => (CoinbaseInput arbitrary, mkHash 0 0 0 0)
  | CreationInput nonce data version program _ => (CreationInput nonce data version program [], mkHash 0 0 0 0)
  | CallInput nonce to data version program _ => (CallInput nonce to data version program [], mkHash 0 0 0 0)
  | ContractInput nonce to data version program _ => (ContractInput nonce to data version program [], mkHash 0 0 0 0)
  | WithdrawalInput aa withdraw version program _ => (WithdrawalInput aa withdraw version program [], mkHash 0 0 0 0)
  end.

Lemma reads_back_asset definition version program :
  reads_back (put_hash (issuance_AssetID Sum256 definition version program)) hash_ReadFrom
    (issuance_AssetID Sum256 definition version program).
Proof. apply reads_back_hash. destruct (Sum256_size (write_AssetDefinition (issuance_definition Sum256 definition version program)).2). by apply hash_ok_NewHash. Qed.
#[local] Hint Resolve reads_back_asset : wire.

Lemma reads_back_commitment i cs ws : wire_typed i →
  reads_back (writeInputCommitment Sum256 (mkTxInput 1 (Some i) cs ws)) read_commitment (committed_input i).
Proof.
  unfold writeInputCommitment, read_commitment, committed_input. cbn [ti_AssetVersion ti_TypedInput Z.eqb Pos.eqb negb].
  destruct i; cbn [wire_typed echo_typed]; intros Hi; destruct_and?; wire_step; cbn [hd Z.eqb Pos.eqb];
    by repeat wire_step.
Qed.

Lemma reads_back_witness i cs ws : wire_typed i →
  reads_back (writeInputWitness (mkTxInput 1 (Some i) cs ws))
    (read_witness Sum256 (committed_input i).1 (committed_input i).2) (echo_typed i).
Proof.
  unfold writeInputWitness. cbn [ti_AssetVersion ti_TypedInput Z.eqb Pos.eqb negb].
  destruct i; cbn [wire_typed echo_typed committed_input fst snd read_witness]; intros Hi; destruct_and?.
  - do 3 wire_step. rewrite bool_decide_true by done. by repeat wire_step.
  - by repeat wire_step.
  - by repeat wire_step.
  - by repeat wire_step.
  - by repeat wire_step.
  - by repeat wire_step.
  - by repeat wire_step.
Qed.

Lemma reads_back_input t : wire_input t → reads_back (input_writeTo Sum256 t) (input_readFrom Sum256) (echo_input t).
Proof.
  destruct t as [v i cs ws]. intros [Hv Hi]. cbn in Hv, Hi. unfold input_writeTo, input_readFrom, echo_input.
  cbn [ti_AssetVersion ti_CommitmentSuffix ti_WitnessSuffix ti_TypedInput]. wire_step.
  destruct (Z.eqb_spec v 1) as [->|Hne].
  - rewrite decide_True in Hi by done. destruct Hi as (i' & -> & Hi).
    eapply reads_back_seq; [by apply reads_back_contents, reads_back_commitment|]. cbv beta.
    pose proof (reads_back_witness i' cs ws Hi) as Hw. destruct (committed_input i') as [c id]. cbn [fst snd] in Hw.
    eapply reads_back_last; [by apply reads_back_contents|]. apply reads_back_give.
  - rewrite decide_False in Hi by done. subst i. unfold writeInputCommitment, writeInputWitness.
    cbn [ti_AssetVersion]. rewrite (proj2 (Z.eqb_neq _ _)) by done. cbn [negb].
    eapply reads_back_seq; [apply reads_back_contents, reads_back_give|]. cbv beta.
    eapply reads_back_last; [apply reads_back_contents, reads_back_give|]. apply reads_back_give.
Qed.

(** ** Transactions *)

Definition wire_tx (td : TxData) : Prop :=
  0 <= td_Version td ∧ 0 <= td_TimeRange td ∧ go_len (td_Inputs td) ∧ go_len (td_Outputs td)
  ∧ Forall wire_input (td_Inputs td) ∧ Forall wire_output (td_Outputs td).

(** What comes back of a transaction written as [size] bytes *)
Definition echo_tx (td : TxData) (size : Z) : TxData :=
  mkTxData (td_Version td) (uint64 size) (td_TimeRange td) (echo_input <$> td_Inputs td)
    (echo_output <$> td_Outputs td) (td_ReferenceData td).

Lemma reads_back_count {A B} (f : A → SWriter) (r : Reader B) (g : A → B) l w k (b : Z → TxData) : go_len l →
  Forall (λ a, reads_back (f a) r (g a)) l → reads_back w (k (g <$> l)) b →
  reads_back (put_varint31 (uint64 (len l)) @> put_all f l @> w)
    (bind_reader ReadVarint31 (λ n, bind_reader (read_all r (Z.to_nat n)) k)) b.
Proof.
  intros Hl Hf Hw. pose proof (len_nonneg l). unfold go_len in Hl. rewrite uint64_id by (ranges; lia).
  eapply reads_back_seq; [apply reads_back_varint31; lia|]. cbv beta.
  replace (Z.to_nat (len l)) with (length l) by (unfold len; lia).
  eapply reads_back_seq; [by apply reads_back_all|done].
Qed.

Lemma reads_back_fields td : wire_tx td →
  reads_back (writeTo Sum256 td) (read_fields Sum256)
    (λ size, mkTxData (td_Version td) size (td_TimeRange td) (echo_input <$> td_Inputs td)
               (echo_output <$> td_Outputs td) (td_ReferenceData td)).
Proof.
  intros (Hv & Ht & Hli & Hlo & Hi & Ho). unfold writeTo, read_fields. wire_step.
  cbn [hd Z.eqb Pos.eqb negb]. do 2 wire_step. eapply (reads_back_count _ _ echo_input); [done| |].
  { eapply Forall_impl; [exact Hi|]. apply reads_back_input. }
  eapply (reads_back_count _ _ echo_output); [done| |].
  { eapply Forall_impl; [exact Ho|]. apply reads_back_output. }
  by repeat wire_step.
Qed.

Lemma reads_back_tx td bs rest : wire_tx td → writeTo Sum256 td = Ok bs → go_len bs →
  readFrom Sum256 (bs ++ rest) = (Ok (echo_tx td (len bs)), rest).
Proof.
  intros Htd Hbs Hl. unfold readFrom. rewrite (reads_back_fields td Htd bs rest Hbs Hl).
  rewrite len_app. by replace (len bs + len rest - len rest) with (len bs) by lia.
Qed.

(** No suffix of a commitment of an output or of a spent output *)
Definition plain_input (t : TxInput) : Prop :=
  match ti_TypedInput t with Some (SpendInput suffix _ _) => suffix = [] | _ => True end.
Definition plain_tx (td : TxData) : Prop :=
  Forall plain_input (td_Inputs td) ∧ Forall (λ o, to_CommitmentSuffix o = []) (td_Outputs td).

Lemma echo_plain td size : plain_tx td → td_SerializedSize td = uint64 size → echo_tx td size = td.
Proof.
  intros [Hi Ho] Hs. unfold echo_tx. rewrite <- Hs. destruct td as [v sz tr ins outs ref]. cbn in *. f_equal.
  - induction Hi as [|[av [ty|] cs ws] ins Ht _ IH]; [done|..]; rewrite fmap_cons, IH; f_equal.
    unfold echo_input. cbn in *. by destruct ty; cbn in *; subst.
  - induction Ho as [|[av oc suf] outs Ht _ IH]; [done|]. rewrite fmap_cons, IH. cbn in Ht. by subst.
Qed.

(** C40: what the node writes of a transaction it reads back.  The bytes that
    [writeTo] produces are read as the same transaction, with nothing of what
    follows consumed, the size set to the number of bytes, and the suffixes of
    output and spend commitments doubled (the code writes them twice); without
    such suffixes the transaction is unchanged. *)
Theorem transaction_wire_roundtrip td bs rest : wire_tx td → writeTo Sum256 td = Ok bs → go_len bs →
  readFrom Sum256 (bs ++ rest) = (Ok (echo_tx td (len bs)), rest)
  ∧ (plain_tx td → td_SerializedSize td = uint64 (len bs) → echo_tx td (len bs) = td).
Proof. intros Htd Hbs Hl. split; [by apply reads_back_tx|apply echo_plain]. Qed.

(** ** Headers and blocks *)

Context `{R : GoRange}.

Definition wire_header (bh : BlockHeader) : Prop :=
  0 <= bh_Version bh ∧ 0 <= bh_Height bh ∧ hash_ok (bh_PreviousBlockHash bh) ∧ 0 <= bh_Timestamp bh
  ∧ 0 <= bh_Nonce bh ∧ 0 <= bh_Bits bh ∧ hash_ok (bc_TransactionsMerkleRoot (bh_BlockCommitment bh))
  ∧ hash_ok (bc_TransactionStatusHash (bh_BlockCommitment bh)) ∧ hash_ok (bc_StateRoot (bh_BlockCommitment bh)).

Lemma reads_back_serflag t : reads_back (put [t]) read_serflag t.
Proof. intros bs rest [= <-] _. done. Qed.

Lemma reads_back_roots c : hash_ok (bc_TransactionsMerkleRoot c) → hash_ok (bc_TransactionStatusHash c) →
  hash_ok (bc_StateRoot c) → reads_back (commitment_writeTo c) commitment_readFrom c.
Proof.
  intros H1 H2 H3. unfold commitment_writeTo, commitment_readFrom. do 3 wire_step.
  destruct c. apply reads_back_give.
Qed.

Lemma reads_back_header serflag bh : serflag = SerBlockHeader ∨ serflag = SerBlockFull → wire_header bh →
  reads_back (header_writeTo serflag bh) header_readFrom (serflag, bh).
Proof.
  intros Hs (? & ? & ? & ? & ? & ? & ? & ? & ?). unfold header_writeTo, header_readFrom.
  eapply reads_back_seq; [apply reads_back_serflag|]. cbv beta.
  replace (negb _) with false by (by destruct Hs as [-> | ->]). do 4 wire_step.
  eapply reads_back_seq; [by apply reads_back_contents, reads_back_roots|]. cbv beta.
  do 2 wire_step. destruct bh. apply reads_back_give.
Qed.

(** A transaction of a block: mapped from its data, without doubled suffixes,
    and with its size *)
Definition wire_block_tx (t : TypesTx) : Prop :=
  wire_tx (tt_TxData t) ∧ plain_tx (tt_TxData t) ∧ MapTx Sum256 (tt_TxData t) = Ok (tt_Tx t)
  ∧ ∀ bs, writeTo Sum256 (tt_TxData t) = Ok bs → td_SerializedSize (tt_TxData t) = uint64 (len bs).
Definition wire_block (b : TypesBlock) : Prop :=
  wire_header (tb_BlockHeader b) ∧ go_len (tb_Transactions b) ∧ Forall wire_block_tx (tb_Transactions b).

Lemma reads_back_block_tx t : wire_block_tx t →
  reads_back (writeTo Sum256 (tt_TxData t)) (read_tx Sum256) t.
Proof.
  intros (Htd & Hp & Hm & Hsize) bs rest Hbs Hl. unfold read_tx, bind_reader.
  rewrite (reads_back_tx _ bs rest Htd Hbs Hl), echo_plain by eauto. unfold NewTx. rewrite Hm. by destruct t.
Qed.

Lemma reads_back_block b : wire_block b →
  reads_back (block_writeTo Sum256 SerBlockFull b) (block_readFrom Sum256) b.
Proof.
  destruct b as [bh txs]. intros (Hh & Hl & Htx). unfold block_writeTo, block_readFrom. cbn [tb_BlockHeader tb_Transactions] in *.
  eapply reads_back_seq; [apply reads_back_header; auto|]. cbn [fst snd Z.eqb Pos.eqb].
  pose proof (len_nonneg txs). unfold go_len in Hl. rewrite uint64_id by (ranges; lia).
  eapply reads_back_seq; [apply reads_back_varint31; lia|]. cbv beta.
  replace (Z.to_nat (len txs)) with (length txs) by (unfold len; lia).
  eapply reads_back_last; [eapply (reads_back_all _ _ id)|].
  - eapply Forall_impl; [exact Htx|]. intros t Ht. by apply reads_back_block_tx.
  - rewrite list_fmap_id. apply reads_back_give.
Qed.

(** *** Hexadecimal *)

Lemma hex_Decode_Encode bs : Forall is_byte bs → hex_Decode (hex_Encode bs) = Some bs.
Proof.
  induction 1 as [|b bs Hb _ IH]; [done|]. unfold hex_Encode in *. rewrite fmap_cons. cbn [concat app hex_Decode].
  assert (∀ n, 0 <= n < 16 → from_hex (hex_digit n) = Some n) as Hd.
  { intros n Hn. unfold hex_digit, from_hex. zcases; cbn [andb]; f_equal; lia. }
  unfold is_byte in Hb. pose proof (Z.div_mod b 16 ltac:(lia)). pose proof (Z.mod_pos_bound b 16 ltac:(lia)).
  assert (0 <= b / 16 < 16) by (split; [apply Z.div_pos; lia|apply Z.div_lt_upper_bound; lia]).
  rewrite !Hd by lia. cbn [mbind option_bind]. rewrite IH. cbn. do 2 f_equal. lia.
Qed.

(** The text of a block, as it is stored and sent, is read back as the block. *)
Lemma block_text_roundtrip b bs : wire_block b → block_writeTo Sum256 SerBlockFull b = Ok bs → go_len bs →
  Forall is_byte bs → MarshalText Sum256 b = Ok (hex_Encode bs) ∧ UnmarshalText Sum256 (hex_Encode bs) = Ok b.
Proof.
  intros Hb Hbs Hl Hbytes. unfold MarshalText, UnmarshalText. rewrite Hbs. split; [done|].
  rewrite hex_Decode_Encode by done. pose proof (reads_back_block b Hb bs [] Hbs Hl) as Hr.
  rewrite app_nil_r in Hr. by rewrite Hr.
Qed.
End spec.

(** ** A witness *)

(** A spend with a suffix in its commitment, a withdrawal, an input of an
    unknown version; two outputs, one with a suffix *)
Definition wire_example : TxData :=
  mkTxData 1 0 9
    [mkTxInput 1 (Some (SpendInput [5] [[1; 2]; []]
       (mkSpendCommitment (mkAssetAmount (Some NativeAsset) 300) (mkHash 1 2 3 4) 7 1 [0x51]))) [] [6];
     mkTxInput 1 (Some (WithdrawalInput (mkAssetAmount (Some NativeAsset) 1) [1] 1 [0x51] [])) [] [];
     mkTxInput 2 None [8; 8] []]
    [mkTxOutput 1 (mkOutputCommitment (mkAssetAmount (Some NativeAsset) 200) 1 [0x51]) [];
     mkTxOutput 1 (mkOutputCommitment (mkAssetAmount (Some NativeAsset) 100) 1 [0x51]) [4]] [3; 3].
Definition wire_example_bytes : list Z := match writeTo toy_sum wire_example with Ok bs => bs | _ => [] end.

Lemma wire_example_ok : wire_tx wire_example.
Proof.
  assert (hash_ok NativeAsset) by (split; ranges; cbn; lia).
  assert (hash_ok (mkHash 1 2 3 4)) by (split; ranges; cbn; lia).
  assert (∀ n, 0 <= n → wire_amount (mkAssetAmount (Some NativeAsset) n)) as Ha by (intros n Hn; split; [by eexists|done]).
  split_and!; [done..| |].
  - repeat (apply Forall_cons; split); [..|apply Forall_nil_2]; (split; [done|]).
    + eexists. split; [done|]. split; [|done]. split_and!; [done|by apply Ha|done|done].
    + eexists. split; [done|]. split_and!; [by apply Ha|done|done].
    + done.
  - repeat (apply Forall_cons; split); [..|apply Forall_nil_2]; (split; [done|]); (split; [by apply Ha|done]).
Qed.

Lemma transaction_wire_roundtrip_witness :
  readFrom toy_sum (wire_example_bytes ++ [1; 2; 3]) = (Ok (echo_tx wire_example (len wire_example_bytes)), [1; 2; 3])
  ∧ (plain_tx wire_example → td_SerializedSize wire_example = uint64 (len wire_example_bytes) →
     echo_tx wire_example (len wire_example_bytes) = wire_example).
Proof.
  apply (transaction_wire_roundtrip toy_sum toy_sum_size wire_example wire_example_bytes [1; 2; 3]).
  - exact wire_example_ok.
  - vm_compute. reflexivity.
  - vm_compute. congruence.
Defined.
