(* ===== verification/TxMapSpec.v ===== *)
(** * The graph that [MapTx] makes

    The shape of the entries of a mapped transaction: every entry is bound to
    its identifier, there is one mux, its sources carry the values of the
    inputs and its destinations those of the outputs, and every result takes
    its value from the mux.  Two entries of different kinds can only get the
    same identifier by a collision among the strings that are hashed for the
    transaction. *)

From S2P Require Import Prelude VmProgram VmMachine VmEvmOps Encoding Bc EntryHash StdPrograms TxMap.

#[local] Set Warnings "-clear-no-such-hyp".

(** The value an input brings in *)
Definition input_value (Sum256 : list Z → list Z) (td : TxData) (inp : TxInput) : option AssetAmount :=
  match ti_TypedInput inp with
  | Some (IssuanceInput _ amount def vmVersion prog _) =>
      Some (mkAssetAmount (Some (issuance_AssetID Sum256 def vmVersion prog)) amount)
  | Some (SpendInput _ _ sc) => Some (sc_AssetAmount sc)
  | Some (CoinbaseInput _) => (λ o, oc_AssetAmount (to_OutputCommitment o)) <$> head (td_Outputs td)
  | Some (CreationInput _ _ _ _ _) | Some (CallInput _ _ _ _ _ _) | Some (ContractInput _ _ _ _ _ _) =>
      Some no_value
  | Some (WithdrawalInput v _ _ _ _) => Some v
  | None => None
  end.
Definition input_values (Sum256 : list Z → list Z) (td : TxData) : list AssetAmount :=
  omap (input_value Sum256 td) (td_Inputs td).
Definition output_values (td : TxData) : list AssetAmount :=
  (λ o, oc_AssetAmount (to_OutputCommitment o)) <$> td_Outputs td.

(** The source of a result *)
Definition flow_source (e : Entry) : option ValueSource :=
  match e with
  | EOutput o => out_Source o
  | ERetirement r => ret_Source r
  | EDeposit d => dp_Source d
  | _ => None
  end.
Definition flows_from (muxID : Hash) (e : Entry) : Prop :=
  ∃ src, flow_source e = Some src ∧ vs_Ref src = Some muxID.

Section map_spec.
Context (Sum256 : list Z → list Z) `{R : GoRange} {ROk : GoRangeOk}.
Hypothesis Sum256_size : ∀ bs, length (Sum256 bs) = 32%nat ∧ Forall is_byte (Sum256 bs).
Local Abbreviation id_of := (EntryID (X:=unit) Sum256).
Local Abbreviation collision := (collision Sum256).

Lemma EntryID_any {X Y} e id : EntryID (X:=X) Sum256 e = Ok id → EntryID (X:=Y) Sum256 e = Ok id.
Proof.
  destruct e as [e|]; simpl; [|by intros [= <-]].
  destruct (writeForHash e) as [[|] b]; [done|]. by intros [= <-].
Qed.

Lemma EntryID_typ e1 e2 id : id_of (Some e1) = Ok id → id_of (Some e2) = Ok id →
  typ e1 = typ e2 ∨ collision (entry_inputs Sum256 e1 ++ entry_inputs Sum256 e2).
Proof.
  intros (b1 & Hb1 & ->)%EntryID_body (b2 & Hb2 & Hid)%EntryID_body.
  apply (NewHash_Sum256_inj Sum256 Sum256_size) in Hid.
  assert (∀ e b, writeForHash e = (None, b) → entry_preimage Sum256 e b ∈ entry_inputs Sum256 e) as Hin.
  { intros e b Hb. unfold entry_inputs. rewrite Hb. apply list_elem_of_further, list_elem_of_here. }
  destruct (equal_or_collision Sum256 (entry_inputs Sum256 e1 ++ entry_inputs Sum256 e2) _ _ Hid) as [Hp|];
    [apply elem_of_app; left; by apply Hin|apply elem_of_app; right; by apply Hin| |by right].
  left. by apply (preimage_inj Sum256 Sum256_size) in Hp as [].
Qed.

(** What is hashed for the entries of a store *)
Definition store_inputs (st : list Entry) : list (list Z) := st ≫= entry_inputs Sum256.

(** What is hashed for the entries of a transaction *)
Definition tx_inputs (td : TxData) : list (list Z) :=
  match mapTx Sum256 td empty_map_state with
  | Ok (_, s) => store_inputs (ms_store s)
  | _ => []
  end.

Lemma store_inputs_elem e st : e ∈ st → entry_inputs Sum256 e ⊆ store_inputs st.
Proof. intros He x Hx. apply list_elem_of_bind. by exists e. Qed.

Lemma store_inputs_app st e : store_inputs st ⊆ store_inputs (st ++ [e]).
Proof. unfold store_inputs. rewrite bind_app. set_solver. Qed.

Lemma store_inputs_update st q e e' : st !! q = Some e → entry_inputs Sum256 e' = entry_inputs Sum256 e →
  store_inputs (<[q := e']> st) = store_inputs st.
Proof.
  intros Hq He. unfold store_inputs. rewrite <- (take_drop_middle _ _ _ Hq) at 2.
  rewrite insert_take_drop by (by eapply lookup_lt_Some). rewrite !bind_app, !bind_cons, He. done.
Qed.

Lemma entry_inputs_body_eq e e' : writeForHash e' = writeForHash e → typ e' = typ e →
  entry_inputs Sum256 e' = entry_inputs Sum256 e.
Proof. intros Hw Ht. unfold entry_inputs, entry_preimage. by rewrite Hw, Ht. Qed.

(** ** Partial correctness of the mapping's steps *)

Definition gives {A} (P : MapState → Prop) (m : MM A) (Q : A → MapState → Prop) : Prop :=
  ∀ s a s', P s → m s = Ok (a, s') → Q a s'.

Lemma gives_bind {A B} P (m : MM A) (k : A → MM B) Q S :
  gives P m Q → (∀ a, gives (Q a) (k a) S) → gives P (map_bind m k) S.
Proof.
  intros Hm Hk s b s' Hs. unfold map_bind. destruct (m s) as [[a s1]| | |] eqn:H1; try done.
  intros H2. by eapply Hk; [eapply Hm|].
Qed.

Lemma gives_ret {A} (P : MapState → Prop) (a : A) (Q : A → MapState → Prop) :
  (∀ s, P s → Q a s) → gives P (map_ret a) Q.
Proof. intros H s b s' Hs [= <- <-]. by apply H. Qed.

Lemma gives_weaken {A} (P P' : MapState → Prop) (m : MM A) Q Q' :
  gives P m Q → (∀ s, P' s → P s) → (∀ a s, Q a s → Q' a s) → gives P' m Q'.
Proof. intros Hm HP HQ s a s' Hs H. eapply HQ, Hm; [by apply HP|done]. Qed.

(** Every binding of the map is an object with that identifier. *)
Definition keyed (s : MapState) : Prop :=
  ∀ id p, ms_entryMap s !! id = Some p → ∃ e, ms_store s !! p = Some e ∧ id_of (Some e) = Ok id.

Definition is_mux (e : Entry) : bool := match e with EMux _ => true | _ => false end.
Definition no_mux (s : MapState) : Prop := Forall (λ e, is_mux e = false) (ms_store s).

(** What adding an entry does *)
Lemma gives_addEntry (P : MapState → Prop) e (Q : Hash * nat → MapState → Prop) :
  (∀ s id, P s → id_of (Some e) = Ok id →
     Q (id, length (ms_store s))
       (mkMapState (ms_store s ++ [e]) (<[id := length (ms_store s)]> (ms_entryMap s)) (ms_spends s)
          (ms_issuances s) (ms_coinbase s) (ms_creations s) (ms_calls s) (ms_contracts s) (ms_withdrawals s))) →
  gives P (addEntry Sum256 e) Q.
Proof.
  intros H s a s' Hs. unfold addEntry. destruct (id_of (Some e)) as [id| | |] eqn:Hid; try done.
  intros [= <- <-]. by apply H.
Qed.

Lemma keyed_add (st : list Entry) (mp : gmap Hash nat) e id p : p = length st → id_of (Some e) = Ok id →
  (∀ i q, mp !! i = Some q → ∃ x, st !! q = Some x ∧ id_of (Some x) = Ok i) →
  ∀ i q, <[id := p]> mp !! i = Some q → ∃ x, (st ++ [e]) !! q = Some x ∧ id_of (Some x) = Ok i.
Proof.
  intros -> Hid Hk i q. destruct (decide (i = id)) as [->|Hne].
  - rewrite lookup_insert_eq. intros [= <-]. exists e. split; [|done]. by apply list_lookup_middle.
  - rewrite lookup_insert_ne by done. intros Hq. destruct (Hk i q Hq) as (x & Hx & Hi). exists x.
    split; [|done]. by apply lookup_app_l_Some.
Qed.

(** ** Inputs *)

Definition Inputs (s : MapState) : Prop := keyed s ∧ no_mux s.

Lemma add_input e : is_mux e = false → gives Inputs (addEntry Sum256 e) (λ _, Inputs).
Proof.
  intros He. apply gives_addEntry. intros s id [Hk Hn] Hid. split.
  - unfold keyed. cbn [ms_store ms_entryMap]. by apply keyed_add.
  - unfold no_mux. cbn [ms_store]. apply Forall_app. split; [done|]. by constructor.
Qed.

Lemma gives_remember k p P : (∀ s s', P s → ms_store s' = ms_store s → ms_entryMap s' = ms_entryMap s → P s') →
  gives P (remember k p) (λ _, P).
Proof. intros HP s a s' Hs [= _ <-]. by eapply HP. Qed.

Lemma Inputs_ext s s' : Inputs s → ms_store s' = ms_store s → ms_entryMap s' = ms_entryMap s → Inputs s'.
Proof. intros [Hk Hn] Hs Hm. unfold Inputs, keyed, no_mux. by rewrite Hs, Hm. Qed.

Lemma map_input_gives td i inp :
  gives Inputs (map_input Sum256 td i inp)
    (λ src s, Inputs s ∧ (s ← src; vs_Value s) = input_value Sum256 td inp).
Proof.
  unfold map_input, input_value. destruct (ti_TypedInput inp) as [[]|]; [..|by apply gives_ret].
  2: { eapply gives_bind; [by apply add_input|]. intros prevout.
       eapply gives_bind; [by apply add_input|]. intros r.
       eapply gives_bind; [apply gives_remember, Inputs_ext|]. intros ?. by apply gives_ret. }
  2: { eapply gives_bind; [by apply add_input|]. intros r.
       eapply gives_bind; [apply gives_remember, Inputs_ext|]. intros ?.
       destruct (head (td_Outputs td)) as [o|]; cbn [map_deref]; [|by intros ? ? ?].
       intros s b s' Hs [= <- <-]. by split. }
  all: eapply gives_bind; [by apply add_input|]; intros r;
       eapply gives_bind; [apply gives_remember, Inputs_ext|]; intros ?; by apply gives_ret.
Qed.

Lemma map_inputs_gives td inputs : ∀ i,
  gives Inputs (map_inputs Sum256 td i inputs)
    (λ srcs s, Inputs s ∧ omap (λ s, s ← s; vs_Value s) srcs = omap (input_value Sum256 td) inputs).
Proof.
  induction inputs as [|inp inputs IH]; intros i; cbn [map_inputs]; [by apply gives_ret|].
  intros s b s' Hs. unfold map_bind, map_ret. destruct (map_input Sum256 td i inp s) as [[src s1]| | |] eqn:H1; try done.
  destruct (map_input_gives td i inp s src s1 Hs H1) as [Hs1 Hv].
  destruct (map_inputs _ _ _ _ s1) as [[srcs s2]| | |] eqn:H2; try done.
  destruct (IH _ s1 srcs s2 Hs1 H2) as [Hs2 Hvs]. intros [= <- <-]. split; [done|].
  cbn [omap list_omap]. rewrite Hv. destruct (input_value _ _ _); by rewrite Hvs.
Qed.

(** ** The mux and the links to it *)

(** The mux is an object of the store, and the only one. *)
Record WithMux (muxID : Hash) (p : nat) (m : Mux) (s : MapState) : Prop := {
  wm_keyed : keyed s;
  wm_at : ms_store s !! p = Some (EMux m);
  wm_only : ∀ q m', ms_store s !! q = Some (EMux m') → q = p;
  wm_id : id_of (Some (EMux m)) = Ok muxID;
  wm_bound : ms_entryMap s !! muxID = Some p ∨ collision (store_inputs (ms_store s));
}.

Lemma add_mux m : gives Inputs (addEntry Sum256 (EMux m)) (λ r, WithMux (fst r) (snd r) m).
Proof.
  apply gives_addEntry. intros s id [Hk Hn] Hid. split; cbn [fst snd ms_store ms_entryMap].
  - unfold keyed. cbn [ms_store ms_entryMap]. by apply keyed_add.
  - by apply list_lookup_middle.
  - intros q m' [Hq|[Hq1 Hq2]]%lookup_app_Some.
    + unfold no_mux in Hn. rewrite Forall_lookup in Hn. by apply Hn in Hq.
    + apply list_lookup_singleton_Some in Hq2 as [? _]. lia.
  - done.
  - left. by rewrite lookup_insert_eq.
Qed.

(** Setting a destination changes neither the kind nor the identifier. *)
Lemma set_destination_id e d : writeForHash (set_destination e d) = writeForHash e
  ∧ typ (set_destination e d) = typ e ∧ is_mux (set_destination e d) = is_mux e.
Proof. by destruct e. Qed.

Lemma EntryID_body_eq e e' : writeForHash e' = writeForHash e → typ e' = typ e →
  id_of (Some e') = id_of (Some e).
Proof. intros Hw Ht. unfold EntryID, entry_preimage. by rewrite Hw, Ht. Qed.

(** Replacing an object by one with the same identifier *)
Lemma WithMux_update muxID p m s q e e' : WithMux muxID p m s → ms_store s !! q = Some e →
  is_mux e = false → is_mux e' = false → writeForHash e' = writeForHash e → typ e' = typ e →
  WithMux muxID p m (set_store (insert q e') s).
Proof.
  intros [Hk Ha Ho Hi Hb] Hq He He' Hw Ht. pose proof (EntryID_body_eq _ _ Hw Ht) as Hid. assert (q ≠ p) by (intros ->; congruence || (rewrite Ha in Hq; by simplify_eq)).
  split; cbn [set_store ms_store ms_entryMap]; [| | |done|].
  4: { by rewrite (store_inputs_update _ _ _ _ Hq (entry_inputs_body_eq _ _ Hw Ht)). }
  - unfold keyed. cbn [set_store ms_store ms_entryMap]. intros i r Hr. destruct (Hk i r Hr) as (x & Hx & Hxi). destruct (decide (r = q)) as [->|Hne].
    + exists e'. rewrite list_lookup_insert_eq by (by eapply lookup_lt_Some). split; [done|]. congruence.
    + exists x. by rewrite list_lookup_insert_ne.
  - by rewrite list_lookup_insert_ne.
  - intros r m' Hr. destruct (decide (r = q)) as [->|Hne].
    + rewrite list_lookup_insert_eq in Hr by (by eapply lookup_lt_Some). by simplify_eq.
    + rewrite list_lookup_insert_ne in Hr by done. by eapply Ho.
Qed.

Lemma link_gives muxID p m srcs q : gives (WithMux muxID p m) (link muxID srcs q) (λ _, WithMux muxID p m).
Proof.
  intros s a s' Hs. unfold link. destruct (ms_store s !! q) as [e|] eqn:Hq; [|done].
  destruct (link_value srcs s e) as [[v pos]|] eqn:Hl; [|done]. intros [= _ <-].
  set (d := mkValueDestination (Some muxID) v pos). destruct (set_destination_id e d) as (Hw & Ht & Hm).
  assert (is_mux e = false) as He by (by destruct e).
  eapply WithMux_update; [done|done|done|by rewrite Hm|done|done].
Qed.

Lemma link_all_gives muxID p m srcs qs :
  gives (WithMux muxID p m) (link_all muxID srcs qs) (λ _, WithMux muxID p m).
Proof.
  induction qs as [|q qs IH]; cbn [link_all]; [by apply gives_ret|].
  eapply gives_bind; [apply link_gives|]. intros ?. apply IH.
Qed.

(** ** Results *)

Record Results (muxID : Hash) (p : nat) (m : Mux) (ids : list Hash) (s : MapState) : Prop := {
  rs_mux : WithMux muxID p m s;
  rs_ids : ∀ id, id ∈ ids →
    ∃ q e, ms_entryMap s !! id = Some q ∧ ms_store s !! q = Some e ∧ flows_from muxID e;
}.

(** Adding an entry that is no mux *)
Lemma WithMux_add muxID p m s e id st mp : WithMux muxID p m s → is_mux e = false → id_of (Some e) = Ok id →
  st = ms_store s ++ [e] → mp = <[id := length (ms_store s)]> (ms_entryMap s) →
  ∀ s', ms_store s' = st → ms_entryMap s' = mp → WithMux muxID p m s'.
Proof.
  intros [Hk Ha Ho Hi Hb] He Hid -> -> s' Hst Hmp. split; unfold keyed; rewrite ?Hst, ?Hmp.
  - by apply keyed_add.
  - by apply lookup_app_l_Some.
  - intros q m' [Hq|[Hq1 Hq2]]%lookup_app_Some; [by eapply Ho|].
    apply list_lookup_singleton_Some in Hq2 as [_ ->]. done.
  - done.
  - destruct (decide (id = muxID)) as [->|Hne].
    + right. destruct (EntryID_typ _ _ _ Hid Hi) as [Ht|Hc]; [by destruct e|]. eapply collision_mono, Hc.
      apply list_subseteq_app_iff_l. split; apply store_inputs_elem; [set_solver|].
      apply elem_of_app. left. by eapply list_elem_of_lookup_2.
    + rewrite lookup_insert_ne by done. destruct Hb as [Hb|Hb]; [by left|right].
      eapply collision_mono, Hb. apply store_inputs_app.
Qed.

Lemma map_output_gives muxID p m ids i out :
  gives (Results muxID p m ids) (map_output Sum256 muxID i out)
    (λ r s, Results muxID p m (fst r :: ids) s ∧
            vd_Value (snd r) = Some (oc_AssetAmount (to_OutputCommitment out))).
Proof.
  unfold map_output. cbv zeta.
  match goal with |- context [addEntry Sum256 ?x] => set (e := x) end.
  assert (is_mux e = false ∧ flows_from muxID e) as [He Hf].
  { unfold e, flows_from. by repeat case_match; split; try done; eexists. }
  clearbody e. eapply gives_bind; [|intros r; by apply gives_ret; intros s Hs; split; [exact Hs|]].
  apply gives_addEntry. intros s id [Hm Hids] Hid. cbn [fst]. split.
  - by eapply (WithMux_add muxID p m s e id).
  - cbn [ms_store ms_entryMap]. intros j [->|Hj]%elem_of_cons.
    + exists (length (ms_store s)), e. rewrite lookup_insert_eq. split_and!; [done| |done].
      by apply list_lookup_middle.
    + destruct (decide (j = id)) as [->|Hne].
      * exists (length (ms_store s)), e. rewrite lookup_insert_eq. split_and!; [done| |done].
        by apply list_lookup_middle.
      * destruct (Hids j Hj) as (q & x & Hq & Hx & Hfx). exists q, x. rewrite lookup_insert_ne by done.
        split_and!; [done| |done]. by apply lookup_app_l_Some.
Qed.

Lemma map_outputs_gives muxID p m outs : ∀ i ids,
  gives (Results muxID p m ids) (map_outputs Sum256 muxID i outs)
    (λ rs s, Results muxID p m (ids ++ (fst <$> rs)) s ∧
             omap vd_Value (snd <$> rs) = (λ o, oc_AssetAmount (to_OutputCommitment o)) <$> outs).
Proof.
  induction outs as [|out outs IH]; intros i ids; cbn [map_outputs].
  { apply gives_ret. intros s Hs. cbn. by rewrite app_nil_r. }
  intros s b s' Hs. unfold map_bind, map_ret.
  destruct (map_output Sum256 muxID i out s) as [[r s1]| | |] eqn:H1; try done.
  destruct (map_output_gives muxID p m ids i out s r s1 Hs H1) as [Hs1 Hv].
  destruct (map_outputs _ _ _ _ s1) as [[rs s2]| | |] eqn:H2; try done.
  destruct (IH _ _ s1 rs s2 Hs1 H2) as [[Hm Hids] Hvs]. intros [= <- <-]. split.
  - split; [done|]. intros id Hid. apply Hids. cbn [fmap list_fmap] in Hid. set_solver.
  - cbn [fmap list_fmap omap list_omap]. rewrite Hv. f_equal. exact Hvs.
Qed.

Lemma set_mux_gives muxID p m ids ds :
  gives (Results muxID p m ids) (set_mux_destinations p ds)
    (λ _, Results muxID p (mkMux (mux_Sources m) (mux_Program m)
                             (mux_WitnessDestinations m ++ (Some <$> ds))) ids).
Proof.
  intros s a s' [[Hk Ha Ho Hi Hb] Hids]. unfold set_mux_destinations. rewrite Ha. intros [= _ <-].
  set (m' := mkMux _ _ _). assert (id_of (Some (EMux m')) = id_of (Some (EMux m))) as Hid by done.
  assert (p < length (ms_store s))%nat as Hp by (by eapply lookup_lt_Some).
  split; [split|]; unfold keyed; cbn [set_store ms_store ms_entryMap].
  - intros i q Hq. destruct (Hk i q Hq) as (x & Hx & Hxi). destruct (decide (q = p)) as [->|Hne].
    + exists (EMux m'). rewrite list_lookup_insert_eq by done. split; [done|]. rewrite Hid. congruence.
    + exists x. by rewrite list_lookup_insert_ne.
  - by rewrite list_lookup_insert_eq.
  - intros q m'' Hq. destruct (decide (q = p)) as [->|Hne]; [done|].
    rewrite list_lookup_insert_ne in Hq by done. by eapply Ho.
  - by rewrite Hid.
  - by rewrite (store_inputs_update _ _ _ _ Ha (entry_inputs_body_eq (EMux m) (EMux m') eq_refl eq_refl)).
  - intros id Hid'. destruct (Hids id Hid') as (q & x & Hq & Hx & Hf). exists q, x.
    split_and!; [done| |done]. rewrite list_lookup_insert_ne; [done|].
    intros <-. rewrite Ha in Hx. injection Hx as <-. by destruct Hf as (? & ? & ?).
Qed.

(** ** The whole transaction *)

(** [inputs] is what was hashed. *)
Record Mapped (inputs : list (list Z)) (td : TxData) (tx : Tx) (m : Mux) : Prop := {
  mp_keyed : ∀ id e, Entries tx !! id = Some e → id_of (Some e) = Ok id;
  mp_header : Entries tx !! tx_ID tx = Some (ETxHeader (tx_Header tx));
  mp_version : h_Version (tx_Header tx) = td_Version td;
  mp_only : ∀ id m', Entries tx !! id = Some (EMux m') → m' = m;
  mp_mux : Entries tx !! h_MuxId (tx_Header tx) = Some (EMux m) ∨ collision inputs;
  mp_results : (∀ id, id ∈ ResultIds tx →
     ∃ e, Entries tx !! id = Some e ∧ flows_from (h_MuxId (tx_Header tx)) e) ∨ collision inputs;
  mp_sources : omap (λ s, s ← s; vs_Value s) (mux_Sources m) = input_values Sum256 td;
  mp_dests : omap (λ d, d ← d; vd_Value d) (mux_WitnessDestinations m) = output_values td;
}.

Lemma add_header muxID p m ids h id s : Results muxID p m ids s → id_of (Some (ETxHeader h)) = Ok id →
  ∀ s', ms_store s' = ms_store s ++ [ETxHeader h] →
  ms_entryMap s' = <[id := length (ms_store s)]> (ms_entryMap s) →
  WithMux muxID p m s' ∧ (Results muxID p m ids s' ∨ collision (store_inputs (ms_store s'))).
Proof.
  intros [Hm Hids] Hid s' Hst Hmp. 
  assert (WithMux muxID p m s') as Hm'
    by exact (WithMux_add muxID p m s (ETxHeader h) id _ _ Hm eq_refl Hid eq_refl eq_refl s' Hst Hmp).
  split; [done|]. destruct (decide (id ∈ ids)) as [Hin|Hout].
  - right. destruct (Hids id Hin) as (q & e & Hq & He & Hf). destruct Hm as [Hk _ _ _ _].
    destruct (Hk id q Hq) as (e' & He' & Hide). rewrite He in He'. injection He' as <-.
    destruct (EntryID_typ _ _ _ Hid Hide) as [Ht|Hc]; [destruct Hf as (? & ? & ?); by destruct e|].
    eapply collision_mono, Hc. rewrite Hst. apply list_subseteq_app_iff_l.
    split; apply store_inputs_elem; [set_solver|]. apply elem_of_app. left. by eapply list_elem_of_lookup_2.
  - left. split; [done|]. intros j Hj. destruct (Hids j Hj) as (q & e & Hq & He & Hf). exists q, e.
    rewrite Hst, Hmp. rewrite lookup_insert_ne by (by intros ->). split_and!; [done| |done].
    by apply lookup_app_l_Some.
Qed.

Lemma mapTx_gives td :
  gives (λ s, s = empty_map_state) (mapTx Sum256 td)
    (λ r s, ∃ m, Mapped (store_inputs (ms_store s)) td (mkTx (snd r) (fst r) (omap (λ p, ms_store s !! p) (ms_entryMap s)) [] [] []) m).
Proof.
  unfold mapTx.
  eapply gives_bind.
  { eapply gives_weaken; [apply (map_inputs_gives td (td_Inputs td) 0)| |intros a s H; exact H].
    intros s ->. split; [intros i q Hq; cbn [empty_map_state ms_entryMap] in Hq; by rewrite lookup_empty in Hq|constructor]. }
  intros sources s1 r s' [HI Hsrc].
  unfold map_bind at 1. destruct (addEntry _ _ s1) as [[[muxID p] s2]| | |] eqn:H2; try done.
  set (m0 := mkMux sources (mkProgram 1 [OP_TRUE]) []) in *.
  pose proof (add_mux m0 _ _ _ HI H2) as Hm. cbn [fst snd] in *.
  unfold map_bind at 1. unfold map_bind at 1. destruct (link_all _ _ _ s2) as [[[] s3]| | |] eqn:H3; try done.
  apply (link_all_gives muxID p m0 _ _ _ _ _ Hm) in H3.
  unfold map_bind at 1. destruct (map_outputs _ _ _ _ s3) as [[rs s4]| | |] eqn:H4; try done.
  assert (Results muxID p m0 [] s3) as Hr3 by (split; [done|set_solver]).
  destruct (map_outputs_gives muxID p m0 _ _ _ _ _ _ Hr3 H4) as [Hr4 Hout]. cbn [app] in Hr4.
  unfold map_bind at 1. destruct (set_mux_destinations p _ s4) as [[[] s5]| | |] eqn:H5; try done.
  apply (set_mux_gives muxID p m0 _ _ _ _ _ Hr4) in H5. cbn [app mux_WitnessDestinations m0] in H5.
  set (h := mkTxHeader _ _ _ _ _ _). unfold map_bind, addEntry.
  destruct (id_of (Some (ETxHeader h))) as [id| | |] eqn:Hid; try done. unfold map_ret. intros [= <- <-].
  set (m := mkMux (mux_Sources m0) (mux_Program m0) (Some <$> (snd <$> rs))) in *.
  match goal with |- context [ms_store ?x] => set (s6 := x) end.
  destruct (add_header muxID p m _ h id s5 H5 Hid s6 eq_refl eq_refl) as [[Hk Ha Ho Hi Hb] Hr].
  assert (∀ i e, omap (λ p, ms_store s6 !! p) (ms_entryMap s6) !! i = Some e ↔
    ∃ q, ms_entryMap s6 !! i = Some q ∧ ms_store s6 !! q = Some e) as Hl.
  { intros i e. rewrite lookup_omap. destruct (ms_entryMap s6 !! i) as [q|]; simpl; naive_solver. }
  exists m. cbn [fst snd]. split; cbn [Entries tx_ID tx_Header h_Version h_MuxId h].
  - intros i e (q & Hq & He)%Hl. destruct (Hk i q Hq) as (x & Hx & Hxi). congruence.
  - apply Hl. exists (length (ms_store s5)). unfold s6. cbn [ms_entryMap ms_store].
    rewrite lookup_insert_eq. split; [done|]. by apply list_lookup_middle.
  - done.
  - intros i m' (q & Hq & He)%Hl. pose proof (Ho q m' He) as ->. congruence.
  - destruct Hb as [Hb|]; [|by right]. left. apply Hl. by exists p.
  - destruct Hr as [[_ Hids]|]; [|by right]. left. unfold ResultIds. cbn [tx_Header h_ResultIds h].
    intros i Hi'. destruct (Hids i Hi') as (q & e & Hq & He & Hf). exists e. split; [|done]. apply Hl. by exists q.
  - exact Hsrc.
  - unfold output_values. rewrite <- Hout. cbn [mux_WitnessDestinations m].
    clear. induction rs as [|r rs IH]; [done|]. cbn. by rewrite IH.
Qed.

Lemma MapTx_mapped td tx : MapTx Sum256 td = Ok tx → ∃ m, Mapped (tx_inputs td) td tx m.
Proof.
  unfold MapTx, tx_inputs. destruct (mapTx _ _ _) as [[[id hdr] s]| | |] eqn:Hm; try done.
  apply (mapTx_gives td) in Hm as [m [H1 H2 H3 H4 H5 H6 H7 H8]]; [|done].
  destruct (collect _ _ _ _ _) as [[[ins sp] gas]| | |]; try done. intros [= <-]. exists m. by split.
Qed.
End map_spec.
