(* ===== verification/Sm3.v ===== *)
(** * The SM3 hash function ([basis/crypto/sm3])

    The hash that the machine's SM3 opcode computes.  A word is a [Z] below
    [2^32]; the digest and the message schedule are lists of words. *)

From S2P Require Import Prelude.
From stdpp Require Import list.
#[local] Open Scope Z_scope.

(** ** Words *)

Definition leftRotate (x i : Z) : Z :=
  Z.lor (uint32 (Z.shiftl x (i mod 32))) (Z.shiftr x (32 - i mod 32)).

Definition ff0 (x y z : Z) : Z := Z.lxor (Z.lxor x y) z.
Definition ff1 (x y z : Z) : Z := Z.lor (Z.lor (Z.land x y) (Z.land x z)) (Z.land y z).
Definition gg0 (x y z : Z) : Z := Z.lxor (Z.lxor x y) z.
Definition gg1 (x y z : Z) : Z := Z.lor (Z.land x y) (Z.land (uint32 (Z.lnot x)) z).
Definition p0 (x : Z) : Z := Z.lxor (Z.lxor x (leftRotate x 9)) (leftRotate x 17).
Definition p1 (x : Z) : Z := Z.lxor (Z.lxor x (leftRotate x 15)) (leftRotate x 23).

Definition at_ (l : list Z) (i : nat) : Z := default 0 (l !! i).

(** ** The state *)

Record SM3 := mkSM3 {
  sm_digest : list Z;
  sm_length : Z;
  sm_unhandleMsg : list Z;
}.

Definition initial_digest : list Z :=
  [0x7380166f; 0x4914b2b9; 0x172442d7; 0xda8a0600; 0xa96f30bc; 0x163138aa; 0xe38dee4d; 0xb0fb0e4e].
Definition Reset : SM3 := mkSM3 initial_digest 0 [].

(** [for len(msg)%blockSize != 56], at most 63 rounds *)
Fixpoint pad_zeros (fuel : nat) (msg : list Z) : list Z :=
  match fuel with
  | O => msg
  | S fuel => if len msg mod 64 =? 56 then msg else pad_zeros fuel (msg ++ [0])
  end.

(** A message that does not fill its blocks is a panic. *)
Definition pad (s : SM3) : outcome unit (list Z) :=
  let msg := pad_zeros 63 (sm_unhandleMsg s ++ [0x80]) in
  let n := sm_length s in
  let msg := msg ++ [uint8 (Z.land (Z.shiftr n 56) 0xff); uint8 (Z.land (Z.shiftr n 48) 0xff);
                     uint8 (Z.land (Z.shiftr n 40) 0xff); uint8 (Z.land (Z.shiftr n 32) 0xff);
                     uint8 (Z.land (Z.shiftr n 24) 0xff); uint8 (Z.land (Z.shiftr n 16) 0xff);
                     uint8 (Z.land (Z.shiftr n 8) 0xff); uint8 (Z.land (Z.shiftr n 0) 0xff)] in
  if len msg mod 64 =? 0 then Ok msg else Panic.

(** ** A block *)

(** [binary.BigEndian.Uint32] of the [i]-th four bytes *)
Definition be_word (msg : list Z) (i : nat) : Z := be_value (take 4 (drop (4 * i) msg)).

Definition expand_word (w : list Z) (i : nat) : Z :=
  Z.lxor (Z.lxor (p1 (Z.lxor (Z.lxor (at_ w (i - 16)) (at_ w (i - 9))) (leftRotate (at_ w (i - 3)) 15)))
            (leftRotate (at_ w (i - 13)) 7)) (at_ w (i - 6)).
Definition words (msg : list Z) : list Z := foldl (λ w i, w ++ [expand_word w i]) (be_word msg <$> seq 0 16) (seq 16 52).
Definition words1 (w : list Z) : list Z := (λ i, Z.lxor (at_ w i) (at_ w (i + 4))) <$> seq 0 64.

(** The variables [A] to [H] *)
Record vars := mkVars { vA : Z; vB : Z; vC : Z; vD : Z; vE : Z; vF : Z; vG : Z; vH : Z }.

(** The body of the two loops, which differ in [ff], [gg] and the constant *)
Definition round (ff gg : Z → Z → Z → Z) (T : Z) (w w1 : list Z) (v : vars) (i : nat) : vars :=
  let SS1 := leftRotate (uint32 (uint32 (leftRotate (vA v) 12 + vE v) + leftRotate T (Z.of_nat i))) 7 in
  let SS2 := Z.lxor SS1 (leftRotate (vA v) 12) in
  let TT1 := uint32 (uint32 (uint32 (ff (vA v) (vB v) (vC v) + vD v) + SS2) + at_ w1 i) in
  let TT2 := uint32 (uint32 (uint32 (gg (vE v) (vF v) (vG v) + vH v) + SS1) + at_ w i) in
  mkVars TT1 (vA v) (leftRotate (vB v) 9) (vC v) (p0 TT2) (vE v) (leftRotate (vF v) 19) (vG v).

Definition vars_of (d : list Z) : vars :=
  mkVars (at_ d 0) (at_ d 1) (at_ d 2) (at_ d 3) (at_ d 4) (at_ d 5) (at_ d 6) (at_ d 7).
Definition digest_of (v : vars) : list Z := [vA v; vB v; vC v; vD v; vE v; vF v; vG v; vH v].

(** One round of the loop of [update] *)
Definition update_block (d : list Z) (msg : list Z) : list Z :=
  let w := words msg in
  let w1 := words1 w in
  let v := foldl (round ff0 gg0 0x79cc4519 w w1) (vars_of d) (seq 0 16) in
  let v := foldl (round ff1 gg1 0x7a879d8a w w1) v (seq 16 48) in
  zip_with Z.lxor d (digest_of v).

(** [for len(msg) >= 64]; each round takes 64 bytes off *)
Fixpoint update_loop (fuel : nat) (d msg : list Z) : list Z :=
  match fuel with
  | O => d
  | S fuel => if 64 <=? len msg then update_loop fuel (update_block d (take 64 msg)) (drop 64 msg) else d
  end.
Definition update (msg : list Z) (s : SM3) : SM3 :=
  mkSM3 (update_loop (Z.to_nat (len msg / 64)) (sm_digest s) msg) (sm_length s) (sm_unhandleMsg s).

(** ** The interface of [hash.Hash] *)

Definition Write (p : list Z) (s : SM3) : SM3 :=
  let length := uint64 (sm_length s + uint64 (len p * 8)) in
  let msg := sm_unhandleMsg s ++ p in
  let nblocks := len msg / 64 in
  let s := update msg (mkSM3 (sm_digest s) length (sm_unhandleMsg s)) in
  mkSM3 (sm_digest s) (sm_length s) (drop (Z.to_nat (nblocks * 64)) msg).

(** [binary.BigEndian.PutUint32] *)
Definition put_be32 (n : Z) : list Z :=
  [uint8 (Z.shiftr n 24); uint8 (Z.shiftr n 16); uint8 (Z.shiftr n 8); uint8 n].

(** The hash, and the state that is left: the digest of the padded message *)
Definition Sum (arg : list Z) (s : SM3) : outcome unit (list Z) * SM3 :=
  let s := Write arg s in
  match pad s with
  | Ok msg => let s := update msg s in (Ok (mjoin (put_be32 <$> sm_digest s)), s)
  | _ => (Panic, s)
  end.

Definition Sm3Sum (data : list Z) : outcome unit (list Z) := (Sum [] (Write data Reset)).1.



(** ** SM3 as a stream

    However a message is cut into writes, the sum is the standard hash of the
    whole: the compression function folded over the padded message. *)

(** *** The standard *)

(** The constants and functions of round [j], in one place *)
Definition T (j : nat) : Z := if decide (j < 16)%nat then 0x79cc4519 else 0x7a879d8a.
Definition FF (j : nat) : Z → Z → Z → Z := if decide (j < 16)%nat then ff0 else ff1.
Definition GG (j : nat) : Z → Z → Z → Z := if decide (j < 16)%nat then gg0 else gg1.

Definition CF (V B : list Z) : list Z :=
  let W := words B in
  let W' := words1 W in
  zip_with Z.lxor V (digest_of (foldl (λ v j, round (FF j) (GG j) (T j) W W' v j) (vars_of V) (seq 0 64))).

(** The [i]-th block of 64 bytes *)
Definition block (m : list Z) (i : nat) : list Z := take 64 (drop (64 * i) m).
Definition fold_blocks (V m : list Z) : list Z := foldl (λ V i, CF V (block m i)) V (seq 0 (length m / 64)).

Definition be64 (n : Z) : list Z := (λ i, n / 256 ^ i mod 256) <$> [7; 6; 5; 4; 3; 2; 1; 0].
Definition standard_pad (m : list Z) : list Z :=
  m ++ [0x80] ++ replicate (Z.to_nat ((55 - len m) mod 64)) 0 ++ be64 (8 * len m mod 2 ^ 64).
Definition standard_hash (m : list Z) : list Z := mjoin (put_be32 <$> fold_blocks initial_digest (standard_pad m)).

(** *** Blocks *)

Lemma foldl_ext_in {A B} (f g : A → B → A) l : (∀ a b, b ∈ l → f a b = g a b) → ∀ a, foldl f a l = foldl g a l.
Proof.
  induction l as [|b l IH]; intros Hfg a; [done|]. cbn [foldl]. rewrite Hfg by constructor.
  apply IH. intros. apply Hfg. by constructor.
Qed.

Lemma two_loops w w1 v :
  foldl (λ v j, round (FF j) (GG j) (T j) w w1 v j) v (seq 0 64)
  = foldl (round ff1 gg1 0x7a879d8a w w1) (foldl (round ff0 gg0 0x79cc4519 w w1) v (seq 0 16)) (seq 16 48).
Proof.
  assert (seq 0 64 = seq 0 16 ++ seq 16 48) as -> by reflexivity. rewrite foldl_app.
  rewrite (foldl_ext_in _ (round ff0 gg0 0x79cc4519 w w1) (seq 0 16)).
  - apply foldl_ext_in. intros a j Hj%elem_of_seq. unfold FF, GG, T. by rewrite !decide_False by lia.
  - intros a j Hj%elem_of_seq. unfold FF, GG, T. by rewrite !decide_True by lia.
Qed.

Lemma update_block_CF d b : update_block d b = CF d b.
Proof. unfold update_block, CF. cbv zeta. rewrite two_loops. reflexivity. Qed.

#[local] Opaque CF.

Lemma update_loop_blocks n : ∀ d m, (64 * n <= length m)%nat →
  update_loop n d m = foldl (λ V i, CF V (block m i)) d (seq 0 n).
Proof.
  induction n as [|n IH]; intros d m Hm; [done|]. cbn [update_loop].
  rewrite (proj2 (Z.leb_le _ _)) by (unfold len; lia). rewrite IH by (rewrite length_drop; lia).
  change (seq 0 (S n)) with (0%nat :: seq 1 n). cbn [foldl]. rewrite update_block_CF.
  assert (block m 0 = take 64 m) as -> by done. rewrite <- (fmap_S_seq 0 n), foldl_fmap.
  generalize (CF d (take 64 m)). generalize (seq 0 n). intros l. induction l as [|i l IHl]; intros V; [done|].
  cbn [foldl]. rewrite <- IHl. assert (block (drop 64 m) i = block m (S i)) as ->; [|reflexivity].
  unfold block. rewrite drop_drop. f_equal. f_equal. lia.
Qed.

Definition absorb (d m : list Z) : list Z := update_loop (Z.to_nat (len m / 64)) d m.

Lemma blocks_nat (m : list Z) : Z.to_nat (len m / 64) = (length m / 64)%nat.
Proof. unfold len. change 64 with (Z.of_nat 64). by rewrite <- Nat2Z.inj_div, Nat2Z.id. Qed.

Lemma absorb_blocks d m : absorb d m = fold_blocks d m.
Proof. unfold absorb, fold_blocks. rewrite blocks_nat. apply update_loop_blocks. apply Nat.Div0.mul_div_le. Qed.

(** How many bytes fill whole blocks *)
Definition whole (m : list Z) : nat := (64 * (length m / 64))%nat.

Lemma whole_le m : (whole m <= length m)%nat.
Proof. apply Nat.Div0.mul_div_le. Qed.

Lemma whole_app a b n : length a = (64 * n)%nat → whole (a ++ b) = (length a + whole b)%nat.
Proof.
  intros Ha. unfold whole. rewrite length_app, Ha, (Nat.mul_comm 64 n), Nat.div_add_l by done. lia.
Qed.

Lemma fold_blocks_app V a b n : length a = (64 * n)%nat → fold_blocks V (a ++ b) = fold_blocks (fold_blocks V a) b.
Proof.
  intros Ha. unfold fold_blocks. rewrite length_app, Ha, (Nat.mul_comm 64 n), Nat.div_add_l, Nat.div_mul by done.
  rewrite seq_app, foldl_app. cbn [Nat.add].
  rewrite (foldl_ext_in _ (λ V i, CF V (block a i)) (seq 0 n)).
  - generalize (foldl (λ V i, CF V (block a i)) V (seq 0 n)). intros V'.
    assert (seq n (length b / 64) = Nat.add n <$> seq 0 (length b / 64)) as -> by (by rewrite fmap_add_seq, Nat.add_0_r).
    rewrite foldl_fmap. apply foldl_ext_in. intros W i Hi.
    assert (block (a ++ b) (n + i) = block b i) as ->; [|reflexivity].
    unfold block. rewrite drop_app_ge by lia. f_equal. f_equal. lia.
  - intros W i [_ Hi]%elem_of_seq. assert (block (a ++ b) i = block a i) as ->; [|reflexivity].
    unfold block. rewrite drop_app_le by lia. rewrite take_app_le; [done|]. rewrite length_drop. lia.
Qed.

Lemma fold_blocks_short V m : (length m < 64)%nat → fold_blocks V m = V.
Proof. intros Hm. unfold fold_blocks. by rewrite Nat.div_small. Qed.

Lemma length_take_whole m : length (take (whole m) m) = whole m.
Proof. rewrite length_take. pose proof (whole_le m). lia. Qed.

Lemma fold_blocks_whole V m : fold_blocks V (take (whole m) m) = fold_blocks V m.
Proof.
  rewrite <- (take_drop (whole m) m) at 3. rewrite (fold_blocks_app _ _ _ _ (length_take_whole m)).
  symmetry. apply fold_blocks_short. rewrite length_drop. unfold whole.
  pose proof (Nat.div_mod_eq (length m) 64). pose proof (Nat.mod_upper_bound (length m) 64). lia.
Qed.

(** *** The stream *)

#[local] Opaque fold_blocks.

(** The state after the message [m] *)
Definition streamed (m : list Z) : SM3 :=
  mkSM3 (fold_blocks initial_digest m) (uint64 (8 * len m)) (drop (whole m) m).

(** A message splits into whole blocks and a rest. *)
Lemma message_split m : ∃ n hd tl, m = hd ++ tl ∧ length hd = (64 * n)%nat ∧ (length tl < 64)%nat ∧ whole m = length hd.
Proof.
  exists (length m / 64)%nat, (take (whole m) m), (drop (whole m) m).
  rewrite length_take_whole, length_drop, take_drop. split_and!; [done|done| |done]. unfold whole.
  pose proof (Nat.div_mod_eq (length m) 64). pose proof (Nat.mod_upper_bound (length m) 64). lia.
Qed.

Lemma streamed_split n hd tl : length hd = (64 * n)%nat →
  streamed (hd ++ tl)
  = mkSM3 (fold_blocks (fold_blocks initial_digest hd) tl) (uint64 (8 * len (hd ++ tl))) (drop (whole tl) tl).
Proof.
  intros Hn. unfold streamed. rewrite (fold_blocks_app _ hd tl n Hn), (whole_app hd tl n Hn), drop_app_add'; [done|done].
Qed.

Lemma Write_streamed m p : Write p (streamed m) = streamed (m ++ p).
Proof.
  destruct (message_split m) as (n & hd & tl & -> & Hn & Htl & Hw).
  rewrite <- (app_assoc hd tl p), (streamed_split n hd (tl ++ p) Hn), (streamed_split n hd tl Hn).
  assert (whole tl = 0%nat) as -> by (unfold whole; by rewrite Nat.div_small).
  rewrite (fold_blocks_short _ tl Htl). change (drop 0 tl) with tl.
  unfold Write, update. cbn [sm_digest sm_length sm_unhandleMsg].
  fold (absorb (fold_blocks initial_digest hd) (tl ++ p)). rewrite absorb_blocks. f_equal.
  - unfold uint64, wrapU. rewrite <- Zplus_mod, !len_app. f_equal. lia.
  - f_equal. unfold whole. rewrite <- blocks_nat. generalize (len_nonneg (tl ++ p)). intros Hl.
    rewrite Z2Nat.inj_mul by (try apply Z.div_pos; lia). lia.
Qed.

Lemma Writes_streamed chunks : ∀ m, foldl (λ s p, Write p s) (streamed m) chunks = streamed (m ++ mjoin chunks).
Proof.
  induction chunks as [|p chunks IH]; intros m; cbn [foldl]; [by rewrite app_nil_r|].
  rewrite Write_streamed, IH, <- app_assoc. done.
Qed.
Lemma Reset_streamed : Reset = streamed [].
Proof. reflexivity. Qed.

(** *** Padding *)

Lemma pad_zeros_spec fuel : ∀ msg, (56 - len msg) mod 64 <= Z.of_nat fuel →
  pad_zeros fuel msg = msg ++ replicate (Z.to_nat ((56 - len msg) mod 64)) 0.
Proof.
  induction fuel as [|fuel IH]; intros msg Hf; cbn [pad_zeros]; pose proof (Z.mod_pos_bound (56 - len msg) 64 ltac:(lia)) as Hb.
  { assert ((56 - len msg) mod 64 = 0) as -> by lia. by rewrite app_nil_r. }
  destruct (Z.eqb_spec (len msg mod 64) 56) as [He|Hne].
  - assert ((56 - len msg) mod 64 = 0) as ->; [|by rewrite app_nil_r].
    rewrite Zminus_mod, He. reflexivity.
  - assert ((56 - len (msg ++ [0])) mod 64 = (56 - len msg) mod 64 - 1) as Hstep.
    { rewrite len_app. change (len [0]) with 1. assert (0 < (56 - len msg) mod 64) as Hpos.
      { destruct (Z.eq_dec ((56 - len msg) mod 64) 0) as [H0|]; [|lia]. exfalso. apply Hne.
        pose proof (Z.div_mod (56 - len msg) 64 ltac:(lia)). symmetry. apply (Z.mod_unique _ _ (- ((56 - len msg) / 64))); lia. }
      symmetry. apply (Z.mod_unique _ _ ((56 - len msg) / 64)); [lia|].
      pose proof (Z.div_mod (56 - len msg) 64 ltac:(lia)). lia. }
    rewrite IH by lia. rewrite Hstep, <- app_assoc. f_equal.
    assert (0 < (56 - len msg) mod 64).
    { pose proof (Z.mod_pos_bound (56 - len (msg ++ [0])) 64 ltac:(lia)). lia. }
    replace (Z.to_nat ((56 - len msg) mod 64)) with (S (Z.to_nat ((56 - len msg) mod 64 - 1))) by lia. done.
Qed.

Lemma low_byte n k : 0 <= k → uint8 (Z.land (Z.shiftr n k) 0xff) = n / 2 ^ k mod 256.
Proof.
  intros Hk. change 0xff with (Z.ones 8). rewrite Z.land_ones, Z.shiftr_div_pow2 by lia.
  unfold uint8, wrapU. by rewrite Zmod_mod.
Qed.

Lemma be64_bytes n : be64 n =
  [uint8 (Z.land (Z.shiftr n 56) 0xff); uint8 (Z.land (Z.shiftr n 48) 0xff);
   uint8 (Z.land (Z.shiftr n 40) 0xff); uint8 (Z.land (Z.shiftr n 32) 0xff);
   uint8 (Z.land (Z.shiftr n 24) 0xff); uint8 (Z.land (Z.shiftr n 16) 0xff);
   uint8 (Z.land (Z.shiftr n 8) 0xff); uint8 (Z.land (Z.shiftr n 0) 0xff)].
Proof. rewrite !low_byte by lia. reflexivity. Qed.

(** What follows a message in its padding *)
Definition padding (m : list Z) : list Z :=
  [0x80] ++ replicate (Z.to_nat ((55 - len m) mod 64)) 0 ++ be64 (8 * len m mod 2 ^ 64).

Lemma standard_pad_padding m : standard_pad m = m ++ padding m.
Proof. done. Qed.

Lemma mod_blocks n hd (tl : list Z) k : length hd = (64 * n)%nat → (k - len (hd ++ tl)) mod 64 = (k - len tl) mod 64.
Proof.
  intros Hn. rewrite len_app. unfold len at 1. rewrite Hn.
  replace (k - (Z.of_nat (64 * n) + len tl)) with (k - len tl + (- Z.of_nat n) * 64) by lia. apply Z_mod_plus_full.
Qed.

Lemma pad_streamed m n hd tl : m = hd ++ tl → length hd = (64 * n)%nat → (length tl < 64)%nat →
  pad (streamed m) = Ok (tl ++ padding m).
Proof.
  intros -> Hn Htl. rewrite (streamed_split n hd tl Hn).
  assert (whole tl = 0%nat) as -> by (unfold whole; by rewrite Nat.div_small). change (drop 0 tl) with tl.
  unfold pad. cbn [sm_unhandleMsg sm_length].
  assert (len (tl ++ [128]) = len tl + 1) as Hl by (by rewrite len_app).
  rewrite pad_zeros_spec; [|pose proof (Z.mod_pos_bound (56 - len (tl ++ [128])) 64 ltac:(lia)); lia].
  rewrite <- be64_bytes, <- !app_assoc. unfold padding. rewrite (mod_blocks n hd tl 55 Hn), Hl.
  replace (56 - (len tl + 1)) with (55 - len tl) by lia.
  set (z := Z.to_nat ((55 - len tl) mod 64)). fold (uint64 (8 * len (hd ++ tl))).
  assert (len (tl ++ [128] ++ replicate z 0 ++ be64 (uint64 (8 * len (hd ++ tl)))) mod 64 = 0) as Hz; [|by rewrite Hz].
  pose proof (Z.mod_pos_bound (55 - len tl) 64 ltac:(lia)) as Hmb.
  assert (len (replicate z 0) = (55 - len tl) mod 64) as Hrep.
  { unfold len at 1. rewrite length_replicate. unfold z. by rewrite Z2Nat.id by lia. }
  assert (∀ k, len (be64 k) = 8) as Hbe by (intros; reflexivity).
  rewrite !len_app, Hrep, Hbe. change (len [128]) with 1.
  pose proof (Z.div_mod (55 - len tl) 64 ltac:(lia)).
  symmetry. apply (Z.mod_unique _ _ (1 - (55 - len tl) / 64)); lia.
Qed.

Lemma Sum_streamed m arg : (Sum arg (streamed m)).1 = Ok (standard_hash (m ++ arg)).
Proof.
  unfold Sum. rewrite Write_streamed. destruct (message_split (m ++ arg)) as (n & hd & tl & He & Hn & Htl & Hw).
  rewrite (pad_streamed _ n hd tl He Hn Htl). cbn [fst]. unfold standard_hash. rewrite standard_pad_padding.
  do 2 f_equal. unfold update. cbn [sm_digest]. rewrite He.
  rewrite (streamed_split n hd tl Hn). cbn [sm_digest]. rewrite (fold_blocks_short _ tl Htl).
  fold (absorb (fold_blocks initial_digest hd) (tl ++ padding (hd ++ tl))). rewrite absorb_blocks.
  rewrite <- (app_assoc hd tl), (fold_blocks_app _ hd _ n Hn). reflexivity.
Qed.

(** The hash is the standard one however the message arrives.  After any
    sequence of writes to a fresh state, [Sum] answers the standard SM3 hash of
    the concatenation, with its own argument appended to it. *)
Theorem sm3_streams_the_standard_hash chunks arg :
  (Sum arg (foldl (λ s p, Write p s) Reset chunks)).1 = Ok (standard_hash (mjoin chunks ++ arg)).
Proof. rewrite Reset_streamed, Writes_streamed, Sum_streamed. done. Qed.

(** *** What the interface says and the code does not *)

#[local] Transparent fold_blocks CF.

(** The test vector of the standard: the message "abc" *)
Example sm3_abc : Sm3Sum [97; 98; 99] =
  Ok [0x66; 0xc7; 0xf0; 0xf4; 0x62; 0xee; 0xed; 0xd9; 0xd1; 0xf2; 0xd4; 0x6b; 0xdc; 0x10; 0xe4; 0xe2;
      0x41; 0x67; 0xc4; 0x87; 0x5c; 0xf2; 0xf7; 0xa2; 0x29; 0x7d; 0xa0; 0x2b; 0x8f; 0x4b; 0xa8; 0xe0].
Proof. vm_compute. reflexivity. Qed.

(** [Sum] changes the state, although its comment and the interface say that it
    does not: asked again, it answers something else. *)
Example sm3_Sum_is_not_repeatable :
  let '(h1, s) := Sum [] (Write [97; 98; 99] Reset) in (Sum [] s).1 ≠ h1.
Proof. vm_compute. congruence. Qed.
