(* ===== verification/Primes.v ===== *)
(** * The prime 2^255 - 19

    Pocklington's criterion and the certificate that makes the modulus of the
    field arithmetic a prime. *)

From S2P Require Import Prelude.
From Stdlib Require Import Znumtheory Zpow_facts Zmod.Zmod.
#[local] Open Scope Z_scope.

(** ** Small primes, by trial division *)

Fixpoint no_divisor (fuel : nat) (d n : Z) : bool :=
  match fuel with
  | O => false
  | S fuel => if n <? d * d then true else negb (n mod d =? 0) && no_divisor fuel (d + 1) n
  end.

Lemma no_divisor_spec fuel d n : 1 < d → no_divisor fuel d n = true →
  ∀ k, d <= k → k * k <= n → ¬ (k | n).
Proof.
  revert d. induction fuel as [|fuel IH]; [done|]; intros d Hd H k Hk Hkn Hdiv. cbn [no_divisor] in H.
  destruct (Z.ltb_spec n (d * d)); [nia|]. apply andb_prop in H as [H1 H2].
  destruct (Z.eq_dec k d) as [->|]; [|by apply (IH (d + 1)) with k; lia || done].
  apply Z.mod_divide in Hdiv; [|lia]. rewrite Hdiv in H1. done.
Qed.

(** A composite number has a divisor up to its square root. *)
Lemma small_divisor n : 1 < n → (∀ k, 1 < k → k * k <= n → ¬ (k | n)) → Z.prime n.
Proof.
  intros Hn H. split; [done|]. intros k [Hk Hkn] [j ->].
  destruct (Z_le_gt_dec (k * k) (j * k)); [by apply (H k); [lia|lia|exists j; ring]|].
  apply (H j); [nia|nia|exists k; ring].
Qed.

Lemma trial_prime n : 1 < n → no_divisor 1000 2 n = true → Z.prime n.
Proof.
  intros Hn H. apply small_divisor; [done|]. intros k Hk. eapply no_divisor_spec; [|done|lia]. lia.
Qed.

Lemma prime_divisor n : 1 < n → ∃ r, Z.prime r ∧ (r | n).
Proof.
  intros Hn. assert (0 <= n) as H0 by lia. revert Hn. pattern n. apply Zlt_0_ind; [|done]. clear n H0.
  intros n IH _ Hn. destruct (prime_dec n) as [Hp|Hp].
  { exists n. split; [by apply prime_alt|apply Z.divide_refl]. }
  destruct (not_prime_divide n Hn Hp) as (k & Hk & Hd).
  destruct (IH k) as (r & Hr & Hrk); [lia|lia|]. exists r. split; [done|]. by transitivity k.
Qed.

(** ** Pocklington's criterion *)

(** A certificate for [n]: [a] and the primes [qs] whose product, a divisor of
    [n - 1], is more than the square root of [n]. *)
Definition pock (n a : Z) (qs : list Z) : bool :=
  let F := foldr Z.mul 1 qs in
  (1 <? n) && (n <? F * F) && ((n - 1) mod F =? 0) && (Zpow_mod a (n - 1) n =? 1)
  && forallb (λ q, Z.gcd (Zpow_mod a ((n - 1) / q) n - 1) n =? 1) qs && bool_decide (NoDup qs).

Lemma pow_1_mod a r k : 1 < r → a mod r = 1 → 0 <= k → a ^ k mod r = 1.
Proof.
  intros Hr Ha Hk. rewrite Zpower_mod by lia.
  rewrite Ha, Z.pow_1_l by lia. apply Z.mod_small. lia.
Qed.

Lemma mod_divisor a n r : 1 < r → (r | n) → 0 < n → a mod n = 1 → a mod r = 1.
Proof.
  intros Hr [k Hk] Hn Ha. symmetry. apply (Z.mod_unique _ _ (k * (a / n))); [lia|].
  pose proof (Z.div_mod a n ltac:(lia)). nia.
Qed.

(** Every prime of the certificate divides [r - 1] for every prime divisor [r]. *)
Lemma pock_divides n a q r : 1 < n → Z.prime q → (q | n - 1) → a ^ (n - 1) mod n = 1 →
  Z.gcd (a ^ ((n - 1) / q) mod n - 1) n = 1 → Z.prime r → (r | n) → (q | r - 1).
Proof.
  intros Hn Hq [m Hm] Ha Hg Hr Hrn. pose proof (Z.prime_ge_2 _ Hq). pose proof (Z.prime_ge_2 _ Hr).
  destruct (decide ((r - 1) mod q = 0)) as [E|Hnd]; [by apply Z.mod_divide; [lia|]|exfalso].
  rewrite Z.mod_divide in Hnd by lia.
  replace ((n - 1) / q) with m in Hg by (rewrite Hm; symmetry; apply Z.div_mul; lia).
  assert (0 < m) by nia.
  assert (a ^ (n - 1) mod r = 1) as Har by (apply mod_divisor with n; lia || done).
  assert (a mod r ≠ 0) as Hnz.
  { intros E. rewrite Zpower_mod, E, Z.pow_0_l, Z.mod_0_l in Har by lia. done. }
  pose proof (Z.fermat_nz r a Hr Hnz) as Hf.
  assert (Z.coprime (r - 1) q) as Hc by (symmetry; by apply Z.coprime_prime_l).
  pose proof (Z.invmod_coprime (r - 1) q ltac:(lia) Hc) as Hu. set (u := Z.invmod (r - 1) q) in *.
  assert (0 <= u) by (unfold u; rewrite <- Z.mod_invmod; apply Z.mod_pos_bound; lia).
  pose proof (Z.div_mod (u * (r - 1)) q ltac:(lia)) as Hv. rewrite Hu in Hv.
  set (v := u * (r - 1) / q) in *. assert (0 <= v) by (apply Z.div_pos; nia).
  assert (a ^ m mod r = 1) as Hone.
  { assert (a ^ (m * (u * (r - 1))) mod r = 1) as E1.
    { replace (m * (u * (r - 1))) with ((r - 1) * (m * u)) by ring.
      rewrite Z.pow_mul_r by nia. apply pow_1_mod; [lia|done|nia]. }
    replace (m * (u * (r - 1))) with (m + (n - 1) * v) in E1 by (rewrite Hv, Hm; ring).
    rewrite Z.pow_add_r, Z.pow_mul_r, Z.mul_mod in E1 by nia.
    rewrite (pow_1_mod (a ^ (n - 1)) r v), Z.mul_1_r, Z.mod_mod in E1 by (lia || done). done. }
  assert ((r | 1)) as D; [|apply Z.divide_1_r in D; lia].
  rewrite <- Hg. apply Z.gcd_greatest; [|done].
  apply Z.mod_divide; [lia|]. destruct Hrn as [k ->].
  replace (a ^ m mod (k * r) - 1) with (a ^ m - 1 + (- (k * (a ^ m / (k * r)))) * r)
    by (pose proof (Z.div_mod (a ^ m) (k * r) ltac:(nia)); lia).
  rewrite Z.mod_add, Zminus_mod, Hone, (Z.mod_small 1 r) by lia. done.
Qed.

Lemma product_divides qs m : Forall Z.prime qs → NoDup qs → (∀ q, q ∈ qs → (q | m)) →
  (foldr Z.mul 1 qs | m).
Proof.
  revert m. induction qs as [|q qs IH]; intros m Hp Hn Hd; [apply Z.divide_1_l|]. cbn [foldr].
  apply Forall_cons_1 in Hp as [Hq Hp]. apply NoDup_cons in Hn as [Hnq Hn].
  destruct (Hd q) as [m' ->]; [left|]. rewrite (Z.mul_comm m'). apply Z.mul_divide_mono_l.
  apply IH; try done. intros q' Hin. destruct (Hd q') as [k Hk]; [by right|].
  assert (Z.prime q') as Hq' by (rewrite Forall_forall in Hp; by apply Hp).
  destruct (proj1 (Z.divide_prime_mul m' q q' Hq')) as [|D]; [by exists k|done|].
  apply Z.divide_prime_prime in D; [|done..]. by subst.
Qed.

Theorem pocklington n a qs : Forall Z.prime qs → pock n a qs = true → Z.prime n.
Proof.
  intros Hp H. unfold pock in H. repeat (apply andb_prop in H as [H ?]).
  rename select (bool_decide _ = true) into Hd. apply bool_decide_eq_true in Hd.
  set (F := foldr Z.mul 1 qs) in *. rename select (forallb _ _ = true) into Hg.
  rewrite forallb_forall in Hg.
  apply small_divisor; [lia|]. intros k Hk Hkn Hkd.
  destruct (prime_divisor k Hk) as (r & Hr & Hrk). pose proof (Z.prime_ge_2 _ Hr).
  assert ((F | r - 1)) as HF.
  { apply product_divides; try done. intros q Hq.
    assert ((q | n - 1)).
    { transitivity F; [|apply Z.mod_divide; [intros E; rewrite E in *; lia|lia]].
      clear -Hq. subst F. induction qs as [|x qs IH]; [by apply not_elem_of_nil in Hq|].
      apply elem_of_cons in Hq as [->|Hq]; cbn [foldr]; [apply Z.divide_factor_l|].
      apply Z.divide_mul_r. by apply IH. }
    apply list_elem_of_In in Hq. specialize (Hg q Hq). rewrite Forall_forall in Hp.
    rewrite Zpow_mod_correct in * by lia.
    apply (pock_divides n a); try done; try lia; [by apply Hp, list_elem_of_In|].
    by transitivity k. }
  destruct HF as [j Hj]. apply Z.divide_pos_le in Hrk; [|lia].
  assert (1 <= j * j) by nia. assert (F * F <= (r - 1) * (r - 1)) by (rewrite Hj; nia).
  assert ((r - 1) * (r - 1) < k * k) by nia. lia.
Qed.

(** ** The certificate *)

Create HintDb primes.

(** Prime by the certificate with base 2 and the primes [qs]. *)
Ltac certificate qs :=
  apply (pocklington _ 2 qs); [|vm_compute; reflexivity];
  repeat (apply Forall_cons_2; [solve [auto with primes]|]); apply Forall_nil_2.

Lemma prime_small n : (1 <? n) && no_divisor 1000 2 n = true → Z.prime n.
Proof. intros [? ?]%andb_prop. apply trial_prime; [lia|done]. Qed.
#[local] Hint Extern 0 (Z.prime _) => apply prime_small; vm_compute; reflexivity : primes.

Definition Q116 : Z := 75445702479781427272750846543864801.
Definition Q236 : Z := 74058212732561358302231226437062788676166966415465897661863160754340907.

Lemma prime_24 : Z.prime 8574133.
Proof. certificate [991; 103]. Qed.
#[local] Hint Resolve prime_24 : primes.
Lemma prime_51 : Z.prime 1919519569386763.
Proof. certificate [8574133; 127]. Qed.
Lemma prime_32 : Z.prime 2773320623.
Proof. certificate [569003]. Qed.
#[local] Hint Resolve prime_32 : primes.
Lemma prime_37 : Z.prime 72106336199.
Proof. certificate [2773320623]. Qed.
#[local] Hint Resolve prime_51 prime_37 : primes.
Lemma prime_116 : Z.prime Q116.
Proof. certificate [1919519569386763; 72106336199]. Qed.
Lemma prime_55 : Z.prime 31757755568855353.
Proof. certificate [430751; 4153]. Qed.
#[local] Hint Resolve prime_116 prime_55 : primes.
Lemma prime_236 : Z.prime Q236.
Proof. certificate [Q116; 31757755568855353]. Qed.
#[local] Hint Resolve prime_236 : primes.

Theorem prime_25519 : Z.prime (2 ^ 255 - 19).
Proof. certificate [Q236]. Qed.
