(* ===== verification/Fe25519.v ===== *)
(** * The field GF(2^255 - 19) and the points of the curve
    ([basis/crypto/ed25519/internal/edwards25519])

    The ten-limb representation of field elements, its operations and the
    formulas on points, as edwards25519.go writes them: int32 limbs, int64 products and carries, the
    wrap-around of every operation written out ([Fe25519Spec] shows that none
    is reached).  A [\[32\]byte] is a list of 32 bytes. *)

From S2P Require Import Prelude.
From stdpp Require Import list.
#[local] Open Scope Z_scope.

(** ** Go's int32 and int64 operators *)

Declare Scope i32_scope.
Delimit Scope i32_scope with i32.
Declare Scope i64_scope.
Delimit Scope i64_scope with i64.

Definition add32 (x y : Z) : Z := int32 (x + y).
Definition sub32 (x y : Z) : Z := int32 (x - y).
Definition mul32 (x y : Z) : Z := int32 (x * y).
Definition neg32 (x : Z) : Z := int32 (- x).
Definition shl32 (x k : Z) : Z := int32 (Z.shiftl x k).
Definition shr32 (x k : Z) : Z := Z.shiftr x k.
Definition add64 (x y : Z) : Z := int64 (x + y).
Definition sub64 (x y : Z) : Z := int64 (x - y).
Definition mul64 (x y : Z) : Z := int64 (x * y).
Definition shl64 (x k : Z) : Z := int64 (Z.shiftl x k).
Definition shr64 (x k : Z) : Z := Z.shiftr x k.
Arguments add32 (x y)%_i32.
Arguments sub32 (x y)%_i32.
Arguments mul32 (x y)%_i32.
Arguments neg32 x%_i32.
Arguments shl32 (x k)%_i32.
Arguments shr32 (x k)%_i32.
Arguments add64 (x y)%_i64.
Arguments sub64 (x y)%_i64.
Arguments mul64 (x y)%_i64.
Arguments shl64 (x k)%_i64.
Arguments shr64 (x k)%_i64.

Infix "+" := add32 : i32_scope.
Infix "-" := sub32 : i32_scope.
Infix "*" := mul32 : i32_scope.
Notation "- x" := (neg32 x) : i32_scope.
Infix "<<" := shl32 (at level 45, left associativity) : i32_scope.
Infix ">>" := shr32 (at level 45, left associativity) : i32_scope.
Infix "+" := add64 : i64_scope.
Infix "-" := sub64 : i64_scope.
Infix "*" := mul64 : i64_scope.
Infix "<<" := shl64 (at level 45, left associativity) : i64_scope.
Infix ">>" := shr64 (at level 45, left associativity) : i64_scope.

(** ** Field elements *)

Record FieldElement := mkFe {
  fe0 : Z; fe1 : Z; fe2 : Z; fe3 : Z; fe4 : Z;
  fe5 : Z; fe6 : Z; fe7 : Z; fe8 : Z; fe9 : Z;
}.

Definition FeZero : FieldElement := mkFe 0 0 0 0 0 0 0 0 0 0.
Definition FeOne : FieldElement := mkFe 1 0 0 0 0 0 0 0 0 0.

Definition FeAdd (a b : FieldElement) : FieldElement :=
  mkFe
    (fe0 a + fe0 b)%i32 (fe1 a + fe1 b)%i32
    (fe2 a + fe2 b)%i32 (fe3 a + fe3 b)%i32
    (fe4 a + fe4 b)%i32 (fe5 a + fe5 b)%i32
    (fe6 a + fe6 b)%i32 (fe7 a + fe7 b)%i32
    (fe8 a + fe8 b)%i32 (fe9 a + fe9 b)%i32.

Definition FeSub (a b : FieldElement) : FieldElement :=
  mkFe
    (fe0 a - fe0 b)%i32 (fe1 a - fe1 b)%i32
    (fe2 a - fe2 b)%i32 (fe3 a - fe3 b)%i32
    (fe4 a - fe4 b)%i32 (fe5 a - fe5 b)%i32
    (fe6 a - fe6 b)%i32 (fe7 a - fe7 b)%i32
    (fe8 a - fe8 b)%i32 (fe9 a - fe9 b)%i32.

Definition FeNeg (f : FieldElement) : FieldElement :=
  mkFe
    (- fe0 f)%i32 (- fe1 f)%i32
    (- fe2 f)%i32 (- fe3 f)%i32
    (- fe4 f)%i32 (- fe5 f)%i32
    (- fe6 f)%i32 (- fe7 f)%i32
    (- fe8 f)%i32 (- fe9 f)%i32.

(** [f[i] ^= b & (f[i] ^ g[i])], where [b] was negated first *)
Definition cmove (f g b : Z) : Z := Z.lxor f (Z.land b (Z.lxor f g)).
Definition FeCMove (f g : FieldElement) (b : Z) : FieldElement :=
  let b := (- b)%i32 in
  mkFe
    (cmove (fe0 f) (fe0 g) b) (cmove (fe1 f) (fe1 g) b)
    (cmove (fe2 f) (fe2 g) b) (cmove (fe3 f) (fe3 g) b)
    (cmove (fe4 f) (fe4 g) b) (cmove (fe5 f) (fe5 g) b)
    (cmove (fe6 f) (fe6 g) b) (cmove (fe7 f) (fe7 g) b)
    (cmove (fe8 f) (fe8 g) b) (cmove (fe9 f) (fe9 g) b).

(** ** Carries *)

(** [c = (h + (1 << (k-1))) >> k; next += c; h -= c << k]: the rounding carry
    of a limb into the next one; the pair is [h] and [next] *)
Definition carry (k : Z) (h next : Z) : Z * Z :=
  let c := ((h + (1 << Z.pred k)) >> k)%i64 in
  ((h - (c << k))%i64, (next + c)%i64).

(** [c = (h + (1 << (k-1))) >> k; next += c * 19; h -= c << k] *)
Definition carry19 (k : Z) (h next : Z) : Z * Z :=
  let c := ((h + (1 << Z.pred k)) >> k)%i64 in
  ((h - (c << k))%i64, (next + c * 19)%i64).

Definition FeCombine (h0 h1 h2 h3 h4 h5 h6 h7 h8 h9 : Z) : FieldElement :=
  let '(h0, h1) := carry 26 h0 h1 in
  let '(h4, h5) := carry 26 h4 h5 in
  let '(h1, h2) := carry 25 h1 h2 in
  let '(h5, h6) := carry 25 h5 h6 in
  let '(h2, h3) := carry 26 h2 h3 in
  let '(h6, h7) := carry 26 h6 h7 in
  let '(h3, h4) := carry 25 h3 h4 in
  let '(h7, h8) := carry 25 h7 h8 in
  let '(h4, h5) := carry 26 h4 h5 in
  let '(h8, h9) := carry 26 h8 h9 in
  let '(h9, h0) := carry19 25 h9 h0 in
  let '(h0, h1) := carry 26 h0 h1 in
  mkFe (int32 h0) (int32 h1) (int32 h2) (int32 h3) (int32 h4)
       (int32 h5) (int32 h6) (int32 h7) (int32 h8) (int32 h9).

(** ** Multiplication *)

Definition FeMul (f g : FieldElement) : FieldElement :=
  let f0 := fe0 f in
  let f1 := fe1 f in
  let f2 := fe2 f in
  let f3 := fe3 f in
  let f4 := fe4 f in
  let f5 := fe5 f in
  let f6 := fe6 f in
  let f7 := fe7 f in
  let f8 := fe8 f in
  let f9 := fe9 f in
  let f1_2 := (2 * fe1 f)%i32 in
  let f3_2 := (2 * fe3 f)%i32 in
  let f5_2 := (2 * fe5 f)%i32 in
  let f7_2 := (2 * fe7 f)%i32 in
  let f9_2 := (2 * fe9 f)%i32 in
  let g0 := fe0 g in
  let g1 := fe1 g in
  let g2 := fe2 g in
  let g3 := fe3 g in
  let g4 := fe4 g in
  let g5 := fe5 g in
  let g6 := fe6 g in
  let g7 := fe7 g in
  let g8 := fe8 g in
  let g9 := fe9 g in
  let g1_19 := (19 * fe1 g)%i32 in
  let g2_19 := (19 * fe2 g)%i32 in
  let g3_19 := (19 * fe3 g)%i32 in
  let g4_19 := (19 * fe4 g)%i32 in
  let g5_19 := (19 * fe5 g)%i32 in
  let g6_19 := (19 * fe6 g)%i32 in
  let g7_19 := (19 * fe7 g)%i32 in
  let g8_19 := (19 * fe8 g)%i32 in
  let g9_19 := (19 * fe9 g)%i32 in
  let h0 := (f0*g0 + f1_2*g9_19 + f2*g8_19 + f3_2*g7_19 + f4*g6_19 + f5_2*g5_19 + f6*g4_19 + f7_2*g3_19 + f8*g2_19 + f9_2*g1_19)%i64 in
  let h1 := (f0*g1 + f1*g0 + f2*g9_19 + f3*g8_19 + f4*g7_19 + f5*g6_19 + f6*g5_19 + f7*g4_19 + f8*g3_19 + f9*g2_19)%i64 in
  let h2 := (f0*g2 + f1_2*g1 + f2*g0 + f3_2*g9_19 + f4*g8_19 + f5_2*g7_19 + f6*g6_19 + f7_2*g5_19 + f8*g4_19 + f9_2*g3_19)%i64 in
  let h3 := (f0*g3 + f1*g2 + f2*g1 + f3*g0 + f4*g9_19 + f5*g8_19 + f6*g7_19 + f7*g6_19 + f8*g5_19 + f9*g4_19)%i64 in
  let h4 := (f0*g4 + f1_2*g3 + f2*g2 + f3_2*g1 + f4*g0 + f5_2*g9_19 + f6*g8_19 + f7_2*g7_19 + f8*g6_19 + f9_2*g5_19)%i64 in
  let h5 := (f0*g5 + f1*g4 + f2*g3 + f3*g2 + f4*g1 + f5*g0 + f6*g9_19 + f7*g8_19 + f8*g7_19 + f9*g6_19)%i64 in
  let h6 := (f0*g6 + f1_2*g5 + f2*g4 + f3_2*g3 + f4*g2 + f5_2*g1 + f6*g0 + f7_2*g9_19 + f8*g8_19 + f9_2*g7_19)%i64 in
  let h7 := (f0*g7 + f1*g6 + f2*g5 + f3*g4 + f4*g3 + f5*g2 + f6*g1 + f7*g0 + f8*g9_19 + f9*g8_19)%i64 in
  let h8 := (f0*g8 + f1_2*g7 + f2*g6 + f3_2*g5 + f4*g4 + f5_2*g3 + f6*g2 + f7_2*g1 + f8*g0 + f9_2*g9_19)%i64 in
  let h9 := (f0*g9 + f1*g8 + f2*g7 + f3*g6 + f4*g5 + f5*g4 + f6*g3 + f7*g2 + f8*g1 + f9*g0)%i64 in
  FeCombine h0 h1 h2 h3 h4 h5 h6 h7 h8 h9.

(** The ten int64 results of the Go function, as a record. *)
Record Wide := mkWide {
  w0 : Z; w1 : Z; w2 : Z; w3 : Z; w4 : Z; w5 : Z; w6 : Z; w7 : Z; w8 : Z; w9 : Z;
}.

Definition feSquare (f : FieldElement) : Wide :=
  let f0 := fe0 f in
  let f1 := fe1 f in
  let f2 := fe2 f in
  let f3 := fe3 f in
  let f4 := fe4 f in
  let f5 := fe5 f in
  let f6 := fe6 f in
  let f7 := fe7 f in
  let f8 := fe8 f in
  let f9 := fe9 f in
  let f0_2 := (2 * fe0 f)%i32 in
  let f1_2 := (2 * fe1 f)%i32 in
  let f2_2 := (2 * fe2 f)%i32 in
  let f3_2 := (2 * fe3 f)%i32 in
  let f4_2 := (2 * fe4 f)%i32 in
  let f5_2 := (2 * fe5 f)%i32 in
  let f6_2 := (2 * fe6 f)%i32 in
  let f7_2 := (2 * fe7 f)%i32 in
  let f5_38 := (38 * f5)%i64 in
  let f6_19 := (19 * f6)%i64 in
  let f7_38 := (38 * f7)%i64 in
  let f8_19 := (19 * f8)%i64 in
  let f9_38 := (38 * f9)%i64 in
  let h0 := (f0*f0 + f1_2*f9_38 + f2_2*f8_19 + f3_2*f7_38 + f4_2*f6_19 + f5*f5_38)%i64 in
  let h1 := (f0_2*f1 + f2*f9_38 + f3_2*f8_19 + f4*f7_38 + f5_2*f6_19)%i64 in
  let h2 := (f0_2*f2 + f1_2*f1 + f3_2*f9_38 + f4_2*f8_19 + f5_2*f7_38 + f6*f6_19)%i64 in
  let h3 := (f0_2*f3 + f1_2*f2 + f4*f9_38 + f5_2*f8_19 + f6*f7_38)%i64 in
  let h4 := (f0_2*f4 + f1_2*f3_2 + f2*f2 + f5_2*f9_38 + f6_2*f8_19 + f7*f7_38)%i64 in
  let h5 := (f0_2*f5 + f1_2*f4 + f2_2*f3 + f6*f9_38 + f7_2*f8_19)%i64 in
  let h6 := (f0_2*f6 + f1_2*f5_2 + f2_2*f4 + f3_2*f3 + f7_2*f9_38 + f8*f8_19)%i64 in
  let h7 := (f0_2*f7 + f1_2*f6 + f2_2*f5 + f3_2*f4 + f8*f9_38)%i64 in
  let h8 := (f0_2*f8 + f1_2*f7_2 + f2_2*f6 + f3_2*f5_2 + f4*f4 + f9*f9_38)%i64 in
  let h9 := (f0_2*f9 + f1_2*f8 + f2_2*f7 + f3_2*f6 + f4_2*f5)%i64 in
  mkWide h0 h1 h2 h3 h4 h5 h6 h7 h8 h9.

Definition FeSquare (f : FieldElement) : FieldElement :=
  let h := feSquare f in
  FeCombine (w0 h) (w1 h) (w2 h) (w3 h) (w4 h) (w5 h) (w6 h) (w7 h) (w8 h) (w9 h).

Definition FeSquare2 (f : FieldElement) : FieldElement :=
  let h := feSquare f in
  FeCombine (w0 h + w0 h)%i64 (w1 h + w1 h)%i64 (w2 h + w2 h)%i64 (w3 h + w3 h)%i64
    (w4 h + w4 h)%i64 (w5 h + w5 h)%i64 (w6 h + w6 h)%i64 (w7 h + w7 h)%i64
    (w8 h + w8 h)%i64 (w9 h + w9 h)%i64.

(** [for i = 1; i < n; i++ { FeSquare(&t, &t) }] *)
Definition square_loop (n : nat) (t : FieldElement) : FieldElement :=
  Nat.iter (n - 1) FeSquare t.

Definition FeInvert (z : FieldElement) : FieldElement :=
  let t0 := FeSquare z in
  let t1 := FeSquare t0 in
  let t1 := square_loop 2 t1 in
  let t1 := FeMul z t1 in
  let t0 := FeMul t0 t1 in
  let t2 := FeSquare t0 in
  let t1 := FeMul t1 t2 in
  let t2 := FeSquare t1 in
  let t2 := square_loop 5 t2 in
  let t1 := FeMul t2 t1 in
  let t2 := FeSquare t1 in
  let t2 := square_loop 10 t2 in
  let t2 := FeMul t2 t1 in
  let t3 := FeSquare t2 in
  let t3 := square_loop 20 t3 in
  let t2 := FeMul t3 t2 in
  let t2 := FeSquare t2 in
  let t2 := square_loop 10 t2 in
  let t1 := FeMul t2 t1 in
  let t2 := FeSquare t1 in
  let t2 := square_loop 50 t2 in
  let t2 := FeMul t2 t1 in
  let t3 := FeSquare t2 in
  let t3 := square_loop 100 t3 in
  let t2 := FeMul t3 t2 in
  let t2 := FeSquare t2 in
  let t2 := square_loop 50 t2 in
  let t1 := FeMul t2 t1 in
  let t1 := FeSquare t1 in
  let t1 := square_loop 5 t1 in
  FeMul t1 t0.

Definition fePow22523 (z : FieldElement) : FieldElement :=
  let t0 := FeSquare z in
  let t0 := square_loop 1 t0 in
  let t1 := FeSquare t0 in
  let t1 := square_loop 2 t1 in
  let t1 := FeMul z t1 in
  let t0 := FeMul t0 t1 in
  let t0 := FeSquare t0 in
  let t0 := square_loop 1 t0 in
  let t0 := FeMul t1 t0 in
  let t1 := FeSquare t0 in
  let t1 := square_loop 5 t1 in
  let t0 := FeMul t1 t0 in
  let t1 := FeSquare t0 in
  let t1 := square_loop 10 t1 in
  let t1 := FeMul t1 t0 in
  let t2 := FeSquare t1 in
  let t2 := square_loop 20 t2 in
  let t1 := FeMul t2 t1 in
  let t1 := FeSquare t1 in
  let t1 := square_loop 10 t1 in
  let t0 := FeMul t1 t0 in
  let t1 := FeSquare t0 in
  let t1 := square_loop 50 t1 in
  let t1 := FeMul t1 t0 in
  let t2 := FeSquare t1 in
  let t2 := square_loop 100 t2 in
  let t1 := FeMul t2 t1 in
  let t1 := FeSquare t1 in
  let t1 := square_loop 50 t1 in
  let t0 := FeMul t1 t0 in
  let t0 := FeSquare t0 in
  let t0 := square_loop 2 t0 in
  FeMul t0 z.

(** ** Bytes *)

(** [in[i]] of a slice *)
Definition byte_at (s : list Z) (i : nat) : Z := default 0 (s !! i).

Definition load3 (s : list Z) : Z :=
  let r := byte_at s 0 in
  let r := Z.lor r (byte_at s 1 << 8)%i64 in
  Z.lor r (byte_at s 2 << 16)%i64.

Definition load4 (s : list Z) : Z :=
  let r := byte_at s 0 in
  let r := Z.lor r (byte_at s 1 << 8)%i64 in
  let r := Z.lor r (byte_at s 2 << 16)%i64 in
  Z.lor r (byte_at s 3 << 24)%i64.

Definition FeFromBytes (src : list Z) : FieldElement :=
  let h0 := load4 src in
  let h1 := (load3 (drop 4 src) << 6)%i64 in
  let h2 := (load3 (drop 7 src) << 5)%i64 in
  let h3 := (load3 (drop 10 src) << 3)%i64 in
  let h4 := (load3 (drop 13 src) << 2)%i64 in
  let h5 := load4 (drop 16 src) in
  let h6 := (load3 (drop 20 src) << 7)%i64 in
  let h7 := (load3 (drop 23 src) << 5)%i64 in
  let h8 := (load3 (drop 26 src) << 4)%i64 in
  let h9 := (Z.land (load3 (drop 29 src)) 8388607 << 2)%i64 in
  FeCombine h0 h1 h2 h3 h4 h5 h6 h7 h8 h9.

(** [carry = h >> k; next += carry; h -= carry << k] on int32 limbs *)
Definition carry_floor (k : Z) (h next : Z) : Z * Z :=
  let c := (h >> k)%i32 in
  ((h - (c << k))%i32, (next + c)%i32).

(** The multiple of the prime to subtract. *)
Definition fe_quotient (h : FieldElement) : Z :=
  let q := ((19 * fe9 h + (1 << 24)) >> 25)%i32 in
  let q := ((fe0 h + q) >> 26)%i32 in
  let q := ((fe1 h + q) >> 25)%i32 in
  let q := ((fe2 h + q) >> 26)%i32 in
  let q := ((fe3 h + q) >> 25)%i32 in
  let q := ((fe4 h + q) >> 26)%i32 in
  let q := ((fe5 h + q) >> 25)%i32 in
  let q := ((fe6 h + q) >> 26)%i32 in
  let q := ((fe7 h + q) >> 25)%i32 in
  let q := ((fe8 h + q) >> 26)%i32 in
  ((fe9 h + q) >> 25)%i32.

(** The limbs that FeToBytes leaves in [h]: the code reduces its argument in
    place. *)
Definition fe_reduce (h : FieldElement) : FieldElement :=
  let q := fe_quotient h in
  let h0 := (fe0 h + 19 * q)%i32 in
  let '(h0, h1) := carry_floor 26 h0 (fe1 h) in
  let '(h1, h2) := carry_floor 25 h1 (fe2 h) in
  let '(h2, h3) := carry_floor 26 h2 (fe3 h) in
  let '(h3, h4) := carry_floor 25 h3 (fe4 h) in
  let '(h4, h5) := carry_floor 26 h4 (fe5 h) in
  let '(h5, h6) := carry_floor 25 h5 (fe6 h) in
  let '(h6, h7) := carry_floor 26 h6 (fe7 h) in
  let '(h7, h8) := carry_floor 25 h7 (fe8 h) in
  let '(h8, h9) := carry_floor 26 h8 (fe9 h) in
  let '(h9, _) := carry_floor 25 h9 0 in
  mkFe h0 h1 h2 h3 h4 h5 h6 h7 h8 h9.

Definition limb_bytes (h : FieldElement) : list Z :=
  let '(mkFe h0 h1 h2 h3 h4 h5 h6 h7 h8 h9) := h in
  map uint8 [
     (h0 >> 0)%i32; (h0 >> 8)%i32; (h0 >> 16)%i32; Z.lor (h0 >> 24)%i32 (h1 << 2)%i32;
     (h1 >> 6)%i32; (h1 >> 14)%i32; Z.lor (h1 >> 22)%i32 (h2 << 3)%i32; (h2 >> 5)%i32;
     (h2 >> 13)%i32; Z.lor (h2 >> 21)%i32 (h3 << 5)%i32; (h3 >> 3)%i32; (h3 >> 11)%i32;
     Z.lor (h3 >> 19)%i32 (h4 << 6)%i32; (h4 >> 2)%i32; (h4 >> 10)%i32; (h4 >> 18)%i32;
     (h5 >> 0)%i32; (h5 >> 8)%i32; (h5 >> 16)%i32; Z.lor (h5 >> 24)%i32 (h6 << 1)%i32;
     (h6 >> 7)%i32; (h6 >> 15)%i32; Z.lor (h6 >> 23)%i32 (h7 << 3)%i32; (h7 >> 5)%i32;
     (h7 >> 13)%i32; Z.lor (h7 >> 21)%i32 (h8 << 4)%i32; (h8 >> 4)%i32; (h8 >> 12)%i32;
     Z.lor (h8 >> 20)%i32 (h9 << 6)%i32; (h9 >> 2)%i32; (h9 >> 10)%i32; (h9 >> 18)%i32].

(** The bytes, and the element [h] as the call leaves it. *)
Definition FeToBytes (h : FieldElement) : list Z * FieldElement :=
  let h := fe_reduce h in (limb_bytes h, h).

Definition FeIsNegative (f : FieldElement) : Z * FieldElement :=
  let '(s, f) := FeToBytes f in (Z.land (byte_at s 0) 1, f).

Definition FeIsNonZero (f : FieldElement) : Z * FieldElement :=
  let '(s, f) := FeToBytes f in
  let x := fold_left Z.lor s 0 in
  let x := Z.lor x (Z.shiftr x 4) in
  let x := Z.lor x (Z.shiftr x 2) in
  let x := Z.lor x (Z.shiftr x 1) in
  (Z.land x 1, f).

(** ** Points

    An operation that fills its first argument is a function that returns it. *)

Record ProjectiveGroupElement := mkProjective { pr_X : FieldElement; pr_Y : FieldElement; pr_Z : FieldElement }.
Record ExtendedGroupElement := mkExtended {
  ex_X : FieldElement; ex_Y : FieldElement; ex_Z : FieldElement; ex_T : FieldElement }.
Record CompletedGroupElement := mkCompleted {
  co_X : FieldElement; co_Y : FieldElement; co_Z : FieldElement; co_T : FieldElement }.
Record PreComputedGroupElement := mkPreComputed {
  pc_yPlusX : FieldElement; pc_yMinusX : FieldElement; pc_xy2d : FieldElement }.
Record CachedGroupElement := mkCached {
  ca_yPlusX : FieldElement; ca_yMinusX : FieldElement; ca_Z : FieldElement; ca_T2d : FieldElement }.

Definition d : FieldElement :=
  mkFe (-10913610) 13857413 (-15372611) 6949391 114729 (-8787816) (-6275908) (-3247719) (-18696448) (-12055116).
Definition d2 : FieldElement :=
  mkFe (-21827239) (-5839606) (-30745221) 13898782 229458 15978800 (-12551817) (-6495438) 29715968 9444199.
Definition SqrtM1 : FieldElement :=
  mkFe (-32595792) (-7943725) 9377950 3500415 12389472 (-272473) (-25146209) (-2005654) 326686 11406482.

Definition projective_Zero : ProjectiveGroupElement := mkProjective FeZero FeOne FeOne.
Definition extended_Zero : ExtendedGroupElement := mkExtended FeZero FeOne FeOne FeZero.
Definition precomputed_Zero : PreComputedGroupElement := mkPreComputed FeOne FeOne FeZero.

Definition projective_Double (p : ProjectiveGroupElement) : CompletedGroupElement :=
  let rX := FeSquare (pr_X p) in
  let rZ := FeSquare (pr_Y p) in
  let rT := FeSquare2 (pr_Z p) in
  let rY := FeAdd (pr_X p) (pr_Y p) in
  let t0 := FeSquare rY in
  let rY := FeAdd rZ rX in
  let rZ := FeSub rZ rX in
  let rX := FeSub t0 rY in
  let rT := FeSub rT rZ in
  mkCompleted rX rY rZ rT.

Definition extended_ToProjective (p : ExtendedGroupElement) : ProjectiveGroupElement :=
  mkProjective (ex_X p) (ex_Y p) (ex_Z p).
Definition extended_Double (p : ExtendedGroupElement) : CompletedGroupElement :=
  projective_Double (extended_ToProjective p).
Definition extended_ToCached (p : ExtendedGroupElement) : CachedGroupElement :=
  mkCached (FeAdd (ex_Y p) (ex_X p)) (FeSub (ex_Y p) (ex_X p)) (ex_Z p) (FeMul (ex_T p) d2).

Definition completed_ToProjective (p : CompletedGroupElement) : ProjectiveGroupElement :=
  mkProjective (FeMul (co_X p) (co_T p)) (FeMul (co_Y p) (co_Z p)) (FeMul (co_Z p) (co_T p)).
Definition completed_ToExtended (p : CompletedGroupElement) : ExtendedGroupElement :=
  mkExtended (FeMul (co_X p) (co_T p)) (FeMul (co_Y p) (co_Z p)) (FeMul (co_Z p) (co_T p))
    (FeMul (co_X p) (co_Y p)).

Definition geAdd (p : ExtendedGroupElement) (q : CachedGroupElement) : CompletedGroupElement :=
  let rX := FeAdd (ex_Y p) (ex_X p) in
  let rY := FeSub (ex_Y p) (ex_X p) in
  let rZ := FeMul rX (ca_yPlusX q) in
  let rY := FeMul rY (ca_yMinusX q) in
  let rT := FeMul (ca_T2d q) (ex_T p) in
  let rX := FeMul (ex_Z p) (ca_Z q) in
  let t0 := FeAdd rX rX in
  let rX := FeSub rZ rY in
  let rY := FeAdd rZ rY in
  let rZ := FeAdd t0 rT in
  let rT := FeSub t0 rT in
  mkCompleted rX rY rZ rT.

Definition geSub (p : ExtendedGroupElement) (q : CachedGroupElement) : CompletedGroupElement :=
  let rX := FeAdd (ex_Y p) (ex_X p) in
  let rY := FeSub (ex_Y p) (ex_X p) in
  let rZ := FeMul rX (ca_yMinusX q) in
  let rY := FeMul rY (ca_yPlusX q) in
  let rT := FeMul (ca_T2d q) (ex_T p) in
  let rX := FeMul (ex_Z p) (ca_Z q) in
  let t0 := FeAdd rX rX in
  let rX := FeSub rZ rY in
  let rY := FeAdd rZ rY in
  let rZ := FeSub t0 rT in
  let rT := FeAdd t0 rT in
  mkCompleted rX rY rZ rT.

Definition geMixedAdd (p : ExtendedGroupElement) (q : PreComputedGroupElement) : CompletedGroupElement :=
  let rX := FeAdd (ex_Y p) (ex_X p) in
  let rY := FeSub (ex_Y p) (ex_X p) in
  let rZ := FeMul rX (pc_yPlusX q) in
  let rY := FeMul rY (pc_yMinusX q) in
  let rT := FeMul (pc_xy2d q) (ex_T p) in
  let t0 := FeAdd (ex_Z p) (ex_Z p) in
  let rX := FeSub rZ rY in
  let rY := FeAdd rZ rY in
  let rZ := FeAdd t0 rT in
  let rT := FeSub t0 rT in
  mkCompleted rX rY rZ rT.

Definition geMixedSub (p : ExtendedGroupElement) (q : PreComputedGroupElement) : CompletedGroupElement :=
  let rX := FeAdd (ex_Y p) (ex_X p) in
  let rY := FeSub (ex_Y p) (ex_X p) in
  let rZ := FeMul rX (pc_yMinusX q) in
  let rY := FeMul rY (pc_yPlusX q) in
  let rT := FeMul (pc_xy2d q) (ex_T p) in
  let t0 := FeAdd (ex_Z p) (ex_Z p) in
  let rX := FeSub rZ rY in
  let rY := FeAdd rZ rY in
  let rZ := FeSub t0 rT in
  let rT := FeAdd t0 rT in
  mkCompleted rX rY rZ rT.

(** [s[31] ^= FeIsNegative(&x) << 7], after FeToBytes *)
Definition affine_bytes (pX pY pZ : FieldElement) : list Z :=
  let recip := FeInvert pZ in
  let x := FeMul pX recip in
  let y := FeMul pY recip in
  let s := (FeToBytes y).1 in
  <[31%nat := Z.lxor (byte_at s 31) (uint8 (Z.shiftl (FeIsNegative x).1 7))]> s.
Definition projective_ToBytes (p : ProjectiveGroupElement) : list Z := affine_bytes (pr_X p) (pr_Y p) (pr_Z p).
Definition extended_ToBytes (p : ExtendedGroupElement) : list Z := affine_bytes (ex_X p) (ex_Y p) (ex_Z p).

(** The root is a candidate first; the answer is [None] for false.  FeIsNonZero
    and FeIsNegative leave their argument reduced, which the code goes on with. *)
Definition extended_FromBytes (s : list Z) : option ExtendedGroupElement :=
  let pY := FeFromBytes s in
  let pZ := FeOne in
  let u := FeSquare pY in
  let v := FeMul u d in
  let u := FeSub u pZ in
  let v := FeAdd v pZ in
  let v3 := FeSquare v in
  let v3 := FeMul v3 v in
  let pX := FeSquare v3 in
  let pX := FeMul pX v in
  let pX := FeMul pX u in
  let pX := fePow22523 pX in
  let pX := FeMul pX v3 in
  let pX := FeMul pX u in
  let vxx := FeSquare pX in
  let vxx := FeMul vxx v in
  let check := FeSub vxx u in
  let root :=
    if (FeIsNonZero check).1 =? 1 then
      let check := FeAdd vxx u in
      if (FeIsNonZero check).1 =? 1 then None
      else Some (FeToBytes (FeMul pX SqrtM1)).2
    else Some pX in
  match root with
  | None => None
  | Some pX =>
      let '(negative, pX) := FeIsNegative pX in
      let pX := if negative =? Z.shiftr (byte_at s 31) 7 then pX else FeNeg pX in
      Some (mkExtended pX pY pZ (FeMul pX pY))
  end.

(** ** Constant-time selection *)

Definition equal (b c : Z) : Z :=
  let x := uint32 (Z.lxor b c) in
  let x := uint32 (x - 1) in
  int32 (Z.shiftr x 31).
Definition negative (b : Z) : Z := Z.land (b >> 31)%i32 1.
Definition PreComputedGroupElementCMove (t u : PreComputedGroupElement) (b : Z) : PreComputedGroupElement :=
  mkPreComputed (FeCMove (pc_yPlusX t) (pc_yPlusX u) b) (FeCMove (pc_yMinusX t) (pc_yMinusX u) b)
    (FeCMove (pc_xy2d t) (pc_xy2d u) b).

(** ** The points of ecmath *)

Definition point_Add (x y : ExtendedGroupElement) : ExtendedGroupElement :=
  completed_ToExtended (geAdd x (extended_ToCached y)).
Definition point_Sub (x y : ExtendedGroupElement) : ExtendedGroupElement :=
  completed_ToExtended (geSub x (extended_ToCached y)).
Definition point_Encode (z : ExtendedGroupElement) : list Z := extended_ToBytes z.
Definition point_Decode (e : list Z) : option ExtendedGroupElement := extended_FromBytes e.
Definition ConstTimeEqual (z x : ExtendedGroupElement) : bool := bool_decide (point_Encode x = point_Encode z).
