(* ===== verification/Fe25519Spec.v ===== *)
(** * The field operations compute in GF(2^255 - 19)

    The integer a field element stands for, congruence modulo the prime as a
    setoid, the bounds on limbs that the operations keep, and the proof that
    within them no int32 or int64 operation overflows. *)

From S2P Require Import Prelude Encoding Primes Fe25519.
From stdpp Require Import list.
From Stdlib Require Import Setoid Morphisms Ring Zmod.Zmod.
#[local] Open Scope Z_scope.

(** ** Congruence modulo the prime *)

Definition p25519 : Z := 2 ^ 255 - 19.

Definition eqp (a b : Z) : Prop := a mod p25519 = b mod p25519.
Infix "≡p" := eqp (at level 70).

#[export] Instance eqp_equivalence : Equivalence eqp.
Proof. split; unfold eqp; repeat intro; congruence. Qed.

#[export] Instance eqp_add : Proper (eqp ==> eqp ==> eqp) Z.add.
Proof. intros a b H c d H'. unfold eqp in *. by rewrite (Z.add_mod a c), (Z.add_mod b d), H, H' by done. Qed.
#[export] Instance eqp_mul : Proper (eqp ==> eqp ==> eqp) Z.mul.
Proof. intros a b H c d H'. unfold eqp in *. by rewrite (Z.mul_mod a c), (Z.mul_mod b d), H, H' by done. Qed.
#[export] Instance eqp_opp : Proper (eqp ==> eqp) Z.opp.
Proof.
  intros a b H.
  replace (- a) with (-1 * a) by lia. replace (- b) with (-1 * b) by lia. by rewrite H.
Qed.
#[export] Instance eqp_sub : Proper (eqp ==> eqp ==> eqp) Z.sub.
Proof. intros a b H c d H'. by rewrite <- !Z.add_opp_r, H, H'. Qed.

Lemma eqp_of_eq a b : a = b → a ≡p b.
Proof. by intros ->. Qed.

(** A multiple of the prime more or less makes no difference. *)
Lemma eqp_multiple a b k : a = b + k * p25519 → a ≡p b.
Proof. intros ->. unfold eqp. by rewrite Z.mod_add by done. Qed.

Lemma eqp_pow a b n : a ≡p b → a ^ n ≡p b ^ n.
Proof.
  intros H. destruct (Z_lt_le_dec n 0) as [Hn|Hn]; [by rewrite !Z.pow_neg_r by lia|].
  revert n Hn. apply (natlike_ind (λ n, a ^ n ≡p b ^ n)); [done|].
  intros n Hn IH. by rewrite !Z.pow_succ_r, IH, H by lia.
Qed.

Lemma eqp_ring_theory : ring_theory 0 1 Z.add Z.mul Z.sub Z.opp eqp.
Proof. split; intros; apply eqp_of_eq; ring. Qed.
Lemma eqp_ring_eq_ext : ring_eq_ext Z.add Z.mul Z.opp eqp.
Proof. split; apply _. Qed.
Lemma eqp_morph : ring_morph 0 1 Z.add Z.mul Z.sub Z.opp eqp 0 1 Z.add Z.mul Z.sub Z.opp Z.eqb (λ x, x).
Proof. split; try done. intros x y H%Z.eqb_eq. by subst. Qed.

(** ** The integer of an element, and the bounds on its limbs *)

Definition fe_val (f : FieldElement) : Z :=
  fe0 f + 2 ^ 26 * fe1 f + 2 ^ 51 * fe2 f + 2 ^ 77 * fe3 f + 2 ^ 102 * fe4 f
  + 2 ^ 128 * fe5 f + 2 ^ 153 * fe6 f + 2 ^ 179 * fe7 f + 2 ^ 204 * fe8 f + 2 ^ 230 * fe9 f.

(** Even limbs at most [a] in absolute value, odd limbs at most [b]. *)
Definition bounded (a b : Z) (f : FieldElement) : Prop :=
  ((-a <= fe0 f <= a ∧ -b <= fe1 f <= b) ∧ (-a <= fe2 f <= a ∧ -b <= fe3 f <= b)
   ∧ (-a <= fe4 f <= a ∧ -b <= fe5 f <= b)) ∧ (-a <= fe6 f <= a ∧ -b <= fe7 f <= b)
   ∧ (-a <= fe8 f <= a ∧ -b <= fe9 f <= b).

(** 1.01 times 2^25 and 2^24: what a multiplication gives. *)
Definition tight : FieldElement → Prop := bounded 33889976 16944988.
(** 1.65 times 2^26 and 2^25: what a multiplication accepts. *)
Definition loose : FieldElement → Prop := bounded 110729625 55364812.
(** Sums and differences of two tight elements. *)
Definition double_tight : FieldElement → Prop := bounded 67779952 33889976.

(** ** Wrap-around *)

Lemma int64_congr x y : (∃ k, x = y + k * 2 ^ 64) → int64 x = int64 y.
Proof.
  intros [k ->]. unfold int64, wrapS.
  replace (y + k * 2 ^ 64 + 2 ^ (64 - 1)) with (y + 2 ^ (64 - 1) + k * 2 ^ 64) by ring.
  by rewrite Z.mod_add by done.
Qed.

Lemma int64_eq x : ∃ k, int64 x = x + k * 2 ^ 64.
Proof.
  exists (- ((x + 2 ^ (64 - 1)) / 2 ^ 64)). unfold int64, wrapS.
  pose proof (Z.div_mod (x + 2 ^ (64 - 1)) (2 ^ 64)). lia.
Qed.

Lemma int64_add_l x y : int64 (int64 x + y) = int64 (x + y).
Proof. destruct (int64_eq x) as [k ->]. apply int64_congr. exists k. ring. Qed.
Lemma int64_add_r x y : int64 (x + int64 y) = int64 (x + y).
Proof. destruct (int64_eq y) as [k ->]. apply int64_congr. exists k. ring. Qed.
Lemma int64_sub_l x y : int64 (int64 x - y) = int64 (x - y).
Proof. destruct (int64_eq x) as [k ->]. apply int64_congr. exists k. ring. Qed.
Lemma int64_sub_r x y : int64 (x - int64 y) = int64 (x - y).
Proof. destruct (int64_eq y) as [k ->]. apply int64_congr. exists (- k). ring. Qed.
Lemma int64_mul_l x y : int64 (int64 x * y) = int64 (x * y).
Proof. destruct (int64_eq x) as [k ->]. apply int64_congr. exists (k * y). ring. Qed.
Lemma int64_mul_r x y : int64 (x * int64 y) = int64 (x * y).
Proof. destruct (int64_eq y) as [k ->]. apply int64_congr. exists (k * x). ring. Qed.

Create Rewrite HintDb i64.
#[export] Hint Rewrite int64_add_l int64_add_r int64_sub_l int64_sub_r int64_mul_l int64_mul_r : i64.

(** ** Carries *)

Lemma round_shift h k : 0 < k →
  let c := Z.shiftr (h + Z.shiftl 1 (k - 1)) k in
  - 2 ^ (k - 1) <= h - c * 2 ^ k < 2 ^ (k - 1).
Proof.
  intros Hk c. subst c. rewrite Z.shiftl_mul_pow2, Z.shiftr_div_pow2, Z.mul_1_l by lia.
  assert (2 ^ k = 2 * 2 ^ (k - 1)) as E by (rewrite <- Z.pow_succ_r by lia; f_equal; lia).
  assert (0 < 2 ^ (k - 1)) by (apply Z.pow_pos_nonneg; lia).
  pose proof (Z.div_mod (h + 2 ^ (k - 1)) (2 ^ k)).
  pose proof (Z.mod_pos_bound (h + 2 ^ (k - 1)) (2 ^ k)). lia.
Qed.

Lemma carry_spec k h next : 0 < k → k < 63 →
  is_int64 (h + 2 ^ (k - 1)) →
  ∃ c, - 2 ^ (k - 1) <= h - c * 2 ^ k < 2 ^ (k - 1)
    ∧ (is_int64 (next + c) → carry k h next = (h - c * 2 ^ k, next + c))
    ∧ (is_int64 (next + c * 19) → carry19 k h next = (h - c * 2 ^ k, next + c * 19)).
Proof.
  intros Hk Hk' Hh. exists (Z.shiftr (h + Z.shiftl 1 (k - 1)) k).
  pose proof (round_shift h k Hk) as Hr. cbv zeta in Hr. split; [done|].
  assert (2 ^ (k - 1) <= 2 ^ 62) by (apply Z.pow_le_mono_r; lia).
  unfold carry, carry19, add64, sub64, mul64, shl64, shr64. rewrite <- Z.sub_1_r.
  autorewrite with i64. rewrite (int64_id (h + _))
    by (rewrite Z.shiftl_mul_pow2, Z.mul_1_l by lia; done).
  rewrite (Z.shiftl_mul_pow2 (Z.shiftr _ _)) by lia.
  rewrite (int64_id (h - _)) by (ranges; lia).
  split; intros; by rewrite int64_id.
Qed.

(** Run the next carry of the goal and bound its carry. *)
Ltac step_carry :=
  match goal with
  | |- context [carry ?k ?h ?n] =>
      let c := fresh "c" in let Hc := fresh "Hc" in let E := fresh "E" in
      destruct (carry_spec k h n) as (c & Hc & E & _); [lia | lia | ranges; lia |];
      rewrite E by (ranges; lia); clear E; cbv beta iota
  end.

(** What FeCombine needs of its ten sums, and what it makes of them. *)
Definition wide_val (h0 h1 h2 h3 h4 h5 h6 h7 h8 h9 : Z) : Z :=
  h0 + 2 ^ 26 * h1 + 2 ^ 51 * h2 + 2 ^ 77 * h3 + 2 ^ 102 * h4
  + 2 ^ 128 * h5 + 2 ^ 153 * h6 + 2 ^ 179 * h7 + 2 ^ 204 * h8 + 2 ^ 230 * h9.

Lemma FeCombine_spec h0 h1 h2 h3 h4 h5 h6 h7 h8 h9 :
  let B := 2 ^ 62 - 2 ^ 60 in
  -B <= h0 <= B → -B <= h1 <= B → -B <= h2 <= B → -B <= h3 <= B → -B <= h4 <= B →
  -B <= h5 <= B → -B <= h6 <= B → -B <= h7 <= B → -B <= h8 <= B → -B <= h9 <= B →
  let f := FeCombine h0 h1 h2 h3 h4 h5 h6 h7 h8 h9 in
  tight f ∧ fe_val f ≡p wide_val h0 h1 h2 h3 h4 h5 h6 h7 h8 h9.
Proof.
  cbv zeta. intros. unfold FeCombine.
  do 10 step_carry.
  match goal with
  | |- context [carry19 ?k ?h ?n] =>
      destruct (carry_spec k h n) as (c19 & Hc19 & _ & E); [lia | lia | ranges; lia |];
      rewrite E by (ranges; lia); clear E; cbv beta iota
  end.
  step_carry.
  rewrite !int32_id by (ranges; lia).
  split.
  - unfold tight, bounded; cbn [fe0 fe1 fe2 fe3 fe4 fe5 fe6 fe7 fe8 fe9]. lia.
  - apply (eqp_multiple _ _ (- c19)). unfold fe_val, wide_val, p25519.
    cbn [fe0 fe1 fe2 fe3 fe4 fe5 fe6 fe7 fe8 fe9]. ring.
Qed.

(** ** Multiplication *)

Lemma product_bound a b x y : -a <= x <= a → -b <= y <= b → -(a * b) <= x * y <= a * b.
Proof. intros. split; nia. Qed.
Lemma sum_bound a b x y : -a <= x <= a → -b <= y <= b → -(a + b) <= x + y <= a + b.
Proof. lia. Qed.
Lemma const_bound a : -Z.abs a <= a <= Z.abs a.
Proof. lia. Qed.
Lemma weaken_bound {a b x} : -a <= x <= a → (a <=? b) = true → -b <= x <= b.
Proof. intros ? ?%Z.leb_le. lia. Qed.

(** A bound on a sum of products, from the bounds on the variables in the
    context. *)
Ltac bound_of e :=
  lazymatch e with
  | ?x + ?y => let Hx := bound_of x in let Hy := bound_of y in constr:(sum_bound _ _ x y Hx Hy)
  | ?x * ?y => let Hx := bound_of x in let Hy := bound_of y in constr:(product_bound _ _ x y Hx Hy)
  | _ => match goal with
         | H : _ <= e <= _ |- _ => constr:(H)
         | _ => constr:(const_bound e)
         end
  end.
Ltac solve_bound :=
  match goal with
  | |- - ?b <= ?e <= ?b => let H := bound_of e in exact (weaken_bound (b := b) H eq_refl)
  end.

(** Limbs of an element, with their bounds. *)
Ltac limbs f H :=
  let a0 := fresh f "0" in let a1 := fresh f "1" in let a2 := fresh f "2" in
  let a3 := fresh f "3" in let a4 := fresh f "4" in let a5 := fresh f "5" in
  let a6 := fresh f "6" in let a7 := fresh f "7" in let a8 := fresh f "8" in
  let a9 := fresh f "9" in
  destruct f as [a0 a1 a2 a3 a4 a5 a6 a7 a8 a9];
  unfold loose, tight, double_tight, bounded in H; cbn [fe0 fe1 fe2 fe3 fe4 fe5 fe6 fe7 fe8 fe9] in H;
  destruct H as (([? ?] & [? ?] & [? ?]) & [? ?] & [? ?]).

Ltac unfold_ops :=
  unfold add32, sub32, mul32, neg32, shl32, shr32, add64, sub64, mul64, shl64, shr64.

(** Drop the wrap-around inside a sum of products, and then the outer one. *)
Ltac strip_int64 :=
  repeat (rewrite int64_add_l || rewrite int64_add_r || rewrite int64_mul_l || rewrite int64_mul_r);
  repeat match goal with
  | |- context [int64 ?e] =>
      let H := bound_of e in
      rewrite (int64_id e) by
        (let B := fresh in pose proof (weaken_bound (b := 2 ^ 62) H eq_refl) as B; ranges; lia)
  end.

(** The part of a product above 2^255. *)
Definition high (f g : FieldElement) : Z :=
  (2 * fe1 f * fe9 g + fe2 f * fe8 g + 2 * fe3 f * fe7 g + fe4 f * fe6 g + 2 * fe5 f * fe5 g + fe6 f * fe4 g + 2 * fe7 f * fe3 g + fe8 f * fe2 g + 2 * fe9 f * fe1 g)
  + 2 ^ 26 * (fe2 f * fe9 g + fe3 f * fe8 g + fe4 f * fe7 g + fe5 f * fe6 g + fe6 f * fe5 g + fe7 f * fe4 g + fe8 f * fe3 g + fe9 f * fe2 g)
  + 2 ^ 51 * (2 * fe3 f * fe9 g + fe4 f * fe8 g + 2 * fe5 f * fe7 g + fe6 f * fe6 g + 2 * fe7 f * fe5 g + fe8 f * fe4 g + 2 * fe9 f * fe3 g)
  + 2 ^ 77 * (fe4 f * fe9 g + fe5 f * fe8 g + fe6 f * fe7 g + fe7 f * fe6 g + fe8 f * fe5 g + fe9 f * fe4 g)
  + 2 ^ 102 * (2 * fe5 f * fe9 g + fe6 f * fe8 g + 2 * fe7 f * fe7 g + fe8 f * fe6 g + 2 * fe9 f * fe5 g)
  + 2 ^ 128 * (fe6 f * fe9 g + fe7 f * fe8 g + fe8 f * fe7 g + fe9 f * fe6 g)
  + 2 ^ 153 * (2 * fe7 f * fe9 g + fe8 f * fe8 g + 2 * fe9 f * fe7 g)
  + 2 ^ 179 * (fe8 f * fe9 g + fe9 f * fe8 g)
  + 2 ^ 204 * (2 * fe9 f * fe9 g).

Lemma FeMul_exact f g : loose f → loose g → tight (FeMul f g) ∧ fe_val (FeMul f g) ≡p fe_val f * fe_val g.
Proof.
  intros Hf Hg. limbs f Hf. limbs g Hg.
  unfold FeMul; cbv zeta; cbn [fe0 fe1 fe2 fe3 fe4 fe5 fe6 fe7 fe8 fe9].
  unfold_ops. rewrite !(int32_id (2 * _)), !(int32_id (19 * _)) by (ranges; lia).
  strip_int64.
  match goal with |- context [FeCombine ?a ?b ?c ?d ?e ?f ?g ?h ?i ?j] =>
    destruct (FeCombine_spec a b c d e f g h i j) as [Ht Hv]; [solve_bound..|] end.
  split; [exact Ht|]. rewrite Hv. clear Ht Hv.
  match goal with |- _ ≡p fe_val ?f * fe_val ?g => apply (eqp_multiple _ _ (- high f g)) end.
  unfold wide_val, fe_val, high, p25519. cbn [fe0 fe1 fe2 fe3 fe4 fe5 fe6 fe7 fe8 fe9]. ring.
Qed.

Definition wide (h : Wide) : Z :=
  wide_val (w0 h) (w1 h) (w2 h) (w3 h) (w4 h) (w5 h) (w6 h) (w7 h) (w8 h) (w9 h).

(** What the squares need: sums that can still be doubled. *)
Lemma feSquare_exact f : loose f →
  let h := feSquare f in let B := 2 ^ 61 - 2 ^ 59 in
  (((-B <= w0 h <= B ∧ -B <= w1 h <= B) ∧ -B <= w2 h <= B ∧ -B <= w3 h <= B ∧ -B <= w4 h <= B)
   ∧ (-B <= w5 h <= B ∧ -B <= w6 h <= B) ∧ -B <= w7 h <= B ∧ -B <= w8 h <= B ∧ -B <= w9 h <= B)
  ∧ wide h ≡p fe_val f * fe_val f.
Proof.
  intros Hf. limbs f Hf. cbv zeta.
  unfold feSquare; cbv zeta; cbn [fe0 fe1 fe2 fe3 fe4 fe5 fe6 fe7 fe8 fe9].
  unfold_ops. rewrite !(int32_id (2 * _)) by (ranges; lia).
  strip_int64. cbn [w0 w1 w2 w3 w4 w5 w6 w7 w8 w9]. split.
  - repeat lazymatch goal with |- _ <= _ <= _ => solve_bound | |- _ ∧ _ => split end.
  - match goal with |- _ ≡p fe_val ?f * fe_val ?g => apply (eqp_multiple _ _ (- high f g)) end.
    unfold wide, wide_val, fe_val, high, p25519.
    cbn [w0 w1 w2 w3 w4 w5 w6 w7 w8 w9 fe0 fe1 fe2 fe3 fe4 fe5 fe6 fe7 fe8 fe9]. ring.
Qed.

Lemma FeSquare_exact f : loose f → tight (FeSquare f) ∧ fe_val (FeSquare f) ≡p fe_val f * fe_val f.
Proof.
  intros Hf. destruct (feSquare_exact f Hf) as [Hb Hv]. unfold FeSquare.
  generalize dependent (feSquare f). cbv zeta. intros h Hb Hv. rewrite <- Hv.
  apply FeCombine_spec; lia.
Qed.

Lemma FeSquare2_exact f : loose f → tight (FeSquare2 f) ∧ fe_val (FeSquare2 f) ≡p 2 * (fe_val f * fe_val f).
Proof.
  intros Hf. destruct (feSquare_exact f Hf) as [Hb Hv]. unfold FeSquare2, add64.
  generalize dependent (feSquare f). cbv zeta. intros h Hb Hv. rewrite <- Hv.
  rewrite !int64_id by (ranges; lia).
  replace (2 * wide h) with
    (wide_val (w0 h + w0 h) (w1 h + w1 h) (w2 h + w2 h) (w3 h + w3 h) (w4 h + w4 h)
       (w5 h + w5 h) (w6 h + w6 h) (w7 h + w7 h) (w8 h + w8 h) (w9 h + w9 h))
    by (unfold wide, wide_val; ring).
  apply FeCombine_spec; lia.
Qed.

(** ** Sums, differences and opposites *)

Ltac limbwise :=
  unfold FeAdd, FeSub, FeNeg, tight, loose, double_tight, bounded, fe_val;
  cbn [fe0 fe1 fe2 fe3 fe4 fe5 fe6 fe7 fe8 fe9];
  unfold_ops; rewrite !int32_id by (ranges; lia).

Lemma FeAdd_exact a b B C B' C' f g :
  bounded a b f → bounded B C g → a + B <= B' → b + C <= C' → B' <= MaxInt32 → C' <= MaxInt32 →
  bounded B' C' (FeAdd f g) ∧ fe_val (FeAdd f g) = fe_val f + fe_val g.
Proof. intros Hf Hg ? ? ? ?. limbs f Hf. limbs g Hg. limbwise. split; [lia|ring]. Qed.

Lemma FeSub_exact a b B C B' C' f g :
  bounded a b f → bounded B C g → a + B <= B' → b + C <= C' → B' <= MaxInt32 → C' <= MaxInt32 →
  bounded B' C' (FeSub f g) ∧ fe_val (FeSub f g) = fe_val f - fe_val g.
Proof. intros Hf Hg ? ? ? ?. limbs f Hf. limbs g Hg. limbwise. split; [lia|ring]. Qed.

Lemma FeNeg_exact a b f : bounded a b f → a <= MaxInt32 → b <= MaxInt32 →
  bounded a b (FeNeg f) ∧ fe_val (FeNeg f) = - fe_val f.
Proof. intros Hf ? ?. limbs f Hf. limbwise. split; [lia|ring]. Qed.

(** ** Powers *)

(** The element is within the bounds and congruent to the n-th power of [z]. *)
Definition powered (z n : Z) (f : FieldElement) : Prop := loose f ∧ fe_val f ≡p z ^ n.

Lemma tight_loose f : tight f → loose f.
Proof. unfold tight, loose, bounded. lia. Qed.
Lemma double_tight_loose f : double_tight f → loose f.
Proof. unfold double_tight, loose, bounded. lia. Qed.
Lemma tight_double_tight f : tight f → double_tight f.
Proof. unfold double_tight, tight, bounded. lia. Qed.
#[export] Hint Resolve tight_loose double_tight_loose tight_double_tight : go.

Lemma powered_1 f : loose f → powered (fe_val f) 1 f.
Proof. intros H. split; [done|]. by rewrite Z.pow_1_r. Qed.

Lemma powered_mul z m n f g : 0 <= m → 0 <= n → powered z m f → powered z n g → powered z (m + n) (FeMul f g).
Proof.
  intros Hm Hn [Bf Vf] [Bg Vg]. destruct (FeMul_exact f g Bf Bg) as [Ht Hv].
  split; [auto with go|]. by rewrite Hv, Vf, Vg, Z.pow_add_r.
Qed.

Lemma powered_square z n f : 0 <= n → powered z n f → powered z (n + n) (FeSquare f).
Proof.
  intros Hn [Bf Vf]. destruct (FeSquare_exact f Bf) as [Ht Hv].
  split; [auto with go|]. by rewrite Hv, Vf, Z.pow_add_r.
Qed.

Lemma powered_loop z n k f : 0 <= n → powered z n f → powered z (n * 2 ^ Z.of_nat (k - 1)) (square_loop k f).
Proof.
  intros Hn Hf. unfold square_loop. induction (k - 1)%nat as [|j IH]; [by rewrite Z.mul_1_r|].
  rewrite Nat2Z.inj_succ, Z.pow_succ_r by lia.
  replace (n * (2 * 2 ^ Z.of_nat j)) with (n * 2 ^ Z.of_nat j + n * 2 ^ Z.of_nat j) by ring.
  cbn [Nat.iter]. apply powered_square; [lia|]. apply IH.
Qed.

(** The result of a chain: a product, so within the tight bounds. *)
Definition power_result (z n : Z) (f : FieldElement) : Prop := tight f ∧ fe_val f ≡p z ^ n.

Lemma power_result_mul z m n k f g : 0 <= m → 0 <= n → k = m + n →
  powered z m f → powered z n g → power_result z k (FeMul f g).
Proof.
  intros Hm Hn -> [Bf Vf] [Bg Vg]. destruct (FeMul_exact f g Bf Bg) as [Ht Hv].
  split; [done|]. by rewrite Hv, Vf, Vg, Z.pow_add_r.
Qed.

(** Running one assignment of a chain. *)
Lemma powered_let z m n e (k : FieldElement → FieldElement) :
  powered z m e → (∀ t, powered z m t → power_result z n (k t)) → power_result z n (let t := e in k t).
Proof. intros He Hk. by apply Hk. Qed.

Ltac powered_step :=
  lazymatch goal with
  | |- power_result ?z ?n (let t := ?e in @?k t) =>
      lazymatch e with
      | FeSquare ?f => refine (powered_let z _ n e k (powered_square z _ f _ ltac:(eassumption)) _)
      | FeMul ?f ?g => refine (powered_let z _ n e k (powered_mul z _ _ f g _ _ ltac:(eassumption) ltac:(eassumption)) _)
      | square_loop ?i ?f => refine (powered_let z _ n e k (powered_loop z _ i f _ ltac:(eassumption)) _)
      end;
      [ vm_compute; discriminate .. | intros ? ?; cbv beta ]
  | |- power_result ?z ?n (FeMul ?f ?g) =>
      eapply power_result_mul; [| | |eassumption..]; vm_compute; (discriminate || reflexivity)
  end.

(** The addition chain of FeInvert raises to p - 2. *)
Lemma FeInvert_power f : loose f → power_result (fe_val f) (p25519 - 2) (FeInvert f).
Proof. intros H%powered_1. cbv beta delta [FeInvert]. repeat powered_step. Qed.

(** The addition chain of fePow22523 raises to (p - 5) / 8. *)
Lemma fePow22523_power f : loose f → power_result (fe_val f) ((p25519 - 5) / 8) (fePow22523 f).
Proof. intros H%powered_1. cbv beta delta [fePow22523]. repeat powered_step. Qed.

(** ** Field elements and their 32 bytes

    FeFromBytes reads the integer of the bytes without their top bit;
    FeToBytes writes the least non-negative representative. *)

(** *** Reading *)

Lemma load3_value b0 b1 b2 r : is_byte b0 → is_byte b1 → is_byte b2 →
  load3 (b0 :: b1 :: b2 :: r) = b0 + 2 ^ 8 * b1 + 2 ^ 16 * b2.
Proof.
  unfold is_byte. intros. unfold load3, byte_at, shl64.
  change (default 0 ((b0 :: b1 :: b2 :: r) !! 0%nat)) with b0.
  change (default 0 ((b0 :: b1 :: b2 :: r) !! 1%nat)) with b1.
  change (default 0 ((b0 :: b1 :: b2 :: r) !! 2%nat)) with b2.
  rewrite !Z.shiftl_mul_pow2, !int64_id by (ranges; lia).
  rewrite (lor_shift b0), lor_shift by lia. lia.
Qed.

Lemma load4_value b0 b1 b2 b3 r : is_byte b0 → is_byte b1 → is_byte b2 → is_byte b3 →
  load4 (b0 :: b1 :: b2 :: b3 :: r) = b0 + 2 ^ 8 * b1 + 2 ^ 16 * b2 + 2 ^ 24 * b3.
Proof.
  intros. transitivity (Z.lor (load3 (b0 :: b1 :: b2 :: b3 :: r)) (b3 << 24)%i64); [done|].
  rewrite load3_value by done. unfold shl64, is_byte in *.
  rewrite Z.shiftl_mul_pow2, int64_id by (ranges; lia). rewrite lor_shift by lia. lia.
Qed.

Lemma FeFromBytes_exact src : length src = 32%nat → Forall is_byte src →
  tight (FeFromBytes src) ∧ fe_val (FeFromBytes src) ≡p le_value src mod 2 ^ 255.
Proof.
  intros Hl Hb. do 32 (destruct src as [|? src]; [discriminate Hl|]). destruct src; [|discriminate Hl]. clear Hl.
  repeat match goal with H : Forall _ (_ :: _) |- _ => apply Forall_cons_1 in H as [? H] end.
  unfold FeFromBytes. cbn [drop]. rewrite !load3_value, !load4_value by done. cbv zeta. clear Hb.
  unfold shl64, is_byte in *. change 8388607 with (Z.ones 23). rewrite Z.land_ones by lia.
  rewrite !Z.shiftl_mul_pow2 by lia.
  match goal with |- context [(?a + 2 ^ 8 * ?b + 2 ^ 16 * ?c) mod 2 ^ 23] =>
    pose proof (Z.div_mod c 128 ltac:(lia)); pose proof (Z.mod_pos_bound c 128 ltac:(lia));
    rewrite <- (Z.mod_unique (a + 2 ^ 8 * b + 2 ^ 16 * c) (2 ^ 23) (c / 128) (a + 2 ^ 8 * b + 2 ^ 16 * (c mod 128)))
      by lia;
    generalize dependent (c / 128); generalize dependent (c mod 128); intros
  end.
  rewrite !int64_id by (ranges; lia). cbn [le_value].
  match goal with |- context [FeCombine ?a ?b ?c ?d ?e ?f ?g ?h ?i ?j] =>
    destruct (FeCombine_spec a b c d e f g h i j) as [Ht Hv]; [lia..|] end.
  split; [exact Ht|]. rewrite Hv. apply eqp_of_eq. clear Ht Hv. unfold wide_val.
  match goal with H : ?c = 128 * ?q + _ |- _ => apply (Z.mod_unique _ _ q); [lia|subst c; ring] end.
Qed.

(** *** Writing *)

(** Each limb in the range of its width: what FeToBytes reduces to. *)
Definition canonical (f : FieldElement) : Prop :=
  ((0 <= fe0 f < 2 ^ 26 ∧ 0 <= fe1 f < 2 ^ 25) ∧ (0 <= fe2 f < 2 ^ 26 ∧ 0 <= fe3 f < 2 ^ 25)
   ∧ (0 <= fe4 f < 2 ^ 26 ∧ 0 <= fe5 f < 2 ^ 25)) ∧ (0 <= fe6 f < 2 ^ 26 ∧ 0 <= fe7 f < 2 ^ 25)
   ∧ (0 <= fe8 f < 2 ^ 26 ∧ 0 <= fe9 f < 2 ^ 25).

Lemma floor_bounds x k : 0 < k → 0 <= x - x / k * k < k.
Proof. intros. pose proof (Z.div_mod x k). pose proof (Z.mod_pos_bound x k). lia. Qed.

(** Name the quotient [x / k] of the goal, with the bounds on its remainder. *)
Ltac name_floor x k :=
  let q := fresh "q" in let H := fresh "Hq" in
  pose proof (floor_bounds x k ltac:(lia)) as H; generalize dependent (x / k); intros q H.

(** The quotient is the one of the division by the prime. *)
Lemma fe_quotient_exact h : loose h → fe_quotient h = fe_val h / p25519.
Proof.
  intros H. pose proof (floor_bounds (fe_val h) p25519 eq_refl) as HQ.
  generalize dependent (fe_val h / p25519). intros Q HQ.
  unfold fe_val, p25519 in HQ. limbs h H. unfold fe_quotient.
  cbn [fe0 fe1 fe2 fe3 fe4 fe5 fe6 fe7 fe8 fe9] in *. unfold_ops.
  rewrite !Z.shiftr_div_pow2 by lia. change (int32 (1 ≪ 24)) with (2 ^ 24).
  rewrite (int32_id (19 * _)), (int32_id (_ + 2 ^ 24)) by (ranges; lia).
  name_floor (19 * h9 + 2 ^ 24) (2 ^ 25).
  repeat match goal with |- context [int32 (?h + ?q)] =>
    is_var q; rewrite (int32_id (h + q)) by (ranges; lia);
    match goal with |- context [(h + q) / ?d] => name_floor (h + q) d end
  end.
  lia.
Qed.

Lemma carry_floor_spec k h next : 0 < k → k < 31 → is_int32 h → - 2 ^ 30 <= h →
  ∃ c, 0 <= h - c * 2 ^ k < 2 ^ k
    ∧ (is_int32 (next + c) → carry_floor k h next = (h - c * 2 ^ k, next + c)).
Proof.
  intros Hk Hk' Hh Hl. exists (h / 2 ^ k).
  assert (0 < 2 ^ k) by (apply Z.pow_pos_nonneg; lia).
  assert (2 ^ k <= 2 ^ 30) by (apply Z.pow_le_mono_r; lia).
  pose proof (floor_bounds h (2 ^ k) ltac:(lia)). split; [done|]. intros Hn.
  unfold carry_floor; unfold_ops. rewrite Z.shiftr_div_pow2, Z.shiftl_mul_pow2 by lia.
  rewrite (int32_id (h / 2 ^ k * 2 ^ k)), !int32_id by (ranges; lia). done.
Qed.

Ltac step_floor :=
  match goal with
  | |- context [carry_floor ?k ?h ?n] =>
      let c := fresh "c" in let Hc := fresh "Hc" in let E := fresh "E" in
      destruct (carry_floor_spec k h n) as (c & Hc & E); [lia | lia | ranges; lia | lia |];
      rewrite E by (ranges; lia); clear E; cbv beta iota
  end.

(** FeToBytes reduces its argument to the canonical limbs of the residue. *)
Lemma fe_reduce_exact h : loose h →
  canonical (fe_reduce h) ∧ fe_val (fe_reduce h) = fe_val h mod p25519.
Proof.
  intros H. unfold fe_reduce. rewrite fe_quotient_exact by done.
  pose proof (Z.div_mod (fe_val h) p25519 ltac:(done)) as HQ.
  pose proof (Z.mod_pos_bound (fe_val h) p25519 eq_refl) as HR.
  generalize dependent (fe_val h mod p25519). intros R HQ HR.
  generalize dependent (fe_val h / p25519). intros Q HQ.
  unfold fe_val, p25519 in HQ, HR. limbs h H. cbn [fe0 fe1 fe2 fe3 fe4 fe5 fe6 fe7 fe8 fe9] in *.
  unfold_ops. rewrite (int32_id (19 * _)), int32_id by (ranges; lia).
  do 10 step_floor. unfold canonical, fe_val. cbn [fe0 fe1 fe2 fe3 fe4 fe5 fe6 fe7 fe8 fe9].
  split; lia.
Qed.

Lemma uint8_lor x y : uint8 (Z.lor x y) = Z.lor (uint8 x) (uint8 y).
Proof.
  unfold uint8, wrapU. rewrite <- !Z.land_ones by lia. apply Z.land_lor_distr_l.
Qed.

Lemma uint8_int32 x : uint8 (int32 x) = uint8 x.
Proof.
  unfold uint8, wrapU, int32, wrapS.
  pose proof (Z.div_mod (x + 2 ^ (32 - 1)) (2 ^ 32) ltac:(lia)) as E.
  replace ((x + 2 ^ (32 - 1)) mod 2 ^ 32 - 2 ^ (32 - 1))
    with (x + (- (2 ^ 24 * ((x + 2 ^ (32 - 1)) / 2 ^ 32))) * 2 ^ 8) by lia.
  by rewrite Z.mod_add.
Qed.

(** A byte made of the top of one limb and the bottom of the next. *)
Lemma uint8_join a b k : 0 <= k <= 8 → 0 <= a < 2 ^ k → 0 <= b →
  uint8 (Z.lor a (shl32 b k)) = a + (b mod 2 ^ (8 - k)) * 2 ^ k.
Proof.
  intros Hk Ha Hb. unfold shl32. rewrite uint8_lor, uint8_int32, Z.shiftl_mul_pow2 by lia.
  assert (2 ^ k <= 2 ^ 8) by (apply Z.pow_le_mono_r; lia).
  unfold uint8, wrapU. rewrite (Z.mod_small a) by lia.
  replace (2 ^ 8) with (2 ^ (8 - k) * 2 ^ k) by (rewrite <- Z.pow_add_r by lia; f_equal; lia).
  rewrite Z.mul_mod_distr_r by (apply Z.pow_nonzero; lia). apply lor_shift; try lia.
  apply Z.mod_pos_bound. apply Z.pow_pos_nonneg; lia.
Qed.

Lemma uint8_shr32 x k : 0 <= k → uint8 (shr32 x k) = (x / 2 ^ k) mod 2 ^ 8.
Proof. intros. unfold shr32, uint8, wrapU. by rewrite Z.shiftr_div_pow2. Qed.

Lemma byte_of_div x k : 0 <= k → (x / 2 ^ k) mod 2 ^ 8 = x / 2 ^ k - 2 ^ 8 * (x / 2 ^ (k + 8)).
Proof.
  intros. rewrite Z.pow_add_r by lia. rewrite <- Z.div_div by lia.
  pose proof (Z.div_mod (x / 2 ^ k) (2 ^ 8) ltac:(lia)). lia.
Qed.

Lemma mod_of_div x k : 0 <= k → x mod 2 ^ k = x - 2 ^ k * (x / 2 ^ k).
Proof. intros. pose proof (Z.div_mod x (2 ^ k) ltac:(lia)). lia. Qed.

(** Evaluate sums and differences of constant exponents. *)
Ltac norm_exponents :=
  repeat match goal with
  | |- context [2 ^ (?a + ?b)] => let c := eval vm_compute in (a + b) in change (2 ^ (a + b)) with (2 ^ c)
  | |- context [2 ^ (?a - ?b)] => let c := eval vm_compute in (a - b) in change (2 ^ (a - b)) with (2 ^ c)
  end.

Lemma limb_bytes_value h : canonical h → le_value (limb_bytes h) = fe_val h.
Proof.
  intros H. destruct h as [h0 h1 h2 h3 h4 h5 h6 h7 h8 h9]. unfold canonical in H.
  cbn [fe0 fe1 fe2 fe3 fe4 fe5 fe6 fe7 fe8 fe9] in H. unfold limb_bytes. cbn [map].
  rewrite !uint8_shr32 by lia. unfold shr32. rewrite !Z.shiftr_div_pow2 by lia.
  rewrite !uint8_join by (try split; try (apply Z.div_pos || apply Z.div_lt_upper_bound); lia).
  cbn [le_value]. rewrite !byte_of_div, !mod_of_div by lia. norm_exponents.
  rewrite (Z.div_small h4 (2 ^ 26)), (Z.div_small h9 (2 ^ 26)) by lia.
  change (2 ^ 0) with 1. rewrite !Z.div_1_r.
  unfold fe_val. cbn [fe0 fe1 fe2 fe3 fe4 fe5 fe6 fe7 fe8 fe9]. ring.
Qed.

Lemma limb_bytes_bytes h : length (limb_bytes h) = 32%nat ∧ Forall is_byte (limb_bytes h).
Proof.
  destruct h. unfold limb_bytes. rewrite length_map. split; [done|].
  apply Forall_map, Forall_true. intros x. unfold is_byte, uint8, wrapU.
  pose proof (Z.mod_pos_bound x (2 ^ 8) ltac:(lia)). lia.
Qed.

(** FeToBytes writes the least non-negative representative. *)
Lemma FeToBytes_exact h : loose h →
  let '(s, h') := FeToBytes h in
  length s = 32%nat ∧ Forall is_byte s ∧ le_value s = fe_val h mod p25519
  ∧ canonical h' ∧ fe_val h' ≡p fe_val h.
Proof.
  intros H. unfold FeToBytes. destruct (fe_reduce_exact h H) as [Hc Hv].
  destruct (limb_bytes_bytes (fe_reduce h)). rewrite limb_bytes_value by done.
  split_and!; try done. rewrite Hv. unfold eqp. by rewrite Z.mod_mod.
Qed.

Lemma canonical_loose f : canonical f → loose f.
Proof. unfold canonical, loose, bounded. lia. Qed.

(** *** Tests, inverses and round trips *)

Lemma byte_at_0_mod s : le_value s mod 256 = byte_at s 0 mod 256.
Proof.
  destruct s as [|b s]; [done|]. cbn [le_value]. change (byte_at (b :: s) 0) with b.
  by rewrite (Z.mul_comm 256), Z.mod_add.
Qed.

Lemma FeIsNegative_exact f : loose f →
  (FeIsNegative f).1 = (fe_val f mod p25519) mod 2 ∧ canonical (FeIsNegative f).2
  ∧ fe_val (FeIsNegative f).2 ≡p fe_val f.
Proof.
  intros H. pose proof (FeToBytes_exact f H) as E. unfold FeIsNegative.
  destruct (FeToBytes f) as [s f']. destruct E as (Hl & Hb & Hv & Hc & He). split_and!; try done.
  rewrite <- Hv. cbn [fst]. change 1 with (Z.ones 1) at 1. rewrite Z.land_ones by lia.
  change (2 ^ 1) with 2. assert ((2 | 256)) as D by (by exists 128).
  by rewrite <- (Z.mod_mod_divide (le_value s) 256 2 D), byte_at_0_mod, Z.mod_mod_divide.
Qed.

Lemma fold_lor_zero s a : Forall is_byte s → 0 <= a → fold_left Z.lor s a = 0 ↔ a = 0 ∧ le_value s = 0.
Proof.
  intros Hs. revert a. induction Hs as [|b s Hb Hs IH]; intros a Ha; cbn [fold_left le_value]; [lia|].
  unfold is_byte in Hb. assert (0 <= le_value s) by (clear -Hs; induction Hs; cbn [le_value]; unfold is_byte in *; lia).
  rewrite IH by (apply Z.lor_nonneg; lia). rewrite Z.lor_eq_0_iff. lia.
Qed.

Lemma fold_lor_byte s a : Forall is_byte s → is_byte a → is_byte (fold_left Z.lor s a).
Proof.
  intros Hs. revert a. induction Hs as [|b s Hb Hs IH]; intros a Ha; cbn [fold_left]; [done|].
  apply IH. unfold is_byte in *. split; [apply Z.lor_nonneg; lia|].
  assert (Z.lor a b < 2 ^ 8); [|lia].
  destruct (Z.eq_dec (Z.lor a b) 0) as [->|]; [lia|].
  assert (0 <= Z.lor a b) by (apply Z.lor_nonneg; lia).
  apply Z.log2_lt_pow2; [lia|]. rewrite Z.log2_lor by lia.
  apply Z.max_lub_lt; (destruct (Z.eq_dec a 0), (Z.eq_dec b 0); subst; try done; apply Z.log2_lt_pow2; lia).
Qed.

Definition smear (x : Z) : Z :=
  let x := Z.lor x (Z.shiftr x 4) in
  let x := Z.lor x (Z.shiftr x 2) in
  let x := Z.lor x (Z.shiftr x 1) in
  Z.land x 1.

Lemma smear_byte x : is_byte x → smear x = if x =? 0 then 0 else 1.
Proof.
  intros Hx. unfold is_byte in Hx.
  assert (forallb (λ i, let x := Z.of_nat i in smear x =? if x =? 0 then 0 else 1) (seq 0 256) = true) as H
    by (vm_compute; reflexivity).
  rewrite forallb_forall in H. specialize (H (Z.to_nat x)). cbv zeta in H. rewrite Z2Nat.id in H by lia.
  apply Z.eqb_eq, H, in_seq. lia.
Qed.

Lemma FeIsNonZero_exact f : loose f →
  (FeIsNonZero f).1 = (if fe_val f mod p25519 =? 0 then 0 else 1)
  ∧ canonical (FeIsNonZero f).2 ∧ fe_val (FeIsNonZero f).2 ≡p fe_val f.
Proof.
  intros H. pose proof (FeToBytes_exact f H) as E. unfold FeIsNonZero.
  destruct (FeToBytes f) as [s f']. destruct E as (Hl & Hb & Hv & Hc & He). split_and!; try done.
  change (smear (fold_left Z.lor s 0) = if fe_val f mod p25519 =? 0 then 0 else 1).
  rewrite smear_byte by (by apply fold_lor_byte; [|unfold is_byte]). rewrite <- Hv.
  pose proof (fold_lor_zero s 0 Hb ltac:(done)) as Hz. zcases; tauto.
Qed.

Lemma FeCMove_exact f g b : b = 0 ∨ b = 1 → FeCMove f g b = if b =? 1 then g else f.
Proof.
  intros [-> | ->]; unfold FeCMove, cmove, neg32.
  - change (int32 (- (0))) with 0. rewrite !Z.land_0_l, !Z.lxor_0_r. by destruct f.
  - change (int32 (- (1))) with (-1). rewrite !Z.land_m1_l, <- !Z.lxor_assoc, !Z.lxor_nilpotent, !Z.lxor_0_l.
    by destruct g.
Qed.

Lemma eqp_zero a : a ≡p 0 ↔ a mod p25519 = 0.
Proof. unfold eqp. by rewrite Z.mod_0_l. Qed.

(** The inverse: FeInvert z is 1/z, and 0 for 0. *)
Lemma FeInvert_exact f : loose f →
  tight (FeInvert f) ∧
  if fe_val f mod p25519 =? 0 then fe_val (FeInvert f) ≡p 0 else fe_val f * fe_val (FeInvert f) ≡p 1.
Proof.
  intros H. destruct (FeInvert_power f H) as [Ht Hv]. split; [done|].
  destruct (Z.eqb_spec (fe_val f mod p25519) 0) as [E|E].
  - rewrite Hv. transitivity (0 ^ (p25519 - 2)); [|by rewrite Z.pow_0_l].
    apply eqp_pow. by apply eqp_zero.
  - rewrite Hv, <- Z.pow_succ_r by done. replace (Z.succ (p25519 - 2)) with (p25519 - 1) by lia.
    unfold eqp. by rewrite (Z.fermat_nz p25519 _ prime_25519 E).
Qed.

(** Reading back what was written gives the same element of the field. *)
Lemma FeFromBytes_FeToBytes f : loose f → fe_val (FeFromBytes (FeToBytes f).1) ≡p fe_val f.
Proof.
  intros H. pose proof (FeToBytes_exact f H) as E. destruct (FeToBytes f) as [s f']. cbn [fst].
  destruct E as (Hl & Hb & Hv & _). destruct (FeFromBytes_exact s Hl Hb) as [_ ->].
  rewrite Hv. pose proof (Z.mod_pos_bound (fe_val f) p25519 eq_refl).
  rewrite Z.mod_small by (unfold p25519 in *; lia). unfold eqp. by rewrite Z.mod_mod.
Qed.

(** Writing what was read gives the same bytes, for the canonical ones. *)
Lemma FeToBytes_FeFromBytes s : length s = 32%nat → Forall is_byte s → le_value s < p25519 →
  (FeToBytes (FeFromBytes s)).1 = s.
Proof.
  intros Hl Hb Hs. destruct (FeFromBytes_exact s Hl Hb) as [Ht Hv].
  pose proof (FeToBytes_exact (FeFromBytes s) (tight_loose _ Ht)) as E.
  destruct (FeToBytes (FeFromBytes s)) as [s' f']. cbn [fst]. destruct E as (Hl' & Hb' & Hv' & _).
  rewrite <- (le_bytes_value s'), <- (le_bytes_value s), Hl, Hl' by done. f_equal.
  rewrite Hv', Hv. pose proof (le_value_bound s Hb).
  rewrite (Z.mod_small _ (2 ^ 255)) by (unfold p25519 in *; lia). apply Z.mod_small. lia.
Qed.
