(* ===== verification/Edwards.v ===== *)
(** * The group of the ed25519 points

    The arithmetic of the field as an integral domain, the curve
    [-x² + y² = 1 + d x² y²] with its complete addition law, the affine points
    that extended, projective, cached, precomputed and completed coordinates
    stand for, and the proof that additions, subtractions, doublings and the
    encodings of points compute on them. *)

From S2P Require Import Prelude Encoding Primes Fe25519 Fe25519Spec.
From stdpp Require Import list.
From Stdlib Require Import Setoid Morphisms Ring NsatzTactic Zpow_facts Zmod.Zmod.
#[local] Open Scope Z_scope.

(** ** The field *)

#[export] Instance eqp_ops : @Ring_ops Z 0 1 Z.add Z.mul Z.sub Z.opp eqp := {}.
#[export] Instance eqp_ring : Ring (Ro := eqp_ops).
Proof.
  split; try apply _; intros; apply eqp_of_eq;
    unfold addition, multiplication, subtraction, opposite, zero, one, add_notation, mul_notation, sub_notation,
      opp_notation, zero_notation, one_notation; ring.
Qed.
#[export] Instance eqp_cring : Cring (Rr := eqp_ring).
Proof. intros x y. apply eqp_of_eq, Z.mul_comm. Qed.

Lemma eqp_divide a : a ≡p 0 ↔ (p25519 | a).
Proof. rewrite eqp_zero. apply Z.mod_divide. done. Qed.

Lemma eqp_mul_zero x y : x * y ≡p 0 → x ≡p 0 ∨ y ≡p 0.
Proof. rewrite !eqp_divide. apply (Z.divide_prime_mul x y p25519), prime_25519. Qed.

#[export] Instance eqp_domain : Integral_domain (Rcr := eqp_cring).
Proof. split; [exact eqp_mul_zero|done]. Qed.

Lemma eqp_sub_zero a b : a - b ≡p 0 → a ≡p b.
Proof. intros H. replace a with (a - b + b) by ring. rewrite H. by rewrite Z.add_0_l. Qed.

Lemma eqp_cancel a x y : ¬ a ≡p 0 → a * x ≡p a * y → x ≡p y.
Proof.
  intros Ha H. apply eqp_sub_zero. destruct (eqp_mul_zero a (x - y)) as [?|?]; [|done..].
  rewrite Z.mul_sub_distr_l, H. by rewrite Z.sub_diag.
Qed.

(** Polynomial consequences in the field; the constant left to the caller is not 0. *)
Ltac field_satz := nsatz; try (by vm_compute).

(** *** Squares *)

Lemma eqp_fermat a : ¬ a ≡p 0 → a ^ (p25519 - 1) ≡p 1.
Proof. rewrite eqp_zero. intros Ha. unfold eqp. by rewrite (Z.fermat_nz p25519 a prime_25519 Ha). Qed.

Lemma eqp_inverse a : ¬ a ≡p 0 → ∃ b, a * b ≡p 1.
Proof.
  intros Ha. exists (a ^ (p25519 - 2)). rewrite <- Z.pow_succ_r by done.
  replace (Z.succ (p25519 - 2)) with (p25519 - 1) by lia. by apply eqp_fermat.
Qed.

(** The constants d = -121665/121666 and the square root of -1. *)
Definition D : Z := fe_val d.
Definition im : Z := fe_val SqrtM1.

Lemma D_value : 121666 * D ≡p -121665.
Proof. by vm_compute. Qed.
Lemma d2_value : fe_val d2 ≡p 2 * D.
Proof. by vm_compute. Qed.
Lemma im_value : im * im ≡p -1.
Proof. by vm_compute. Qed.
Lemma D_euler : D ^ ((p25519 - 1) / 2) ≡p -1.
Proof. unfold eqp. rewrite <- Zpow_mod_correct by done. by vm_compute. Qed.
Opaque D im.

(** The exponent of Euler's criterion, kept folded. *)
Lemma half_order : ∃ n, 0 <= n ∧ n + n = p25519 - 1 ∧ D ^ n ≡p -1.
Proof. exists ((p25519 - 1) / 2). split_and!; [by vm_compute..|exact D_euler]. Qed.

Lemma D_nonsquare a b : a * a ≡p D * (b * b) → b ≡p 0.
Proof.
  intros H. destruct (decide (b mod p25519 = 0)) as [|Hb]; [by apply eqp_zero|exfalso].
  rewrite <- eqp_zero in Hb. destruct half_order as (n & Hn & Hnn & HD).
  pose proof (eqp_pow _ _ n H) as E.
  rewrite !Z.pow_mul_l, <- !Z.pow_add_r, Hnn, HD, (eqp_fermat b Hb) in E by exact Hn.
  destruct (decide (a mod p25519 = 0)) as [Ha|Ha]; rewrite <- eqp_zero in Ha.
  - rewrite (eqp_pow _ _ _ Ha), Z.pow_0_l in E by (by unfold p25519). by vm_compute in E.
  - rewrite (eqp_fermat a Ha) in E. by vm_compute in E.
Qed.

(** *** The addition law *)

Definition on_curve (x y : Z) : Prop := y * y - x * x ≡p 1 + D * (x * x) * (y * y).

Section addition.
Variables (x1 y1 x2 y2 : Z).
Hypotheses (H1 : on_curve x1 y1) (H2 : on_curve x2 y2).
Let k := D * x1 * x2 * y1 * y2.

Lemma sum_denominators : ¬ k * k ≡p 1.
Proof.
  intros Hk. unfold on_curve, k in *.
  assert (¬ x1 * y1 ≡p 0) as Hxy.
  { intros E. assert (1 ≡p 0) as C; [|by vm_compute in C]. clear H1 H2. pose proof im_value. field_satz. }
  assert (∀ s, s * s ≡p 1 → im * x2 + s * y2 ≡p 0) as Hs.
  { intros s Es. assert ((x1 * y1) * (im * x2 + s * y2) ≡p 0) as E; [|by apply eqp_mul_zero in E as [?|?]].
    apply (D_nonsquare (im * x1 + s * D * x1 * x2 * y1 * y2 * y1)). pose proof im_value. field_satz. }
  pose proof (Hs 1 eq_refl) as E1. pose proof (Hs (-1) eq_refl) as E2. pose proof im_value.
  assert (1 ≡p 0) as C; [|by vm_compute in C]. clear Hs H1 H2. field_satz.
Qed.

Lemma sum_denominator_x : ¬ 1 + k ≡p 0.
Proof. intros E. apply sum_denominators. clear H1 H2. field_satz. Qed.
Lemma sum_denominator_y : ¬ 1 - k ≡p 0.
Proof. intros E. apply sum_denominators. clear H1 H2. field_satz. Qed.

(** The coordinates of the sum: the quotients of the Edwards addition law. *)
Definition sum_of (x3 y3 : Z) : Prop :=
  ¬ 1 + k ≡p 0 ∧ ¬ 1 - k ≡p 0 ∧ x3 * (1 + k) ≡p x1 * y2 + y1 * x2 ∧ y3 * (1 - k) ≡p y1 * y2 + x1 * x2.

Lemma sum_on_curve x3 y3 : sum_of x3 y3 → on_curve x3 y3.
Proof.
  intros (Nx & Ny & Hx & Hy).
  apply (eqp_cancel (1 + k)), (eqp_cancel (1 + k)), (eqp_cancel (1 - k)), (eqp_cancel (1 - k)); [done..|].
  unfold on_curve, k in *. clear Nx Ny k. field_satz.
Qed.

Lemma sum_exists : ∃ x3 y3, sum_of x3 y3.
Proof.
  destruct (eqp_inverse (1 + k) sum_denominator_x) as [a Ha].
  destruct (eqp_inverse (1 - k) sum_denominator_y) as [b Hb].
  exists ((x1 * y2 + y1 * x2) * a), ((y1 * y2 + x1 * x2) * b). split_and!;
    [exact sum_denominator_x|exact sum_denominator_y| |]; clear H1 H2; field_satz.
Qed.
End addition.

(** *** Field elements with a known value *)

(** The limbs of [f] are within [n] times the tight bounds, and [f] is [v]. *)
Definition holds (n v : Z) (f : FieldElement) : Prop :=
  bounded (n * 33889976) (n * 16944988) f ∧ fe_val f ≡p v.

Lemma holds_loose n v f : n <= 3 → holds n v f → loose f.
Proof. intros Hn [H _]. revert H. unfold loose, bounded. lia. Qed.

Lemma holds_mul m n v w f g : m <= 3 → n <= 3 → holds m v f → holds n w g → holds 1 (v * w) (FeMul f g).
Proof.
  intros Hm Hn Hf Hg. destruct (FeMul_exact f g) as [Ht E]; [exact (holds_loose m v f Hm Hf)|exact (holds_loose n w g Hn Hg)|].
  split; [exact Ht|]. destruct Hf as [_ Hf], Hg as [_ Hg]. by rewrite E, Hf, Hg.
Qed.

Lemma holds_square n v f : n <= 3 → holds n v f → holds 1 (v * v) (FeSquare f).
Proof.
  intros Hn Hf. destruct (FeSquare_exact f) as [Ht E]; [exact (holds_loose n v f Hn Hf)|].
  split; [exact Ht|]. destruct Hf as [_ Hf]. by rewrite E, Hf.
Qed.

Lemma holds_square2 n v f : n <= 3 → holds n v f → holds 1 (2 * (v * v)) (FeSquare2 f).
Proof.
  intros Hn Hf. destruct (FeSquare2_exact f) as [Ht E]; [exact (holds_loose n v f Hn Hf)|].
  split; [exact Ht|]. destruct Hf as [_ Hf]. by rewrite E, Hf.
Qed.

Lemma holds_add m n v w f g : 0 <= m <= 3 → 0 <= n <= 3 → holds m v f → holds n w g →
  holds (m + n) (v + w) (FeAdd f g).
Proof.
  intros Hm Hn [Bf Hf] [Bg Hg]. destruct (FeAdd_exact _ _ _ _ ((m + n) * 33889976) ((m + n) * 16944988) f g Bf Bg)
    as [B E]; [lia..|]. split; [exact B|]. by rewrite E, Hf, Hg.
Qed.

Lemma holds_sub m n v w f g : 0 <= m <= 3 → 0 <= n <= 3 → holds m v f → holds n w g →
  holds (m + n) (v - w) (FeSub f g).
Proof.
  intros Hm Hn [Bf Hf] [Bg Hg]. destruct (FeSub_exact _ _ _ _ ((m + n) * 33889976) ((m + n) * 16944988) f g Bf Bg)
    as [B E]; [lia..|]. split; [exact B|]. by rewrite E, Hf, Hg.
Qed.

Lemma holds_eqp n v w f : v ≡p w → holds n v f → holds n w f.
Proof. intros E [B H]. split; [exact B|]. by rewrite H. Qed.

Lemma holds_weaken m n v f : m <= n → holds m v f → holds n v f.
Proof. intros Hn [B H]. split; [|done]. revert B. unfold bounded. lia. Qed.

Lemma holds_canonical v f : canonical f → fe_val f ≡p v → holds 2 v f.
Proof. intros Hc H. split; [|done]. revert Hc. unfold canonical, bounded. lia. Qed.

Lemma holds_neg n v f : 0 <= n <= 3 → holds n v f → holds n (- v) (FeNeg f).
Proof.
  intros Hn [B H]. destruct (FeNeg_exact _ _ f B) as [B' E]; [lia..|].
  split; [exact B'|]. by rewrite E, H.
Qed.

Lemma holds_d : holds 1 D d.
Proof. split; [by vm_compute|done]. Qed.
Lemma holds_d2 : holds 1 (2 * D) d2.
Proof. split; [by vm_compute|exact d2_value]. Qed.
Lemma holds_SqrtM1 : holds 1 im SqrtM1.
Proof. split; [by vm_compute|done]. Qed.
Lemma holds_zero n : 0 <= n → holds n 0 FeZero.
Proof. intros. split; [|by vm_compute]. unfold bounded, FeZero. cbn [fe0 fe1 fe2 fe3 fe4 fe5 fe6 fe7 fe8 fe9]. lia. Qed.
Lemma holds_one : holds 1 1 FeOne.
Proof. split; by vm_compute. Qed.

(** Name the next operation of the goal whose arguments are known, with its value. *)
Ltac name_op e lem :=
  let H := fresh "H" in
  assert (H := lem); cbn [Z.add Pos.add Pos.succ] in H; generalize dependent e; intros.
Ltac field_op :=
  match goal with
  | Hf : holds ?m ?v ?f, Hg : holds ?n ?w ?g |- context [FeMul ?f ?g] =>
      name_op (FeMul f g) (holds_mul m n v w f g ltac:(lia) ltac:(lia) Hf Hg)
  | Hf : holds ?m ?v ?f, Hg : holds ?n ?w ?g |- context [FeAdd ?f ?g] =>
      name_op (FeAdd f g) (holds_add m n v w f g ltac:(lia) ltac:(lia) Hf Hg)
  | Hf : holds ?m ?v ?f, Hg : holds ?n ?w ?g |- context [FeSub ?f ?g] =>
      name_op (FeSub f g) (holds_sub m n v w f g ltac:(lia) ltac:(lia) Hf Hg)
  | Hf : holds ?m ?v ?f |- context [FeAdd ?f ?f] =>
      name_op (FeAdd f f) (holds_add m m v v f f ltac:(lia) ltac:(lia) Hf Hf)
  | Hf : holds ?m ?v ?f |- context [FeSquare ?f] =>
      name_op (FeSquare f) (holds_square m v f ltac:(lia) Hf)
  | Hf : holds ?m ?v ?f |- context [FeSquare2 ?f] =>
      name_op (FeSquare2 f) (holds_square2 m v f ltac:(lia) Hf)
  end.

(** ** Points *)

(** The extended coordinates [P] stand for the affine point [(x, y)]. *)
Definition represents (P : ExtendedGroupElement) (x y : Z) : Prop :=
  ∃ z, ¬ z ≡p 0 ∧ holds 2 (x * z) (ex_X P) ∧ holds 1 (y * z) (ex_Y P) ∧ holds 1 z (ex_Z P)
       ∧ holds 1 (x * y * z) (ex_T P).

Lemma represents_zero : represents extended_Zero 0 1.
Proof. exists 1. split_and!; [by vm_compute|by apply holds_zero|exact holds_one..|by apply holds_zero]. Qed.

Lemma eqp_mul_nonzero a b : ¬ a ≡p 0 → ¬ b ≡p 0 → ¬ a * b ≡p 0.
Proof. intros Ha Hb [?|?]%eqp_mul_zero; done. Qed.

Lemma on_curve_opp x y : on_curve x y → on_curve (- x) y.
Proof. unfold on_curve. by rewrite !Z.mul_opp_opp. Qed.

(** Completed coordinates stand for [(x, y)] as X/Z and Y/T, over the denominators [u] and [v]. *)
Definition completes (C : CompletedGroupElement) (x y : Z) : Prop :=
  ∃ u v, ¬ u ≡p 0 ∧ ¬ v ≡p 0 ∧ holds 3 (x * u) (co_X C) ∧ holds 3 (y * v) (co_Y C)
         ∧ holds 3 u (co_Z C) ∧ holds 3 v (co_T C).

Lemma completed_ToExtended_exact C x y : completes C x y → represents (completed_ToExtended C) x y.
Proof.
  intros (u & v & Nu & Nv & HX & HY & HZ & HT). exists (u * v).
  pose proof (holds_mul 3 3 _ _ _ _ ltac:(lia) ltac:(lia) HX HT) as H1.
  pose proof (holds_mul 3 3 _ _ _ _ ltac:(lia) ltac:(lia) HY HZ) as H2.
  pose proof (holds_mul 3 3 _ _ _ _ ltac:(lia) ltac:(lia) HZ HT) as H3.
  pose proof (holds_mul 3 3 _ _ _ _ ltac:(lia) ltac:(lia) HX HY) as H4.
  split_and!; [by apply eqp_mul_nonzero|apply (holds_weaken 1); [lia|revert H1]|revert H2|exact H3|revert H4];
    apply holds_eqp, eqp_of_eq; ring.
Qed.

(** A known value is another expression for it, within wider bounds. *)
Ltac known :=
  match goal with H : holds ?n _ ?f |- holds ?m _ ?f =>
    apply (holds_weaken n m); [lia|]; revert H; apply holds_eqp; field_satz end.

(** The sum of two points in extended coordinates, the second one cached. *)
Definition caches (Q : CachedGroupElement) (x y : Z) : Prop :=
  ∃ z, ¬ z ≡p 0 ∧ holds 3 (y * z + x * z) (ca_yPlusX Q) ∧ holds 3 (y * z - x * z) (ca_yMinusX Q)
       ∧ holds 1 z (ca_Z Q) ∧ holds 1 (2 * D * (x * y * z)) (ca_T2d Q).

Lemma extended_ToCached_exact Q x y : represents Q x y → caches (extended_ToCached Q) x y.
Proof.
  intros (z & N & HX & HY & HZ & HT). exists z. pose proof holds_d2.
  unfold extended_ToCached. cbn [ca_yPlusX ca_yMinusX ca_Z ca_T2d]. repeat field_op.
  split_and!; [done|known..].
Qed.

Section sums.
Context (P : ExtendedGroupElement) (Q : CachedGroupElement) (x1 y1 x2 y2 : Z).
Context (HP : represents P x1 y1) (HQ : caches Q x2 y2).

Lemma geAdd_exact x3 y3 : sum_of x1 y1 x2 y2 x3 y3 → completes (geAdd P Q) x3 y3.
Proof using All.
  destruct HP as (z1 & N1 & HX1 & HY1 & HZ1 & HT1), HQ as (z2 & N2 & HA & HS & HZ2 & HT2). intros (Nx & Ny & Hx & Hy).
  exists (2 * (z1 * z2) * (1 + D * x1 * x2 * y1 * y2)), (2 * (z1 * z2) * (1 - D * x1 * x2 * y1 * y2)).
  unfold geAdd. cbn [co_X co_Y co_Z co_T]. repeat field_op.
  split_and!; [by repeat apply eqp_mul_nonzero..|known|known|known|known].
Qed.

Lemma geSub_exact x3 y3 : sum_of x1 y1 (- x2) y2 x3 y3 → completes (geSub P Q) x3 y3.
Proof using All.
  destruct HP as (z1 & N1 & HX1 & HY1 & HZ1 & HT1), HQ as (z2 & N2 & HA & HS & HZ2 & HT2). intros (Nx & Ny & Hx & Hy).
  exists (2 * (z1 * z2) * (1 + D * x1 * - x2 * y1 * y2)), (2 * (z1 * z2) * (1 - D * x1 * - x2 * y1 * y2)).
  unfold geSub. cbn [co_X co_Y co_Z co_T]. repeat field_op.
  split_and!; [by repeat apply eqp_mul_nonzero..|known|known|known|known].
Qed.
End sums.

(** The precomputed form of an affine point, as in the tables of the base point. *)
Definition precomputes (Q : PreComputedGroupElement) (x y : Z) : Prop :=
  holds 3 (y + x) (pc_yPlusX Q) ∧ holds 3 (y - x) (pc_yMinusX Q) ∧ holds 1 (2 * D * (x * y)) (pc_xy2d Q).

Section mixed_sums.
Context (P : ExtendedGroupElement) (Q : PreComputedGroupElement) (x1 y1 x2 y2 : Z).
Context (HP : represents P x1 y1) (HQ : precomputes Q x2 y2).

Lemma geMixedAdd_exact x3 y3 : sum_of x1 y1 x2 y2 x3 y3 → completes (geMixedAdd P Q) x3 y3.
Proof using All.
  destruct HP as (z1 & N1 & HX1 & HY1 & HZ1 & HT1), HQ as (HA & HS & HT2). intros (Nx & Ny & Hx & Hy).
  exists (2 * z1 * (1 + D * x1 * x2 * y1 * y2)), (2 * z1 * (1 - D * x1 * x2 * y1 * y2)).
  unfold geMixedAdd. cbn [co_X co_Y co_Z co_T]. repeat field_op.
  split_and!; [by repeat apply eqp_mul_nonzero..|known|known|known|known].
Qed.

Lemma geMixedSub_exact x3 y3 : sum_of x1 y1 (- x2) y2 x3 y3 → completes (geMixedSub P Q) x3 y3.
Proof using All.
  destruct HP as (z1 & N1 & HX1 & HY1 & HZ1 & HT1), HQ as (HA & HS & HT2). intros (Nx & Ny & Hx & Hy).
  exists (2 * z1 * (1 + D * x1 * - x2 * y1 * y2)), (2 * z1 * (1 - D * x1 * - x2 * y1 * y2)).
  unfold geMixedSub. cbn [co_X co_Y co_Z co_T]. repeat field_op.
  split_and!; [by repeat apply eqp_mul_nonzero..|known|known|known|known].
Qed.
End mixed_sums.

(** Doubling is the sum of a point with itself. *)
Definition projects (p : ProjectiveGroupElement) (x y : Z) : Prop :=
  ∃ z, ¬ z ≡p 0 ∧ holds 2 (x * z) (pr_X p) ∧ holds 1 (y * z) (pr_Y p) ∧ holds 1 z (pr_Z p).

Lemma projective_Double_exact p x y x3 y3 : on_curve x y → projects p x y → sum_of x y x y x3 y3 →
  completes (projective_Double p) x3 y3.
Proof.
  intros C (z & N & HX & HY & HZ) (Nx & Ny & Hx & Hy).
  exists (z * z * (1 + D * x * x * y * y)), (z * z * (1 - D * x * x * y * y)).
  unfold projective_Double. cbn [co_X co_Y co_Z co_T]. repeat field_op. unfold on_curve in C.
  split_and!; [by repeat apply eqp_mul_nonzero..|known|known|known|known].
Qed.

Lemma extended_ToProjective_exact P x y : represents P x y → projects (extended_ToProjective P) x y.
Proof. intros (z & N & HX & HY & HZ & _). by exists z. Qed.

Lemma completed_ToProjective_exact C x y : completes C x y → projects (completed_ToProjective C) x y.
Proof.
  intros HC. destruct (completed_ToExtended_exact C x y HC) as (z & N & HX & HY & HZ & _).
  exists z. exact (conj N (conj HX (conj HY HZ))).
Qed.

(** *** Encodings *)

Lemma FeInvert_holds n v f : n <= 3 → ¬ v ≡p 0 → holds n v f → ∃ w, v * w ≡p 1 ∧ holds 1 w (FeInvert f).
Proof.
  intros Hn Nv Hf. destruct (FeInvert_exact f (holds_loose n v f Hn Hf)) as [Ht Hi].
  destruct Hf as [_ Hf]. exists (fe_val (FeInvert f)). split; [|by split].
  destruct (Z.eqb_spec (fe_val f mod p25519) 0) as [E|E].
  - destruct Nv. rewrite <- Hf. by apply eqp_zero.
  - by rewrite <- Hf.
Qed.

(** The 32 bytes of a point: y, and the parity of x in the top bit. *)
Definition encoding (x y : Z) : list Z := le_bytes 32 (y mod p25519 + 2 ^ 255 * ((x mod p25519) mod 2)).

Lemma sign_bit c b : 0 <= c < 128 → b = 0 ∨ b = 1 → Z.lxor c (uint8 (Z.shiftl b 7)) = c + 128 * b.
Proof.
  intros Hc [-> | ->]; [by rewrite Z.lxor_0_r, Z.add_0_r|]. change (uint8 (1 ≪ 7)) with 128.
  assert (forallb (λ i, Z.lxor (Z.of_nat i) 128 =? Z.of_nat i + 128 * 1) (seq 0 128) = true) as H
    by (vm_compute; reflexivity).
  rewrite forallb_forall in H. specialize (H (Z.to_nat c)). rewrite Z2Nat.id in H by lia.
  apply Z.eqb_eq, H, in_seq. lia.
Qed.

Lemma le_value_last s : length s = 32%nat → le_value s = le_value (take 31 s) + 2 ^ 248 * byte_at s 31.
Proof.
  intros Hl. rewrite <- (take_drop 31 s) at 1. rewrite le_value_app. unfold len. rewrite length_take, Hl.
  change (256 ^ Z.of_nat (31 `min` 32)) with (2 ^ 248). f_equal. f_equal. unfold byte_at.
  assert (length (drop 31 s) = 1%nat) as Hd by (rewrite length_drop; lia).
  replace (s !! 31%nat) with (drop 31 s !! 0%nat) by (by rewrite lookup_drop).
  destruct (drop 31 s) as [|c [|]]; [done| |done]. change (c + 256 * 0 = c). lia.
Qed.

Lemma byte_at_byte s i : Forall is_byte s → is_byte (byte_at s i).
Proof.
  intros Hb. unfold byte_at. destruct (s !! i) as [c|] eqn:Ec; [|done]. by apply (Forall_lookup_1 _ _ _ _ Hb Ec).
Qed.

Lemma sign_byte s b : length s = 32%nat → Forall is_byte s → le_value s < 2 ^ 255 → b = 0 ∨ b = 1 →
  <[31%nat := Z.lxor (byte_at s 31) (uint8 (Z.shiftl b 7))]> s = le_bytes 32 (le_value s + 2 ^ 255 * b).
Proof.
  intros Hl Hb Hs Hd. pose proof (le_value_last s Hl) as E.
  pose proof (proj1 (le_value_bound _ (Forall_take _ 31 _ Hb))) as H0.
  pose proof (byte_at_byte s 31 Hb) as Hc. unfold is_byte in Hc. rewrite sign_bit by lia.
  set (c := byte_at s 31 + 128 * b).
  assert (length (<[31%nat:=c]> s) = 32%nat) as Hl' by (by rewrite length_insert).
  rewrite <- Hl' at 1.
  replace (le_value s + 2 ^ 255 * b) with (le_value (<[31%nat:=c]> s)).
  - symmetry. apply le_bytes_value, Forall_insert; [done|]. unfold is_byte, c. lia.
  - rewrite le_value_last by done. rewrite take_insert_ge by lia. rewrite E. unfold byte_at at 1.
    rewrite list_lookup_insert_eq by lia. cbn [default from_option]. unfold c. cbn. lia.
Qed.

Lemma parity_bit x : x mod 2 = 0 ∨ x mod 2 = 1.
Proof. pose proof (Z.mod_pos_bound x 2). lia. Qed.

Lemma affine_bytes_exact X Y Z x y z :
  ¬ z ≡p 0 → holds 2 (x * z) X → holds 1 (y * z) Y → holds 1 z Z → affine_bytes X Y Z = encoding x y.
Proof.
  intros N HX HY HZ. unfold affine_bytes. cbv zeta.
  destruct (FeInvert_holds 1 z Z ltac:(lia) N HZ) as (w & Hw & Hi). generalize dependent (FeInvert Z). intros i Hi.
  repeat field_op.
  rename select (holds 1 (x * z * w) _) into Hx. rename select (holds 1 (y * z * w) _) into Hy.
  destruct (FeIsNegative_exact _ (holds_loose 1 _ _ ltac:(lia) Hx)) as [-> _].
  match goal with |- context [FeToBytes ?f] => pose proof (FeToBytes_exact f (holds_loose 1 _ _ ltac:(lia) Hy)) as E;
    destruct (FeToBytes f) as [s f'] end.
  cbn [fst]. destruct E as (Hl & Hb & Hv & _).
  pose proof (Z.mod_pos_bound (y * z * w) p25519 eq_refl).
  destruct Hx as [_ Hx], Hy as [_ Hy]. unfold eqp in Hx, Hy. rewrite Hy in Hv. rewrite Hx.
  rewrite sign_byte by (done || apply parity_bit || (unfold p25519 in *; lia)).
  unfold encoding. rewrite Hv. f_equal.
  assert (x * z * w ≡p x) as Ex by (clear -Hw; field_satz).
  assert (y * z * w ≡p y) as Ey by (clear -Hw; field_satz). unfold eqp in Ex, Ey. by rewrite Ex, Ey.
Qed.

(** *** Decoding *)

(** The exponent of fePow22523, kept folded. *)
Definition root_exponent : Z := (p25519 - 5) / 8.
Lemma root_exponent_value : 0 <= root_exponent ∧ 8 * root_exponent + 4 = p25519 - 1.
Proof. by vm_compute. Qed.

Lemma fePow22523_holds n v f : n <= 3 → holds n v f → holds 1 (v ^ root_exponent) (fePow22523 f).
Proof.
  intros Hn Hf. destruct (fePow22523_power f (holds_loose n v f Hn Hf)) as [Ht E].
  split; [exact Ht|]. destruct Hf as [_ Hf]. rewrite E. by apply eqp_pow.
Qed.
Opaque root_exponent.

(** The fourth power behind the square root: w^((p-1)/4) is a root of unity for a square w. *)
Lemma square_unit t w : ¬ t ≡p 0 → w ≡p t * t →
  (w * (w ^ root_exponent * w ^ root_exponent)) * (w * (w ^ root_exponent * w ^ root_exponent)) ≡p 1.
Proof.
  intros Nt Hw. destruct root_exponent_value as [H0 H8]. rewrite <- (eqp_fermat t Nt), <- H8.
  rewrite (eqp_pow _ _ _ Hw), Hw, Z.pow_mul_l. apply eqp_of_eq.
  replace (8 * root_exponent + 4) with
    (1 + 1 + (root_exponent + root_exponent + root_exponent + root_exponent) + 
     (1 + 1 + (root_exponent + root_exponent + root_exponent + root_exponent))) by lia.
  rewrite !Z.pow_add_r, Z.pow_1_r by lia. ring.
Qed.

(** The candidate for the square root of u/v: right up to a sign when there is one. *)
Lemma root_candidate u v x : ¬ v ≡p 0 → v * (x * x) ≡p u →
  let v3 := v * v * v in let x0 := (v3 * v3 * v * u) ^ root_exponent * v3 * u in
  x0 * x0 * v ≡p u ∨ x0 * x0 * v ≡p - u.
Proof.
  intros Nv Hu v3 x0. destruct (decide (x mod p25519 = 0)) as [Hx|Hx]; rewrite <- eqp_zero in Hx.
  - left. assert (u ≡p 0) as E by (clear -Hu Hx; field_satz). unfold x0.
    generalize ((v3 * v3 * v * u) ^ root_exponent). intros e. subst v3 x0. clear -E. field_satz.
  - set (w := v3 * v3 * v * u) in *.
    assert (w ≡p (v * v * (v * v) * x) * (v * v * (v * v) * x)) as Hw
      by (subst w v3 x0; clear -Hu; field_satz).
    assert (x0 * x0 * v ≡p u * (w * (w ^ root_exponent * w ^ root_exponent))) as E.
    { unfold x0. generalize (w ^ root_exponent). intros e. subst w v3. apply eqp_of_eq. ring. }
    assert (¬ v * v * (v * v) * x ≡p 0) as Nt by (repeat apply eqp_mul_nonzero; assumption).
    pose proof (square_unit _ _ Nt Hw) as H1.
    generalize dependent (w * (w ^ root_exponent * w ^ root_exponent)). intros e E H1.
    destruct (eqp_mul_zero (e - 1) (e + 1)) as [H|H]; [|left|right]; clear -E H H1 || clear -H1; field_satz.
Qed.

(** The points with a given y are the square roots of (y² - 1)/(1 + D y²). *)
Lemma on_curve_root x y : on_curve x y ↔ (y * y * D + 1) * (x * x) ≡p y * y - 1.
Proof. unfold on_curve. split; intros H; field_satz. Qed.

Lemma root_denominator y : ¬ y * y * D + 1 ≡p 0.
Proof.
  intros H. pose proof im_value as Hi.
  assert (y ≡p 0) as Hy by (apply (D_nonsquare im); clear -H Hi; field_satz).
  assert (1 ≡p 0) as C by (clear -H Hy; field_satz). by vm_compute in C.
Qed.

(** The point with the given y and the given parity of x. *)
Definition decodes (P : option ExtendedGroupElement) (y sign : Z) : Prop :=
  match P with
  | Some P => ∃ x, on_curve x y ∧ represents P x y ∧ (x ≡p 0 ∨ (x mod p25519) mod 2 = sign)
  | None => ∀ x, ¬ on_curve x y
  end.

Lemma parity_opp x : ¬ x ≡p 0 → (- x mod p25519) mod 2 = 1 - (x mod p25519) mod 2.
Proof.
  rewrite eqp_zero. intros Hx. rewrite Z.mod_opp_l_nz by done.
  pose proof (Z.div_mod (x mod p25519) 2). unfold p25519 at 1.
  symmetry. apply (Z.mod_unique _ _ (2 ^ 254 - 10 - (x mod p25519) / 2)); [pose proof (parity_bit (x mod p25519)); lia|].
  lia.
Qed.

Lemma top_bit s : length s = 32%nat → Forall is_byte s →
  le_value s / 2 ^ 255 = Z.shiftr (byte_at s 31) 7 ∧ (Z.shiftr (byte_at s 31) 7 = 0 ∨ Z.shiftr (byte_at s 31) 7 = 1).
Proof.
  intros Hl Hb. pose proof (byte_at_byte s 31 Hb) as Hc. unfold is_byte in Hc.
  rewrite Z.shiftr_div_pow2 by lia. change (2 ^ 7) with 128.
  pose proof (le_value_bound _ (Forall_take _ 31 _ Hb)) as H0. unfold len in H0.
  rewrite length_take, Hl in H0. change (256 ^ Z.of_nat (31 `min` 32)) with (2 ^ 248) in H0.
  rewrite (le_value_last s Hl). generalize dependent (byte_at s 31). intros c Hc.
  pose proof (Z.div_mod c 128). pose proof (Z.mod_pos_bound c 128). split; [|lia].
  symmetry. apply (Z.div_unique _ _ _ (le_value (take 31 s) + 2 ^ 248 * (c mod 128))); lia.
Qed.

(** The last step of FromBytes: the sign, and the product T. *)
Lemma choose_sign X Y x y sign : on_curve x y → holds 2 x X → holds 1 y Y → sign = 0 ∨ sign = 1 →
  decodes (let '(negative, pX) := FeIsNegative X in
           let pX := if negative =? sign then pX else FeNeg pX in
           Some (mkExtended pX Y FeOne (FeMul pX Y))) y sign.
Proof.
  intros C HX HY Hs. destruct (FeIsNegative_exact X (holds_loose 2 _ _ ltac:(lia) HX)) as (Hn & Hc & Hv).
  destruct (FeIsNegative X) as [b X']. cbn [fst snd] in *. cbv zeta.
  destruct HX as [_ HX]. pose proof (holds_canonical x X' Hc ltac:(by rewrite Hv)) as HX'.
  assert (b = (x mod p25519) mod 2) as -> by (by rewrite Hn, HX).
  set (b := (x mod p25519) mod 2). pose proof (parity_bit (x mod p25519)).
  assert (∃ x', on_curve x' y ∧ holds 2 x' (if b =? sign then X' else FeNeg X')
    ∧ (x' ≡p 0 ∨ (x' mod p25519) mod 2 = sign)) as (x' & C' & H' & Hp).
  { destruct (Z.eqb_spec b sign) as [E|E]; [exists x; by auto|].
    exists (- x). split_and!; [by apply on_curve_opp|by apply holds_neg|].
    destruct (decide (x mod p25519 = 0)) as [E0|E0]; rewrite <- eqp_zero in E0.
    - left. rewrite E0. done.
    - right. rewrite parity_opp by done. subst b. lia. }
  exists x'. split_and!; [done| |done]. generalize dependent (if b =? sign then X' else FeNeg X').
  clear Hv HX HX' Hn. intros X'' H''. exists 1. cbn [ex_X ex_Y ex_Z ex_T]. pose proof holds_one.
  repeat field_op. split_and!; [done|known..].
Qed.

Lemma FeIsNonZero_holds n v f : n <= 3 → holds n v f →
  if (FeIsNonZero f).1 =? 1 then ¬ v ≡p 0 else v ≡p 0.
Proof.
  intros Hn Hf. destruct (FeIsNonZero_exact f (holds_loose n v f Hn Hf)) as [-> _].
  destruct Hf as [_ Hf]. unfold eqp in Hf. rewrite Hf. pose proof (eqp_zero v).
  destruct (Z.eqb_spec (v mod p25519) 0); cbn [Z.eqb Pos.eqb]; tauto.
Qed.

Lemma FeToBytes_holds n v f : n <= 3 → holds n v f → holds 2 v (FeToBytes f).2.
Proof.
  intros Hn Hf. pose proof (FeToBytes_exact f (holds_loose n v f Hn Hf)) as E. destruct (FeToBytes f) as [s f'].
  destruct E as (_ & _ & _ & Hc & E), Hf as [_ Hf]. apply holds_canonical; [done|]. cbn [snd]. by rewrite E.
Qed.

Lemma extended_FromBytes_exact s : length s = 32%nat → Forall is_byte s →
  decodes (extended_FromBytes s) (le_value s mod 2 ^ 255) (le_value s / 2 ^ 255).
Proof.
  intros Hl Hb. destruct (top_bit s Hl Hb) as [Hsign Hbit]. rewrite Hsign in *.
  destruct (FeFromBytes_exact s Hl Hb) as [Ht Hy]. unfold extended_FromBytes. cbv zeta.
  assert (holds 1 (le_value s mod 2 ^ 255) (FeFromBytes s)) as HY by (by split).
  generalize dependent (FeFromBytes s). generalize (le_value s mod 2 ^ 255). intros y Y _ _ HY.
  pose proof holds_d. pose proof holds_one. pose proof holds_SqrtM1.
  repeat field_op.
  pose proof (root_denominator y) as Nv. pose proof (root_candidate (y * y - 1) (y * y * D + 1)) as Hroot.
  match goal with H : holds ?n ?w ?f |- context [fePow22523 ?f] =>
    assert (Hp := fePow22523_holds n w f ltac:(lia) H); generalize dependent (fePow22523 f); intros e He end.
  repeat field_op. cbv zeta in Hroot.
  match type of Hroot with ∀ _, _ → _ → ?r * _ * _ ≡p _ ∨ _ => generalize dependent r end. intros.
  repeat match goal with H : holds ?n ?w ?f |- context [(FeIsNonZero ?f).1 =? 1] =>
    pose proof (FeIsNonZero_holds n w f ltac:(lia) H); destruct ((FeIsNonZero f).1 =? 1) end.
  - intros x Hx%on_curve_root. destruct (Hroot x Nv Hx) as [E|E];
      rewrite E in *; [|]; match goal with H : ¬ ?a ≡p 0 |- _ => apply H; apply eqp_of_eq; ring end.
  - match goal with H : holds _ (?r * im) ?f |- _ =>
      apply (choose_sign _ _ (r * im)); [apply on_curve_root; pose proof im_value|by apply (FeToBytes_holds 1)|done..] end.
    field_satz.
  - match goal with H : holds _ ?r ?f |- context [FeIsNegative ?f] =>
      apply (choose_sign _ _ r); [apply on_curve_root|by apply (holds_weaken 1)|done..] end.
    field_satz.
Qed.

(** *** The points of ecmath *)

Lemma represents_eqp P x y x' y' : x ≡p x' → y ≡p y' → represents P x y → represents P x' y'.
Proof.
  intros Ex Ey (z & N & HX & HY & HZ & HT). exists z.
  split_and!; [exact N|revert HX|revert HY|exact HZ|revert HT]; apply holds_eqp; by rewrite ?Ex, ?Ey.
Qed.

Lemma point_Encode_exact P x y : represents P x y → point_Encode P = encoding x y.
Proof. intros (z & N & HX & HY & HZ & _). exact (affine_bytes_exact _ _ _ x y z N HX HY HZ). Qed.

Lemma encoding_bytes x y : length (encoding x y) = 32%nat ∧ Forall is_byte (encoding x y)
  ∧ le_value (encoding x y) mod 2 ^ 255 = y mod p25519 ∧ le_value (encoding x y) / 2 ^ 255 = (x mod p25519) mod 2.
Proof.
  unfold encoding. rewrite length_le_bytes. split_and!; [done|apply le_bytes_range|..];
    rewrite le_value_bytes; change (256 ^ Z.of_nat 32) with (2 ^ 256);
    pose proof (Z.mod_pos_bound y p25519 eq_refl); pose proof (parity_bit (x mod p25519));
    generalize dependent (y mod p25519); generalize dependent ((x mod p25519) mod 2); unfold p25519; intros b Hb r Hr.
  - rewrite (Z.mod_small _ (2 ^ 256)) by lia. symmetry. apply (Z.mod_unique _ _ b); lia.
  - rewrite (Z.mod_small _ (2 ^ 256)) by lia. symmetry. apply (Z.div_unique _ _ _ r); lia.
Qed.

(** Two points of the curve with one y and one parity of x are one point. *)
Lemma same_parity x x' y : on_curve x y → on_curve x' y →
  x' ≡p 0 ∨ (x' mod p25519) mod 2 = (x mod p25519) mod 2 → x' ≡p x.
Proof.
  intros H H' Hp. apply on_curve_root in H, H'.
  assert ((x' - x) * (x' + x) ≡p 0) as E.
  { apply (eqp_cancel (y * y * D + 1)); [apply root_denominator|]. clear -H H'. field_satz. }
  apply eqp_mul_zero in E as [E|E]; [by apply eqp_sub_zero|].
  assert (x' ≡p - x) as Ex by (clear -E; field_satz).
  destruct (decide (x mod p25519 = 0)) as [E0|E0]; rewrite <- eqp_zero in E0; [clear -E E0; field_satz|].
  destruct Hp as [Hp|Hp]; [destruct E0; clear -E Hp; field_satz|].
  unfold eqp in Ex. rewrite Ex, parity_opp in Hp by done. pose proof (parity_bit (x mod p25519)). lia.
Qed.

Lemma eqp_mod a : a mod p25519 ≡p a.
Proof. unfold eqp. by rewrite Z.mod_mod. Qed.

Lemma on_curve_eqp x y y' : y ≡p y' → on_curve x y → on_curve x y'.
Proof. unfold on_curve. intros E H. by rewrite <- E. Qed.

Lemma point_Decode_Encode P x y : on_curve x y → represents P x y →
  ∃ R, point_Decode (point_Encode P) = Some R ∧ represents R x y.
Proof.
  intros C HP. rewrite (point_Encode_exact P x y HP). unfold point_Decode.
  destruct (encoding_bytes x y) as (Hl & Hb & Hy & Hx).
  pose proof (extended_FromBytes_exact _ Hl Hb) as HD. rewrite Hy, Hx in HD.
  pose proof (eqp_mod y) as Ey.
  destruct (extended_FromBytes (encoding x y)) as [R|].
  - destruct HD as (x' & C' & HR & Hp). exists R. split; [reflexivity|]. revert HR. apply represents_eqp; [|exact Ey].
    exact (same_parity x x' y C (on_curve_eqp _ _ _ Ey C') Hp).
  - destruct (HD x). apply (on_curve_eqp x y); [symmetry; exact Ey|exact C].
Qed.

Lemma ConstTimeEqual_exact P Q x1 y1 x2 y2 : on_curve x1 y1 → on_curve x2 y2 → represents P x1 y1 → represents Q x2 y2 →
  ConstTimeEqual P Q = true ↔ x1 ≡p x2 ∧ y1 ≡p y2.
Proof.
  intros C1 C2 HP HQ. unfold ConstTimeEqual. rewrite bool_decide_eq_true.
  rewrite (point_Encode_exact P x1 y1 HP), (point_Encode_exact Q x2 y2 HQ). split.
  - intros E. destruct (encoding_bytes x1 y1) as (_ & _ & Hy1 & Hx1), (encoding_bytes x2 y2) as (_ & _ & Hy2 & Hx2).
    rewrite E in Hy2, Hx2. assert (y1 ≡p y2) as Ey by (unfold eqp; congruence). split; [|done].
    apply (same_parity x2 x1 y2); [done|by apply (on_curve_eqp x1 y1)|right; congruence].
  - unfold eqp, encoding. intros [-> ->]. done.
Qed.

(** C23: the ed25519 points compute in the group of the curve
    [-x² + y² = 1 + d x² y²] over GF(2^255 - 19), with d = -121665/121666.  For
    extended coordinates [P] and [Q] that stand for points of the curve, with
    limbs in the range that decoding and every operation give: Add, Sub and
    Double give coordinates, in that range again, of the sum, the difference
    and the double by the Edwards addition law, whose denominators are never 0; Encode then Decode gives the point
    back; ConstTimeEqual tells whether the affine points are equal.  Decode of
    any 32 bytes answers with a point of the curve whose y is the low 255 bits
    and the parity of whose x is the top bit (any top bit when x is 0), and
    fails only when no point of the curve has that y. *)
Theorem points_compute_on_the_curve P Q x1 y1 x2 y2 :
  on_curve x1 y1 → on_curve x2 y2 → represents P x1 y1 → represents Q x2 y2 →
  121666 * D ≡p -121665
  ∧ (∃ x3 y3, sum_of x1 y1 x2 y2 x3 y3 ∧ on_curve x3 y3 ∧ represents (point_Add P Q) x3 y3)
  ∧ (∃ x3 y3, sum_of x1 y1 (- x2) y2 x3 y3 ∧ on_curve x3 y3 ∧ represents (point_Sub P Q) x3 y3)
  ∧ (∃ x3 y3, sum_of x1 y1 x1 y1 x3 y3 ∧ on_curve x3 y3
       ∧ represents (completed_ToExtended (extended_Double P)) x3 y3)
  ∧ (∃ R, point_Decode (point_Encode P) = Some R ∧ represents R x1 y1)
  ∧ (ConstTimeEqual P Q = true ↔ x1 ≡p x2 ∧ y1 ≡p y2)
  ∧ (∀ s, length s = 32%nat → Forall is_byte s →
       decodes (point_Decode s) (le_value s mod 2 ^ 255) (le_value s / 2 ^ 255)).
Proof.
  intros C1 C2 HP HQ. pose proof (on_curve_opp _ _ C2) as C3. pose proof (extended_ToCached_exact Q x2 y2 HQ) as HQ'.
  split_and!; [exact D_value|..].
  - destruct (sum_exists _ _ _ _ C1 C2) as (x3 & y3 & H). exists x3, y3.
    split_and!; [exact H|exact (sum_on_curve _ _ _ _ C1 C2 _ _ H)|].
    apply completed_ToExtended_exact. exact (geAdd_exact _ _ _ _ _ _ HP HQ' _ _ H).
  - destruct (sum_exists _ _ _ _ C1 C3) as (x3 & y3 & H). exists x3, y3.
    split_and!; [exact H|exact (sum_on_curve _ _ _ _ C1 C3 _ _ H)|].
    apply completed_ToExtended_exact. exact (geSub_exact _ _ _ _ _ _ HP HQ' _ _ H).
  - destruct (sum_exists _ _ _ _ C1 C1) as (x3 & y3 & H). exists x3, y3.
    split_and!; [exact H|exact (sum_on_curve _ _ _ _ C1 C1 _ _ H)|].
    apply completed_ToExtended_exact. eapply projective_Double_exact; [exact C1| |exact H].
    by apply extended_ToProjective_exact.
  - by apply point_Decode_Encode.
  - by apply ConstTimeEqual_exact.
  - intros s. apply extended_FromBytes_exact.
Qed.

(** The base point, as Decode reads it from its 32 bytes. *)
Definition base_point : ExtendedGroupElement :=
  mkExtended
    (mkFe (-14297811) (-7645148) (-50964181) (-16471762) (-39537890) (-2696099) (-26142465) (-25176043) (-46344474) (-24795940))
    (mkFe (-26843541) (-6710886) 13421773 (-13421773) 26843546 6710886 (-13421773) 13421773 (-26843546) (-6710886))
    FeOne
    (mkFe 28827062 (-6116119) (-27349572) 244363 8635006 11264893 19351346 13413597 16611511 (-6414980)).

Example base_point_decoded : point_Decode (88 :: replicate 31 102) = Some base_point.
Proof. vm_compute. reflexivity. Qed.

Lemma points_compute_on_the_curve_witness :
  (∃ x3 y3, represents (point_Add base_point extended_Zero) x3 y3)
  ∧ ∃ R, point_Decode (point_Encode base_point) = Some R.
Proof.
  set (x := fe_val (ex_X base_point)). set (y := fe_val (ex_Y base_point)).
  assert (on_curve x y) as C by (vm_compute; reflexivity).
  assert (on_curve 0 1) as C0 by (vm_compute; reflexivity).
  assert (represents base_point x y) as HB.
  { exists 1. split_and!; [vm_compute; discriminate| | | |]; (split; [vm_compute; intuition discriminate|vm_compute; reflexivity]). }
  destruct (points_compute_on_the_curve base_point extended_Zero x y 0 1 C C0 HB represents_zero)
    as (_ & (x3 & y3 & _ & _ & HA) & _ & _ & (R & HR & _) & _).
  split; [by exists x3, y3|by exists R].
Defined.
