(* ===== verification/Sc25519.v ===== *)
(** * Scalars modulo the order of the base point ([ScMulAdd], [ScReduce])

    The 21-bit limb arithmetic of edwards25519.go and the scalar type of
    basis/crypto/ed25519/ecmath.  The Go functions are sequences of the same
    four assignments to the limbs s0 ... s23, which are int64 variables: here a
    list of 24 numbers and a program of [limb_op]s that says which assignments
    are made in which order. *)

From S2P Require Import Prelude Encoding Fe25519 Fe25519Spec.
From stdpp Require Import list.
#[local] Open Scope Z_scope.

(** ** Assignments to limbs *)

Definition limb (s : list Z) (i : nat) : Z := default 0 (s !! i).

Inductive limb_op :=
| Reduce (i : nat)   (* the limb i is folded into the limbs i-12 ... i-7 and cleared *)
| Round (i : nat)    (* carry[i] = (s_i + (1 << 20)) >> 21; s_i+1 += carry[i]; s_i -= carry[i] << 21 *)
| Floor (i : nat).   (* carry[i] = s_i >> 21;               s_i+1 += carry[i]; s_i -= carry[i] << 21 *)

(** [s_j += s_i * c] *)
Definition add_mul (j i : nat) (c : Z) (s : list Z) : list Z :=
  <[j := (limb s j + limb s i * c)%i64]> s.
(** [s_j -= s_i * c] *)
Definition sub_mul (j i : nat) (c : Z) (s : list Z) : list Z :=
  <[j := (limb s j - limb s i * c)%i64]> s.

(** [s_i+1 += carry; s_i -= carry << 21] *)
Definition move_carry (i : nat) (carry : Z) (s : list Z) : list Z :=
  let s := <[(i + 1)%nat := (limb s (i + 1) + carry)%i64]> s in
  <[i := (limb s i - (carry << 21))%i64]> s.

Definition exec_limb (o : limb_op) (s : list Z) : list Z :=
  match o with
  | Reduce i =>
      let s := add_mul (i - 12) i 666643 s in
      let s := add_mul (i - 11) i 470296 s in
      let s := add_mul (i - 10) i 654183 s in
      let s := sub_mul (i - 9) i 997805 s in
      let s := add_mul (i - 8) i 136657 s in
      let s := sub_mul (i - 7) i 683901 s in
      <[i := 0]> s
  | Round i => move_carry i ((limb s i + (1 << 20)) >> 21)%i64 s
  | Floor i => move_carry i (limb s i >> 21)%i64 s
  end.

Definition exec_limbs (p : list limb_op) (s : list Z) : list Z :=
  fold_left (λ s o, exec_limb o s) p s.

(** The part that both functions end with *)
Definition reduction : list limb_op :=
  [Reduce 23; Reduce 22; Reduce 21; Reduce 20; Reduce 19; Reduce 18;
   Round 6; Round 8; Round 10; Round 12; Round 14; Round 16;
   Round 7; Round 9; Round 11; Round 13; Round 15;
   Reduce 17; Reduce 16; Reduce 15; Reduce 14; Reduce 13; Reduce 12;
   Round 0; Round 2; Round 4; Round 6; Round 8; Round 10;
   Round 1; Round 3; Round 5; Round 7; Round 9; Round 11;
   Reduce 12;
   Floor 0; Floor 1; Floor 2; Floor 3; Floor 4; Floor 5; Floor 6; Floor 7; Floor 8; Floor 9; Floor 10; Floor 11;
   Reduce 12;
   Floor 0; Floor 1; Floor 2; Floor 3; Floor 4; Floor 5; Floor 6; Floor 7; Floor 8; Floor 9; Floor 10].

(** The carries of ScMulAdd after the products *)
Definition product_carries : list limb_op :=
  [Round 0; Round 2; Round 4; Round 6; Round 8; Round 10; Round 12; Round 14; Round 16; Round 18; Round 20; Round 22;
   Round 1; Round 3; Round 5; Round 7; Round 9; Round 11; Round 13; Round 15; Round 17; Round 19; Round 21].

(** ** Bytes and limbs *)

Definition mask21 (x : Z) : Z := Z.land 2097151 x.

(** [a0] to [a10] of ScMulAdd, and [s0] to [s10] of ScReduce *)
Definition load_low (a : list Z) : list Z :=
  [mask21 (load3 a);
   mask21 (load4 (drop 2 a) >> 5)%i64;
   mask21 (load3 (drop 5 a) >> 2)%i64;
   mask21 (load4 (drop 7 a) >> 7)%i64;
   mask21 (load4 (drop 10 a) >> 4)%i64;
   mask21 (load3 (drop 13 a) >> 1)%i64;
   mask21 (load4 (drop 15 a) >> 6)%i64;
   mask21 (load3 (drop 18 a) >> 3)%i64;
   mask21 (load3 (drop 21 a));
   mask21 (load4 (drop 23 a) >> 5)%i64;
   mask21 (load3 (drop 26 a) >> 2)%i64].

(** The twelve limbs of a scalar *)
Definition load_scalar (a : list Z) : list Z :=
  load_low a ++ [(load4 (drop 28 a) >> 7)%i64].

(** The 24 limbs of a hash *)
Definition load_wide (s : list Z) : list Z :=
  load_low s ++
  [mask21 (load4 (drop 28 s) >> 7)%i64;
   mask21 (load4 (drop 31 s) >> 4)%i64;
   mask21 (load3 (drop 34 s) >> 1)%i64;
   mask21 (load4 (drop 36 s) >> 6)%i64;
   mask21 (load3 (drop 39 s) >> 3)%i64;
   mask21 (load3 (drop 42 s));
   mask21 (load4 (drop 44 s) >> 5)%i64;
   mask21 (load3 (drop 47 s) >> 2)%i64;
   mask21 (load4 (drop 49 s) >> 7)%i64;
   mask21 (load4 (drop 52 s) >> 4)%i64;
   mask21 (load3 (drop 55 s) >> 1)%i64;
   mask21 (load4 (drop 57 s) >> 6)%i64;
   (load4 (drop 60 s) >> 3)%i64].

(** [byte((s_i >> j) | (s_i+1 << k))] *)
Definition join_limbs (s : list Z) (i : nat) (j k : Z) : Z :=
  uint8 (Z.lor (limb s i >> j)%i64 (limb s (i + 1) << k)%i64).
Definition cut_limb (s : list Z) (i : nat) (j : Z) : Z := uint8 (limb s i >> j)%i64.

Definition store_scalar (s : list Z) : list Z :=
  [cut_limb s 0 0; cut_limb s 0 8; join_limbs s 0 16 5;
   cut_limb s 1 3; cut_limb s 1 11; join_limbs s 1 19 2;
   cut_limb s 2 6; join_limbs s 2 14 7;
   cut_limb s 3 1; cut_limb s 3 9; join_limbs s 3 17 4;
   cut_limb s 4 4; cut_limb s 4 12; join_limbs s 4 20 1;
   cut_limb s 5 7; join_limbs s 5 15 6;
   cut_limb s 6 2; cut_limb s 6 10; join_limbs s 6 18 3;
   cut_limb s 7 5; cut_limb s 7 13;
   cut_limb s 8 0; cut_limb s 8 8; join_limbs s 8 16 5;
   cut_limb s 9 3; cut_limb s 9 11; join_limbs s 9 19 2;
   cut_limb s 10 6; join_limbs s 10 14 7;
   cut_limb s 11 1; cut_limb s 11 9; cut_limb s 11 17].

(** ** The two functions *)

(** [s_k := c_k + a_0*b_k + a_1*b_k-1 + ...], without [c_k] from 12 on *)
Definition product_limb (a b c : list Z) (k : nat) : Z :=
  fold_left (λ acc i, acc + limb a i * limb b (k - i))%i64
    (seq (k - 11) (min k 11 - (k - 11) + 1)) (limb c k).

Definition ScMulAdd (a b c : list Z) : list Z :=
  let a := load_scalar a in
  let b := load_scalar b in
  let c := load_scalar c in
  let s := map (product_limb a b c) (seq 0 23) ++ [0] in
  store_scalar (exec_limbs (product_carries ++ reduction) s).

Definition ScReduce (s : list Z) : list Z :=
  store_scalar (exec_limbs reduction (load_wide s)).

(** ** The scalars of ecmath *)

Definition sc_Zero : list Z := replicate 32 0.
Definition sc_One : list Z := 1 :: replicate 31 0.
Definition sc_NegOne : list Z :=
  [0xec; 0xd3; 0xf5; 0x5c; 0x1a; 0x63; 0x12; 0x58; 0xd6; 0x9c; 0xf7; 0xa2; 0xde; 0xf9; 0xde; 0x14;
   0; 0; 0; 0; 0; 0; 0; 0; 0; 0; 0; 0; 0; 0; 0; 0x10].
Definition sc_L : list Z :=
  [0xed; 0xd3; 0xf5; 0x5c; 0x1a; 0x63; 0x12; 0x58; 0xd6; 0x9c; 0xf7; 0xa2; 0xde; 0xf9; 0xde; 0x14;
   0; 0; 0; 0; 0; 0; 0; 0; 0; 0; 0; 0; 0; 0; 0; 0x10].

Definition sc_MulAdd (a b c : list Z) : list Z := ScMulAdd a b c.
Definition sc_Add (x y : list Z) : list Z := sc_MulAdd x sc_One y.
Definition sc_Sub (x y : list Z) : list Z := sc_MulAdd y sc_NegOne x.
Definition sc_Neg (x : list Z) : list Z := sc_MulAdd x sc_NegOne sc_Zero.
Definition sc_Reduce (x : list Z) : list Z := ScReduce x.
Definition sc_Equal (z x : list Z) : bool := bool_decide (x = z).
Definition sc_Prune (z : list Z) : list Z :=
  let z := <[0%nat := Z.land (byte_at z 0) 248]> z in
  let z := <[31%nat := Z.land (byte_at z 31) 127]> z in
  <[31%nat := Z.lor (byte_at z 31) 64]> z.

(** ** What they compute

    [order] is the order of the base point.  Every assignment keeps the value
    of the limbs modulo the order; an interval analysis of the two programs,
    run inside the logic, shows that no int64 operation overflows. *)

Definition order : Z := 2 ^ 252 + 27742317777372353535851937790883648493.

(** The number that limbs of 21 bits stand for *)
Fixpoint limbs_value (s : list Z) : Z :=
  match s with
  | [] => 0
  | x :: r => x + 2 ^ 21 * limbs_value r
  end.

Lemma limbs_value_insert s i v : (i < length s)%nat →
  limbs_value (<[i := v]> s) = limbs_value s + (v - limb s i) * 2 ^ (21 * Z.of_nat i).
Proof.
  revert i. induction s as [|x s IH]; intros [|i] Hi; cbn [length] in Hi; try lia.
  - change (<[0%nat := v]> (x :: s)) with (v :: s). change (limb (x :: s) 0) with x.
    cbn [limbs_value]. rewrite Z.mul_0_r. lia.
  - change (<[S i := v]> (x :: s)) with (x :: <[i := v]> s). change (limb (x :: s) (S i)) with (limb s i).
    cbn [limbs_value]. rewrite IH by lia. rewrite Nat2Z.inj_succ.
    replace (21 * Z.succ (Z.of_nat i)) with (21 + 21 * Z.of_nat i) by lia.
    rewrite Z.pow_add_r by lia. ring.
Qed.

Lemma limb_insert s i j v : (j < length s)%nat →
  limb (<[i := v]> s) j = if decide (i = j) then v else limb s j.
Proof.
  intros Hj. unfold limb. case_decide as E.
  - subst. by rewrite list_lookup_insert_eq.
  - by rewrite list_lookup_insert_ne.
Qed.

(** *** Intervals *)

Abbreviation interval := (Z * Z)%type.
Definition within (x : Z) (a : interval) : Prop := a.1 <= x <= a.2.
Definition abounds (a : list interval) (i : nat) : interval := default (0, 0) (a !! i).

Definition fits (a : interval) : bool := (MinInt64 <=? a.1) && (a.2 <=? MaxInt64).
Definition isum (a b : interval) : interval := (a.1 + b.1, a.2 + b.2).
Definition iscale (c : Z) (a : interval) : interval := (a.1 * c, a.2 * c).
Definition ineg (a : interval) : interval := (- a.2, - a.1).

Definition aadd_mul (j i : nat) (c : Z) (a : list interval) : option (list interval) :=
  let r := isum (abounds a j) (iscale c (abounds a i)) in
  if fits r then Some (<[j := r]> a) else None.
Definition asub_mul (j i : nat) (c : Z) (a : list interval) : option (list interval) :=
  let r := isum (abounds a j) (ineg (iscale c (abounds a i))) in
  if fits r then Some (<[j := r]> a) else None.

(** The intervals after a carry that leaves the limb in [rest] *)
Definition amove (i : nat) (carry rest : interval) (a : list interval) : option (list interval) :=
  let r := isum (abounds a (i + 1)) carry in
  if fits r then Some (<[i := rest]> (<[(i + 1)%nat := r]> a)) else None.

Definition aexec (n : nat) (o : limb_op) (a : list interval) : option (list interval) :=
  match o with
  | Reduce i =>
      if (12 <=? i)%nat && (i <? n)%nat then
        a ← aadd_mul (i - 12) i 666643 a;
        a ← aadd_mul (i - 11) i 470296 a;
        a ← aadd_mul (i - 10) i 654183 a;
        a ← asub_mul (i - 9) i 997805 a;
        a ← aadd_mul (i - 8) i 136657 a;
        a ← asub_mul (i - 7) i 683901 a;
        Some (<[i := (0, 0)]> a)
      else None
  | Round i =>
      if (i + 1 <? n)%nat then
        let x := isum (abounds a i) (2 ^ 20, 2 ^ 20) in
        if fits x then amove i (x.1 / 2 ^ 21, x.2 / 2 ^ 21) (- 2 ^ 20, 2 ^ 20 - 1) a else None
      else None
  | Floor i =>
      if (i + 1 <? n)%nat then
        let x := abounds a i in amove i (x.1 / 2 ^ 21, x.2 / 2 ^ 21) (0, 2 ^ 21 - 1) a
      else None
  end.

Definition aexecs (n : nat) (p : list limb_op) (a : list interval) : option (list interval) :=
  foldl (λ a o, a ≫= aexec n o) (Some a) p.

(** A state within its intervals *)
Definition sound (s : list Z) (a : list interval) : Prop := Forall2 within s a.

Lemma sound_length s a : sound s a → length s = length a.
Proof. apply Forall2_length. Qed.

Lemma sound_limb s a i : sound s a → within (limb s i) (abounds a i).
Proof.
  intros H. unfold limb, abounds. destruct (s !! i) as [x|] eqn:E.
  - destruct (Forall2_lookup_l _ _ _ _ _ H E) as (y & -> & Hy). done.
  - apply lookup_ge_None in E. destruct (a !! i) eqn:E'.
    + apply lookup_lt_Some in E'. apply sound_length in H. lia.
    + unfold within. cbn. lia.
Qed.

Lemma sound_insert s a i v r : sound s a → within v r → sound (<[i := v]> s) (<[i := r]> a).
Proof. intros. by apply Forall2_insert. Qed.

Lemma fits_int64 x r : within x r → fits r = true → is_int64 x.
Proof. unfold within, fits. intros. ranges. lia. Qed.

(** An update that keeps the limb [i] and adds to the value *)
Definition updated (i : nat) (s s' : list Z) (a' : list interval) (d : Z) : Prop :=
  sound s' a' ∧ length s' = length s ∧ limb s' i = limb s i ∧ limbs_value s' = limbs_value s + limb s i * d.

Lemma add_mul_sound j i c s a a' : 0 <= c → (j < length s)%nat → (i < length s)%nat → j ≠ i →
  sound s a → aadd_mul j i c a = Some a' →
  updated i s (add_mul j i c s) a' (c * 2 ^ (21 * Z.of_nat j)).
Proof.
  intros Hc Hj Hi Hne Hs. unfold aadd_mul. destruct (fits _) eqn:E; [|done]. intros [= <-].
  assert (within (limb s j + limb s i * c) (isum (abounds a j) (iscale c (abounds a i)))) as Hw.
  { pose proof (sound_limb s a j Hs). pose proof (sound_limb s a i Hs). unfold within, isum, iscale in *.
    cbn [fst snd]. nia. }
  unfold add_mul, add64, mul64. rewrite int64_add_r, int64_id by (by apply (fits_int64 _ _ Hw)).
  split_and!; [by apply sound_insert|by rewrite length_insert| |].
  - by rewrite limb_insert, decide_False.
  - rewrite limbs_value_insert by done. ring.
Qed.

Lemma sub_mul_sound j i c s a a' : 0 <= c → (j < length s)%nat → (i < length s)%nat → j ≠ i →
  sound s a → asub_mul j i c a = Some a' →
  updated i s (sub_mul j i c s) a' (- c * 2 ^ (21 * Z.of_nat j)).
Proof.
  intros Hc Hj Hi Hne Hs. unfold asub_mul. destruct (fits _) eqn:E; [|done]. intros [= <-].
  assert (within (limb s j - limb s i * c) (isum (abounds a j) (ineg (iscale c (abounds a i))))) as Hw.
  { pose proof (sound_limb s a j Hs). pose proof (sound_limb s a i Hs). unfold within, isum, iscale, ineg in *.
    cbn [fst snd]. nia. }
  unfold sub_mul, sub64, mul64. rewrite int64_sub_r, int64_id by (by apply (fits_int64 _ _ Hw)).
  split_and!; [by apply sound_insert|by rewrite length_insert| |].
  - by rewrite limb_insert, decide_False.
  - rewrite limbs_value_insert by done. ring.
Qed.

(** A carry [c] that leaves the limb within [rest] *)
Lemma move_carry_sound i c s a cr rest a' : (i + 1 < length s)%nat → sound s a → within c cr →
  within (limb s i - c * 2 ^ 21) rest → fits rest = true → amove i cr rest a = Some a' →
  sound (move_carry i c s) a' ∧ length (move_carry i c s) = length s
  ∧ limbs_value (move_carry i c s) = limbs_value s.
Proof.
  intros Hi Hs Hc Hr Hf. unfold amove. destruct (fits (isum _ _)) eqn:E; [|done]. intros [= <-].
  assert (within (limb s (i + 1) + c) (isum (abounds a (i + 1)) cr)) as Hw.
  { pose proof (sound_limb s a (i + 1) Hs). unfold within, isum in *. cbn [fst snd]. lia. }
  unfold move_carry, add64, sub64, shl64.
  rewrite (int64_id (_ + c)) by (by apply (fits_int64 _ _ Hw)).
  rewrite int64_sub_r, limb_insert by lia. rewrite decide_False by lia.
  rewrite Z.shiftl_mul_pow2, int64_id by (lia || by apply (fits_int64 _ _ Hr)).
  split; [|split]; [by apply sound_insert; [apply sound_insert|]|by rewrite !length_insert|].
  rewrite limbs_value_insert by (rewrite length_insert; lia). rewrite limb_insert by lia.
  rewrite decide_False, limbs_value_insert by lia. rewrite Nat2Z.inj_add.
  replace (21 * (Z.of_nat i + Z.of_nat 1)) with (21 + 21 * Z.of_nat i) by lia.
  rewrite Z.pow_add_r by lia. ring.
Qed.

(** What an assignment subtracts from the value *)
Definition folded (o : limb_op) (s : list Z) : Z :=
  match o with
  | Reduce i => limb s i * 2 ^ (21 * Z.of_nat (i - 12))
  | _ => 0
  end.

Lemma div_within x l h k : 0 < k → l <= x <= h → l / k <= x / k <= h / k.
Proof. intros. split; apply Z.div_le_mono; lia. Qed.

(** Folding the limb [i] subtracts a multiple of the order. *)
Lemma reduce_sound i s a a' : (12 <= i < length s)%nat → sound s a →
  aexec (length s) (Reduce i) a = Some a' →
  sound (exec_limb (Reduce i) s) a' ∧ length (exec_limb (Reduce i) s) = length s
  ∧ limbs_value (exec_limb (Reduce i) s) = limbs_value s - folded (Reduce i) s * order.
Proof.
  intros Hi Hs H. cbn [aexec exec_limb folded] in *.
  rewrite (proj2 (Nat.leb_le 12 i)), (proj2 (Nat.ltb_lt i (length s))) in H by lia. cbn [andb] in H.
  repeat (apply bind_Some in H as (? & ? & H)). simplify_eq.
  repeat match goal with
  | Hs : sound ?s ?a, Ha : aadd_mul ?j ?i ?c ?a = Some _ |- _ =>
      destruct (add_mul_sound j i c s a _ ltac:(lia) ltac:(lia) ltac:(lia) ltac:(lia) Hs Ha) as (? & ? & ? & ?);
      generalize dependent (add_mul j i c s); intros; clear Ha Hs
  | Hs : sound ?s ?a, Ha : asub_mul ?j ?i ?c ?a = Some _ |- _ =>
      destruct (sub_mul_sound j i c s a _ ltac:(lia) ltac:(lia) ltac:(lia) ltac:(lia) Hs Ha) as (? & ? & ? & ?);
      generalize dependent (sub_mul j i c s); intros; clear Ha Hs
  end.
  split; [by apply sound_insert|]. split; [rewrite !length_insert; lia|].
  rewrite limbs_value_insert by lia.
  repeat match goal with E : limbs_value _ = _ |- _ => rewrite E; clear E end.
  repeat match goal with E : limb _ i = limb _ i |- _ => rewrite E; clear E end.
  remember (i - 12)%nat as k eqn:Ek. unfold order.
  replace (Z.of_nat (i - 11)) with (Z.of_nat k + 1) by lia.
  replace (Z.of_nat (i - 10)) with (Z.of_nat k + 2) by lia.
  replace (Z.of_nat (i - 9)) with (Z.of_nat k + 3) by lia.
  replace (Z.of_nat (i - 8)) with (Z.of_nat k + 4) by lia.
  replace (Z.of_nat (i - 7)) with (Z.of_nat k + 5) by lia.
  replace (Z.of_nat i) with (Z.of_nat k + 12) by lia.
  rewrite !Z.mul_add_distr_l, !Z.pow_add_r by lia. generalize (2 ^ (21 * Z.of_nat k)). intros P.
  change (21 * 1) with 21. change (21 * 2) with 42. change (21 * 3) with 63. change (21 * 4) with 84.
  change (21 * 5) with 105. change (21 * 12) with 252. ring.
Qed.

Lemma exec_sound n o s a a' : length s = n → sound s a → aexec n o a = Some a' →
  sound (exec_limb o s) a' ∧ length (exec_limb o s) = n
  ∧ limbs_value (exec_limb o s) = limbs_value s - folded o s * order.
Proof.
  intros <- Hs. destruct o as [i|i|i].
  - intros H. apply (reduce_sound i s a); try done. cbn [aexec] in H.
    destruct (Nat.leb_spec 12 i), (Nat.ltb_spec i (length s)); done || lia.
  - cbn [aexec exec_limb folded]. destruct (i + 1 <? length s)%nat eqn:Hi; [|done].
    cbv zeta. destruct (fits _) eqn:Hf; [|done]. apply Nat.ltb_lt in Hi. intros H.
    assert (within (limb s i + 2 ^ 20) (isum (abounds a i) (2 ^ 20, 2 ^ 20))) as Hw.
    { pose proof (sound_limb s a i Hs). unfold within, isum in *. cbn [fst snd]. lia. }
    unfold add64, shr64. change (1 << 20)%i64 with (2 ^ 20).
    rewrite (int64_id (_ + 2 ^ 20)) by (by apply (fits_int64 _ _ Hw)).
    pose proof (round_shift (limb s i) 21 ltac:(lia)) as Hr. cbv zeta in Hr.
    change (Z.shiftl 1 (21 - 1)) with (2 ^ 20) in Hr. change (21 - 1) with 20 in Hr.
    rewrite Z.mul_0_l, Z.sub_0_r.
    eapply move_carry_sound; [done|done| | | |exact H]; [|unfold within; cbn [fst snd]; lia|done].
    rewrite Z.shiftr_div_pow2 by lia. by apply div_within.
  - cbn [aexec exec_limb folded]. destruct (i + 1 <? length s)%nat eqn:Hi; [|done].
    cbv zeta. apply Nat.ltb_lt in Hi. intros H. pose proof (sound_limb s a i Hs) as Hw.
    unfold shr64. rewrite Z.shiftr_div_pow2 by lia. rewrite Z.mul_0_l, Z.sub_0_r.
    eapply move_carry_sound; [done|done| | | |exact H]; [by apply div_within| |done].
    pose proof (floor_bounds (limb s i) (2 ^ 21) ltac:(lia)). unfold within. cbn [fst snd]. lia.
Qed.

Lemma aexecs_cons n o p a a' : aexecs n (o :: p) a = Some a' →
  ∃ a1, aexec n o a = Some a1 ∧ aexecs n p a1 = Some a'.
Proof.
  unfold aexecs. cbn [foldl mbind option_bind]. intros H. destruct (aexec n o a) as [a1|]; [by exists a1|].
  exfalso. induction p as [|o' p IH]; [done|]. by apply IH.
Qed.

Lemma execs_sound n p s a a' : length s = n → sound s a → aexecs n p a = Some a' →
  sound (exec_limbs p s) a' ∧ length (exec_limbs p s) = n
  ∧ ∃ k, limbs_value (exec_limbs p s) = limbs_value s + k * order.
Proof.
  revert s a. induction p as [|o p IH]; intros s a Hn Hs H.
  - unfold aexecs in H. cbn in H. simplify_eq. split_and!; [done|done|]. exists 0. cbn. lia.
  - apply aexecs_cons in H as (a1 & E & H).
    destruct (exec_sound n o s a a1 Hn Hs E) as (Hs1 & Hn1 & Hv1).
    destruct (IH (exec_limb o s) a1 Hn1 Hs1 H) as (Hs2 & Hn2 & k & Hv2).
    split_and!; [done|done|]. exists (k - folded o s).
    change (exec_limbs (o :: p) s) with (exec_limbs p (exec_limb o s)). rewrite Hv2, Hv1. ring.
Qed.

(** Carries alone keep the value. *)
Definition is_carry (o : limb_op) : bool := match o with Reduce _ => false | _ => true end.

Lemma carries_sound n p s a a' : forallb is_carry p = true → length s = n → sound s a →
  aexecs n p a = Some a' → limbs_value (exec_limbs p s) = limbs_value s.
Proof.
  revert s a. induction p as [|o p IH]; intros s a Hc Hn Hs H; [done|].
  cbn [forallb] in Hc. apply andb_prop in Hc as [Ho Hc].
  apply aexecs_cons in H as (a1 & E & H). destruct (exec_sound n o s a a1 Hn Hs E) as (Hs1 & Hn1 & Hv1).
  change (exec_limbs (o :: p) s) with (exec_limbs p (exec_limb o s)).
  rewrite (IH _ a1) by done. rewrite Hv1. destruct o; [done|cbn [folded]; lia..].
Qed.

(** The smallest and the largest value within intervals *)
Lemma value_bounds s a : sound s a → limbs_value (map fst a) <= limbs_value s <= limbs_value (map snd a).
Proof. intros H. induction H as [|x i s a Hx _ IH]; cbn [map limbs_value]; [lia|]. unfold within in Hx. lia. Qed.

Definition covers (a b : interval) : bool := (b.1 <=? a.1) && (a.2 <=? b.2).

Lemma sound_weaken s a b : sound s a → forallb (λ '(x, y), covers x y) (zip a b) = true → length a = length b →
  sound s b.
Proof.
  intros H. revert b. induction H as [|x i s a Hx _ IH]; intros [|j b] Hc Hl; try done; [constructor|].
  cbn [zip zip_with forallb] in Hc. apply andb_prop in Hc as [Hc Hr]. injection Hl as Hl.
  constructor; [unfold covers, within in *; lia|by apply IH].
Qed.

Lemma sound_refine s a i r : (i < length s)%nat → sound s a → within (limb s i) r → sound s (<[i := r]> a).
Proof.
  intros Hi H Hr. rewrite <- (list_insert_id s i (limb s i)); [by apply sound_insert|].
  unfold limb. destruct (s !! i) eqn:E; [done|]. apply lookup_ge_None in E. lia.
Qed.

Lemma value_bounds_fix s a i : (i < length s)%nat → sound s a →
  let a' := <[i := (limb s i, limb s i)]> a in
  limbs_value (map fst a') <= limbs_value s <= limbs_value (map snd a').
Proof. intros Hi H. apply value_bounds, sound_refine; [done|done|]. unfold within. cbn. lia. Qed.

(** Twelve limbs of a reduced scalar *)
Definition reduced_limbs : list interval := replicate 11 (0, 2 ^ 21 - 1) ++ [(0, 2 ^ 21)] ++ replicate 12 (0, 0).

(** The bounds before the last two passes, and the passes *)
Definition before_last : list interval :=
  replicate 11 (- 2 ^ 30, 2 ^ 30) ++ [(- 2 ^ 20, 2 ^ 20 - 1)] ++ replicate 12 (0, 0).
Definition pass : list limb_op := map Floor (seq 0 11).

Lemma exec_limbs_app p q s : exec_limbs (p ++ q) s = exec_limbs q (exec_limbs p s).
Proof. apply fold_left_app. Qed.

Lemma exec_limbs_cons o p s : exec_limbs (o :: p) s = exec_limbs p (exec_limb o s).
Proof. done. Qed.

Lemma last_passes s : length s = 24%nat → sound s before_last →
  let t := exec_limbs (pass ++ Floor 11 :: Reduce 12 :: pass) s in
  sound t reduced_limbs ∧ length t = 24%nat
  ∧ 0 <= limbs_value t < order ∧ ∃ k, limbs_value t = limbs_value s + k * order.
Proof.
  intros Hn Hs. cbv zeta. pose proof (value_bounds _ _ Hs) as HV.
  replace (pass ++ Floor 11 :: Reduce 12 :: pass) with ((pass ++ [Floor 11]) ++ Reduce 12 :: pass) by reflexivity.
  rewrite exec_limbs_app, exec_limbs_cons.
  eassert (aexecs 24 (pass ++ [Floor 11]) before_last = Some _) as E1 by (vm_compute; reflexivity).
  destruct (execs_sound _ _ _ _ _ Hn Hs E1) as (Hs1 & Hn1 & _).
  pose proof (carries_sound _ (pass ++ [Floor 11]) _ _ _ eq_refl Hn Hs E1) as Hv1. clear E1.
  generalize dependent (exec_limbs (pass ++ [Floor 11]) s). intros t1 Hs1 Hn1 Hv1.
  pose proof (sound_limb _ _ 12 Hs1) as Hc.
  pose proof (value_bounds_fix t1 _ 12 ltac:(lia) Hs1) as HB. cbv zeta in HB.
  eassert (aexec 24 (Reduce 12) _ = Some _) as E2; [|
    destruct (exec_sound _ _ _ _ _ Hn1 Hs1 E2) as (Hs2 & Hn2 & Hv2); clear E2]; [vm_compute; reflexivity|].
  cbn [folded] in Hv2. change (2 ^ (21 * Z.of_nat (12 - 12))) with 1 in Hv2.
  generalize dependent (exec_limb (Reduce 12) t1). intros t2 Hs2 Hn2 Hv2.
  generalize dependent (limb t1 12). intros c Hc HB Hv2.
  assert (0 <= limbs_value t2 < order ∧ - 1 <= c <= 0) as [HO Hc'].
  { change (abounds _ 12) with (-1, 0) in Hc. unfold within in Hc. cbn [fst snd] in Hc.
    cbn in HB, HV. unfold order in *. lia. }
  eassert (aexecs 24 pass _ = Some _) as E3; [|
    destruct (execs_sound _ _ _ _ _ Hn2 Hs2 E3) as (Hs3 & Hn3 & _);
    pose proof (carries_sound _ pass _ _ _ eq_refl Hn2 Hs2 E3) as Hv3; clear E3]; [vm_compute; reflexivity|].
  generalize dependent (exec_limbs pass t2). intros t3 Hs3 Hn3 Hv3.
  pose proof (value_bounds_fix t3 _ 11 ltac:(lia) Hs3) as HT. cbn in HT.
  pose proof (sound_limb _ _ 11 Hs3) as Hl. change (abounds _ 11) with (-1, 2097152) in Hl.
  unfold within in Hl. cbn [fst snd] in Hl.
  split_and!; [|done|lia|lia|exists (- c); lia].
  refine (sound_refine t3 _ 11 (0, 2 ^ 21) _ Hs3 _); [lia|].
  assert (0 <= limb t3 11) by lia. unfold within. cbn [fst snd]. lia.
Qed.

(** *** Bytes *)

Lemma uint8_int64 x : uint8 (int64 x) = uint8 x.
Proof.
  unfold uint8, wrapU. destruct (int64_eq x) as [k ->].
  replace (x + k * 2 ^ 64) with (x + (k * 2 ^ 56) * 2 ^ 8) by ring. by rewrite Z.mod_add.
Qed.

Lemma uint8_join64 a b k : 0 <= k <= 8 → 0 <= a < 2 ^ k → 0 <= b →
  uint8 (Z.lor a (shl64 b k)) = a + (b mod 2 ^ (8 - k)) * 2 ^ k.
Proof.
  intros. unfold shl64. rewrite uint8_lor, uint8_int64, <- (uint8_int32 (Z.shiftl b k)), <- uint8_lor.
  by apply uint8_join.
Qed.

Lemma uint8_shr64 x k : 0 <= k → uint8 (shr64 x k) = (x / 2 ^ k) mod 2 ^ 8.
Proof. apply uint8_shr32. Qed.

Lemma store_scalar_value t : sound t reduced_limbs → le_value (store_scalar t) = limbs_value t.
Proof.
  intros H. unfold reduced_limbs in H. cbn [replicate app] in H.
  repeat (apply Forall2_cons_inv_r in H as (? & ? & ? & H & ->)). apply Forall2_nil_inv_r in H as ->.
  unfold within in *. cbn [fst snd] in *.
  repeat match goal with E : 0 <= ?x <= 0 |- _ => assert (x = 0) by lia; subst x; clear E end.
  unfold store_scalar, cut_limb, join_limbs, limb. cbn [Nat.add lookup list_lookup default from_option id].
  rewrite !uint8_shr64 by lia. unfold shr64. rewrite !Z.shiftr_div_pow2 by lia.
  rewrite !uint8_join64 by (try split; try (apply Z.div_pos || apply Z.div_lt_upper_bound); lia).
  cbn [le_value limbs_value]. rewrite !byte_of_div, !mod_of_div by lia. norm_exponents.
  repeat match goal with |- context [?x / 2 ^ 21] => rewrite (Z.div_small x (2 ^ 21)) by lia end.
  repeat match goal with |- context [?x / 2 ^ 25] => rewrite (Z.div_small x (2 ^ 25)) by lia end.
  change (2 ^ 0) with 1. rewrite !Z.div_1_r. ring.
Qed.

Lemma store_scalar_bytes t : length (store_scalar t) = 32%nat ∧ Forall is_byte (store_scalar t).
Proof.
  split; [done|].
  assert (∀ x, is_byte (uint8 x)) as Hb.
  { intros x. unfold is_byte, uint8, wrapU. pose proof (Z.mod_pos_bound x (2 ^ 8) ltac:(lia)). lia. }
  repeat (apply Forall_cons_2; [apply Hb|]). apply Forall_nil_2.
Qed.


Lemma le_value_drop j s : Forall is_byte s → le_value (drop j s) = le_value s / 2 ^ (8 * Z.of_nat j).
Proof.
  intros H. revert j. induction H as [|b s Hb _ IH]; intros [|j]; cbn [drop le_value].
  1,3: by rewrite Z.mul_0_r, Z.pow_0_r, Z.div_1_r.
  - by rewrite Z.div_0_l by (apply Z.pow_nonzero; lia).
  - rewrite IH. replace (8 * Z.of_nat (S j)) with (8 + 8 * Z.of_nat j) by lia.
    rewrite Z.pow_add_r, <- Z.div_div by (try lia; apply Z.pow_pos_nonneg; lia). f_equal.
    unfold is_byte in Hb. change (2 ^ 8) with 256. rewrite (Z.mul_comm 256), Z.div_add, Z.div_small by lia. lia.
Qed.

Lemma load_slices s j : Forall is_byte s → (j + 3 <= length s)%nat →
  load3 (drop j s) = (le_value s / 2 ^ (8 * Z.of_nat j)) mod 2 ^ 24
  ∧ ((j + 4 <= length s)%nat → load4 (drop j s) = (le_value s / 2 ^ (8 * Z.of_nat j)) mod 2 ^ 32).
Proof.
  intros H Hj. rewrite <- (le_value_drop j s H).
  assert (length (drop j s) = (length s - j)%nat) as Hl by apply length_drop.
  assert (Forall is_byte (drop j s)) as Hd by (by apply Forall_drop).
  destruct (drop j s) as [|b0 [|b1 [|b2 r]]]; cbn [length] in Hl; try lia.
  repeat (apply Forall_cons_1 in Hd as [? Hd]). unfold is_byte in *.
  split.
  - rewrite load3_value by (unfold is_byte; lia). cbn [le_value].
    apply (Z.mod_unique _ _ (le_value r)); [lia|ring].
  - intros. destruct r as [|b3 r]; cbn [length] in Hl; [lia|]. apply Forall_cons_1 in Hd as [? Hd].
    rewrite load4_value by (unfold is_byte in *; lia). cbn [le_value]. unfold is_byte in *.
    apply (Z.mod_unique _ _ (le_value r)); [lia|ring].
Qed.

Lemma slice x m k w : 0 <= k → 0 <= w → k + w <= m → (x mod 2 ^ m / 2 ^ k) mod 2 ^ w = (x / 2 ^ k) mod 2 ^ w.
Proof.
  intros. apply Z.bits_inj'. intros n Hn. rewrite !Z.testbit_mod_pow2 by lia.
  rewrite !Z.div_pow2_bits, Z.testbit_mod_pow2 by lia.
  destruct (Z.ltb_spec n w); [|done]. destruct (Z.ltb_spec (n + k) m); [done|lia].
Qed.

Lemma mask21_mod x : mask21 x = x mod 2 ^ 21.
Proof. unfold mask21. change 2097151 with (Z.ones 21). by rewrite Z.land_comm, Z.land_ones. Qed.

(** The limb at bit [b] of a number *)
Definition limb_at (V b : Z) : Z := (V / 2 ^ b) mod 2 ^ 21.

Lemma mask3 s j k : Forall is_byte s → (j + 3 <= length s)%nat → 0 <= k <= 3 →
  mask21 (shr64 (load3 (drop j s)) k) = limb_at (le_value s) (8 * Z.of_nat j + k).
Proof.
  intros H Hj Hk. destruct (load_slices s j H Hj) as [-> _]. unfold shr64, limb_at.
  rewrite mask21_mod, Z.shiftr_div_pow2, slice by lia.
  by rewrite Z.div_div, <- Z.pow_add_r by (lia || (apply Z.pow_nonzero; lia) || (apply Z.pow_pos_nonneg; lia)).
Qed.

Lemma mask4 s j k : Forall is_byte s → (j + 4 <= length s)%nat → 0 <= k <= 11 →
  mask21 (shr64 (load4 (drop j s)) k) = limb_at (le_value s) (8 * Z.of_nat j + k).
Proof.
  intros H Hj Hk. destruct (load_slices s j H ltac:(lia)) as [_ ->]; [|lia]. unfold shr64, limb_at.
  rewrite mask21_mod, Z.shiftr_div_pow2, slice by lia.
  by rewrite Z.div_div, <- Z.pow_add_r by (lia || (apply Z.pow_nonzero; lia) || (apply Z.pow_pos_nonneg; lia)).
Qed.

Lemma mask3_0 s j : Forall is_byte s → (j + 3 <= length s)%nat →
  mask21 (load3 (drop j s)) = limb_at (le_value s) (8 * Z.of_nat j + 0).
Proof. intros. rewrite <- mask3 by (done || lia). unfold shr64. by rewrite Z.shiftr_0_r. Qed.

Lemma load_low_limbs s : Forall is_byte s → (30 <= length s)%nat →
  load_low s = map (λ i, limb_at (le_value s) (21 * Z.of_nat i)) (seq 0 11).
Proof.
  intros H Hl. unfold load_low. change (load3 s) with (load3 (drop 0 s)).
  rewrite !mask3_0, !mask3, !mask4 by (done || lia). reflexivity.
Qed.

Lemma limbs_value_app a b : limbs_value (a ++ b) = limbs_value a + 2 ^ (21 * len a) * limbs_value b.
Proof.
  induction a as [|x a IH]; cbn [app limbs_value].
  - change (len []) with 0. rewrite Z.mul_0_r. lia.
  - rewrite IH. unfold len. cbn [length]. rewrite Nat2Z.inj_succ.
    replace (21 * Z.succ (Z.of_nat (length a))) with (21 + 21 * Z.of_nat (length a)) by lia.
    rewrite Z.pow_add_r by lia. ring.
Qed.

(** The limbs of a number and what is above them give the number. *)
Lemma limbs_of V k n :
  limbs_value (map (λ i, limb_at V (21 * Z.of_nat i)) (seq k n)) + 2 ^ (21 * Z.of_nat n) * (V / 2 ^ (21 * Z.of_nat (k + n)))
  = V / 2 ^ (21 * Z.of_nat k).
Proof.
  revert k. induction n as [|n IH]; intros k; cbn [seq map limbs_value].
  - rewrite Nat.add_0_r. lia.
  - specialize (IH (S k)). replace (S k + n)%nat with (k + S n)%nat in IH by lia.
    unfold limb_at at 1. rewrite Nat2Z.inj_succ.
    replace (21 * Z.succ (Z.of_nat n)) with (21 + 21 * Z.of_nat n) by lia. rewrite Z.pow_add_r by lia.
    replace (21 * Z.of_nat (S k)) with (21 * Z.of_nat k + 21) in IH by lia.
    rewrite Z.pow_add_r, <- Z.div_div in IH by (lia || (apply Z.pow_nonzero; lia) || (apply Z.pow_pos_nonneg; lia)).
    pose proof (Z.div_mod (V / 2 ^ (21 * Z.of_nat k)) (2 ^ 21) ltac:(lia)) as E. lia.
Qed.

Definition limb_interval : interval := (0, 2 ^ 21 - 1).

Lemma limb_at_sound V l : sound (map (λ i, limb_at V (21 * Z.of_nat i)) l) (replicate (length l) limb_interval).
Proof.
  induction l as [|i l IH]; cbn [map length replicate]; constructor; [|exact IH].
  unfold within, limb_at, limb_interval. cbn [fst snd].
  pose proof (Z.mod_pos_bound (V / 2 ^ (21 * Z.of_nat i)) (2 ^ 21) ltac:(lia)). lia.
Qed.

(** A load of the top bytes *)
Lemma top_slice s j k w : Forall is_byte s → (j + 4 = length s)%nat → 0 <= k → 0 <= w → k + w = 32 →
  shr64 (load4 (drop j s)) k = le_value s / 2 ^ (8 * Z.of_nat j + k)
  ∧ 0 <= le_value s / 2 ^ (8 * Z.of_nat j + k) < 2 ^ w.
Proof.
  intros H Hj Hk Hw Hkw. destruct (load_slices s j H ltac:(lia)) as [_ ->]; [|lia].
  pose proof (le_value_bound s H) as HV. unfold len in HV. rewrite <- Hj in HV.
  assert (256 ^ Z.of_nat (j + 4) = 2 ^ (8 * Z.of_nat j + k) * 2 ^ w) as E.
  { change 256 with (2 ^ 8). rewrite <- Z.pow_mul_r, <- Z.pow_add_r by lia. f_equal. lia. }
  assert (0 < 2 ^ (8 * Z.of_nat j)) by (apply Z.pow_pos_nonneg; lia).
  assert (0 < 2 ^ (8 * Z.of_nat j + k)) by (apply Z.pow_pos_nonneg; lia).
  assert (0 < 2 ^ k) by (apply Z.pow_pos_nonneg; lia).
  split.
  - unfold shr64. rewrite Z.shiftr_div_pow2 by lia. rewrite Z.mod_small.
    { by rewrite Z.div_div, <- Z.pow_add_r by lia. }
    split; [apply Z.div_pos; lia|]. apply Z.div_lt_upper_bound; [lia|].
    rewrite <- Z.pow_add_r by lia. replace (8 * Z.of_nat j + 32) with (8 * Z.of_nat j + k + w) by lia.
    rewrite (Z.pow_add_r _ _ w) by lia. lia.
  - split; [apply Z.div_pos; lia|]. apply Z.div_lt_upper_bound; lia.
Qed.

Lemma load_wide_value s : length s = 64%nat → Forall is_byte s →
  length (load_wide s) = 24%nat ∧ sound (load_wide s) (replicate 23 limb_interval ++ [(0, 2 ^ 29 - 1)])
  ∧ limbs_value (load_wide s) = le_value s.
Proof.
  intros Hl H. unfold load_wide. rewrite load_low_limbs by (done || lia).
  destruct (top_slice s 60 3 29) as [-> HT]; [done|lia..|].
  rewrite !mask3_0, !mask3, !mask4 by (done || lia).
  change (8 * Z.of_nat 60 + 3) with (21 * Z.of_nat 23) in *.
  match goal with |- _ ∧ sound ?l _ ∧ _ =>
    change l with (map (λ i, limb_at (le_value s) (21 * Z.of_nat i)) (seq 0 23) ++ [le_value s / 2 ^ (21 * Z.of_nat 23)])
  end.
  split; [done|]. split.
  - apply Forall2_app; [apply limb_at_sound|]. constructor; [|constructor]. unfold within. cbn [fst snd]. lia.
  - rewrite limbs_value_app. pose proof (limbs_of (le_value s) 0 23) as E.
    cbn [limbs_value]. rewrite Z.mul_0_r, Z.pow_0_r, Z.div_1_r in E.
    change (len _) with (Z.of_nat 23). change (0 + 23)%nat with 23%nat in E. lia.
Qed.

Lemma load_scalar_value s : length s = 32%nat → Forall is_byte s →
  sound (load_scalar s) (replicate 11 limb_interval ++ [(0, 2 ^ 25 - 1)])
  ∧ limbs_value (load_scalar s) = le_value s.
Proof.
  intros Hl H. unfold load_scalar. rewrite load_low_limbs by (done || lia).
  destruct (top_slice s 28 7 25) as [-> HT]; [done|lia..|].
  change (8 * Z.of_nat 28 + 7) with (21 * Z.of_nat 11) in *. split.
  - apply Forall2_app; [apply limb_at_sound|]. constructor; [|constructor]. unfold within. cbn [fst snd]. lia.
  - rewrite limbs_value_app. pose proof (limbs_of (le_value s) 0 11) as E.
    cbn [limbs_value]. rewrite Z.mul_0_r, Z.pow_0_r, Z.div_1_r in E.
    change (len _) with (Z.of_nat 11). change (0 + 11)%nat with 11%nat in E. lia.
Qed.

(** *** The theorems *)

(** The program up to the last two passes reaches their bounds. *)
Lemma reduce_all p0 a0 a1 s : length s = 24%nat → sound s a0 → aexecs 24 p0 a0 = Some a1 →
  length a1 = 24%nat → forallb (λ '(x, y), covers x y) (zip a1 before_last) = true →
  let t := exec_limbs (p0 ++ pass ++ Floor 11 :: Reduce 12 :: pass) s in
  le_value (store_scalar t) = limbs_value s mod order.
Proof.
  intros Hn Hs Ha Hl Hc. cbv zeta. rewrite exec_limbs_app.
  destruct (execs_sound _ _ _ _ _ Hn Hs Ha) as (Hs1 & Hn1 & k1 & Hv1).
  destruct (last_passes _ Hn1 (sound_weaken _ _ _ Hs1 Hc Hl)) as (Ht & _ & Hr & k2 & Hv2).
  rewrite store_scalar_value by done. rewrite Hv1 in Hv2.
  apply (Z.mod_unique _ _ (- k1 - k2)); [lia|]. rewrite Hv2. ring.
Qed.

(** ScReduce: the residue of any 64 bytes *)
Lemma ScReduce_exact s : length s = 64%nat → Forall is_byte s →
  length (ScReduce s) = 32%nat ∧ Forall is_byte (ScReduce s) ∧ le_value (ScReduce s) = le_value s mod order.
Proof.
  intros Hl Hb. split; [apply store_scalar_bytes|]. split; [apply store_scalar_bytes|].
  destruct (load_wide_value s Hl Hb) as (Hn & Hs & <-). unfold ScReduce.
  change reduction with (take 36 reduction ++ pass ++ Floor 11 :: Reduce 12 :: pass).
  eapply reduce_all; [done|exact Hs|vm_compute; reflexivity|reflexivity|vm_compute; reflexivity].
Qed.

Lemma product_limbs_exact a b c :
  sound a (replicate 11 limb_interval ++ [(0, 2 ^ 25 - 1)]) →
  sound b (replicate 11 limb_interval ++ [(0, 2 ^ 25 - 1)]) →
  sound c (replicate 11 limb_interval ++ [(0, 2 ^ 25 - 1)]) →
  let s := map (product_limb a b c) (seq 0 23) ++ [0] in
  sound s (replicate 23 (- 2 ^ 50, 2 ^ 50) ++ [(0, 0)])
  ∧ limbs_value s = limbs_value a * limbs_value b + limbs_value c.
Proof.
  intros Ha Hb Hc. cbv zeta. unfold limb_interval in *. cbn [replicate app] in *.
  do 12 (apply Forall2_cons_inv_r in Ha as (? & ? & ? & Ha & ->)). apply Forall2_nil_inv_r in Ha as ->.
  do 12 (apply Forall2_cons_inv_r in Hb as (? & ? & ? & Hb & ->)). apply Forall2_nil_inv_r in Hb as ->.
  do 12 (apply Forall2_cons_inv_r in Hc as (? & ? & ? & Hc & ->)). apply Forall2_nil_inv_r in Hc as ->.
  unfold within in *. cbn [fst snd] in *.
  repeat match goal with H : 0 <= ?x <= ?b |- _ => assert (-b <= x <= b) by lia; clear H end.
  cbv [product_limb limb fold_left seq map Nat.sub Nat.min Nat.add lookup list_lookup default from_option id app add64 mul64].
  strip_int64. split.
  - repeat (constructor; [unfold within; cbn [fst snd]; solve_bound|]). constructor; [|constructor].
    unfold within. cbn. lia.
  - cbn [limbs_value]. ring.
Qed.

(** ScMulAdd: the residue of a product and a sum of any 32 bytes *)
Lemma ScMulAdd_exact a b c : length a = 32%nat → Forall is_byte a → length b = 32%nat → Forall is_byte b →
  length c = 32%nat → Forall is_byte c →
  length (ScMulAdd a b c) = 32%nat ∧ Forall is_byte (ScMulAdd a b c)
  ∧ le_value (ScMulAdd a b c) = (le_value a * le_value b + le_value c) mod order.
Proof.
  intros Ha Ha' Hb Hb' Hc Hc'. split; [apply store_scalar_bytes|]. split; [apply store_scalar_bytes|].
  destruct (load_scalar_value a Ha Ha') as (Hs1 & <-). destruct (load_scalar_value b Hb Hb') as (Hs2 & <-).
  destruct (load_scalar_value c Hc Hc') as (Hs3 & <-). unfold ScMulAdd. cbv zeta.
  destruct (product_limbs_exact _ _ _ Hs1 Hs2 Hs3) as [Hs Hv]. rewrite <- Hv.
  change (product_carries ++ reduction)
    with ((product_carries ++ take 36 reduction) ++ pass ++ Floor 11 :: Reduce 12 :: pass).
  eapply reduce_all; [by rewrite length_app, length_map|exact Hs|vm_compute; reflexivity|reflexivity|vm_compute; reflexivity].
Qed.

Definition is_scalar (s : list Z) : Prop := length s = 32%nat ∧ Forall is_byte s.

(** A scalar with a given residue, the least one *)
Definition residue (s : list Z) (v : Z) : Prop := is_scalar s ∧ le_value s = v mod order.

Lemma sc_MulAdd_residue a b c : is_scalar a → is_scalar b → is_scalar c →
  residue (sc_MulAdd a b c) (le_value a * le_value b + le_value c).
Proof.
  intros [La Ha] [Lb Hb] [Lc Hc]. destruct (ScMulAdd_exact a b c La Ha Lb Hb Lc Hc) as (L & H & E). by repeat split.
Qed.

Lemma is_scalar_compute s : forallb (λ b, (0 <=? b) && (b <? 256)) s && (length s =? 32)%nat = true → is_scalar s.
Proof.
  intros [Hb Hl]%andb_prop. split; [by apply Nat.eqb_eq|]. rewrite forallb_forall in Hb.
  apply Forall_forall. intros b Hin%list_elem_of_In. apply Hb in Hin. unfold is_byte. lia.
Qed.

Lemma sc_One_scalar : is_scalar sc_One.
Proof. by apply is_scalar_compute. Qed.
Lemma sc_NegOne_scalar : is_scalar sc_NegOne.
Proof. by apply is_scalar_compute. Qed.
Lemma sc_Zero_scalar : is_scalar sc_Zero.
Proof. by apply is_scalar_compute. Qed.

Lemma residue_mod s v w k : v = w + k * order → residue s v → residue s w.
Proof. intros -> [H E]. split; [done|]. by rewrite E, Z.mod_add. Qed.

(** The bytes that Prune clears and sets *)
Lemma prune_bytes b : is_byte b →
  Z.land b 248 = b - b mod 8 ∧ Z.lor (Z.land b 127) 64 = 64 + b mod 64
  ∧ is_byte (Z.land b 248) ∧ is_byte (Z.lor (Z.land b 127) 64).
Proof.
  intros Hb. unfold is_byte in *.
  assert (forallb (λ i, let b := Z.of_nat i in
    (Z.land b 248 =? b - b mod 8) && (Z.lor (Z.land b 127) 64 =? 64 + b mod 64)
    && (0 <=? Z.land b 248) && (Z.land b 248 <? 256) && (Z.lor (Z.land b 127) 64 <? 256)) (seq 0 256) = true) as H
    by (vm_compute; reflexivity).
  rewrite forallb_forall in H. specialize (H (Z.to_nat b)). cbv zeta in H. rewrite Z2Nat.id in H by lia.
  specialize (H ltac:(apply in_seq; lia)). pose proof (Z.mod_pos_bound b 64). lia.
Qed.

Lemma scalar_ends s : is_scalar s → ∃ a m c, s = a :: m ++ [c] ∧ length m = 30%nat ∧ is_byte a ∧ is_byte c ∧ Forall is_byte m.
Proof.
  intros [Hl Hb]. destruct s as [|a r]; [done|]. destruct (exists_last (l := r)) as (m & c & ->); [by destruct r|].
  exists a, m, c. rewrite Forall_cons, Forall_app, Forall_singleton in Hb. cbn in Hl. rewrite length_app in Hl. cbn in Hl.
  split_and!; [done|lia|tauto..].
Qed.

Lemma sc_Prune_exact s : is_scalar s →
  is_scalar (sc_Prune s) ∧ le_value (sc_Prune s) = 2 ^ 254 + 8 * ((le_value s / 8) mod 2 ^ 251).
Proof.
  intros (a & m & c & -> & Hm & Ha & Hc & Hmb)%scalar_ends.
  destruct (prune_bytes a Ha) as (Ea & _ & Ba & _). destruct (prune_bytes c Hc) as (_ & Ec & _ & Bc).
  assert (sc_Prune (a :: m ++ [c]) = Z.land a 248 :: m ++ [Z.lor (Z.land c 127) 64]) as ->.
  { unfold sc_Prune. do 30 (destruct m as [|? m]; [discriminate Hm|]). by destruct m. }
  split.
  - split; [cbn; rewrite length_app; cbn; lia|]. rewrite Forall_cons, Forall_app, Forall_singleton. tauto.
  - pose proof (le_value_bound m Hmb) as Hv. cbn [le_value]. rewrite !le_value_app. cbn [le_value]. unfold len in *.
    rewrite Hm in *. change (256 ^ Z.of_nat 30) with (2 ^ 240) in *. rewrite Ea, Ec. unfold is_byte in *.
    pose proof (Z.div_mod a 8). pose proof (Z.mod_pos_bound a 8).
    pose proof (Z.div_mod c 64). pose proof (Z.mod_pos_bound c 64).
    rewrite <- (Z.div_unique (a + 256 * (le_value m + 2 ^ 240 * (c + 256 * 0))) 8
      (a / 8 + 32 * (le_value m + 2 ^ 240 * c)) (a mod 8)) by lia.
    rewrite <- (Z.mod_unique (a / 8 + 32 * (le_value m + 2 ^ 240 * c)) (2 ^ 251) (c / 64)
      (a / 8 + 32 * (le_value m + 2 ^ 240 * (c mod 64)))) by lia.
    lia.
Qed.

(** C28: the scalar arithmetic computes modulo the order
    L = 2^252 + 27742317777372353535851937790883648493 of the base point.  For
    all 32-byte scalars, reduced or not, MulAdd, Add, Sub and Neg give the 32
    bytes of the least non-negative residue of ab+c, x+y, x-y and -x, and
    Reduce that of any 64 bytes; Prune clears the low three bits, clears the
    top bit, sets bit 254 and keeps the others. *)
Theorem scalar_arithmetic_is_exact x y z w :
  is_scalar x → is_scalar y → is_scalar z → length w = 64%nat → Forall is_byte w →
  residue (sc_MulAdd x y z) (le_value x * le_value y + le_value z)
  ∧ residue (sc_Add x y) (le_value x + le_value y)
  ∧ residue (sc_Sub x y) (le_value x - le_value y)
  ∧ residue (sc_Neg x) (- le_value x)
  ∧ residue (sc_Reduce w) (le_value w)
  ∧ is_scalar (sc_Prune x) ∧ le_value (sc_Prune x) = 2 ^ 254 + 8 * ((le_value x / 8) mod 2 ^ 251).
Proof.
  intros Hx Hy Hz Hl Hw. split_and!; [by apply sc_MulAdd_residue| | | | |by apply sc_Prune_exact..].
  - apply (residue_mod _ _ _ 0) with (2 := sc_MulAdd_residue _ _ _ Hx sc_One_scalar Hy). cbn [le_value sc_One replicate]. lia.
  - apply (residue_mod _ _ _ (le_value y)) with (2 := sc_MulAdd_residue _ _ _ Hy sc_NegOne_scalar Hx).
    change (le_value sc_NegOne) with (order - 1). lia.
  - apply (residue_mod _ _ _ (le_value x)) with (2 := sc_MulAdd_residue _ _ _ Hx sc_NegOne_scalar sc_Zero_scalar).
    change (le_value sc_NegOne) with (order - 1). change (le_value sc_Zero) with 0. lia.
  - destruct (ScReduce_exact w Hl Hw) as (L & H & E). by repeat split.
Qed.

Lemma scalar_arithmetic_is_exact_witness :
  residue (sc_Sub sc_Zero (replicate 32 255)) (- le_value (replicate 32 255))
  ∧ residue (sc_Reduce (replicate 64 255)) (2 ^ 512 - 1).
Proof.
  assert (is_scalar sc_Zero) as H0 by (apply is_scalar_compute; reflexivity).
  assert (is_scalar (replicate 32 255)) as H1 by (apply is_scalar_compute; reflexivity).
  assert (Forall is_byte (replicate 64 255)) as H2 by (apply Forall_replicate; unfold is_byte; lia).
  destruct (scalar_arithmetic_is_exact sc_Zero (replicate 32 255) sc_Zero (replicate 64 255) H0 H1 H0 eq_refl H2)
    as (_ & _ & HS & _ & HR & _).
  split; [exact HS|exact HR].
Defined.
