(* ===== verification/UtxoKeeper.v ===== *)
(** * Reservations of outputs ([core/account/utxo_keeper.go])

    The wallet reserves the outputs that a transaction under construction will
    spend, so that two transactions built at the same time do not spend the same
    one.  Every operation holds the keeper's lock, so it is one step on the
    state.  The wallet's database maps identifiers to outputs, under two
    prefixes; the iteration goes over the first in the order of its keys. *)

From S2P Require Import Prelude Encoding Bc EntryHash TxMap.
From stdpp Require Import gmap sorting.
#[local] Open Scope Z_scope.

Abbreviation desireUtxoCount := 5.

Inductive keeper_error := ErrInsufficient | ErrImmature | ErrReserved | ErrMatchUTXO.

Record UTXO := mkUTXO {
  u_OutputID : Hash;
  u_SourceID : Hash;
  u_AssetID : Hash;
  u_Amount : Z;
  u_SourcePos : Z;
  u_ControlProgram : list Z;
  u_AccountID : list Z;
  u_Address : list Z;
  u_ControlProgramIndex : Z;
  u_ValidHeight : Z;
  u_Change : bool;
}.

(** Times are nanoseconds. *)
Record reservation := mkReservation {
  rs_id : Z;
  rs_utxos : list UTXO;
  rs_change : Z;
  rs_expiry : Z;
}.

(** [uk_db] has the keys and outputs under [UTXOPreFix], in the order of the
    keys, and [uk_contracts] those under [SUTXOPrefix]. *)
Record utxoKeeper := mkKeeper {
  uk_nextIndex : Z;
  uk_db : list (Hash * UTXO);
  uk_contracts : list (Hash * UTXO);
  uk_unconfirmed : gmap Hash UTXO;
  uk_reserved : gmap Hash Z;
  uk_reservations : gmap Z reservation;
}.

Definition newUtxoKeeper (db contracts : list (Hash * UTXO)) : utxoKeeper := mkKeeper 0 db contracts ∅ ∅ ∅.

Definition set_unconfirmed (m : gmap Hash UTXO) (uk : utxoKeeper) : utxoKeeper :=
  mkKeeper (uk_nextIndex uk) (uk_db uk) (uk_contracts uk) m (uk_reserved uk) (uk_reservations uk).
Definition set_reserved (r : gmap Hash Z) (rs : gmap Z reservation) (uk : utxoKeeper) : utxoKeeper :=
  mkKeeper (uk_nextIndex uk) (uk_db uk) (uk_contracts uk) (uk_unconfirmed uk) r rs.

Definition AddUnconfirmedUtxo (utxos : list UTXO) (uk : utxoKeeper) : utxoKeeper :=
  set_unconfirmed (foldl (λ m u, <[u_OutputID u := u]> m) (uk_unconfirmed uk) utxos) uk.
Definition RemoveUnconfirmedUtxo (hashes : list Hash) (uk : utxoKeeper) : utxoKeeper :=
  set_unconfirmed (foldl (λ m h, delete h m) (uk_unconfirmed uk) hashes) uk.

Definition cancel (rid : Z) (uk : utxoKeeper) : utxoKeeper :=
  match uk_reservations uk !! rid with
  | None => uk
  | Some res =>
      set_reserved (foldl (λ m u, delete (u_OutputID u) m) (uk_reserved uk) (rs_utxos res))
        (delete rid (uk_reservations uk)) uk
  end.
Definition Cancel := cancel.

(** The order in which Go iterates over the reservations *)
Class GoRangeId := go_range_id : ∀ V, gmap Z V → list (Z * V).
Arguments go_range_id {_ V} m.
Class GoRangeIdOk `{GoRangeId} : Prop := go_range_id_perm : ∀ V (m : gmap Z V), go_range_id m ≡ₚ map_to_list m.

(** [sort.Slice] by falling amount *)
Class AmountSort := amount_sort : list UTXO → list UTXO.
Definition by_amount (a b : UTXO) : Prop := u_Amount b <= u_Amount a.
Class AmountSortOk `{AmountSort} : Prop := {
  amount_sort_perm l : amount_sort l ≡ₚ l;
  amount_sort_sorted l : Sorted by_amount (amount_sort l);
}.

Section keeper.
Context `{R : GoRange} `{RI : GoRangeId} `{AS : AmountSort}.

Definition ListUnconfirmed (uk : utxoKeeper) : list UTXO := snd <$> go_range (uk_unconfirmed uk).

Definition expireReservation (t : Z) (uk : utxoKeeper) : utxoKeeper :=
  foldl (λ uk p, if rs_expiry p.2 <? t then cancel p.1 uk else uk) uk (go_range_id (uk_reservations uk)).

(** [appendUtxo]: the outputs found so far and the immature amount *)
Definition appendUtxo (accountID : list Z) (assetID : Hash) (currentHeight : Z) (acc : list UTXO * Z) (u : UTXO)
    : list UTXO * Z :=
  if negb (bool_decide (u_AccountID u = accountID)) || negb (bool_decide (u_AssetID u = assetID)) then acc
  else if currentHeight <? u_ValidHeight u then (acc.1, uint64 (acc.2 + u_Amount u))
  else (acc.1 ++ [u], acc.2).

Definition findUtxos (currentHeight : Z) (accountID : list Z) (assetID : Hash) (useUnconfirmed : bool) (uk : utxoKeeper)
    : list UTXO * Z :=
  let found := foldl (appendUtxo accountID assetID currentHeight) ([], 0) (snd <$> uk_db uk) in
  if useUnconfirmed then foldl (appendUtxo accountID assetID currentHeight) found (ListUnconfirmed uk) else found.

(** [db.Get] *)
Definition db_Get (key : Hash) (db : list (Hash * UTXO)) : option UTXO :=
  snd <$> find (λ p, bool_decide (p.1 = key)) db.

Definition findUtxo (outHash : Hash) (useUnconfirmed : bool) (uk : utxoKeeper) : outcome keeper_error UTXO :=
  match (if useUnconfirmed then uk_unconfirmed uk !! outHash else None) with
  | Some u => Ok u
  | None =>
      match db_Get outHash (uk_db uk) with
      | Some u => Ok u
      | None => match db_Get outHash (uk_contracts uk) with Some u => Ok u | None => Err ErrMatchUTXO end
      end
  end.

(** The inner loop of [optUTXOs], from the current node on: [room] is how long
    the list of replacements may be.  If the replacements reach the amount, they
    are returned with the amount and the nodes after the last of them. *)
Fixpoint replace_loop (amount room : Z) (nodes replaceList : list UTXO) (replaceAmount : Z)
    : option (list UTXO * Z * list UTXO) :=
  match nodes with
  | [] => None
  | u :: rest =>
      if len replaceList <=? room then
        let replaceList := replaceList ++ [u] in
        let replaceAmount := uint64 (replaceAmount + u_Amount u) in
        if amount <=? replaceAmount then Some (replaceList, replaceAmount, rest)
        else replace_loop amount room rest replaceList replaceAmount
      else None
  end.

(** The outer loop.  It takes outputs until the amount is reached; then it
    tries to replace the largest by several smaller ones.  Each round consumes
    a node. *)
Fixpoint opt_loop (fuel : nat) (amount : Z) (nodes optList : list UTXO) (optAmount : Z)
    : outcome keeper_error (list UTXO * Z) :=
  match nodes with
  | [] => Ok (optList, optAmount)
  | u :: rest =>
      match fuel with
      | O => Fuel
      | S fuel =>
          if optAmount <? amount then opt_loop fuel amount rest (optList ++ [u]) (uint64 (optAmount + u_Amount u))
          else match optList with
               | [] => Panic
               | largest :: others =>
                   match replace_loop amount (desireUtxoCount - len optList) nodes []
                           (uint64 (optAmount - u_Amount largest)) with
                   | Some (replaceList, replaceAmount, rest) => opt_loop fuel amount rest (others ++ replaceList) replaceAmount
                   | None => Ok (optList, optAmount)
                   end
               end
      end
  end.

Definition is_reserved (uk : utxoKeeper) (u : UTXO) : bool := bool_decide (is_Some (uk_reserved uk !! u_OutputID u)).

(** The chosen outputs, their amount, and the amount that is reserved *)
Definition optUTXOs (utxos : list UTXO) (amount : Z) (uk : utxoKeeper) : outcome keeper_error (list UTXO * Z * Z) :=
  let utxos := amount_sort utxos in
  let reservedAmount := foldl (λ n u, if is_reserved uk u then uint64 (n + u_Amount u) else n) 0 utxos in
  let utxoList := filter (λ u, is_reserved uk u = false) utxos in
  match opt_loop (length utxoList) amount utxoList [] 0 with
  | Ok (opt, optAmount) => Ok (opt, optAmount, reservedAmount)
  | Err e => Err e
  | Panic => Panic
  | Fuel => Fuel
  end.

(** A new reservation *)
Definition book (utxos : list UTXO) (change exp : Z) (uk : utxoKeeper) : reservation * utxoKeeper :=
  let id := uint64 (uk_nextIndex uk + 1) in
  let res := mkReservation id utxos change exp in
  (res, mkKeeper id (uk_db uk) (uk_contracts uk) (uk_unconfirmed uk)
          (foldl (λ m u, <[u_OutputID u := id]> m) (uk_reserved uk) utxos) (<[id := res]> (uk_reservations uk))).

Definition Reserve (currentHeight : Z) (accountID : list Z) (assetID : Hash) (amount : Z) (useUnconfirmed : bool) (exp : Z)
    (uk : utxoKeeper) : outcome keeper_error reservation * utxoKeeper :=
  let '(utxos, immatureAmount) := findUtxos currentHeight accountID assetID useUnconfirmed uk in
  match optUTXOs utxos amount uk with
  | Ok (optUtxos, optAmount, reservedAmount) =>
      if uint64 (uint64 (optAmount + reservedAmount) + immatureAmount) <? amount then (Err ErrInsufficient, uk)
      else if uint64 (optAmount + reservedAmount) <? amount then (Err ErrImmature, uk)
      else if optAmount <? amount then (Err ErrReserved, uk)
      else let '(res, uk) := book optUtxos (uint64 (optAmount - amount)) exp uk in (Ok res, uk)
  | Err e => (Err e, uk)
  | Panic => (Panic, uk)
  | Fuel => (Fuel, uk)
  end.

Definition ReserveParticular (currentHeight : Z) (outHash : Hash) (useUnconfirmed : bool) (exp : Z) (uk : utxoKeeper)
    : outcome keeper_error reservation * utxoKeeper :=
  if bool_decide (is_Some (uk_reserved uk !! outHash)) then (Err ErrReserved, uk)
  else match findUtxo outHash useUnconfirmed uk with
  | Ok u =>
      if currentHeight <? u_ValidHeight u then (Err ErrImmature, uk)
      else let '(res, uk) := book [u] 0 exp uk in (Ok res, uk)
  | Err e => (Err e, uk)
  | Panic => (Panic, uk)
  | Fuel => (Fuel, uk)
  end.

(** ** What happens to a keeper *)

(** The wallet updates the database when blocks come and go. *)
Inductive keeper_event :=
| WalletUpdate (db contracts : list (Hash * UTXO))
| Unconfirmed (utxos : list UTXO)
| Forget (hashes : list Hash)
| CancelIt (rid : Z)
| Expire (t : Z)
| ReserveIt (height : Z) (accountID : list Z) (assetID : Hash) (amount : Z) (useUnconfirmed : bool) (exp : Z)
| ReserveOne (height : Z) (outHash : Hash) (useUnconfirmed : bool) (exp : Z).

Definition keeper_step (uk : utxoKeeper) (e : keeper_event) : utxoKeeper :=
  match e with
  | WalletUpdate db contracts =>
      mkKeeper (uk_nextIndex uk) db contracts (uk_unconfirmed uk) (uk_reserved uk) (uk_reservations uk)
  | Unconfirmed utxos => AddUnconfirmedUtxo utxos uk
  | Forget hashes => RemoveUnconfirmedUtxo hashes uk
  | CancelIt rid => Cancel rid uk
  | Expire t => expireReservation t uk
  | ReserveIt height acct asset amount unconf exp => (Reserve height acct asset amount unconf exp uk).2
  | ReserveOne height h unconf exp => (ReserveParticular height h unconf exp uk).2
  end.
End keeper.
