(* ===== verification/UtxoKeeperSpec.v ===== *)
(** * Reservations are exclusive and exact

    An output belongs to at most one reservation at any time, and a reservation
    covers the amount asked for exactly, with the change; the answer is the
    one the balances call for.  Two weaknesses: asking for nothing crashes, and
    an output that is both confirmed and unconfirmed is counted twice. *)

From stdpp Require Import gmap sorting.
From S2P Require Import Prelude Encoding Bc EntryHash TxMap UtxoKeeper.
#[local] Set Warnings "-clear-no-such-hyp".
#[local] Open Scope Z_scope.

Definition sum_of (us : list UTXO) : Z := foldr (λ u n, u_Amount u + n) 0 us.
Definition outputs (us : list UTXO) : list Hash := u_OutputID <$> us.

Lemma sum_cons u us : sum_of (u :: us) = u_Amount u + sum_of us.
Proof. done. Qed.
Lemma sum_app us vs : sum_of (us ++ vs) = sum_of us + sum_of vs.
Proof. induction us as [|u us IH]; [done|]. rewrite <- app_comm_cons, !sum_cons, IH. lia. Qed.
#[global] Instance sum_perm : Proper ((≡ₚ) ==> eq) sum_of.
Proof. intros l k Hp. induction Hp; rewrite ?sum_cons; lia. Qed.
Lemma sum_nonneg us : Forall (λ u, 0 <= u_Amount u) us → 0 <= sum_of us.
Proof. induction 1; [done|]. rewrite sum_cons. lia. Qed.
Lemma Forall_sub {A} (P : A → Prop) us vs : Forall P vs → us ⊆+ vs → Forall P us.
Proof. intros Hf [k Hk]%submseteq_Permutation. rewrite Hk in Hf. by apply Forall_app in Hf as []. Qed.
Lemma sum_submseteq us vs : Forall (λ u, 0 <= u_Amount u) vs → us ⊆+ vs → sum_of us <= sum_of vs.
Proof.
  intros Hf [k Hk]%submseteq_Permutation. rewrite Hk in Hf |- *. rewrite Forall_app in Hf. rewrite sum_app.
  pose proof (sum_nonneg k (proj2 Hf)). lia.
Qed.

(** ** Choosing outputs *)

Lemma replace_loop_spec amount room nodes : ∀ rl ra rl' ra' rest, Forall (λ u, 0 <= u_Amount u) nodes →
  0 <= ra → ra + sum_of nodes <= MaxUint64 → replace_loop amount room nodes rl ra = Some (rl', ra', rest) →
  ∃ taken, nodes = taken ++ rest ∧ taken ≠ [] ∧ rl' = rl ++ taken ∧ ra' = ra + sum_of taken ∧ amount <= ra'.
Proof.
  induction nodes as [|u nodes IH]; intros rl ra rl' ra' rest Hf Hra Hb; cbn [replace_loop]; [done|].
  destruct (_ <=? room); [|done]. apply Forall_cons in Hf as [Hu Hf]. rewrite sum_cons in Hb.
  pose proof (sum_nonneg _ Hf). rewrite uint64_id by (unfold is_uint64; lia).
  destruct (Z.leb_spec amount (ra + u_Amount u)).
  - intros [= <- <- <-]. exists [u]. split_and!; try done. cbn. lia.
  - intros (taken & -> & _ & -> & -> & Ha)%IH; [|done|lia|lia].
    exists (u :: taken). rewrite sum_cons. split_and!; [done|done|by rewrite <- app_assoc|lia|lia].
Qed.

(** The loop ends, with enough or with everything. *)
Lemma opt_loop_spec amount fuel : ∀ nodes opt optAmount, 0 < amount → (length nodes <= fuel)%nat →
  Forall (λ u, 0 <= u_Amount u) (opt ++ nodes) → sum_of (opt ++ nodes) <= MaxUint64 → optAmount = sum_of opt →
  ∃ opt', opt_loop fuel amount nodes opt optAmount = Ok (opt', sum_of opt') ∧ opt' ⊆+ opt ++ nodes
    ∧ (amount <= sum_of opt' ∨ opt' = opt ++ nodes).
Proof.
  induction fuel as [|fuel IH]; intros [|u nodes] opt optAmount Ha Hl Hf Hb ->; cbn [opt_loop length] in *; try lia.
  1, 2: exists opt; rewrite app_nil_r; auto.
  pose proof Hf as [Hf1 [Hu Hf2]%Forall_cons]%Forall_app. pose proof (sum_nonneg _ Hf1). pose proof (sum_nonneg _ Hf2).
  destruct (Z.ltb_spec (sum_of opt) amount).
  - rewrite (cons_middle u opt nodes), app_assoc in Hf, Hb |- *.
    destruct (IH nodes (opt ++ [u]) (uint64 (sum_of opt + u_Amount u))) as (opt' & -> & Hs & Hr); [done|lia|done|done| |].
    { rewrite !sum_app, sum_cons in Hb. rewrite sum_app, sum_cons. change (sum_of []) with 0 in *.
      rewrite uint64_id; unfold is_uint64; lia. }
    exists opt'. auto.
  - destruct opt as [|largest others]; [cbn in *; lia|]. rewrite sum_cons in *. apply Forall_cons in Hf1 as [Hla Hot].
    cbn [app] in *. rewrite !sum_cons, sum_app, sum_cons in Hb. pose proof (sum_nonneg _ Hot).
    rewrite uint64_id by (unfold is_uint64; lia).
    destruct (replace_loop _ _ _ _ _) as [[[rl ra] rest]|] eqn:Hr.
    + apply replace_loop_spec in Hr as (taken & Ht & Hne & -> & -> & Ham); [|by constructor|lia|rewrite sum_cons; lia].
      change ([] ++ taken) with taken.
      assert ((others ++ taken) ++ rest ⊆+ largest :: others ++ u :: nodes) as Hsub.
      { rewrite Ht, <- app_assoc. by apply submseteq_cons. }
      destruct (IH rest (others ++ taken) (u_Amount largest + sum_of others - u_Amount largest + sum_of taken))
        as (opt' & -> & Hs & Hor); [done| | | | |].
      * destruct taken; [done|]. injection Ht as <- ->. rewrite length_app in Hl. lia.
      * exact (Forall_sub _ _ _ Hf Hsub).
      * etransitivity; [exact (sum_submseteq _ _ Hf Hsub)|]. rewrite sum_cons, sum_app, sum_cons. lia.
      * rewrite sum_app. lia.
      * exists opt'. split; [done|]. split; [by etransitivity|]. left. destruct Hor as [?| ->]; [done|].
        assert (Forall (λ u, 0 <= u_Amount u) rest) as Hrest.
        { assert (Forall (λ u, 0 <= u_Amount u) (taken ++ rest)) as [_ ?]%Forall_app by (rewrite <- Ht; by constructor). done. }
        rewrite !sum_app. pose proof (sum_nonneg rest Hrest). lia.
    + exists (largest :: others). rewrite sum_cons. split; [done|]. split; [|left; lia].
      apply submseteq_skip, submseteq_inserts_r. done.
Qed.

(** ** The answer of [Reserve] *)

Section answer.
Context `{R : GoRange} `{RI : GoRangeId} `{AS : AmountSort} {ASOk : AmountSortOk}.

(** The outputs that [findUtxos] looks at, and those it may use or must wait for *)
Definition listed (unconf : bool) (uk : utxoKeeper) : list UTXO :=
  (uk_db uk).*2 ++ (if unconf then ListUnconfirmed uk else []).
Definition owned (acct : list Z) (asset : Hash) (u : UTXO) : Prop := u_AccountID u = acct ∧ u_AssetID u = asset.
Definition usable (height : Z) acct asset (u : UTXO) : Prop := owned acct asset u ∧ u_ValidHeight u <= height.
Definition immature (height : Z) acct asset (u : UTXO) : Prop := owned acct asset u ∧ height < u_ValidHeight u.

#[global] Instance usable_dec height acct asset u : Decision (usable height acct asset u).
Proof. unfold usable, owned. apply _. Defined.
#[global] Instance immature_dec height acct asset u : Decision (immature height acct asset u).
Proof. unfold immature, owned. apply _. Defined.

Definition free (uk : utxoKeeper) (u : UTXO) : Prop := uk_reserved uk !! u_OutputID u = None.
#[global] Instance free_dec uk u : Decision (free uk u).
Proof. unfold free. apply _. Defined.

Lemma append_cases height acct asset acc u : appendUtxo acct asset height acc u
  = if decide (usable height acct asset u) then (acc.1 ++ [u], acc.2)
    else if decide (immature height acct asset u) then (acc.1, uint64 (acc.2 + u_Amount u)) else acc.
Proof.
  unfold appendUtxo, usable, immature, owned.
  destruct (bool_decide_reflect (u_AccountID u = acct)), (bool_decide_reflect (u_AssetID u = asset)); cbn [negb orb].
  1: destruct (Z.ltb_spec height (u_ValidHeight u)).
  all: repeat case_decide; try done; intuition lia.
Qed.

Lemma amounts_filter (P : UTXO → Prop) `{∀ u, Decision (P u)} us :
  Forall (λ u, 0 <= u_Amount u) us → 0 <= sum_of (filter P us).
Proof. intros Hf. apply sum_nonneg. eapply Forall_sub; [exact Hf|]. apply sublist_submseteq, sublist_filter. Qed.

Lemma find_fold height acct asset us : ∀ acc,
  Forall (λ u, 0 <= u_Amount u) us → 0 <= acc.2 → acc.2 + sum_of (filter (immature height acct asset) us) <= MaxUint64 →
  foldl (appendUtxo acct asset height) acc us
  = (acc.1 ++ filter (usable height acct asset) us, acc.2 + sum_of (filter (immature height acct asset) us)).
Proof.
  induction us as [|u us IH]; intros acc Hf Hi Hb; cbn [foldl].
  { rewrite !filter_nil, app_nil_r. change (sum_of []) with 0. rewrite Z.add_0_r. by destruct acc. }
  apply Forall_cons in Hf as [Hu Hf]. pose proof (amounts_filter (immature height acct asset) us Hf).
  rewrite append_cases, !filter_cons. rewrite filter_cons in Hb.
  destruct (decide (usable height acct asset u)) as [Huse|]; [|destruct (decide (immature height acct asset u))].
  - rewrite decide_False in * by (unfold usable, immature in *; lia). rewrite IH; [|done..]. cbn [fst snd]. by rewrite <- app_assoc.
  - rewrite sum_cons in *. rewrite uint64_id by (unfold is_uint64; lia). rewrite IH; [|done|cbn; lia|cbn; lia].
    cbn [fst snd]. f_equal. lia.
  - by rewrite IH.
Qed.

Lemma findUtxos_spec height acct asset unconf uk :
  Forall (λ u, 0 <= u_Amount u) (listed unconf uk) → sum_of (listed unconf uk) <= MaxUint64 →
  findUtxos height acct asset unconf uk
  = (filter (usable height acct asset) (listed unconf uk), sum_of (filter (immature height acct asset) (listed unconf uk))).
Proof.
  intros Hf Hb. assert (findUtxos height acct asset unconf uk = foldl (appendUtxo acct asset height) ([], 0) (listed unconf uk)) as ->.
  { unfold findUtxos, listed. destruct unconf; [by rewrite foldl_app|by rewrite app_nil_r]. }
  rewrite find_fold; [done|done|done|]. cbn [snd]. etransitivity; [|exact Hb].
  rewrite Z.add_0_l. apply sum_submseteq; [done|]. apply sublist_submseteq, sublist_filter.
Qed.

Lemma free_reserved uk u : is_reserved uk u = false ↔ free uk u.
Proof. unfold is_reserved, free. rewrite bool_decide_eq_false, eq_None_not_Some. done. Qed.

Lemma reserved_fold uk us : ∀ n, Forall (λ u, 0 <= u_Amount u) us → 0 <= n →
  n + sum_of (filter (λ u, ¬ free uk u) us) <= MaxUint64 →
  foldl (λ n u, if is_reserved uk u then uint64 (n + u_Amount u) else n) n us = n + sum_of (filter (λ u, ¬ free uk u) us).
Proof.
  induction us as [|u us IH]; intros n Hf Hn Hb; cbn [foldl]; [rewrite filter_nil; cbn; lia|].
  apply Forall_cons in Hf as [Hu Hf]. pose proof (amounts_filter (λ u, ¬ free uk u) us Hf).
  rewrite filter_cons in Hb |- *. destruct (is_reserved uk u) eqn:Hr.
  - rewrite decide_True in * by (rewrite <- free_reserved; congruence). rewrite sum_cons in *.
    rewrite uint64_id by (unfold is_uint64; lia). rewrite IH; [lia|done|lia|lia].
  - apply free_reserved in Hr. rewrite decide_False in * by auto. by rewrite IH.
Qed.

Lemma sum_split (P : UTXO → Prop) `{∀ u, Decision (P u)} us : sum_of (filter P us) + sum_of (filter (λ u, ¬ P u) us) = sum_of us.
Proof.
  induction us as [|u us IH]; [done|]. rewrite !filter_cons, sum_cons.
  destruct (decide (P u)) as [HP|HP]; [rewrite decide_False by auto|rewrite decide_True by done]; rewrite sum_cons; lia.
Qed.

Lemma optUTXOs_spec amount us uk : 0 < amount → Forall (λ u, 0 <= u_Amount u) us → sum_of us <= MaxUint64 →
  ∃ opt, optUTXOs us amount uk = Ok (opt, sum_of opt, sum_of (filter (λ u, ¬ free uk u) us))
    ∧ opt ⊆+ filter (free uk) us
    ∧ (amount <= sum_of opt ∨ sum_of opt = sum_of (filter (free uk) us)).
Proof.
  intros Ha Hf Hb. unfold optUTXOs. pose proof (amount_sort_perm us) as Hp.
  assert (filter (λ u, is_reserved uk u = false) (amount_sort us) = filter (free uk) (amount_sort us)) as ->.
  { apply list_filter_iff. intros u. apply free_reserved. }
  set (l := filter (free uk) (amount_sort us)). assert (l ≡ₚ filter (free uk) us) as Hl by (unfold l; by rewrite Hp).
  assert (Forall (λ u, 0 <= u_Amount u) l) as Hfl.
  { rewrite Hl. eapply Forall_sub; [exact Hf|]. apply sublist_submseteq, sublist_filter. }
  pose proof (sum_split (free uk) us). pose proof (amounts_filter (λ u, ¬ free uk u) us Hf).
  pose proof (amounts_filter (free uk) us Hf).
  destruct (opt_loop_spec amount (length l) l [] 0) as (opt & -> & Hs & Hor); try done.
  { cbn [app]. rewrite Hl. lia. }
  exists opt. rewrite reserved_fold.
  - rewrite Hp, Z.add_0_l. split; [done|]. cbn [app] in *. rewrite <- Hl. split; [done|].
    destruct Hor as [?| ->]; [by left|]. right. by rewrite Hl.
  - by rewrite Hp.
  - done.
  - rewrite Hp. lia.
Qed.

Section reserve.
Context (height : Z) (acct : list Z) (asset : Hash) (unconf : bool) (uk : utxoKeeper).
Context (Hf : Forall (λ u, 0 <= u_Amount u) (listed unconf uk)) (Hb : sum_of (listed unconf uk) <= MaxUint64).

Definition available : list UTXO := filter (free uk) (filter (usable height acct asset) (listed unconf uk)).
Definition taken : list UTXO := filter (λ u, ¬ free uk u) (filter (usable height acct asset) (listed unconf uk)).
Definition waiting : list UTXO := filter (immature height acct asset) (listed unconf uk).

Lemma usable_amounts : Forall (λ u, 0 <= u_Amount u) (filter (usable height acct asset) (listed unconf uk)).
Proof. eapply Forall_sub; [exact Hf|]. apply sublist_submseteq, sublist_filter. Qed.

Lemma listed_total : sum_of available + sum_of taken + sum_of waiting <= MaxUint64.
Proof.
  unfold available, taken, waiting. rewrite sum_split. etransitivity; [|exact Hb].
  clear Hb. induction (listed unconf uk) as [|u us IH]; [done|]. apply Forall_cons in Hf as [Hu Hus].
  specialize (IH Hus). rewrite !filter_cons, sum_cons. destruct (decide (usable height acct asset u)) as [[_ ?]|].
  - rewrite decide_False by (unfold immature; lia). rewrite sum_cons. lia.
  - destruct (decide _); rewrite ?sum_cons; lia.
Qed.

Lemma Reserve_cases amount exp : 0 < amount →
  ∃ opt, opt ⊆+ available ∧ (amount <= sum_of opt ∨ sum_of opt = sum_of available) ∧
  Reserve height acct asset amount unconf exp uk
  = if sum_of opt + sum_of taken + sum_of waiting <? amount then (Err ErrInsufficient, uk)
    else if sum_of opt + sum_of taken <? amount then (Err ErrImmature, uk)
    else if sum_of opt <? amount then (Err ErrReserved, uk)
    else let '(res, uk) := book opt (sum_of opt - amount) exp uk in (Ok res, uk).
Proof.
  intros Ha. unfold Reserve. rewrite (findUtxos_spec height acct asset unconf uk Hf Hb).
  pose proof usable_amounts as Hu. pose proof listed_total as Ht.
  pose proof (amounts_filter (free uk) _ Hu). pose proof (amounts_filter (λ u, ¬ free uk u) _ Hu).
  pose proof (amounts_filter (immature height acct asset) _ Hf). unfold available, taken, waiting in *.
  destruct (optUTXOs_spec amount _ uk Ha Hu) as (opt & -> & Hs & Hor).
  { rewrite <- (sum_split (free uk)). lia. }
  exists opt. split; [done|]. split; [done|].
  assert (Forall (λ u, 0 <= u_Amount u) (filter (free uk) (filter (usable height acct asset) (listed unconf uk)))) as Hav.
  { eapply Forall_sub; [exact Hu|]. apply sublist_submseteq, sublist_filter. }
  pose proof (sum_submseteq _ _ Hav Hs). pose proof (sum_nonneg _ (Forall_sub _ _ _ Hav Hs)).
  rewrite (uint64_id (sum_of opt + _)) by (unfold is_uint64; lia).
  rewrite (uint64_id (sum_of opt + _ + _)) by (unfold is_uint64; lia).
  destruct (_ <? _); [done|]. destruct (_ <? _); [done|]. destruct (Z.ltb_spec (sum_of opt) amount); [done|].
  rewrite uint64_id by (unfold is_uint64; lia). done.
Qed.

(** [Reserve] gives the answer that the balances call for.  With the
    outputs of the account and asset that are free, reserved and immature, it
    succeeds exactly when the free ones suffice; then the outputs of the
    reservation are some of the free ones, and their sum is the amount and the
    change.  Otherwise the error says whether the immature and the reserved
    ones would have sufficed. *)
Theorem reservations_are_exact amount exp : 0 < amount →
  match (Reserve height acct asset amount unconf exp uk).1 with
  | Ok res => amount <= sum_of available ∧ rs_utxos res ⊆+ available ∧ 0 <= rs_change res
              ∧ sum_of (rs_utxos res) = amount + rs_change res ∧ rs_expiry res = exp
  | Err ErrReserved => sum_of available < amount <= sum_of available + sum_of taken
  | Err ErrImmature => sum_of available + sum_of taken < amount <= sum_of available + sum_of taken + sum_of waiting
  | Err ErrInsufficient => sum_of available + sum_of taken + sum_of waiting < amount
  | _ => False
  end.
Proof.
  intros Ha. destruct (Reserve_cases amount exp Ha) as (opt & Hs & Hor & ->).
  assert (0 <= sum_of taken) by exact (amounts_filter (λ u, ¬ free uk u) _ usable_amounts).
  assert (0 <= sum_of waiting) by exact (amounts_filter (immature height acct asset) _ Hf).
  assert (Forall (λ u, 0 <= u_Amount u) available) as Hav.
  { eapply Forall_sub; [exact usable_amounts|]. apply sublist_submseteq, sublist_filter. }
  pose proof (sum_submseteq _ _ Hav Hs).
  destruct (Z.ltb_spec (sum_of opt + sum_of taken + sum_of waiting) amount); [cbn [fst]; lia|].
  destruct (Z.ltb_spec (sum_of opt + sum_of taken) amount); [cbn [fst]; lia|].
  destruct (Z.ltb_spec (sum_of opt) amount); [cbn [fst]; lia|]. cbn [book fst rs_utxos rs_change rs_expiry].
  split_and!; try done; lia.
Qed.

(** Asking for nothing crashes.  When the amount is zero and an output
    could be used, [optUTXOs] looks at the first of an empty list. *)
Theorem reserving_nothing_panics exp : available ≠ [] → (Reserve height acct asset 0 unconf exp uk).1 = Panic.
Proof.
  intros Hne. unfold Reserve. rewrite (findUtxos_spec height acct asset unconf uk Hf Hb). unfold optUTXOs.
  assert (filter (λ u, is_reserved uk u = false) (amount_sort (filter (usable height acct asset) (listed unconf uk))) ≡ₚ available) as Hp.
  { rewrite amount_sort_perm. unfold available.
    rewrite (list_filter_iff _ (free uk)); [done|]. intros u. apply free_reserved. }
  destruct (filter _ (amount_sort _)) as [|u us]; [|done]. by apply Permutation_nil_l in Hp.
Qed.
End reserve.
End answer.

(** ** Reservations are exclusive *)

Section exclusive.
Context `{R : GoRange} `{RI : GoRangeId} {RIOk : GoRangeIdOk} `{AS : AmountSort} {ASOk : AmountSortOk}.

Definition keyed (db : list (Hash * UTXO)) : Prop := Forall (λ p, u_OutputID p.2 = p.1) db.

(** After at most [n] events *)
Record keeper_ok (n : Z) (uk : utxoKeeper) : Prop := {
  ko_index : 0 <= uk_nextIndex uk <= n;
  ko_ids : map_Forall (λ rid _, 0 < rid <= uk_nextIndex uk) (uk_reservations uk);
  ko_reserved id rid : uk_reserved uk !! id = Some rid ↔
    ∃ res, uk_reservations uk !! rid = Some res ∧ id ∈ outputs (rs_utxos res);
  ko_db : keyed (uk_db uk) ∧ keyed (uk_contracts uk);
  ko_unconfirmed : map_Forall (λ h u, u_OutputID u = h) (uk_unconfirmed uk);
}.

Lemma lookup_foldl_delete_outputs (us : list UTXO) : ∀ (m : gmap Hash Z) id,
  foldl (λ m u, delete (u_OutputID u) m) m us !! id = if decide (id ∈ outputs us) then None else m !! id.
Proof.
  induction us as [|u us IH]; intros m id; cbn [foldl outputs fmap list_fmap]; [done|]. rewrite IH. unfold outputs.
  destruct (decide (id = u_OutputID u)) as [->|Hne].
  - rewrite lookup_delete_eq. destruct (decide _); [by rewrite decide_True by set_solver|by rewrite decide_True by set_solver].
  - rewrite lookup_delete_ne by done. destruct (decide (id ∈ u_OutputID <$> us)); [by rewrite decide_True by set_solver|].
    by rewrite decide_False by set_solver.
Qed.
Lemma lookup_foldl_insert_outputs rid (us : list UTXO) : ∀ (m : gmap Hash Z) id,
  foldl (λ m u, <[u_OutputID u := rid]> m) m us !! id = if decide (id ∈ outputs us) then Some rid else m !! id.
Proof.
  induction us as [|u us IH]; intros m id; cbn [foldl outputs fmap list_fmap]; [done|]. rewrite IH. unfold outputs.
  destruct (decide (id = u_OutputID u)) as [->|Hne].
  - rewrite lookup_insert_eq. destruct (decide _); [by rewrite decide_True by set_solver|by rewrite decide_True by set_solver].
  - rewrite lookup_insert_ne by done. destruct (decide (id ∈ u_OutputID <$> us)); [by rewrite decide_True by set_solver|].
    by rewrite decide_False by set_solver.
Qed.

Lemma cancel_ok n rid uk : keeper_ok n uk → keeper_ok n (cancel rid uk).
Proof.
  intros Hk. unfold cancel. destruct (uk_reservations uk !! rid) as [res|] eqn:Hr; [|done].
  destruct Hk as [Hi Hids Hres Hdb Hun]. split; cbn; try done.
  - by apply map_Forall_delete.
  - intros id rid'. rewrite lookup_foldl_delete_outputs. case_decide as Hin.
    + split; [done|]. intros (res' & [Hne Hr']%lookup_delete_Some & Hin'). exfalso. apply Hne.
      assert (uk_reserved uk !! id = Some rid) by (apply Hres; eauto).
      assert (uk_reserved uk !! id = Some rid') by (apply Hres; eauto). congruence.
    + rewrite Hres. split.
      * intros (res' & Hr' & Hin'). exists res'. split; [|done]. apply lookup_delete_Some. split; [|done].
        intros <-. rewrite Hr in Hr'. by injection Hr' as <-.
      * intros (res' & [Hne Hr']%lookup_delete_Some & Hin'). eauto.
Qed.

Lemma book_ok n us change exp uk : keeper_ok n uk → n < MaxUint64 → Forall (free uk) us →
  keeper_ok (n + 1) (book us change exp uk).2.
Proof.
  intros [Hi Hids Hres Hdb Hun] Hn Hfree. unfold book. rewrite uint64_id by (unfold is_uint64; lia).
  set (rid := uk_nextIndex uk + 1). assert (uk_reservations uk !! rid = None) as Hnew.
  { apply eq_None_not_Some. intros [res Hr]. specialize (Hids _ _ Hr). cbn in Hids. lia. }
  split; cbn; try done; [lia| |].
  - apply map_Forall_insert_2; [lia|]. eapply map_Forall_impl; [exact Hids|]. cbn. lia.
  - intros id rid'. rewrite lookup_foldl_insert_outputs. case_decide as Hin.
    + split.
      * intros [= <-]. eexists. rewrite lookup_insert_eq. by split.
      * intros (res' & [[<- _]|[Hne Hr']]%lookup_insert_Some & Hin'); [done|]. exfalso.
        apply list_elem_of_fmap in Hin as (u & -> & Hu). rewrite Forall_forall in Hfree. specialize (Hfree u Hu).
        unfold free in Hfree. assert (uk_reserved uk !! u_OutputID u = Some rid') by (apply Hres; eauto). congruence.
    + rewrite Hres. split.
      * intros (res' & Hr' & Hin'). exists res'. rewrite lookup_insert_ne; [done|]. congruence.
      * intros (res' & [[<- <-]|[Hne Hr']]%lookup_insert_Some & Hin'); [done|]. eauto.
Qed.

Lemma keeper_ok_mono n m uk : n <= m → keeper_ok n uk → keeper_ok m uk.
Proof. intros Hm [Hi Hids Hres Hdb Hun]. split; try done. lia. Qed.

(** Whatever the amounts, what is chosen was there. *)
Lemma replace_loop_incl amount room nodes : ∀ rl ra rl' ra' rest,
  replace_loop amount room nodes rl ra = Some (rl', ra', rest) → rl' ⊆ rl ++ nodes ∧ rest ⊆ nodes.
Proof.
  induction nodes as [|u nodes IH]; intros rl ra rl' ra' rest; cbn [replace_loop]; [done|].
  destruct (_ <=? room); [|done]. destruct (_ <=? _).
  - intros [= <- <- <-]. set_solver.
  - intros [H1 H2]%IH. set_solver.
Qed.
Lemma opt_loop_incl amount fuel : ∀ nodes opt a opt' a',
  opt_loop fuel amount nodes opt a = Ok (opt', a') → opt' ⊆ opt ++ nodes.
Proof.
  induction fuel as [|fuel IH]; intros [|u nodes] opt a opt' a'; cbn [opt_loop].
  1, 3: intros [= <- <-]; set_solver.
  1: done.
  destruct (_ <? _); [intros H%IH; set_solver|]. destruct opt as [|largest others]; [done|].
  destruct (replace_loop _ _ _ _ _) as [[[rl ra] rest]|] eqn:Hr; [|intros [= <- <-]; set_solver].
  apply replace_loop_incl in Hr as [H1 H2]. intros H%IH. set_solver.
Qed.

Lemma Reserve_ok n height acct asset amount unconf exp uk : keeper_ok n uk → n < MaxUint64 →
  keeper_ok (n + 1) (Reserve height acct asset amount unconf exp uk).2.
Proof.
  intros Hk Hn. unfold Reserve. destruct (findUtxos _ _ _ _ _) as [us imm].
  assert (keeper_ok (n + 1) uk) by (eapply keeper_ok_mono; [|done]; lia).
  unfold optUTXOs. destruct (opt_loop _ _ _ _ _) as [[opt a]| | |] eqn:Ho; [|done..].
  repeat (destruct (_ <? _); [done|]). apply book_ok; [done|done|]. apply Forall_forall. intros u Hu.
  apply opt_loop_incl in Ho. apply free_reserved. specialize (Ho u Hu). by apply list_elem_of_filter in Ho as [? _].
Qed.

Lemma db_Get_keyed key db u : keyed db → db_Get key db = Some u → u_OutputID u = key.
Proof.
  intros Hk. unfold db_Get. induction Hk as [|[k v] db Hp _ IH]; cbn [find]; [done|]. cbn in Hp.
  case_bool_decide as Heq; cbn in *; [|by apply IH]. intros [= <-]. congruence.
Qed.

Lemma ReserveParticular_ok n height h unconf exp uk : keeper_ok n uk → n < MaxUint64 →
  keeper_ok (n + 1) (ReserveParticular height h unconf exp uk).2.
Proof.
  intros Hk Hn. unfold ReserveParticular. assert (keeper_ok (n + 1) uk) by (eapply keeper_ok_mono; [|done]; lia).
  case_bool_decide as Hres; [done|]. destruct (findUtxo h unconf uk) as [u| | |] eqn:Hu; [|done..].
  destruct (_ <? _); [done|]. apply book_ok; [done|done|]. apply Forall_singleton. unfold free.
  assert (u_OutputID u = h) as ->; [|by apply eq_None_not_Some]. destruct Hk as [_ _ _ [Hd Hc] Hun]. revert Hu. unfold findUtxo.
  destruct (if unconf then _ else _) as [u'|] eqn:Hl.
  - intros [= <-]. destruct unconf; [|done]. by apply (Hun h u').
  - destruct (db_Get h (uk_db uk)) eqn:H1; [intros [= <-]; by apply (db_Get_keyed _ _ _ Hd)|].
    destruct (db_Get h (uk_contracts uk)) eqn:H2; [intros [= <-]; by apply (db_Get_keyed _ _ _ Hc)|done].
Qed.

Lemma foldl_inv {A B} (P : A → Prop) (f : A → B → A) l : (∀ a b, P a → P (f a b)) → ∀ a, P a → P (foldl f a l).
Proof. intros Hf. induction l as [|b l IH]; intros a Ha; [done|]. apply IH, Hf, Ha. Qed.

Lemma expire_ok n t uk : keeper_ok n uk → keeper_ok n (expireReservation t uk).
Proof.
  apply (foldl_inv (keeper_ok n)). intros uk' p Hk. destruct (_ <? _); [by apply cancel_ok|done].
Qed.

(** The wallet keeps outputs under their own identifiers. *)
Definition event_ok (e : keeper_event) : Prop :=
  match e with WalletUpdate db contracts => keyed db ∧ keyed contracts | _ => True end.

Lemma keeper_step_ok n uk e : keeper_ok n uk → n < MaxUint64 → event_ok e → keeper_ok (n + 1) (keeper_step uk e).
Proof.
  intros Hk Hn He. assert (keeper_ok (n + 1) uk) as Hk1 by (eapply keeper_ok_mono; [|done]; lia).
  destruct e; cbn [keeper_step].
  - destruct Hk1 as [Hi Hids Hres Hdb Hun]. by split.
  - destruct Hk1 as [Hi Hids Hres Hdb Hun]. split; try done. cbn.
    apply (foldl_inv (map_Forall (λ h u, u_OutputID u = h))); [|done]. intros m u Hm. by apply map_Forall_insert_2.
  - destruct Hk1 as [Hi Hids Hres Hdb Hun]. split; try done. cbn.
    apply (foldl_inv (map_Forall (λ h u, u_OutputID u = h))); [|done]. intros m u Hm. by apply map_Forall_delete.
  - by apply cancel_ok.
  - by apply expire_ok.
  - by apply Reserve_ok.
  - by apply ReserveParticular_ok.
Qed.

Lemma keeper_steps_ok events : ∀ n uk, keeper_ok n uk → n + len events <= MaxUint64 → Forall event_ok events →
  keeper_ok (n + len events) (foldl keeper_step uk events).
Proof.
  induction events as [|e events IH]; intros n uk Hk Hn He; cbn [foldl]; [by rewrite Z.add_0_r|].
  rewrite len_cons in *. apply Forall_cons in He as [He Hes]. pose proof (len_nonneg events).
  replace (n + (1 + len events)) with (n + 1 + len events) by lia. apply IH; [|lia|done]. apply keeper_step_ok; [done|lia|done].
Qed.

Lemma new_keeper_ok db contracts : keyed db → keyed contracts → keeper_ok 0 (newUtxoKeeper db contracts).
Proof.
  intros. split; cbn; try done. intros id rid. rewrite lookup_empty. split; [done|]. intros (res & Hr & _). by rewrite lookup_empty in Hr.
Qed.

(** *** Expiry *)

Lemma cancel_reservations rid uk : uk_reservations (cancel rid uk) = delete rid (uk_reservations uk).
Proof. unfold cancel. destruct (_ !! rid) eqn:Hr; [done|]. by rewrite delete_id. Qed.

Lemma expire_fold t l : ∀ uk rid, uk_reservations (foldl (λ uk p, if rs_expiry p.2 <? t then cancel p.1 uk else uk) uk l) !! rid
  = if decide (Exists (λ p, p.1 = rid ∧ rs_expiry p.2 < t) l) then None else uk_reservations uk !! rid.
Proof.
  induction l as [|[r res] l IH]; intros uk rid; cbn [foldl fst snd].
  - rewrite decide_False; [done|]. by intros ?%Exists_nil.
  - rewrite IH. destruct (Z.ltb_spec (rs_expiry res) t).
    + rewrite cancel_reservations. destruct (decide (rid = r)) as [->|Hne].
      * rewrite lookup_delete_eq, (decide_True (P := Exists _ (_ :: _))) by (by constructor). by case_decide.
      * rewrite lookup_delete_ne by done. repeat case_decide; try done; rewrite Exists_cons in *; cbn in *; naive_solver.
    + repeat case_decide; try done; rewrite Exists_cons in *; cbn in *; naive_solver lia.
Qed.

Lemma expire_lookup t uk rid : uk_reservations (expireReservation t uk) !! rid
  = match uk_reservations uk !! rid with Some res => if rs_expiry res <? t then None else Some res | None => None end.
Proof.
  unfold expireReservation. rewrite expire_fold. pose proof (go_range_id_perm _ (uk_reservations uk)) as Hp. case_decide as Hex.
  - apply Exists_exists in Hex as ([r res] & Hin & <- & Ht). rewrite Hp in Hin. apply elem_of_map_to_list in Hin.
    cbn in *. rewrite Hin. by rewrite (proj2 (Z.ltb_lt _ _) Ht).
  - destruct (uk_reservations uk !! rid) as [res|] eqn:Hr; [|done]. destruct (Z.ltb_spec (rs_expiry res) t); [|done].
    destruct Hex. apply Exists_exists. exists (rid, res). rewrite Hp. split; [by apply elem_of_map_to_list|done].
Qed.

(** C29: no output is reserved twice.  When the wallet stores every output
    under its own identifier, then after any sequence of at most 2^64 - 1
    updates of the wallet, unconfirmed outputs, reservations, cancellations and
    ticks, an output belongs to at most one reservation and is marked as
    reserved exactly while it belongs to one; the tick of the clock ends the
    reservations that have expired and no others. *)
Theorem no_output_is_reserved_twice db contracts events : keyed db → keyed contracts → Forall event_ok events →
  len events <= MaxUint64 →
  let uk := foldl keeper_step (newUtxoKeeper db contracts) events in
  (∀ r1 r2 res1 res2 id, uk_reservations uk !! r1 = Some res1 → uk_reservations uk !! r2 = Some res2 →
     id ∈ outputs (rs_utxos res1) → id ∈ outputs (rs_utxos res2) → r1 = r2)
  ∧ (∀ id, is_Some (uk_reserved uk !! id) ↔ ∃ rid res, uk_reservations uk !! rid = Some res ∧ id ∈ outputs (rs_utxos res))
  ∧ ∀ t rid res, uk_reservations (expireReservation t uk) !! rid = Some res ↔ uk_reservations uk !! rid = Some res ∧ t <= rs_expiry res.
Proof.
  intros Hd Hc He Hn uk.
  destruct (keeper_steps_ok events 0 _ (new_keeper_ok db contracts Hd Hc) Hn He) as [_ _ Hres _ _]. fold uk in Hres.
  split_and!.
  - intros r1 r2 res1 res2 id H1 H2 Hi1 Hi2.
    assert (uk_reserved uk !! id = Some r1) by (apply Hres; eauto).
    assert (uk_reserved uk !! id = Some r2) by (apply Hres; eauto). congruence.
  - intros id. unfold is_Some. setoid_rewrite Hres. done.
  - intros t rid res. rewrite expire_lookup. destruct (uk_reservations uk !! rid) as [res'|]; [|naive_solver].
    destruct (Z.ltb_spec (rs_expiry res') t); naive_solver lia.
Qed.
End exclusive.

(** ** Concrete wallets *)

#[local] Instance wallet_range : GoRange := λ V m, map_to_list m.
#[local] Instance wallet_range_id : GoRangeId := λ V m, map_to_list m.
#[local] Instance wallet_range_id_ok : GoRangeIdOk.
Proof. by intros V m. Qed.
#[local] Instance by_amount_dec : RelDecision by_amount := λ a b, Z_le_dec (u_Amount b) (u_Amount a).
#[local] Instance by_amount_total : Total by_amount.
Proof. intros a b. unfold by_amount. lia. Qed.
#[local] Instance wallet_sort : AmountSort := λ l, merge_sort by_amount l.
#[local] Instance wallet_sort_ok : AmountSortOk.
Proof. constructor; intros l; [apply merge_sort_Permutation|apply Sorted_merge_sort, _]. Qed.

Definition coin (n amount height : Z) : Hash * UTXO :=
  (mkHash n 0 0 0, mkUTXO (mkHash n 0 0 0) (mkHash 0 0 0 n) NativeAsset amount 0 [0x51] [65] [] 0 height false).
Definition wallet_db : list (Hash * UTXO) := [coin 1 100 0; coin 2 30 0; coin 3 25 0; coin 4 50 9].
Definition wallet : utxoKeeper := newUtxoKeeper wallet_db [].

Lemma wallet_keyed : keyed wallet_db.
Proof. repeat constructor. Qed.

(** The second reservation finds only what the first has left. *)
Definition wallet_events : list keeper_event :=
  [ReserveIt 5 [65] NativeAsset 40 false 100; ReserveIt 5 [65] NativeAsset 90 false 200; ReserveOne 5 (mkHash 1 0 0 0) false 300].

Lemma no_output_is_reserved_twice_witness :
  let uk := foldl keeper_step wallet wallet_events in
  (outputs ∘ rs_utxos <$> (map_to_list (uk_reservations uk)).*2) = [[mkHash 1 0 0 0]; [mkHash 2 0 0 0; mkHash 3 0 0 0]]
  ∧ ∀ t rid res, uk_reservations (expireReservation t uk) !! rid = Some res ↔ uk_reservations uk !! rid = Some res ∧ t <= rs_expiry res.
Proof.
  split; [vm_compute; reflexivity|].
  apply (no_output_is_reserved_twice wallet_db [] wallet_events wallet_keyed); [constructor|repeat constructor|].
  vm_compute. congruence.
Defined.

Lemma reservations_are_exact_witness :
  match (Reserve 5 [65] NativeAsset 40 false 100 wallet).1 with
  | Ok res => sum_of (rs_utxos res) = 40 + rs_change res ∧ rs_change res = 15
  | _ => False
  end.
Proof.
  assert (Forall (λ u, 0 <= u_Amount u) (listed false wallet)) as Hf by (repeat constructor; vm_compute; congruence).
  assert (sum_of (listed false wallet) <= MaxUint64) as Hb by (vm_compute; congruence).
  pose proof (reservations_are_exact 5 [65] NativeAsset false wallet Hf Hb 40 100 ltac:(lia)) as H.
  assert ((Reserve 5 [65] NativeAsset 40 false 100 wallet).1 = Ok (mkReservation 1 [(coin 2 30 0).2; (coin 3 25 0).2] 15 100)) as He
    by (vm_compute; reflexivity).
  rewrite He in H |- *. destruct H as (_ & _ & _ & Hs & _). split; [exact Hs|reflexivity].
Defined.

Lemma reserving_nothing_panics_witness : (Reserve 5 [65] NativeAsset 0 false 100 wallet).1 = Panic.
Proof.
  apply reserving_nothing_panics.
  - repeat constructor; vm_compute; congruence.
  - vm_compute. congruence.
  - vm_compute. congruence.
Defined.

(** While an output is in the database and still listed as unconfirmed, a
    reservation can hold it twice. *)
Example unconfirmed_output_counted_twice :
  let uk := AddUnconfirmedUtxo [(coin 1 100 0).2] wallet in
  match (Reserve 5 [65] NativeAsset 190 true 100 uk).1 with
  | Ok res => outputs (rs_utxos res) = [mkHash 1 0 0 0; mkHash 1 0 0 0]
  | _ => False
  end.
Proof. vm_compute. reflexivity. Qed.
