(* ===== verification/TxValidation.v ===== *)
(** * Transaction validation ([protocol/validation/tx.go], [vmcontext.go])

    [checkValid] walks over the graph of entries of a transaction from its
    header, running the programs of its inputs, matching the two ends of every
    flow of value and adding up the amounts at the mux.  The gas status and the
    cache of results are shared by the whole walk, so they are part of the
    state, with the account database and the heap of the machine's byte arrays;
    the entry and positions of [ValidationState], which the code copies for
    every call, are arguments.  The bytes of programs and arguments are copied
    into the heap for every run of the machine, and an empty byte string is a
    nil slice, as the decoder of transactions makes it. *)

From S2P Require Import Prelude Checked GoSlice VmProgram VmMachine VmOps EvmTransition.
From S2P Require Import VmEvmOps VmRun Encoding Bc EntryHash StdPrograms TxMap.

Abbreviation VMGasRate := 200.
Abbreviation StorageGasRate := 1.
Abbreviation MaxGasAmount := 5000000.
Abbreviation DefaultGasCredit := 30000.
Abbreviation CoinbaseArbitrarySizeLimit := 128.

Inductive val_error :=
| ErrTxVersion
| ErrWrongTransactionSize
| ErrBadTimeRange
| ErrNotStandardTx
| ErrWrongCoinbaseTransaction
| ErrWrongCoinbaseAsset
| ErrCoinbaseArbitraryOversize
| ErrMismatchedAssetID
| ErrMismatchedPosition
| ErrMismatchedReference
| ErrMismatchedValue
| ErrMissingField
| ErrNoSource
| ErrOverflow
| ErrPosition
| ErrUnbalanced
| ErrOverGasCredit
| ErrGasCalculate
| ErrEntry (e : bc_error)
| ErrVm (e : error)
| ErrEmptyAmount
| ErrUnexpectedType.

(** ** Gas *)

Record GasState := mkGasState {
  AssetValue : Z;
  GasLeft : Z;
  GasUsed : Z;
  GasValid : bool;
  StorageGas : Z;
}.

(** The methods of [GasState]: the error, if any, and the state they leave *)
Definition setGas (assetValue txSize : Z) (g : GasState) : option val_error * GasState :=
  if assetValue <? 0 then (Some ErrGasCalculate, g)
  else
    let value := uint64 assetValue in
    match DivInt64 assetValue VMGasRate with
    | None => (Some ErrGasCalculate, mkGasState value 0 (GasUsed g) (GasValid g) (StorageGas g))
    | Some q =>
        let left := if MaxGasAmount <? q then MaxGasAmount else q in
        match MulInt64 txSize StorageGasRate with
        | None => (Some ErrGasCalculate, mkGasState value left (GasUsed g) (GasValid g) 0)
        | Some s => (None, mkGasState value left (GasUsed g) (GasValid g) s)
        end
    end.

Definition setGasValid (g : GasState) : option val_error * GasState :=
  let left := SubInt64 (GasLeft g) (StorageGas g) in
  let g := mkGasState (AssetValue g) (default 0 left) (GasUsed g) (GasValid g) (StorageGas g) in
  match left with
  | Some l =>
      if l <? 0 then (Some ErrGasCalculate, g)
      else match AddInt64 (GasUsed g) (StorageGas g) with
           | None => (Some ErrGasCalculate, mkGasState (AssetValue g) l 0 (GasValid g) (StorageGas g))
           | Some u => (None, mkGasState (AssetValue g) l u true (StorageGas g))
           end
  | None => (Some ErrGasCalculate, g)
  end.

Definition updateUsage (gasLeft : Z) (g : GasState) : option val_error * GasState :=
  if gasLeft <? 0 then (Some ErrGasCalculate, g)
  else
    match SubInt64 (GasLeft g) gasLeft with
    | None => (Some ErrGasCalculate, g)
    | Some used =>
        let g := mkGasState (AssetValue g) gasLeft (int64 (GasUsed g + used)) (GasValid g) (StorageGas g) in
        (if negb (GasValid g) && ((DefaultGasCredit <? GasUsed g) || (GasLeft g <? StorageGas g))
         then Some ErrOverGasCredit else None, g)
    end.

(** ** The state of a validation *)

Section state.
Context `{E : VmEnv}.

Record VState := mkVState {
  v_gas : GasState;
  v_cache : gmap Hash (option val_error);
  v_heap : heap;
  v_db : StateDB;
}.

Definition V (A : Type) : Type := VState → outcome val_error A * VState.
Definition vret {A} (a : A) : V A := λ s, (Ok a, s).
Definition vthrow {A} (e : val_error) : V A := λ s, (Err e, s).
Definition vbind {A B} (m : V A) (k : A → V B) : V B := λ s,
  match m s with
  | (Ok a, s') => k a s'
  | (Err e, s') => (Err e, s')
  | (Panic, s') => (Panic, s')
  | (Fuel, s') => (Fuel, s')
  end.
Definition vlift {A} (o : outcome val_error A) : V A := λ s, (o, s).
Definition vgets {A} (f : VState → A) : V A := λ s, (Ok (f s), s).
(** Dereferencing a pointer *)
Definition deref {A} (p : option A) : outcome val_error A := match p with Some a => Ok a | None => Panic end.
Definition vderef {A} (p : option A) : V A := vlift (deref p).

Definition on_gas (f : GasState → option val_error * GasState) : V unit := λ s,
  let '(e, g) := f (v_gas s) in
  (match e with None => Ok tt | Some e => Err e end, mkVState g (v_cache s) (v_heap s) (v_db s)).

Definition on_db (f : StateDB → StateDB) : V unit := λ s,
  (Ok tt, mkVState (v_gas s) (v_cache s) (v_heap s) (f (v_db s))).

Definition remember_result (id : Hash) (e : option val_error) (s : VState) : VState :=
  mkVState (v_gas s) (<[id := e]> (v_cache s)) (v_heap s) (v_db s).

(** A byte string of the transaction as a slice *)
Definition valloc (bs : list Z) : V slice := λ s,
  match bs with
  | [] => (Ok nil_slice, s)
  | _ => let '(sl, h) := alloc (v_heap s) bs (length bs) in
         (Ok sl, mkVState (v_gas s) (v_cache s) h (v_db s))
  end.
Definition valloc_opt (bs : option (list Z)) : V (option slice) :=
  match bs with
  | None => vret None
  | Some bs => vbind (valloc bs) (λ s, vret (Some s))
  end.
Fixpoint valloc_list (l : list (list Z)) : V (list slice) :=
  match l with
  | [] => vret []
  | bs :: r => vbind (valloc bs) (λ s, vbind (valloc_list r) (λ ss, vret (s :: ss)))
  end.
End state.

Declare Scope val_scope.
Delimit Scope val_scope with val.
Notation "x <- m ;; k" := (vbind m (λ x, k))
  (at level 100, m at next level, right associativity) : val_scope.
Notation "m ;; k" := (vbind m (λ _, k))
  (at level 100, right associativity) : val_scope.

(** What a validation is about: the transaction, its block, whether it is the
    first of the block's transactions, what the chain tells the machine, the
    configuration, and the rounds the machine may make *)
Record Subject := mkSubject {
  sj_tx : Tx;
  sj_block : Block;
  sj_first : bool;
  sj_info : Z * Z * Z;
  sj_SupportBalanceInStateDB : bool;
  sj_rounds : nat;
}.

(** [new(big.Int).SetUint64(n).Bytes()] *)
Fixpoint drop_zeros (bs : list Z) : list Z :=
  match bs with
  | [] => []
  | b :: r => if b =? 0 then drop_zeros r else bs
  end.
Definition big_bytes (n : Z) : list Z := drop_zeros (put_be64 n).

Definition witnessProgram (prog : list Z) : list Z :=
  if IsP2WSHScript prog then match ConvertP2SHProgram prog with Ok p => p | _ => prog end else prog.

(** ** [entryContext.checkOutput] *)

Section check_output.
Context (entries : gmap Hash Entry).
Context (index amount : Z) (assetID : list Z) (vmVersion : Z) (code : list Z) (expansion : bool).
Local Open Scope go_scope.

Definition co_deref {A} (p : option A) : outcome error A := match p with Some a => Ok a | None => Panic end.

(** [check]: the comparisons stop at the first that fails *)
Definition co_check (prog : Program) (src : option ValueSource) : outcome error bool :=
  let? src := co_deref src in
  if negb ((VmVersion prog =? vmVersion) && bool_decide (pr_Code prog = code)) then Ok false
  else
    let? v := co_deref (vs_Value src) in
    let? a := co_deref (aa_AssetId v) in
    Ok (bool_decide (Byte32 a = assetID) && (aa_Amount v =? amount)).

Definition co_checkEntry (e : Entry) : outcome error bool :=
  match e with
  | EOutput o => co_check (out_ControlProgram o) (out_Source o)
  | ERetirement r => co_check (mkProgram 0 (if expansion then code else [])) (ret_Source r)
  | EDeposit d => co_check (dp_ControlProgram d) (dp_Source d)
  | _ => Err ErrContext
  end.

Definition co_checkMux (m : Mux) : outcome error bool :=
  if uint64 (len (mux_WitnessDestinations m)) <=? index then Err ErrBadValue
  else
    let? d := co_deref (mjoin (mux_WitnessDestinations m !! Z.to_nat index)) in
    let? eID := co_deref (vd_Ref d) in
    match entries !! eID with
    | None => Err VmProgram.ErrMissingEntry
    | Some e => co_checkEntry e
    end.

Definition co_checkDest (d : option ValueDestination) : outcome error bool :=
  let? d := co_deref d in
  let? ref := co_deref (vd_Ref d) in
  match entries !! ref with
  | None => Err VmProgram.ErrMissingEntry
  | Some (EMux m) => co_checkMux m
  | Some e => if negb (index =? 0) then Err ErrBadValue else co_checkEntry e
  end.

Definition checkOutput (entry : Entry) : outcome error bool :=
  match entry with
  | EMux m => co_checkMux m
  | EIssuance i => co_checkDest (is_WitnessDestination i)
  | ESpend s => co_checkDest (sp_WitnessDestination s)
  | _ => Err ErrContext
  end.
End check_output.

(** ** [NewTxVMContext] *)

Section validation.
Context `{E : VmEnv} `{R : GoRange}.
Local Open Scope val_scope.

(** The fields that depend on the kind of the entry: asset, amount,
    destination position, spent output.  The other kinds have no code. *)
Record EntryFields := mkEntryFields {
  ef_assetID : list Z;
  ef_amount : Z;
  ef_destPos : option Z;
  ef_spentOutputID : option (list Z);
}.

Definition amount_fields (v : AssetAmount) (destPos : option Z) (spent : option (list Z))
    : outcome val_error EntryFields :=
  match aa_AssetId v with
  | Some a => Ok (mkEntryFields (Byte32 a) (aa_Amount v) destPos spent)
  | None => Panic
  end.

Definition entry_fields (tx : Tx) (entry : Entry) : outcome val_error EntryFields :=
  match entry with
  | EIssuance e =>
      match is_WitnessDestination e with
      | Some d => amount_fields (is_Value e) (Some (vd_Position d)) None
      | None => Panic
      end
  | ESpend e =>
      match id ← sp_SpentOutputId e; Entries tx !! id with
      | Some (EOutput o) =>
          match src ← out_Source o; vs_Value src, sp_WitnessDestination e, sp_SpentOutputId e with
          | Some v, Some d, Some id => amount_fields v (Some (vd_Position d)) (Some (Byte32 id))
          | _, _, _ => Panic
          end
      | _ => Panic
      end
  | ECreation _ | ECall _ | EContract _ => Ok (mkEntryFields (Byte32 NativeAsset) 0 None None)
  | EDeposit e =>
      match src ← dp_Source e; vs_Value src with
      | Some v => amount_fields v None None
      | None => Panic
      end
  | EWithdrawal e =>
      match wd_WitnessDestination e with
      | Some d => amount_fields (wd_Value e) (Some (vd_Position d)) None
      | None => Panic
      end
  | _ => Panic
  end.

Definition NewTxVMContext (sj : Subject) (entry : Entry) (prog : Program) (args : list (list Z))
    : V Context :=
  let tx := sj_tx sj in
  entryID <- vlift (EntryHash.EntryID sha3_Sum256 (Some entry)) ;;
  f <- vlift (entry_fields tx entry) ;;
  code <- valloc (witnessProgram (pr_Code prog)) ;;
  arguments <- valloc_list args ;;
  entryID_bytes <- valloc (Byte32 entryID) ;;
  assetID <- valloc (ef_assetID f) ;;
  txData <- valloc (Byte32 (h_Data (tx_Header tx))) ;;
  spent <- valloc_opt (ef_spentOutputID f) ;;
  sighash <- valloc (Byte32 (sig_hash sha3_Sum256 entryID (tx_ID tx))) ;;
  vret (mkContext (sj_info sj) (VmVersion prog) code arguments entryID_bytes
          (Some (h_Version (tx_Header tx))) (Some (blk_Height (sj_block sj)))
          (Some (uint64 (len (ResultIds tx)))) (Some assetID) (Some (ef_amount f)) (Some txData) None
          (ef_destPos f) spent (Some sighash)
          (Some (λ index amount asset version code expansion,
                   checkOutput (Entries tx) index amount asset version code expansion entry))).

(** [vm.Verify(NewTxVMContext(vs, e, prog, args), vs.gasStatus.GasLeft)]
    followed by [updateUsage] *)
Definition run_program (sj : Subject) (entry : Entry) (prog : Program) (args : list (list Z)) : V unit :=
  ctx <- NewTxVMContext sj entry prog args ;;
  left <- (λ s, match Verify (sj_rounds sj) ctx (GasLeft (v_gas s)) (v_heap s) (v_db s) with
                | None => (Fuel, s)
                | Some (r, st) =>
                    (match v_err r with None => Ok (v_gasLeft r) | Some e => Err (ErrVm e) end,
                     mkVState (v_gas s) (v_cache s) (hp st) (db st))
                end) ;;
  on_gas (updateUsage left).

(** ** The two ends of a flow of value *)

(** [AssetAmount.Equal] *)
Definition amount_Equal (a b : option AssetAmount) : option bool :=
  a ← a; b ← b; ia ← aa_AssetId a; ib ← aa_AssetId b;
  Some ((aa_Amount a =? aa_Amount b) && bool_decide (ia = ib)).

(** The comparison of the other end [ref], [position], [value] with this one;
    the error message for a nil reference dereferences it *)
Definition check_end (ref : option Hash) (position : Z) (value : option AssetAmount)
    (entryID : Hash) (pos : Z) (this : option AssetAmount) : outcome val_error unit :=
  match ref with
  | None => Panic
  | Some r =>
      if negb (bool_decide (r = entryID)) then Err ErrMismatchedReference
      else if negb (position =? pos) then Err ErrMismatchedPosition
      else match amount_Equal value this with
           | None => Err ErrMissingField
           | Some eq => if eq then Ok tt else Err ErrMismatchedValue
           end
  end.

Definition has_value (v : option AssetAmount) : bool :=
  match v with Some a => bool_decide (is_Some (aa_AssetId a)) | None => false end.

Definition checkValidDest (tx : Tx) (entryID : Hash) (destPos : Z) (vd : option ValueDestination)
    : outcome val_error unit :=
  match vd with
  | None => Err ErrMissingField
  | Some vd =>
      match vd_Ref vd with
      | None => Err ErrMissingField
      | Some ref =>
          if negb (has_value (vd_Value vd)) then Err ErrMissingField
          else
            let finish (src : option ValueSource) :=
              match src with
              | None => Panic
              | Some src => check_end (vs_Ref src) (vs_Position src) (vs_Value src) entryID destPos (vd_Value vd)
              end in
            let single (src : option ValueSource) :=
              if negb (vd_Position vd =? 0) then Err ErrPosition else finish src in
            match Entries tx !! ref with
            | None => Err (ErrEntry Bc.ErrMissingEntry)
            | Some (EOutput o) => single (out_Source o)
            | Some (ERetirement r) => single (ret_Source r)
            | Some (EDeposit d) => single (dp_Source d)
            | Some (EMux m) =>
                if uint64 (len (mux_Sources m)) <=? vd_Position vd then Err ErrPosition
                else finish (mjoin (mux_Sources m !! Z.to_nat (vd_Position vd)))
            | Some _ => Err (ErrEntry ErrEntryType)
            end
      end
  end.

Definition checkValidSrc (rec : Hash → option Entry → V unit) (tx : Tx) (entryID : Hash) (sourcePos : Z)
    (vs : option ValueSource) : V unit :=
  match vs with
  | None => vthrow ErrMissingField
  | Some vs =>
      match vs_Ref vs with
      | None => vthrow ErrMissingField
      | Some ref =>
          if negb (has_value (vs_Value vs)) then vthrow ErrMissingField
          else
            match Entries tx !! ref with
            | None => vthrow (ErrEntry Bc.ErrMissingEntry)
            | Some e =>
                rec ref (Some e) ;;
                let finish (dest : option ValueDestination) : V unit :=
                  match dest with
                  | None => vlift Panic
                  | Some d => vlift (check_end (vd_Ref d) (vd_Position d) (vd_Value d) entryID sourcePos
                                       (vs_Value vs))
                  end in
                let single (dest : option ValueDestination) : V unit :=
                  if negb (vs_Position vs =? 0) then vthrow ErrPosition else finish dest in
                match e with
                | ECoinbase c => single (cb_WitnessDestination c)
                | EIssuance i => single (is_WitnessDestination i)
                | ESpend s => single (sp_WitnessDestination s)
                | ECreation c => single (cr_WitnessDestination c)
                | ECall c => single (ca_WitnessDestination c)
                | EContract c => single (co_WitnessDestination c)
                | EWithdrawal w => single (wd_WitnessDestination w)
                | EMux m =>
                    if uint64 (len (mux_WitnessDestinations m)) <=? vs_Position vs then vthrow ErrPosition
                    else finish (mjoin (mux_WitnessDestinations m !! Z.to_nat (vs_Position vs)))
                | _ => vthrow (ErrEntry ErrEntryType)
                end
            end
      end
  end.

(** ** The mux: parity of the amounts *)

Fixpoint add_sources (parity : gmap AssetId Z) (srcs : list (option ValueSource))
    : outcome val_error (gmap AssetId Z) :=
  match srcs with
  | [] => Ok parity
  | src :: rest =>
      match src ← src; vs_Value src with
      | None => Panic
      | Some v =>
          if MaxInt64 <? aa_Amount v then Err ErrOverflow
          else match aa_AssetId v with
               | None => Panic
               | Some a => match AddInt64 (default 0 (parity !! a)) (int64 (aa_Amount v)) with
                           | None => Err ErrOverflow
                           | Some sum => add_sources (<[a := sum]> parity) rest
                           end
               end
      end
  end.

Fixpoint sub_destinations (parity : gmap AssetId Z) (dests : list (option ValueDestination))
    : outcome val_error (gmap AssetId Z) :=
  match dests with
  | [] => Ok parity
  | dest :: rest =>
      match d ← dest; v ← vd_Value d; a ← aa_AssetId v; Some (a, aa_Amount v) with
      | None => Panic
      | Some (a, amount) =>
          match parity !! a with
          | None => Err ErrNoSource
          | Some sum =>
              if MaxInt64 <? amount then Err ErrOverflow
              else match SubInt64 sum (int64 amount) with
                   | None => Err ErrOverflow
                   | Some diff => sub_destinations (<[a := diff]> parity) rest
                   end
          end
      end
  end.

(** The loop over the map of parities, in Go's order *)
Fixpoint settle (size : Z) (l : list (AssetId * Z)) : V unit :=
  match l with
  | [] => vret tt
  | (a, amount) :: rest =>
      (if bool_decide (a = NativeAsset) then on_gas (setGas amount (int64 size))
       else if negb (amount =? 0) then vthrow ErrUnbalanced else vret tt) ;;
      settle size rest
  end.

(** ** [checkValid] by kind of entry

    [rec] is the recursive call, with the identifier it sets as the nearest
    enclosing entry. *)

Section kinds.
Context (sj : Subject) (rec : Hash → option Entry → V unit).
Let tx : Tx := sj_tx sj.

Fixpoint check_results (ids : list Hash) : V unit :=
  match ids with
  | [] => vret tt
  | id :: rest => rec id (Entries tx !! id) ;; check_results rest
  end.

Definition check_header (h : TxHeader) : V unit :=
  check_results (h_ResultIds h) ;;
  if (h_Version h =? 1) && bool_decide (h_ResultIds h = [])
  then let mux := h_MuxId (tx_Header tx) in rec mux (Entries tx !! mux)
  else vret tt.

Fixpoint check_gas_inputs (ids : list Hash) : V unit :=
  match ids with
  | [] => vret tt
  | id :: rest =>
      match Entries tx !! id with
      | None => vthrow (ErrEntry Bc.ErrMissingEntry)
      | Some e => rec id (Some e) ;; check_gas_inputs rest
      end
  end.

Fixpoint check_dests (entryID : Hash) (i : Z) (dests : list (option ValueDestination)) : V unit :=
  match dests with
  | [] => vret tt
  | d :: rest => vlift (checkValidDest tx entryID i d) ;; check_dests entryID (i + 1) rest
  end.

Fixpoint check_sources (entryID : Hash) (i : Z) (srcs : list (option ValueSource)) : V unit :=
  match srcs with
  | [] => vret tt
  | s :: rest => checkValidSrc rec tx entryID i s ;; check_sources entryID (i + 1) rest
  end.

Definition check_mux (entryID : Hash) (m : Mux) : V unit :=
  parity <- vlift (add_sources ∅ (mux_Sources m)) ;;
  parity <- vlift (sub_destinations parity (mux_WitnessDestinations m)) ;;
  settle (h_SerializedSize (tx_Header tx)) (go_range parity) ;;
  check_gas_inputs (GasInputIDs tx) ;;
  check_dests entryID 0 (mux_WitnessDestinations m) ;;
  (if bool_decide (GasInputIDs tx = []) then vret tt else on_gas setGasValid) ;;
  check_sources entryID 0 (mux_Sources m).

(** The balance kept in the account database, when the configuration says so *)
Definition move_balance (f : StateDB → Address → Z → StateDB) (o : Output) : V unit :=
  if sj_SupportBalanceInStateDB sj then
    v <- vderef (src ← out_Source o; vs_Value src) ;;
    a <- vderef (aa_AssetId v) ;;
    if bool_decide (Byte32 a = Byte32 NativeAsset) then
      hash <- vlift (match GetHashFromStandardProg (pr_Code (out_ControlProgram o)) with
                     | Ok h => Ok h
                     | Err e => Err (ErrVm e)
                     | Panic => Panic
                     | Fuel => Fuel
                     end) ;;
      on_db (λ d, f d (BytesToAddress hash) (aa_Amount v))
    else vret tt
  else vret tt.

Definition check_output_entry (entryID : Hash) (o : Output) : V unit :=
  checkValidSrc rec tx entryID 0 (out_Source o) ;; move_balance AddBalance o.

Definition check_issuance (entryID : Hash) (e : Issuance) : V unit :=
  asset <- vderef (aa_AssetId (is_Value e)) ;;
  if negb (bool_decide (ComputeAssetID sha3_Sum256 (is_WitnessAssetDefinition e) = asset))
  then vthrow ErrMismatchedAssetID
  else
    run_program sj (EIssuance e) (ad_IssuanceProgram (is_WitnessAssetDefinition e)) (is_WitnessArguments e) ;;
    vlift (checkValidDest tx entryID 0 (is_WitnessDestination e)).

(** [segwit.GetHashFromStandardProg(e.From.Code)] and the nonce *)
Definition caller_args (from : Program) (nonce : Z) : outcome val_error (list (list Z)) :=
  match GetHashFromStandardProg (pr_Code from) with
  | Ok h => Ok [h; big_bytes nonce]
  | Err e => Err (ErrVm e)
  | Panic => Panic
  | Fuel => Fuel
  end.

Definition check_creation (e : Creation) : V unit :=
  run_program sj (ECreation e) (cr_From e) (cr_WitnessArguments e) ;;
  if IsOpCreate (pr_Code (cr_Input e)) then
    args <- vlift (caller_args (cr_From e) (cr_Nonce e)) ;;
    run_program sj (ECreation e) (cr_Input e) args
  else vret tt.

Definition check_call (e : Call) : V unit :=
  run_program sj (ECall e) (ca_From e) (ca_WitnessArguments e) ;;
  if IsOpCall (pr_Code (ca_Input e)) then
    args <- vlift (caller_args (ca_From e) (ca_Nonce e)) ;;
    run_program sj (ECall e) (ca_Input e) (args ++ [pr_Code (ca_To e)])
  else vret tt.

Definition check_contract (e : Contract) : V unit :=
  run_program sj (EContract e) (co_From e) (co_WitnessArguments e) ;;
  if IsOpContract (pr_Code (co_Input e)) then
    args <- vlift (caller_args (co_From e) (co_Nonce e)) ;;
    run_program sj (EContract e) (co_Input e) (args ++ [co_To e])
  else vret tt.

Definition check_deposit (entryID : Hash) (e : Deposit) : V unit :=
  checkValidSrc rec tx entryID 0 (dp_Source e) ;;
  if IsOpDeposit (pr_Code (dp_ControlProgram e))
  then run_program sj (EDeposit e) (dp_ControlProgram e) [] else vret tt.

Definition check_withdrawal (entryID : Hash) (e : Withdrawal) : V unit :=
  run_program sj (EWithdrawal e) (wd_ControlProgram e) (wd_WitnessArguments e) ;;
  vlift (checkValidDest tx entryID 0 (wd_WitnessDestination e)) ;;
  if IsOpWithdraw (pr_Code (wd_WithdrawProgram e))
  then run_program sj (EWithdrawal e) (wd_WithdrawProgram e) [] else vret tt.

Definition lift_bc {A} (o : outcome bc_error A) : outcome val_error A :=
  match o with
  | Ok a => Ok a
  | Err e => Err (ErrEntry e)
  | Panic => Panic
  | Fuel => Fuel
  end.

Definition check_spend (entryID : Hash) (e : Spend) : V unit :=
  match sp_SpentOutputId e with
  | None => vthrow ErrMissingField
  | Some spentID =>
      o <- vlift (lift_bc (tx_Output tx spentID)) ;;
      run_program sj (ESpend e) (out_ControlProgram o) (sp_WitnessArguments e) ;;
      src <- vderef (out_Source o) ;;
      d <- vderef (sp_WitnessDestination e) ;;
      match amount_Equal (vs_Value src) (vd_Value d) with
      | None => vthrow ErrEmptyAmount
      | Some eq => if (eq : bool) then vret tt else vthrow ErrMismatchedValue
      end ;;
      vlift (checkValidDest tx entryID 0 (Some d)) ;;
      move_balance SubBalance o
  end.

Definition check_coinbase (entryID : Hash) (e : Coinbase) : V unit :=
  if negb (sj_first sj) then vthrow ErrWrongCoinbaseTransaction
  else
    v <- vderef (d ← cb_WitnessDestination e; vd_Value d) ;;
    a <- vderef (aa_AssetId v) ;;
    if negb (bool_decide (a = NativeAsset)) then vthrow ErrWrongCoinbaseAsset
    else if CoinbaseArbitrarySizeLimit <? len (cb_Arbitrary e) then vthrow ErrCoinbaseArbitraryOversize
    else
      vlift (checkValidDest tx entryID 0 (cb_WitnessDestination e)) ;;
      on_gas (λ g, (None, mkGasState (AssetValue g) (GasLeft g) (GasUsed g) true (StorageGas g))).

Definition check_entry (entryID : Hash) (e : option Entry) : V unit :=
  match e with
  | Some (ETxHeader h) => check_header h
  | Some (EMux m) => check_mux entryID m
  | Some (EOutput o) => check_output_entry entryID o
  | Some (ERetirement r) => checkValidSrc rec tx entryID 0 (ret_Source r)
  | Some (EIssuance i) => check_issuance entryID i
  | Some (ECreation c) => check_creation c
  | Some (ECall c) => check_call c
  | Some (EContract c) => check_contract c
  | Some (EDeposit d) => check_deposit entryID d
  | Some (EWithdrawal w) => check_withdrawal entryID w
  | Some (ESpend s) => check_spend entryID s
  | Some (ECoinbase c) => check_coinbase entryID c
  | Some (EBlockHeader _) | None => vthrow ErrUnexpectedType
  end.
End kinds.

(** The cache around the check of an entry; the deferred function records the
    result, also nil when the check panics *)
Definition cached (e : option Entry) (body : V unit) : V unit :=
  id <- vlift (EntryHash.EntryID sha3_Sum256 e) ;;
  c <- vgets (λ s, v_cache s !! id) ;;
  match c with
  | Some None => vret tt
  | Some (Some err) => vthrow err
  | None => λ s,
      match body s with
      | (Ok _, s') => (Ok tt, remember_result id None s')
      | (Err err, s') => (Err err, remember_result id (Some err) s')
      | (Panic, s') => (Panic, remember_result id None s')
      | (Fuel, s') => (Fuel, s')
      end
  end.

(** The depth of the recursion is bounded by [fuel]. *)
Fixpoint checkValid (fuel : nat) (sj : Subject) (entryID : Hash) (e : option Entry) : V unit :=
  match fuel with
  | O => vlift Fuel
  | S fuel => cached e (check_entry sj (checkValid fuel sj) entryID e)
  end.

(** ** Whole transactions *)

Fixpoint check_standard_inputs (tx : Tx) (ids : list Hash) : outcome val_error unit :=
  match ids with
  | [] => Ok tt
  | id :: rest =>
      match Entries tx !! id with
      | None => Err (ErrEntry Bc.ErrMissingEntry)
      | Some (ESpend s) =>
          match sp_SpentOutputId s with
          | None => Panic
          | Some o =>
              match lift_bc (tx_Output tx o) with
              | Ok o => if IsP2WScript (pr_Code (out_ControlProgram o)) then check_standard_inputs tx rest
                        else Err ErrNotStandardTx
              | Err e => Err e
              | Panic => Panic
              | Fuel => Fuel
              end
          end
      | Some (EWithdrawal w) =>
          if IsP2WScript (pr_Code (wd_ControlProgram w)) then check_standard_inputs tx rest
          else Err ErrNotStandardTx
      | Some _ => Err ErrNotStandardTx
      end
  end.

Fixpoint check_standard_results (tx : Tx) (ids : list Hash) : outcome val_error unit :=
  match ids with
  | [] => Ok tt
  | id :: rest =>
      match Entries tx !! id with
      | None => Err (ErrEntry Bc.ErrMissingEntry)
      | Some (EOutput o) =>
          match src ← out_Source o; v ← vs_Value src; aa_AssetId v with
          | None => Panic
          | Some a =>
              if negb (bool_decide (a = NativeAsset)) || IsP2WScript (pr_Code (out_ControlProgram o))
              then check_standard_results tx rest
              else Err ErrNotStandardTx
          end
      | Some _ => check_standard_results tx rest
      end
  end.

Definition checkStandardTx (tx : Tx) : outcome val_error unit :=
  match check_standard_inputs tx (GasInputIDs tx) with
  | Ok _ => check_standard_results tx (ResultIds tx)
  | o => o
  end.

Definition checkTimeRange (tx : Tx) (block : Block) : outcome val_error unit :=
  let r := h_TimeRange (tx_Header tx) in
  if r =? 0 then Ok tt else if r <? blk_Height block then Err ErrBadTimeRange else Ok tt.

Definition initial_state (h : heap) (d : StateDB) : VState := mkVState (mkGasState 0 0 0 false 0) ∅ h d.

(** The validation state the code returns beside the error carries the gas
    status and the database. *)
Definition ValidateTx (fuel : nat) (sj : Subject) (h : heap) (d : StateDB) : outcome val_error unit * VState :=
  let tx := sj_tx sj in
  (if (blk_Version (sj_block sj) =? 1) && negb (h_Version (tx_Header tx) =? 1) then vthrow ErrTxVersion
   else if h_SerializedSize (tx_Header tx) =? 0 then vthrow ErrWrongTransactionSize
   else
     vlift (checkTimeRange tx (sj_block sj)) ;;
     vlift (checkStandardTx tx) ;;
     checkValid fuel sj (tx_ID tx) (Some (ETxHeader (tx_Header tx)))) (initial_state h d).
End validation.
