(* ===== verification/TxConservation.v ===== *)
(** * What a valid transaction does with value

    The mux of a transaction adds up sources and destinations per asset.  The
    theorems lift this to whole transactions: when a transaction made by
    [MapTx] is valid, the amounts of its inputs are the amounts of its outputs,
    but for the native asset, whose difference is the fee the gas status
    reports. *)

From S2P Require Import Prelude Checked GoSlice VmProgram VmMachine VmRun Encoding Bc EntryHash TxMap.
From S2P Require Import TxMapSpec TxValidation.

(** ** A logic of invariants for transaction validation

    [preserves P m]: the computation [m] of [TxValidation] keeps the property
    [P] of the state, whatever its outcome but for a panic, which ends the
    validation.  A property of the transaction's
    value and of the cache alone ([core]) survives the programs, the database
    and the heap, so it is enough to look at the mux and at the cache. *)

Create HintDb vcore.

Section logic.
Context `{E : VmEnv} `{R : GoRange}.
Local Open Scope val_scope.

Definition preserves (P : VState → Prop) {A} (m : V A) : Prop :=
  ∀ s, P s → (m s).1 ≠ Panic → P (m s).2.

(** The part of the state that invariants of value look at *)
Definition core (s : VState) : Z * gmap Hash (option val_error) := (AssetValue (v_gas s), v_cache s).

Class CoreProperty (P : VState → Prop) : Prop :=
  core_property : ∀ s s', core s' = core s → P s → P s'.

(** [m] leaves the core alone *)
Definition core_const {A} (m : V A) : Prop := ∀ s, core (m s).2 = core s.

Lemma preserves_core P `{CoreProperty P} {A} (m : V A) : core_const m → preserves P m.
Proof. intros Hm s Hs _. by apply (core_property s); [apply Hm|]. Qed.

Lemma preserves_bind P {A B} (m : V A) (k : A → V B) :
  preserves P m → (∀ a, preserves P (k a)) → preserves P (vbind m k).
Proof.
  intros Hm Hk s Hs. specialize (Hm s Hs). unfold vbind.
  destruct (m s) as [[a| | |] s']; simpl in *; intros Hp; try by apply Hm.
  apply Hk; [by apply Hm|done].
Qed.

Lemma core_const_bind {A B} (m : V A) (k : A → V B) :
  core_const m → (∀ a, core_const (k a)) → core_const (vbind m k).
Proof.
  intros Hm Hk s. specialize (Hm s). unfold vbind.
  destruct (m s) as [[a| | |] s']; try done. simpl in Hm. by rewrite Hk.
Qed.

Lemma core_const_ret {A} (a : A) : core_const (vret a). Proof. done. Qed.
Lemma core_const_throw {A} e : core_const (vthrow e : V A). Proof. done. Qed.
Lemma core_const_lift {A} (o : outcome val_error A) : core_const (vlift o). Proof. done. Qed.
Lemma core_const_gets {A} (f : VState → A) : core_const (vgets f). Proof. done. Qed.
Lemma core_const_deref {A} (p : option A) : core_const (vderef p). Proof. done. Qed.
Lemma core_const_on_db f : core_const (on_db f). Proof. done. Qed.
Lemma core_const_on_gas f : (∀ g, AssetValue (f g).2 = AssetValue g) → core_const (on_gas f).
Proof.
  intros Hf s. unfold on_gas, core. specialize (Hf (v_gas s)). destruct (f (v_gas s)) as [e g].
  simpl in *. by rewrite Hf.
Qed.

Lemma core_const_valloc bs : core_const (valloc bs).
Proof. intros s. by destruct bs. Qed.

Lemma core_const_valloc_opt bs : core_const (valloc_opt bs).
Proof.
  destruct bs; simpl; [|done]. apply core_const_bind; [apply core_const_valloc|]. intros. apply core_const_ret.
Qed.

Lemma core_const_valloc_list l : core_const (valloc_list l).
Proof.
  induction l as [|bs l IH]; simpl; [done|]. apply core_const_bind; [apply core_const_valloc|].
  intros sl. apply core_const_bind; [done|]. intros ss. apply core_const_ret.
Qed.

Lemma AssetValue_updateUsage left g : AssetValue (updateUsage left g).2 = AssetValue g.
Proof. unfold updateUsage. by repeat case_match. Qed.

Lemma AssetValue_setGasValid g : AssetValue (setGasValid g).2 = AssetValue g.
Proof. unfold setGasValid. by repeat case_match. Qed.

#[local] Hint Resolve core_const_bind core_const_ret core_const_throw core_const_lift core_const_gets
  core_const_deref core_const_on_db core_const_valloc core_const_valloc_opt core_const_valloc_list : vcore.

Lemma core_const_NewTxVMContext sj e prog args : core_const (NewTxVMContext sj e prog args).
Proof. unfold NewTxVMContext. repeat (apply core_const_bind; [auto with vcore|intros ?]). apply core_const_ret. Qed.

Lemma core_const_run_program sj e prog args : core_const (run_program sj e prog args).
Proof.
  unfold run_program. apply core_const_bind; [apply core_const_NewTxVMContext|]. intros ctx.
  apply core_const_bind; [|intros left; apply core_const_on_gas, AssetValue_updateUsage].
  intros s. by destruct (Verify _ _ _ _ _) as [[r st]|].
Qed.

Lemma core_const_move_balance sj f o : core_const (move_balance sj f o).
Proof.
  unfold move_balance. case_match; [|done]. apply core_const_bind; [auto with vcore|]. intros v.
  apply core_const_bind; [auto with vcore|]. intros a. case_match; [|done].
  apply core_const_bind; [auto with vcore|]. intros h. auto with vcore.
Qed.
End logic.

#[export] Hint Resolve core_const_bind core_const_ret core_const_throw core_const_lift core_const_gets
  core_const_deref core_const_on_db core_const_valloc core_const_valloc_opt core_const_valloc_list
  core_const_run_program core_const_move_balance : vcore.

(** Takes a computation apart down to the calls the context knows about. *)
Ltac vpres :=
  repeat match goal with
  | |- preserves _ (vbind _ _) => apply preserves_bind; [|intros ?]
  | |- preserves _ (if ?b then _ else _) => destruct b eqn:?
  | |- preserves _ (match ?o with _ => _ end) => destruct o eqn:?
  | |- preserves _ (let _ := _ in _) => cbv zeta
  end;
  try solve [apply preserves_core; [assumption || apply _|auto with vcore]].

#[local] Set Warnings "-clear-no-such-hyp".

(** ** Totals *)

Definition amount_of (a : AssetId) (v : AssetAmount) : Z :=
  if decide (aa_AssetId v = Some a) then aa_Amount v else 0.

Definition total (a : AssetId) (vs : list AssetAmount) : Z := foldr (λ v acc, amount_of a v + acc) 0 vs.

Lemma total_cons a v vs : total a (v :: vs) = amount_of a v + total a vs.
Proof. done. Qed.

(** The values of sources and destinations *)
Definition source_values (srcs : list (option ValueSource)) : list AssetAmount :=
  omap (λ s, s ← s; vs_Value s) srcs.
Definition dest_values (dests : list (option ValueDestination)) : list AssetAmount :=
  omap (λ d, d ← d; vd_Value d) dests.

Lemma source_values_cons s srcs :
  source_values (s :: srcs) =
  match s ← s; vs_Value s with Some v => v :: source_values srcs | None => source_values srcs end.
Proof. unfold source_values. cbn. by destruct (s ≫= _). Qed.
Lemma dest_values_cons d dests :
  dest_values (d :: dests) =
  match d ← d; vd_Value d with Some v => v :: dest_values dests | None => dest_values dests end.
Proof. unfold dest_values. cbn. by destruct (d ≫= _). Qed.

Definition amounts_ok (vs : list AssetAmount) : Prop := Forall (λ v, is_uint64 (aa_Amount v)) vs.

(** Parities are int64 values. *)
Definition parity_ok (p : gmap AssetId Z) : Prop := ∀ a v, p !! a = Some v → is_int64 v.
Definition parity_at (p : gmap AssetId Z) (a : AssetId) : Z := default 0 (p !! a).

Lemma parity_at_range p a : parity_ok p → is_int64 (parity_at p a).
Proof. intros Hp. unfold parity_at. destruct (p !! a) eqn:Ha; simpl; [by eapply Hp|ranges; lia]. Qed.

Lemma parity_at_insert p a v b : parity_at (<[a := v]> p) b = if decide (b = a) then v else parity_at p b.
Proof.
  unfold parity_at. case_decide as Hb; [subst; by rewrite lookup_insert_eq|by rewrite lookup_insert_ne].
Qed.

Lemma parity_ok_insert p a v : parity_ok p → is_int64 v → parity_ok (<[a := v]> p).
Proof.
  intros Hp Hv b w. destruct (decide (b = a)) as [->|Hne].
  - rewrite lookup_insert_eq. by intros [= <-].
  - rewrite lookup_insert_ne by done. apply Hp.
Qed.

Lemma exact_i64_Some z v : exact_i64 z = Some v → v = z ∧ is_int64 z.
Proof.
  unfold exact. destruct (_ && _) eqn:Hb; [|done]. intros [= <-].
  apply andb_true_iff in Hb as [?%Z.leb_le ?%Z.leb_le]. done.
Qed.

Lemma add_sources_spec srcs : ∀ p p',
  parity_ok p → amounts_ok (source_values srcs) → add_sources p srcs = Ok p' →
  parity_ok p' ∧ dom p ⊆ dom p' ∧ ∀ a, parity_at p' a = parity_at p a + total a (source_values srcs).
Proof.
  induction srcs as [|src srcs IH]; intros p p' Hp Ha; cbn [add_sources].
  { intros [= <-]. split_and!; [done|done|]. intros a. cbn. lia. }
  rewrite source_values_cons in *. destruct (src ← src; vs_Value src) as [v|]; [|done].
  apply Forall_cons in Ha as [Hv0 Ha].
  destruct (Z.ltb_spec MaxInt64 (aa_Amount v)); [done|].
  destruct (aa_AssetId v) as [b|] eqn:Hb; [|done]. rewrite int64_id by (ranges; lia).
  fold (parity_at p b). rewrite AddInt64_exact; [|by apply parity_at_range|ranges; lia].
  destruct (exact_i64 _) as [sum|] eqn:Hs; [|done]. apply exact_i64_Some in Hs as [-> Hr].
  intros Hok. apply IH in Hok as (Hp' & Hd & Ht); [|by apply parity_ok_insert|done].
  rewrite dom_insert_L in Hd. split_and!; [done|set_solver|].
  intros a. rewrite Ht, parity_at_insert, total_cons.
  unfold amount_of. rewrite Hb. case_decide as H1; case_decide as H2; simplify_eq; lia.
Qed.

Lemma sub_destinations_spec dests : ∀ p p',
  parity_ok p → amounts_ok (dest_values dests) → sub_destinations p dests = Ok p' →
  parity_ok p' ∧ dom p' = dom p ∧ (∀ a, parity_at p' a = parity_at p a - total a (dest_values dests)).
Proof.
  induction dests as [|dest dests IH]; intros p p' Hp Ha; cbn [sub_destinations].
  { intros [= <-]. split_and!; try done. intros a. cbn. lia. }
  rewrite dest_values_cons in *. destruct dest as [d|]; [|done].
  unfold mbind in *. cbn [option_bind] in *. destruct (vd_Value d) as [v|]; [|done].
  cbn [option_bind] in *. destruct (aa_AssetId v) as [b|] eqn:Hb; [|done]. cbn [option_bind].
  apply Forall_cons in Ha as [Hv0 Ha]. destruct (p !! b) as [sum|] eqn:Hsum; [|done].
  destruct (Z.ltb_spec MaxInt64 (aa_Amount v)); [done|]. rewrite int64_id by (ranges; lia).
  rewrite SubInt64_exact; [|by eapply Hp|ranges; lia].
  destruct (exact_i64 _) as [diff|] eqn:Hs; [|done]. apply exact_i64_Some in Hs as [-> Hr].
  assert (b ∈ dom p) as Hbp by (by apply elem_of_dom; eexists).
  intros Hok. apply IH in Hok as (Hp' & Hd & Ht); [|by apply parity_ok_insert|done].
  rewrite dom_insert_L in Hd. split_and!; [done|set_solver|].
  intros a. rewrite Ht, parity_at_insert, total_cons. unfold amount_of. rewrite Hb. unfold parity_at.
  case_decide as H1; case_decide as H2; simplify_eq; try rewrite Hsum; simpl; lia.
Qed.

(** ** The mux *)

Definition mux_parity (m : Mux) : outcome val_error (gmap AssetId Z) :=
  obind (add_sources ∅ (mux_Sources m)) (λ p, sub_destinations p (mux_WitnessDestinations m)).

(** What is left of the native asset *)
Definition fee (m : Mux) : Z :=
  match mux_parity m with Ok p => parity_at p NativeAsset | _ => 0 end.

Definition settled (m : Mux) : Prop :=
  ∃ p, mux_parity m = Ok p ∧ (∀ a, a ≠ NativeAsset → parity_at p a = 0) ∧ 0 <= fee m.

Definition mux_amounts_ok (m : Mux) : Prop :=
  amounts_ok (source_values (mux_Sources m)) ∧ amounts_ok (dest_values (mux_WitnessDestinations m)).

Lemma mux_parity_spec m p : mux_amounts_ok m → mux_parity m = Ok p → parity_ok p ∧
  ∀ a, parity_at p a
       = total a (source_values (mux_Sources m)) - total a (dest_values (mux_WitnessDestinations m)).
Proof.
  intros [Hs Hd]. unfold mux_parity. destruct (add_sources ∅ _) as [p1| | |] eqn:H1; try done. simpl. intros H2.
  apply add_sources_spec in H1 as (Hp1 & _ & Ht1); [|by intros a v; rewrite lookup_empty|done].
  apply sub_destinations_spec in H2 as (Hp2 & _ & Ht2); [|done..]. split; [done|]. intros a.
  rewrite Ht2, Ht1. unfold parity_at at 1. rewrite lookup_empty. simpl. lia.
Qed.

Lemma settled_totals m a : mux_amounts_ok m → settled m →
  total a (source_values (mux_Sources m))
  = total a (dest_values (mux_WitnessDestinations m)) + (if decide (a = NativeAsset) then fee m else 0).
Proof.
  intros Hok (p & Hp & Hz & _). pose proof (mux_parity_spec m p Hok Hp) as [_ Ht]. specialize (Ht a).
  case_decide as Ha; [subst; unfold fee; rewrite Hp; lia|]. rewrite Hz in Ht by done. lia.
Qed.

(** ** The invariant of a validation

    [muxID] is the mux of the transaction, and its only one. *)

Section invariant.
Context `{E : VmEnv} `{R : GoRange} {ROk : GoRangeOk}.
Context (sj : Subject) (muxID : Hash) (m : Mux).
Let tx : Tx := sj_tx sj.
Hypothesis keyed : ∀ id e, Entries tx !! id = Some e → EntryID (X:=val_error) sha3_Sum256 (Some e) = Ok id.
Hypothesis mux_at : Entries tx !! muxID = Some (EMux m).
Hypothesis only_mux : ∀ id m', Entries tx !! id = Some (EMux m') → m' = m.
Hypothesis amounts : mux_amounts_ok m.

(** The value is unset or the fee, and it is the fee once the mux is known to
    be valid ([b]: from here on, in any case). *)
Definition Inv (b : bool) (s : VState) : Prop :=
  (AssetValue (v_gas s) = 0 ∨ AssetValue (v_gas s) = fee m)
  ∧ (v_cache s !! muxID = Some None → settled m ∧ AssetValue (v_gas s) = fee m)
  ∧ (b = true → AssetValue (v_gas s) = fee m).

#[local] Instance Inv_core b : CoreProperty (Inv b).
Proof. unfold Inv, core. intros s s' [= -> ->]. done. Qed.

Lemma Inv_value b s : Inv b s → 0 <= fee m →
  Inv b (mkVState (mkGasState (fee m) (GasLeft (v_gas s)) (GasUsed (v_gas s)) (GasValid (v_gas s))
                     (StorageGas (v_gas s))) (v_cache s) (v_heap s) (v_db s)).
Proof. intros (H1 & H2 & H3) Hf. split_and!; simpl; [by right| |done]. intros Hc. split; [by apply H2|done]. Qed.

(** Setting the gas from the right amount *)
Lemma setGas_value size g : is_int64 (fee m) →
  AssetValue (setGas (fee m) size g).2 = (if fee m <? 0 then AssetValue g else fee m)
  ∧ ((setGas (fee m) size g).1 = None → 0 <= fee m).
Proof.
  intros Hr. unfold setGas. destruct (Z.ltb_spec (fee m) 0); [done|].
  split; [|done]. rewrite uint64_id by (ranges; lia). by repeat case_match.
Qed.

Lemma Inv_setGas b size : is_int64 (fee m) → preserves (Inv b) (on_gas (setGas (fee m) size)).
Proof.
  intros Hr s (H1 & H2 & H3) _. unfold on_gas, Inv.
  destruct (setGas_value size (v_gas s) Hr) as [Hv _].
  destruct (setGas (fee m) size (v_gas s)) as [e g]. simpl in *. rewrite Hv.
  destruct (Z.ltb_spec (fee m) 0); [done|]. split_and!; [by right| |done].
  intros Hc. split; [by apply H2|done].
Qed.

Lemma fee_range : is_int64 (fee m).
Proof.
  unfold fee. destruct (mux_parity m) eqn:Hp; try (ranges; lia).
  apply parity_at_range. by apply (mux_parity_spec m).
Qed.

Definition native_is_fee (l : list (AssetId * Z)) : Prop := ∀ v, (NativeAsset, v) ∈ l → v = fee m.

Lemma Inv_settle b size l : native_is_fee l → preserves (Inv b) (settle size l).
Proof.
  induction l as [|[a v] l IH]; intros Hl; cbn [settle]; [by apply preserves_core; [apply _|auto with vcore]|].
  apply preserves_bind; [|intros _; apply IH; intros w Hw; apply Hl; set_solver].
  case_bool_decide as Ha; [|case_match; apply preserves_core; try apply _; auto with vcore].
  subst a. assert (v = fee m) as -> by (apply Hl; set_solver). apply Inv_setGas, fee_range.
Qed.

(** A settlement that succeeds leaves the fee, and found all else balanced. *)
Lemma settle_Ok size l s s' : native_is_fee l → settle size l s = (Ok tt, s') →
  (∀ a v, (a, v) ∈ l → a ≠ NativeAsset → v = 0)
  ∧ ((∃ v, (NativeAsset, v) ∈ l) → 0 <= fee m ∧ AssetValue (v_gas s') = fee m)
  ∧ ((∀ v, (NativeAsset, v) ∉ l) → AssetValue (v_gas s') = AssetValue (v_gas s)).
Proof.
  revert s. induction l as [|[a v] l IH]; intros s Hl; cbn [settle].
  { intros [= <-]. split_and!; [set_solver|intros [? ?]; set_solver|done]. }
  unfold vbind. assert (native_is_fee l) as Hl' by (intros w Hw; apply Hl; set_solver).
  case_bool_decide as Ha.
  - subst a. assert (v = fee m) as -> by (apply Hl; set_solver).
    unfold on_gas. destruct (setGas_value (int64 size) (v_gas s) fee_range) as [Hv Hn].
    destruct (setGas (fee m) _ (v_gas s)) as [[e|] g]; [done|]. simpl in Hv, Hn. specialize (Hn eq_refl).
    intros Hrest. destruct (IH _ Hl' Hrest) as (H1 & H2 & H3). simpl in H3.
    rewrite (proj2 (Z.ltb_ge _ _)) in Hv by lia. split_and!.
    + intros b w [[= -> ->]|Hb]%elem_of_cons Hne; [done|by eapply H1].
    + intros _. split; [done|]. destruct (decide (NativeAsset ∈ l.*1)) as [He|He].
      * apply list_elem_of_fmap in He as ([? w] & Heq & Hw). simpl in Heq. subst. apply H2. by exists w.
      * rewrite H3; [done|]. intros w Hw. apply He. by apply (list_elem_of_fmap_2 fst l (NativeAsset, w)).
    + intros Hn'. destruct (Hn' (fee m)). set_solver.
  - destruct (Z.eqb_spec v 0) as [->|Hv]; cbn [negb]; [|done]. unfold vret. intros Hrest.
    destruct (IH _ Hl' Hrest) as (H1 & H2 & H3). split_and!.
    + intros b w [[= -> ->]|Hb]%elem_of_cons Hne; [done|by eapply H1].
    + intros [w [[= ? ?]|Hw]%elem_of_cons]; [done|]. apply H2. by exists w.
    + intros Hn. apply H3. intros w Hw. apply (Hn w). set_solver.
Qed.

Lemma elem_of_go_range (p : gmap AssetId Z) a v : (a, v) ∈ go_range p ↔ p !! a = Some v.
Proof. rewrite (go_range_perm Z p). apply elem_of_map_to_list. Qed.

Lemma native_range p : mux_parity m = Ok p → native_is_fee (go_range p).
Proof. intros Hp v Hv%elem_of_go_range. unfold fee, parity_at. by rewrite Hp, Hv. Qed.

Section kinds.
Context (rec : Hash → option Entry → V unit).
Hypothesis rec_pres : ∀ b id, preserves (Inv b) (rec id (Entries tx !! id)).

Lemma rec_entry b id e : Entries tx !! id = Some e → preserves (Inv b) (rec id (Some e)).
Proof. intros He. rewrite <- He. apply rec_pres. Qed.

Lemma checkValidSrc_pres b eid pos src : preserves (Inv b) (checkValidSrc rec tx eid pos src).
Proof. unfold checkValidSrc. vpres; by apply rec_entry. Qed.

Lemma check_results_pres b ids : preserves (Inv b) (check_results sj rec ids).
Proof. induction ids; cbn [check_results]; vpres; [apply rec_pres|done]. Qed.

Lemma check_gas_inputs_pres b ids : preserves (Inv b) (check_gas_inputs sj rec ids).
Proof. induction ids; cbn [check_gas_inputs]; vpres; [by apply rec_entry|done]. Qed.

Lemma check_dests_core eid dests : ∀ i, core_const (check_dests sj eid i dests).
Proof. induction dests; intros i; cbn [check_dests]; auto with vcore. Qed.

Lemma check_sources_pres b eid srcs : ∀ i, preserves (Inv b) (check_sources sj rec eid i srcs).
Proof. induction srcs; intros i; cbn [check_sources]; vpres; [apply checkValidSrc_pres|done]. Qed.

(** The checks after the settlement *)
Definition mux_rest (eid : Hash) : V unit :=
  vbind (check_gas_inputs sj rec (GasInputIDs tx)) (λ _,
  vbind (check_dests sj eid 0 (mux_WitnessDestinations m)) (λ _,
  vbind (if bool_decide (GasInputIDs tx = []) then vret tt else on_gas setGasValid) (λ _,
  check_sources sj rec eid 0 (mux_Sources m)))).

Lemma mux_rest_pres b eid : preserves (Inv b) (mux_rest eid).
Proof.
  unfold mux_rest. vpres.
  - apply check_gas_inputs_pres.
  - apply preserves_core; [apply _|apply check_dests_core].
  - apply preserves_core; [apply _|]. apply core_const_on_gas, AssetValue_setGasValid.
  - apply check_sources_pres.
Qed.

Lemma check_mux_unfold eid s :
  check_mux sj rec eid m s =
  match mux_parity m with
  | Ok p => vbind (settle (h_SerializedSize (tx_Header tx)) (go_range p)) (λ _, mux_rest eid) s
  | Err e => (Err e, s)
  | Panic => (Panic, s)
  | Fuel => (Fuel, s)
  end.
Proof.
  unfold check_mux, mux_parity, vbind at 1, vlift at 1. by destruct (add_sources _ _) as [p| | |].
Qed.

Lemma check_mux_pres b eid : preserves (Inv b) (check_mux sj rec eid m).
Proof.
  intros s Hs. rewrite check_mux_unfold. destruct (mux_parity m) as [p| | |] eqn:Hp; try done.
  revert s Hs. apply preserves_bind; [by apply Inv_settle, native_range|]. intros _. apply mux_rest_pres.
Qed.

(** A mux that is found valid is settled, and its fee is the value. *)
Lemma check_mux_Ok b eid s s' : Inv b s → check_mux sj rec eid m s = (Ok tt, s') →
  settled m ∧ AssetValue (v_gas s') = fee m.
Proof.
  intros Hs. rewrite check_mux_unfold. destruct (mux_parity m) as [p| | |] eqn:Hp; try done.
  pose proof (Inv_settle b (h_SerializedSize (tx_Header tx)) _ (native_range p Hp) s Hs) as Hs1.
  unfold vbind. destruct (settle _ _ s) as [[[]| | |] s1] eqn:Hset; try done. simpl in Hs1. intros Hrest.
  specialize (Hs1 ltac:(done)).
  apply (settle_Ok _ _ _ _ (native_range p Hp)) in Hset as (Hz & Hf & Hsame).
  assert (fee m = parity_at p NativeAsset) as Hfee by (unfold fee; by rewrite Hp).
  assert (settled m ∧ AssetValue (v_gas s1) = fee m) as [Hset Hv].
  { destruct (p !! NativeAsset) as [v|] eqn:Hn.
    - destruct Hf as [Hge Hv]; [exists v; by apply elem_of_go_range|]. split; [|done].
      exists p. split_and!; [done| |done]. intros a Ha. unfold parity_at.
      destruct (p !! a) as [w|] eqn:Hw; [|done]. simpl. apply (Hz a); [by apply elem_of_go_range|done].
    - assert (fee m = 0) as H0 by (rewrite Hfee; unfold parity_at; by rewrite Hn).
      split; [|destruct Hs1 as ([?|?] & _); congruence].
      exists p. split_and!; [done| |lia]. intros a Ha. unfold parity_at.
      destruct (p !! a) as [w|] eqn:Hw; [|done]. simpl. apply (Hz a); [by apply elem_of_go_range|done]. }
  split; [done|]. assert (Inv true s1) as Hs1' by (destruct Hs1 as (? & ? & ?); done).
  pose proof (mux_rest_pres true eid s1 Hs1') as H. rewrite Hrest in H. by apply H.
Qed.

Lemma check_entry_pres b eid e : (∀ m', e = Some (EMux m') → m' = m) →
  preserves (Inv b) (check_entry sj rec eid e).
Proof.
  intros He. destruct e as [[h|m'|c|o|r|i|sp|c|c|c|d|w|bh]|]; cbn [check_entry].
  - unfold check_header. vpres; [apply check_results_pres|apply rec_pres].
  - rewrite (He m' eq_refl). apply check_mux_pres.
  - unfold check_coinbase. vpres. apply preserves_core; [apply _|]. by apply core_const_on_gas.
  - unfold check_output_entry. vpres. apply checkValidSrc_pres.
  - apply checkValidSrc_pres.
  - unfold check_issuance. vpres.
  - unfold check_spend. vpres.
  - unfold check_creation. vpres.
  - unfold check_call. vpres.
  - unfold check_contract. vpres.
  - unfold check_deposit. vpres. apply checkValidSrc_pres.
  - unfold check_withdrawal. vpres.
  - by apply preserves_core; [apply _|auto with vcore].
  - by apply preserves_core; [apply _|auto with vcore].
Qed.
End kinds.

(** ** The cache *)

Lemma remember_pres b s id r : Inv b s →
  (id = muxID → r = None → settled m ∧ AssetValue (v_gas s) = fee m) → Inv b (remember_result id r s).
Proof.
  intros (H1 & H2 & H3) Hr. split_and!; [done| |done]. unfold remember_result. cbn [v_cache v_gas].
  destruct (decide (id = muxID)) as [->|Hne].
  - rewrite lookup_insert_eq. intros [= ->]. by apply Hr.
  - rewrite lookup_insert_ne by done. apply H2.
Qed.

(** The entries the walk meets *)
Definition met (e : option Entry) : Prop := e = None ∨ ∃ id, Entries tx !! id = e.

Lemma met_id e id : met (Some e) → EntryID (X:=val_error) sha3_Sum256 (Some e) = Ok id →
  Entries tx !! id = Some e.
Proof. intros [?|[id' He]] Hid; [done|]. pose proof (keyed _ _ He). congruence. Qed.

Lemma cached_cases e (body : V unit) s :
  (cached e body s).2 = s ∨
  ∃ id, EntryID (X:=val_error) sha3_Sum256 e = Ok id ∧ v_cache s !! id = None ∧
    match body s with
    | (Ok _, s') => cached e body s = (Ok tt, remember_result id None s')
    | (Err err, s') => cached e body s = (Err err, remember_result id (Some err) s')
    | (Panic, s') => cached e body s = (Panic, remember_result id None s')
    | (Fuel, s') => cached e body s = (Fuel, s')
    end.
Proof.
  unfold cached, vbind at 1, vlift. destruct (EntryID sha3_Sum256 e) as [id| | |]; [|by left..].
  unfold vbind, vgets. destruct (v_cache s !! id) as [[err|]|] eqn:Hc; [by left..|].
  right. exists id. split_and!; [done|done|]. by destruct (body s) as [[| | |] ?].
Qed.

Lemma checkValid_pres fuel : ∀ b eid e, met e → preserves (Inv b) (checkValid fuel sj eid e).
Proof.
  induction fuel as [|fuel IH]; intros b eid e Hm; cbn [checkValid].
  { apply preserves_core; [apply _|auto with vcore]. }
  set (rec := checkValid fuel sj).
  assert (∀ b id, preserves (Inv b) (rec id (Entries tx !! id))) as Hrec.
  { intros b' id. apply IH. right. by exists id. }
  assert (∀ m', e = Some (EMux m') → m' = m) as He.
  { intros m' ->. destruct Hm as [?|[id Hid]]; [done|]. by eapply only_mux. }
  intros s Hs. pose proof (check_entry_pres rec Hrec b eid e He s Hs) as Hbody.
  destruct (cached_cases e (check_entry sj rec eid e) s) as [->|(id & Hid & Hc & Hrun)]; [done|].
  destruct (check_entry sj rec eid e s) as [[[]|err| |] s'] eqn:Hb; rewrite Hrun; simpl in *; intros Hp;
    try done; specialize (Hbody Hp).
  - apply remember_pres; [done|]. intros -> _. destruct e as [e|]; [|done].
    apply met_id in Hid; [|done]. rewrite mux_at in Hid. injection Hid as <-.
    by eapply (check_mux_Ok rec Hrec b eid s).
  - by apply remember_pres.
  - done.
Qed.

Lemma checkValid_mux fuel b eid s s' : Inv b s →
  checkValid fuel sj eid (Some (EMux m)) s = (Ok tt, s') → settled m ∧ AssetValue (v_gas s') = fee m.
Proof.
  intros Hs. destruct fuel as [|fuel]; cbn [checkValid]; [done|]. set (rec := checkValid fuel sj).
  assert (∀ b id, preserves (Inv b) (rec id (Entries tx !! id))) as Hrec.
  { intros b' id. apply checkValid_pres. right. by exists id. }
  cbn [check_entry]. unfold cached, vbind at 1, vlift. rewrite (keyed _ _ mux_at).
  unfold vbind, vgets. destruct (v_cache s !! muxID) as [[err|]|] eqn:Hc; [done| |].
  - intros [= <-]. by apply Hs.
  - destruct (check_mux sj rec eid m s) as [[[]| | |] s1] eqn:Hmx; try done. intros [= <-].
    exact (check_mux_Ok rec Hrec b eid s s1 Hs Hmx).
Qed.

(** ** From the header to the mux *)

(** [m0], started with an empty cache, only succeeds with the mux settled. *)
Definition reaches (m0 : V unit) : Prop :=
  ∀ s s', v_cache s = ∅ → Inv false s → m0 s = (Ok tt, s') → settled m ∧ Inv true s'.

Lemma reaches_then (a : V unit) (k : unit → V unit) :
  reaches a → (∀ x, preserves (Inv true) (k x)) → reaches (vbind a k).
Proof.
  intros Ha Hk s s' Hc Hs. unfold vbind. destruct (a s) as [[[]| | |] s1] eqn:H1; try done. intros H2.
  destruct (Ha s s1 Hc Hs H1) as [Hm H1']. split; [done|].
  pose proof (Hk tt s1 H1') as H. rewrite H2 in H. by apply H.
Qed.

Lemma reaches_mux fuel eid : reaches (checkValid fuel sj eid (Some (EMux m))).
Proof.
  intros s s' _ Hs H. destruct (checkValid_mux fuel false eid s s' Hs H) as [Hm Hv]. split; [done|].
  assert (met (Some (EMux m))) as Hmet by (right; by exists muxID).
  pose proof (checkValid_pres fuel false eid _ Hmet s Hs) as H'. rewrite H in H'.
  destruct H' as (? & ? & _); done.
Qed.

Lemma reaches_cached e body : (∃ id, Entries tx !! id = Some e) → reaches body → reaches (cached (Some e) body).
Proof.
  intros [id He] Hb s s' Hc Hs. unfold cached, vbind, vlift, vgets. rewrite (keyed _ _ He), Hc, lookup_empty.
  destruct (body s) as [[[]| | |] s1] eqn:H1; try done. intros [= <-].
  destruct (Hb s s1 Hc Hs H1) as [Hm Hv]. split; [done|]. apply remember_pres; [done|].
  intros _ _. split; [done|]. by apply Hv.
Qed.

Lemma reaches_source fuel eid pos src : vs_Ref src = Some muxID →
  reaches (checkValidSrc (checkValid fuel sj) tx eid pos (Some src)).
Proof.
  intros Href. unfold checkValidSrc. rewrite Href. destruct (negb (has_value _)); [by intros ? ?|].
  rewrite mux_at. apply reaches_then; [apply reaches_mux|]. intros _. vpres.
Qed.

Hypothesis header_at : Entries tx !! tx_ID tx = Some (ETxHeader (tx_Header tx)).
Hypothesis header_mux : h_MuxId (tx_Header tx) = muxID.
Hypothesis results_from_mux : ∀ id, id ∈ ResultIds tx →
  ∃ e src, Entries tx !! id = Some e ∧ flow_source e = Some src ∧ vs_Ref src = Some muxID.

Lemma reaches_result fuel id : id ∈ ResultIds tx → reaches (checkValid fuel sj id (Entries tx !! id)).
Proof.
  intros (e & src & He & Hsrc & Href)%results_from_mux. rewrite He.
  destruct fuel as [|fuel]; [by intros ? ?|]. cbn [checkValid]. apply reaches_cached; [by exists id|].
  destruct e; cbn [flow_source] in Hsrc; try done; cbn [check_entry].
  - unfold check_output_entry. rewrite Hsrc. apply reaches_then; [by apply reaches_source|]. intros _. vpres.
  - rewrite Hsrc. by apply reaches_source.
  - unfold check_deposit. rewrite Hsrc. apply reaches_then; [by apply reaches_source|]. intros _. vpres.
Qed.

Lemma ValidateTx_settles fuel h d s' : h_Version (tx_Header tx) = 1 ∨ ResultIds tx ≠ [] →
  ValidateTx fuel sj h d = (Ok tt, s') → settled m ∧ AssetValue (v_gas s') = fee m.
Proof.
  intros Hver. unfold ValidateTx. fold tx. destruct (_ && negb _); [done|]. destruct (_ =? 0); [done|].
  unfold vbind at 1, vlift. destruct (checkTimeRange _ _); try done.
  unfold vbind. destruct (checkStandardTx _); try done.
  intros H. assert (reaches (checkValid fuel sj (tx_ID tx) (Some (ETxHeader (tx_Header tx))))) as Hr.
  { destruct fuel as [|fuel]; [by intros ? ?|]. cbn [checkValid]. apply reaches_cached; [by eexists|].
    cbn [check_entry]. unfold check_header. fold tx. fold (ResultIds tx). rewrite header_mux.
    pose proof (reaches_result fuel) as Hres.
    assert (∀ b id, preserves (Inv b) (checkValid fuel sj id (Entries tx !! id))) as Hrec.
    { intros b' id. apply checkValid_pres. right. by exists id. }
    destruct (ResultIds tx) as [|id ids] eqn:Hids.
    - destruct Hver as [->|]; [|done].
      cbn [check_results Z.eqb Pos.eqb andb]. rewrite bool_decide_true by done. rewrite mux_at.
      intros s s1 Hc Hs H1. apply (reaches_mux fuel muxID s s1 Hc Hs H1).
    - rewrite bool_decide_false, andb_false_r by done. apply reaches_then; [|intros _; vpres].
      cbn [check_results]. apply reaches_then; [apply Hres; set_solver|]. intros _.
      by apply check_results_pres. }
  assert (Inv false (initial_state h d)) as H0 by (split_and!; [by left|done|done]).
  destruct (Hr (initial_state h d) s' eq_refl H0 H) as (Hm & _ & _ & Hv). split; [done|by apply Hv].
Qed.
End invariant.

(** ** Mapped transactions *)

Section mapped.
Context `{E : VmEnv} `{R : GoRange} {ROk : GoRangeOk}.

(** SHA3-256 returns 32 bytes. *)
Hypothesis Sum256_size : ∀ bs, length (sha3_Sum256 bs) = 32%nat ∧ Forall is_byte (sha3_Sum256 bs).

(** Amounts are uint64 values. *)
Definition typed_amounts (td : TxData) : Prop :=
  amounts_ok (input_values sha3_Sum256 td) ∧ amounts_ok (output_values td).

Lemma ValidateTx_conserves td fuel sj h d s a :
  MapTx sha3_Sum256 td = Ok (sj_tx sj) → td_Version td = 1 ∨ ResultIds (sj_tx sj) ≠ [] → typed_amounts td →
  ValidateTx fuel sj h d = (Ok tt, s) →
  (total a (input_values sha3_Sum256 td)
   = total a (output_values td) + (if decide (a = NativeAsset) then AssetValue (v_gas s) else 0)
   ∧ 0 <= AssetValue (v_gas s))
  ∨ collision sha3_Sum256 (tx_inputs sha3_Sum256 td).
Proof.
  intros Hmap Hver [Hin Hout] Hval.
  destruct (MapTx_mapped sha3_Sum256 Sum256_size td _ Hmap) as [m [Hk Hh Hv Ho [Hm|?] [Hr|?] Hs Hd]];
    [|by right..].
  left. assert (mux_amounts_ok m) as Ha.
  { split; unfold source_values, dest_values; by rewrite ?Hs, ?Hd. }
  assert (∀ id e, Entries (sj_tx sj) !! id = Some e → EntryID (X:=val_error) sha3_Sum256 (Some e) = Ok id) as Hk'.
  { intros id e He. by eapply EntryID_any, Hk. }
  assert (∀ id, id ∈ ResultIds (sj_tx sj) → ∃ e src, Entries (sj_tx sj) !! id = Some e
    ∧ flow_source e = Some src ∧ vs_Ref src = Some (h_MuxId (tx_Header (sj_tx sj)))) as Hr'.
  { intros id Hid. destruct (Hr id Hid) as (e & He & src & Hsrc & Href). by exists e, src. }
  assert (h_Version (tx_Header (sj_tx sj)) = 1 ∨ ResultIds (sj_tx sj) ≠ []) as Hv1
    by (destruct Hver; [left; congruence|by right]).
  destruct (ValidateTx_settles sj _ m Hk' Hm Ho Ha Hh eq_refl Hr' fuel h d s Hv1 Hval) as [Hset Hfee].
  pose proof (settled_totals m a Ha Hset) as Ht. unfold source_values, dest_values in Ht.
  rewrite Hs, Hd in Ht. rewrite Hfee. split; [done|]. by destruct Hset as (_ & _ & _ & ?).
Qed.

(** C33: a valid transaction that has version 1 or a result conserves value.
    For every asset the amounts its inputs bring in are the amounts its outputs
    carry away, plus, for the native asset, the fee that the gas status reports
    and the block's coinbase may claim; and the fee is not negative.  (Or two of
    the strings hashed for the transaction's entries collide.)  A transaction of
    another version without results is not covered: nothing leads its
    validation to the mux, so its inputs vanish. *)
Theorem valid_transactions_conserve_value td fuel sj h d s a :
  MapTx sha3_Sum256 td = Ok (sj_tx sj) → td_Version td = 1 ∨ ResultIds (sj_tx sj) ≠ [] → typed_amounts td →
  ValidateTx fuel sj h d = (Ok tt, s) →
  (total a (input_values sha3_Sum256 td)
   = total a (output_values td) + (if decide (a = NativeAsset) then AssetValue (v_gas s) else 0)
   ∧ 0 <= AssetValue (v_gas s))
  ∨ collision sha3_Sum256 (tx_inputs sha3_Sum256 td).
Proof. apply ValidateTx_conserves. Qed.
End mapped.

(** ** A concrete transaction *)

#[local] Instance ledger_env : VmEnv := {|
  growcap := λ _ n, n;
  sha256_Sum := toy_sum;
  sha3_Sum256 := toy_sum;
  Ripemd160 := λ bs, take 20 (toy_sum bs);
  ed25519_Verify := λ _ _ _, false;
  StateDB := unit;
  GetBalance := λ _ _, 0;
  AddBalance := λ d _ _, d;
  SubBalance := λ d _ _, d;
  GetNonce := λ _ _, 0;
  SetNonce := λ d _ _, d;
  GetRefund := λ _, 0;
  evm_Create := λ _ d _ _ g _, mkEvmResult None 0 None d;
  evm_Call := λ _ d _ _ input g _, mkEvmResult (Some (input, 0%nat)) 0 None d;
  CreateAddress := λ a _, a;
|}.

#[local] Instance toy_range : GoRange := λ V m, map_to_list m.
#[local] Instance toy_range_ok : GoRangeOk.
Proof. by intros V m. Qed.

Definition toy_native (n : Z) : AssetAmount := mkAssetAmount (Some NativeAsset) n.
Definition toy_txout (n : Z) : TxOutput := mkTxOutput 1 (mkOutputCommitment (toy_native n) 1 [OP_TRUE]) [].
Definition toy_spend (n : Z) : TxInput :=
  mkTxInput 1 (Some (SpendInput [] [] (mkSpendCommitment (toy_native n) (mkHash 9 9 9 9) 0 1 [OP_TRUE]))) [] [].
Definition toy_payment : TxData := mkTxData 1 100 0 [toy_spend 10000000] [toy_txout 6000000; toy_txout 1000000] [].
Definition toy_subject (td : TxData) : Subject :=
  mkSubject (match MapTx sha3_Sum256 td with
             | Ok tx => tx
             | _ => mkTx (mkTxHeader 0 0 0 [] NativeAsset NativeAsset) NativeAsset ∅ [] [] []
             end)
    (mkBlock (mkBcHeader 1 5 NativeAsset 0 NativeAsset NativeAsset NativeAsset 0 0 None) NativeAsset []) false (0, 0, 0) false 1000.

Definition toy_result : VState := snd (ValidateTx 6 (toy_subject toy_payment) [[1]] tt).

Lemma toy_payment_mapped : MapTx sha3_Sum256 toy_payment = Ok (sj_tx (toy_subject toy_payment)).
Proof. vm_compute. reflexivity. Qed.

Lemma toy_payment_valid : ValidateTx 6 (toy_subject toy_payment) [[1]] tt = (Ok tt, toy_result).
Proof.
  unfold toy_result. assert (fst (ValidateTx 6 (toy_subject toy_payment) [[1]] tt) = Ok tt) as H
    by (vm_compute; reflexivity).
  destruct (ValidateTx _ _ _ _). cbn in H. by subst.
Qed.

Lemma toy_payment_typed : typed_amounts toy_payment.
Proof. split; repeat constructor; vm_compute; congruence. Qed.

Lemma valid_transactions_conserve_value_witness :
  AssetValue (v_gas toy_result) = 3000000 ∧
  ((total NativeAsset (input_values sha3_Sum256 toy_payment)
    = total NativeAsset (output_values toy_payment)
      + (if decide (NativeAsset = NativeAsset) then AssetValue (v_gas toy_result) else 0)
    ∧ 0 <= AssetValue (v_gas toy_result))
   ∨ collision sha3_Sum256 (tx_inputs sha3_Sum256 toy_payment)).
Proof.
  split; [vm_compute; reflexivity|].
  exact (valid_transactions_conserve_value toy_sum_size toy_payment 6 (toy_subject toy_payment) [[1]] tt
    toy_result NativeAsset toy_payment_mapped (or_introl eq_refl) toy_payment_typed toy_payment_valid).
Defined.
