(* ===== verification/UtxoView.v ===== *)
(** * The set of unspent outputs ([protocol/state/utxo_view.go])

    [UtxoViewpoint] as a finite map from output ids to entries, its operations
    as functions that return the outcome and the map they leave (an error in
    the middle of a block keeps the changes made so far), and the leveldb
    functions that load and save a view ([database/leveldb/utxo_view.go]). *)

From S2P Require Import Prelude Bc.

(** ** Entries ([database/storage]) *)

Record UtxoEntry := NewUtxoEntry { IsCoinBase : bool; BlockHeight : Z; Spent : bool }.

Definition SpendOutput (e : UtxoEntry) : UtxoEntry :=
  NewUtxoEntry (IsCoinBase e) (BlockHeight e) true.
Definition UnspendOutput (e : UtxoEntry) : UtxoEntry :=
  NewUtxoEntry (IsCoinBase e) (BlockHeight e) false.

Abbreviation UtxoViewpoint := (gmap Hash UtxoEntry).

Inductive utxo_error :=
| ErrBc (e : bc_error)
| ErrNoUtxo
| ErrUtxoSpent
| ErrCoinbaseImmature
| ErrRevertUnspent.

Abbreviation CoinbasePendingBlockNumber := 10.

#[local] Set Warnings "-clear-no-such-hyp".

Section utxo.

(** ** Operations *)

(** [output.Source.Value.AssetId] *)
Definition output_asset (o : Output) : option AssetId :=
  s ← out_Source o; v ← vs_Value s; aa_AssetId v.

(** [statusFail && *asset != native]: the output takes no part; a nil pointer
    on the way to the asset is a panic *)
Definition skipped (statusFail : bool) (o : Output) : bool :=
  statusFail && negb (bool_decide (output_asset o = Some NativeAsset)).
Definition nil_asset (statusFail : bool) (o : Output) : bool :=
  statusFail && bool_decide (output_asset o = None).

(** The first loop of [ApplyTransaction] *)
Fixpoint apply_inputs (height : Z) (tx : Tx) (statusFail : bool) (ids : list Hash)
    (view : UtxoViewpoint) : outcome utxo_error unit * UtxoViewpoint :=
  match ids with
  | [] => (Ok tt, view)
  | prevout :: rest =>
      match tx_Output tx prevout with
      | Ok o =>
          if nil_asset statusFail o then (Panic, view)
          else if skipped statusFail o then apply_inputs height tx statusFail rest view
          else
            match view !! prevout with
            | None => (Err ErrNoUtxo, view)
            | Some entry =>
                if Spent entry then (Err ErrUtxoSpent, view)
                else if IsCoinBase entry
                        && (height <? uint64 (BlockHeight entry + CoinbasePendingBlockNumber))
                then (Err ErrCoinbaseImmature, view)
                else apply_inputs height tx statusFail rest (<[prevout := SpendOutput entry]> view)
            end
      | Err e => (Err (ErrBc e), view)
      | Panic => (Panic, view)
      | Fuel => (Fuel, view)
      end
  end.

(** The second loop: every result that is an output gets the entry [e] *)
Fixpoint set_results (e : UtxoEntry) (tx : Tx) (statusFail : bool) (ids : list Hash)
    (view : UtxoViewpoint) : outcome utxo_error unit * UtxoViewpoint :=
  match ids with
  | [] => (Ok tt, view)
  | id :: rest =>
      match tx_Output tx id with
      | Ok o => if nil_asset statusFail o then (Panic, view)
                else set_results e tx statusFail rest
                       (if skipped statusFail o then view else <[id := e]> view)
      | _ => set_results e tx statusFail rest view
      end
  end.

Definition is_coinbase_of (block : Block) (tx : Tx) : bool :=
  match Transactions block with
  | tx0 :: _ => bool_decide (tx_ID tx0 = tx_ID tx)
  | [] => false
  end.

Definition ApplyTransaction (block : Block) (tx : Tx) (statusFail : bool) (view : UtxoViewpoint)
    : outcome utxo_error unit * UtxoViewpoint :=
  match apply_inputs (blk_Height block) tx statusFail (SpentOutputIDs tx) view with
  | (Ok _, view') =>
      set_results (NewUtxoEntry (is_coinbase_of block tx) (blk_Height block) false)
        tx statusFail (ResultIds tx) view'
  | r => r
  end.

(** [for i, tx := range block.Transactions], with the status of each *)
Fixpoint each_tx (f : Tx → bool → UtxoViewpoint → outcome utxo_error unit * UtxoViewpoint)
    (ts : TransactionStatus) (i : nat) (txs : list Tx) (view : UtxoViewpoint)
    : outcome utxo_error unit * UtxoViewpoint :=
  match txs with
  | [] => (Ok tt, view)
  | tx :: rest =>
      match GetStatus ts i with
      | Ok statusFail =>
          match f tx statusFail view with
          | (Ok _, view') => each_tx f ts (S i) rest view'
          | r => r
          end
      | Err e => (Err (ErrBc e), view)
      | Panic => (Panic, view)
      | Fuel => (Fuel, view)
      end
  end.

Definition ApplyBlock (block : Block) (ts : TransactionStatus) (view : UtxoViewpoint) :=
  each_tx (ApplyTransaction block) ts 0 (Transactions block) view.

Definition CanSpend (view : UtxoViewpoint) (id : Hash) : bool :=
  match view !! id with
  | Some e => negb (Spent e)
  | None => false
  end.

Fixpoint detach_inputs (tx : Tx) (statusFail : bool) (ids : list Hash)
    (view : UtxoViewpoint) : outcome utxo_error unit * UtxoViewpoint :=
  match ids with
  | [] => (Ok tt, view)
  | prevout :: rest =>
      match tx_Output tx prevout with
      | Ok o =>
          if nil_asset statusFail o then (Panic, view)
          else if skipped statusFail o then detach_inputs tx statusFail rest view
          else
            match view !! prevout with
            | None => detach_inputs tx statusFail rest (<[prevout := NewUtxoEntry false 0 false]> view)
            | Some entry =>
                if Spent entry
                then detach_inputs tx statusFail rest (<[prevout := UnspendOutput entry]> view)
                else (Err ErrRevertUnspent, view)
            end
      | Err e => (Err (ErrBc e), view)
      | Panic => (Panic, view)
      | Fuel => (Fuel, view)
      end
  end.

Definition DetachTransaction (tx : Tx) (statusFail : bool) (view : UtxoViewpoint)
    : outcome utxo_error unit * UtxoViewpoint :=
  match detach_inputs tx statusFail (SpentOutputIDs tx) view with
  | (Ok _, view') =>
      set_results (NewUtxoEntry false 0 true) tx statusFail (ResultIds tx) view'
  | r => r
  end.

Definition DetachBlock (block : Block) (ts : TransactionStatus) (view : UtxoViewpoint) :=
  each_tx DetachTransaction ts 0 (Transactions block) view.

Definition HasUtxo (view : UtxoViewpoint) (id : Hash) : bool := bool_decide (is_Some (view !! id)).

(** ** The database ([leveldb]): the stored entries by output id *)

Definition load_utxo (db : gmap Hash UtxoEntry) (view : UtxoViewpoint) (id : Hash) : UtxoViewpoint :=
  if HasUtxo view id then view
  else match db !! id with
       | None => view
       | Some e => <[id := e]> view
       end.

Definition getTransactionsUtxo (db : gmap Hash UtxoEntry) (view : UtxoViewpoint) (txs : list Tx)
    : UtxoViewpoint :=
  fold_left (λ v tx, fold_left (load_utxo db) (SpentOutputIDs tx) v) txs view.

Definition saveUtxoView (db : gmap Hash UtxoEntry) (view : UtxoViewpoint) : gmap Hash UtxoEntry :=
  map_fold (λ key entry db, if Spent entry && negb (IsCoinBase entry) then delete key db
                            else <[key := entry]> db) db view.

(** ** What the operations change *)

(** The ids of a transaction that take part *)
Definition counts (tx : Tx) (statusFail : bool) (id : Hash) : bool :=
  match tx_Output tx id with Ok o => negb (skipped statusFail o) | _ => false end.
Definition counted (tx : Tx) (statusFail : bool) (ids : list Hash) : list Hash :=
  filter (λ id, counts tx statusFail id = true) ids.

(** Every id is an output of the transaction's map whose asset can be read *)
Definition known (tx : Tx) (statusFail : bool) (ids : list Hash) : Prop :=
  Forall (λ id, ∃ o, tx_Output tx id = Ok o ∧ nil_asset statusFail o = false) ids.

(** Every id that is an output has an asset that can be read *)
Definition readable (tx : Tx) (statusFail : bool) (ids : list Hash) : Prop :=
  Forall (λ id, ∀ o, tx_Output tx id = Ok o → nil_asset statusFail o = false) ids.

(** What a transaction must know of its outputs, given its status *)
Definition mapped (tx : Tx) (statusFail : bool) : Prop :=
  known tx statusFail (SpentOutputIDs tx) ∧ readable tx statusFail (ResultIds tx).

Definition mature (height : Z) (e : UtxoEntry) : Prop :=
  IsCoinBase e = true → uint64 (BlockHeight e + CoinbasePendingBlockNumber) <= height.

(** An output that may be spent at this height *)
Definition spendable (height : Z) (view : UtxoViewpoint) (id : Hash) : Prop :=
  ∃ e, view !! id = Some e ∧ Spent e = false ∧ mature height e.

Lemma mature_dec height e :
  (IsCoinBase e && (height <? uint64 (BlockHeight e + CoinbasePendingBlockNumber))) = false
  ↔ mature height e.
Proof.
  unfold mature. destruct (IsCoinBase e); simpl; [|done]. rewrite Z.ltb_ge. naive_solver.
Qed.

Lemma counted_cons tx sf id ids :
  counted tx sf (id :: ids) = if counts tx sf id then id :: counted tx sf ids else counted tx sf ids.
Proof.
  unfold counted. destruct (counts tx sf id) eqn:Hc.
  - by rewrite filter_cons_True.
  - rewrite filter_cons_False; [done|]. by rewrite Hc.
Qed.

(** Marking a list of outputs as spent *)
Definition spend_all (ids : list Hash) (v : UtxoViewpoint) : UtxoViewpoint :=
  fold_left (λ v id, alter SpendOutput id v) ids v.

Lemma spend_all_lookup ids : ∀ v id,
  spend_all ids v !! id = if decide (id ∈ ids) then SpendOutput <$> v !! id else v !! id.
Proof.
  induction ids as [|a ids IH]; intros v id; simpl; [done|].
  rewrite IH. destruct (decide (id = a)) as [->|Hne].
  - rewrite lookup_alter_eq. destruct (decide (a ∈ ids)), (decide (a ∈ a :: ids)); try set_solver.
    by destruct (v !! a).
  - rewrite lookup_alter_ne by done. destruct (decide (id ∈ ids)), (decide (id ∈ a :: ids)); set_solver.
Qed.

Lemma spendable_after h v id e id' : v !! id = Some e →
  spendable h (<[id := SpendOutput e]> v) id' ↔ id' ≠ id ∧ spendable h v id'.
Proof.
  intros He. unfold spendable. destruct (decide (id' = id)) as [->|Hne].
  - rewrite lookup_insert_eq. naive_solver.
  - rewrite lookup_insert_ne by done. naive_solver.
Qed.

(** The input loop succeeds exactly when every input is an output the
    transaction knows and the counted ones are spendable, none twice. *)
Lemma apply_inputs_spec h tx sf ids : ∀ v v',
  apply_inputs h tx sf ids v = (Ok tt, v') ↔
  known tx sf ids ∧ NoDup (counted tx sf ids) ∧ Forall (spendable h v) (counted tx sf ids)
  ∧ v' = spend_all (counted tx sf ids) v.
Proof.
  induction ids as [|id ids IH]; intros v v'; cbn [apply_inputs].
  { unfold known, counted. simpl. split; [intros [= <-]|intros (_ & _ & _ & ->)]; [|done].
    split_and!; try constructor. }
  rewrite counted_cons. unfold counts, known. rewrite Forall_cons.
  destruct (tx_Output tx id) as [o|e| |] eqn:Ho.
  2-4: split; [done|]; intros ([[? [[=] _]] _] & _).
  destruct (nil_asset sf o) eqn:Hnil.
  { split; [done|]. intros ([[? [[= <-] ?]] _] & _). congruence. }
  destruct (skipped sf o) eqn:Hs; cbn [negb].
  { rewrite IH. unfold known. naive_solver. }
  rewrite NoDup_cons, Forall_cons. change (spend_all (id :: ?l) v) with (spend_all l (alter SpendOutput id v)).
  destruct (v !! id) as [e|] eqn:He.
  2: { split; [done|]. intros (_ & _ & [(e & He' & _) _] & _). congruence. }
  assert (alter SpendOutput id v = <[id := SpendOutput e]> v) as ->.
  { apply map_eq. intros j. destruct (decide (j = id)) as [->|Hne].
    - by rewrite lookup_alter_eq, lookup_insert_eq, He.
    - by rewrite lookup_alter_ne, lookup_insert_ne. }
  destruct (Spent e) eqn:Hsp.
  { split; [done|]. intros (_ & _ & [(e' & He' & Hs' & _) _] & _). congruence. }
  destruct (IsCoinBase e && _) eqn:Hm.
  { split; [done|]. intros (_ & _ & [(e' & He' & _ & Hm') _] & _).
    assert (e' = e) as -> by congruence. apply mature_dec in Hm'. congruence. }
  apply mature_dec in Hm. rewrite IH. unfold known.
  assert (Forall (spendable h (<[id:=SpendOutput e]> v)) (counted tx sf ids)
    ↔ (id ∉ counted tx sf ids) ∧ Forall (spendable h v) (counted tx sf ids)) as Hsp'.
  { rewrite !Forall_forall. setoid_rewrite (spendable_after h v id e); [|done]. naive_solver. }
  rewrite Hsp'. split.
  - intros (Hk & Hnd & (Hni & Hf) & ->). split_and!; try done; [by eexists|]. by exists e.
  - intros ([_ Hk] & [Hni Hnd] & [_ Hf] & ->). done.
Qed.

Definition put_all (e : UtxoEntry) (ids : list Hash) (v : UtxoViewpoint) : UtxoViewpoint :=
  fold_left (λ v id, <[id := e]> v) ids v.

Lemma set_results_spec e tx sf ids : ∀ v v',
  set_results e tx sf ids v = (Ok tt, v') ↔ readable tx sf ids ∧ v' = put_all e (counted tx sf ids) v.
Proof.
  unfold readable.
  induction ids as [|a ids IH]; intros v v'; cbn [set_results]; [split; [by intros [= <-]|by intros [_ ->]]|].
  rewrite counted_cons, Forall_cons. unfold counts. destruct (tx_Output tx a) as [o| | |] eqn:Ho.
  2-4: rewrite IH; naive_solver.
  destruct (nil_asset sf o) eqn:Hn; [split; [done|]; intros [[Ha _] _]; specialize (Ha o eq_refl); congruence|].
  rewrite IH. destruct (skipped sf o); simpl; naive_solver.
Qed.

Lemma put_all_lookup e ids : ∀ v id,
  put_all e ids v !! id = if decide (id ∈ ids) then Some e else v !! id.
Proof.
  induction ids as [|a ids IH]; intros v id; simpl; [done|]. rewrite IH.
  destruct (decide (id = a)) as [->|Hne].
  - rewrite lookup_insert_eq. destruct (decide (a ∈ a :: _)); [|set_solver]. by case_decide.
  - rewrite lookup_insert_ne by done.
    destruct (decide (id ∈ ids)), (decide (id ∈ a :: ids)); set_solver.
Qed.

(** ** Transactions *)

Definition fresh_entry (block : Block) (tx : Tx) : UtxoEntry :=
  NewUtxoEntry (is_coinbase_of block tx) (blk_Height block) false.

(** What a successful application leaves *)
Definition applied (block : Block) (tx : Tx) (sf : bool) (v : UtxoViewpoint) (id : Hash)
    : option UtxoEntry :=
  if decide (id ∈ counted tx sf (ResultIds tx)) then Some (fresh_entry block tx)
  else if decide (id ∈ counted tx sf (SpentOutputIDs tx)) then SpendOutput <$> v !! id
  else v !! id.

Lemma ApplyTransaction_iff block tx sf v v' :
  ApplyTransaction block tx sf v = (Ok tt, v') ↔
  mapped tx sf ∧ NoDup (counted tx sf (SpentOutputIDs tx))
  ∧ Forall (spendable (blk_Height block) v) (counted tx sf (SpentOutputIDs tx))
  ∧ ∀ id, v' !! id = applied block tx sf v id.
Proof.
  assert (∀ id, put_all (fresh_entry block tx) (counted tx sf (ResultIds tx))
      (spend_all (counted tx sf (SpentOutputIDs tx)) v) !! id = applied block tx sf v id) as Hl.
  { intros id. rewrite put_all_lookup, spend_all_lookup. done. }
  unfold ApplyTransaction. fold (fresh_entry block tx). split.
  - destruct (apply_inputs _ _ _ _ _) as [[[]| | |] v1] eqn:Ha; try done.
    apply apply_inputs_spec in Ha as (Hk & Hn & Hf & ->). intros [Hr ->]%set_results_spec. done.
  - intros ([Hk Hr] & Hn & Hf & Hv).
    rewrite (proj2 (apply_inputs_spec _ _ _ _ v _) (conj Hk (conj Hn (conj Hf eq_refl)))).
    apply set_results_spec. split; [done|]. apply map_eq. intros id. by rewrite Hv, Hl.
Qed.

Lemma CanSpend_lookup v v' id : v' !! id = v !! id → CanSpend v' id = CanSpend v id.
Proof. unfold CanSpend. by intros ->. Qed.

Lemma detach_inputs_spec tx sf ids : ∀ v, known tx sf ids → NoDup (counted tx sf ids) →
  Forall (λ id, CanSpend v id = false) (counted tx sf ids) →
  ∃ v', detach_inputs tx sf ids v = (Ok tt, v')
    ∧ ∀ id, if decide (id ∈ counted tx sf ids) then CanSpend v' id = true else v' !! id = v !! id.
Proof.
  induction ids as [|a ids IH]; intros v Hk Hn Hf; cbn [detach_inputs].
  { exists v. split; [done|]. intros id. case_decide; [set_solver|done]. }
  apply Forall_cons in Hk as [(o & Ho & Hnil) Hk]. revert Hn Hf. rewrite counted_cons. unfold counts.
  rewrite Ho, Hnil. destruct (skipped sf o); simpl; [intros Hn Hf; by apply IH|].
  rewrite NoDup_cons, Forall_cons. intros [Hni Hn] [Hc Hf].
  assert (∀ e, Spent e = false → ∃ v', detach_inputs tx sf ids (<[a := e]> v) = (Ok tt, v') ∧
    ∀ id, if decide (id ∈ a :: counted tx sf ids) then CanSpend v' id = true else v' !! id = v !! id) as Hstep.
  { intros e He. destruct (IH (<[a := e]> v)) as (v' & Hv' & Hl); [done|done| |].
    - rewrite Forall_forall in *. intros id Hid. specialize (Hf id Hid). unfold CanSpend in *.
      rewrite lookup_insert_ne; [done|]. by intros ->.
    - exists v'. split; [done|]. intros id. specialize (Hl id). revert Hl.
      destruct (decide (id = a)) as [->|Hne].
      + rewrite decide_False by done. rewrite decide_True by set_solver. rewrite lookup_insert_eq.
        unfold CanSpend. intros ->. by rewrite He.
      + rewrite lookup_insert_ne by done. destruct (decide (id ∈ counted tx sf ids)).
        * by rewrite decide_True by set_solver.
        * by rewrite decide_False by set_solver. }
  unfold CanSpend in Hc. destruct (v !! a) as [e|]; [|by apply Hstep].
  destruct (Spent e); [by apply Hstep|done].
Qed.

(** Detaching a transaction whose inputs are not spendable any more *)
Lemma DetachTransaction_spec tx sf v : mapped tx sf →
  NoDup (counted tx sf (SpentOutputIDs tx)) →
  Forall (λ id, CanSpend v id = false) (counted tx sf (SpentOutputIDs tx)) →
  ∃ v', DetachTransaction tx sf v = (Ok tt, v')
    ∧ ∀ id, if decide (id ∈ counted tx sf (ResultIds tx)) then CanSpend v' id = false
            else if decide (id ∈ counted tx sf (SpentOutputIDs tx)) then CanSpend v' id = true
            else v' !! id = v !! id.
Proof.
  intros [Hk Hr] Hn Hf. unfold DetachTransaction.
  destruct (detach_inputs_spec tx sf _ v Hk Hn Hf) as (v1 & -> & Hl).
  eexists. split; [by apply set_results_spec|]. intros id. unfold CanSpend. rewrite put_all_lookup.
  case_decide; [done|]. specialize (Hl id). unfold CanSpend in Hl. done.
Qed.

(** ** Blocks *)

Definition status (ts : TransactionStatus) (i : nat) : bool :=
  match GetStatus ts i with Ok b => b | _ => false end.

(** The counted inputs and results of the transactions from the [i]th on *)
Fixpoint spends (ts : TransactionStatus) (i : nat) (txs : list Tx) : list Hash :=
  match txs with
  | [] => []
  | tx :: r => counted tx (status ts i) (SpentOutputIDs tx) ++ spends ts (S i) r
  end.
Fixpoint creates (ts : TransactionStatus) (i : nat) (txs : list Tx) : list Hash :=
  match txs with
  | [] => []
  | tx :: r => counted tx (status ts i) (ResultIds tx) ++ creates ts (S i) r
  end.

(** What an applied block needs of its transactions and results *)
Lemma each_apply_mapped block ts txs : ∀ i v v',
  each_tx (ApplyTransaction block) ts i txs v = (Ok tt, v') →
  (∀ j tx, txs !! j = Some tx → mapped tx (status ts (i + j)))
  ∧ (∀ j, (j < length txs)%nat → ∃ b, GetStatus ts (i + j) = Ok b).
Proof.
  induction txs as [|tx txs IH]; intros i v v'; cbn [each_tx].
  { intros _. split; [done|]. cbn. lia. }
  destruct (GetStatus ts i) as [sf| | |] eqn:Hg; try done.
  assert (status ts i = sf) as Hst by (unfold status; by rewrite Hg).
  destruct (ApplyTransaction block tx sf v) as [[[]| | |] v1] eqn:Ha; try done.
  apply ApplyTransaction_iff in Ha as (Hk & _). intros [Hks Hgs]%IH. split.
  - intros [|j] t Ht; simpl in Ht; [injection Ht as <-; by rewrite Nat.add_0_r, Hst|].
    rewrite <- Nat.add_succ_comm. by apply Hks.
  - intros [|j] Hj; [exists sf; by rewrite Nat.add_0_r|].
    destruct (Hgs j) as [b Hb]; [simpl in Hj; lia|]. exists b. by rewrite <- Nat.add_succ_comm.
Qed.

(** No output is created by the transaction that spends it or by a later one. *)
Fixpoint created_first (ts : TransactionStatus) (i : nat) (txs : list Tx) : Prop :=
  match txs with
  | [] => True
  | tx :: r =>
      (∀ id, id ∈ counted tx (status ts i) (SpentOutputIDs tx) → id ∉ creates ts i txs)
      ∧ created_first ts (S i) r
  end.

(** Outputs that are new and created once are created before they are spent. *)
Lemma each_apply_created_first block ts txs : ∀ i v v', NoDup (creates ts i txs) →
  Forall (λ id, CanSpend v id = false) (creates ts i txs) →
  each_tx (ApplyTransaction block) ts i txs v = (Ok tt, v') → created_first ts i txs.
Proof.
  induction txs as [|tx txs IH]; intros i v v' Hn Hc; [done|]. cbn [each_tx created_first].
  destruct (GetStatus ts i) as [sf| | |] eqn:Hg; try done.
  assert (status ts i = sf) as Hst by (unfold status; by rewrite Hg).
  destruct (ApplyTransaction block tx sf v) as [[[]| | |] v1] eqn:Ha; try done.
  apply ApplyTransaction_iff in Ha as (_ & _ & Hf & Hv1). intros Hrest. rewrite Forall_forall in Hf, Hc. split.
  - rewrite Hst. intros id Hs Hin. destruct (Hf id Hs) as (e & He & Hsp & _). specialize (Hc id Hin).
    unfold CanSpend in Hc. by rewrite He, Hsp in Hc.
  - cbn [creates] in Hn, Hc. rewrite Hst in Hn, Hc. apply NoDup_app in Hn as (_ & Hd & Hn).
    apply (IH (S i) v1 v'); [done| |done]. apply Forall_forall. intros id Hin.
    specialize (Hc id). specialize (Hv1 id). unfold applied in Hv1.
    rewrite decide_False in Hv1 by (intros ?; by apply (Hd id)). unfold CanSpend in *. rewrite Hv1.
    case_decide; [by destruct (v !! id)|]. apply Hc. set_solver.
Qed.

(** Detaching in the original order: the spender of an output has the last word. *)
Lemma each_detach ts txs : ∀ i v, created_first ts i txs →
  (∀ j tx, txs !! j = Some tx → mapped tx (status ts (i + j))) →
  (∀ j, (j < length txs)%nat → ∃ b, GetStatus ts (i + j) = Ok b) → NoDup (spends ts i txs) →
  Forall (λ id, CanSpend v id = false) (spends ts i txs) →
  ∃ v', each_tx DetachTransaction ts i txs v = (Ok tt, v')
  ∧ ∀ id, if decide (id ∈ spends ts i txs) then CanSpend v' id = true
          else if decide (id ∈ creates ts i txs) then CanSpend v' id = false
          else v' !! id = v !! id.
Proof.
  induction txs as [|tx txs IH]; intros i v Hu Hk Hg Hn Hf; cbn [each_tx spends creates created_first] in *.
  { exists v. split; [done|]. intros id. by rewrite !decide_False by set_solver. }
  destruct (Hg 0%nat) as [sf Hsf]; [simpl; lia|]. rewrite Nat.add_0_r in Hsf. rewrite Hsf.
  assert (status ts i = sf) as Hst by (unfold status; by rewrite Hsf). rewrite Hst in *.
  set (S0 := counted tx sf (SpentOutputIDs tx)) in *. set (R0 := counted tx sf (ResultIds tx)) in *.
  destruct Hu as [Hsep Hu].
  assert (mapped tx sf) as Hk0 by (rewrite <- Hst, <- (Nat.add_0_r i); by apply Hk).
  apply NoDup_app in Hn as (Hn & Hdis & Hns). apply Forall_app in Hf as [Hf Hfs].
  destruct (DetachTransaction_spec tx sf v Hk0 Hn Hf) as (v1 & -> & Hv1). fold S0 R0 in Hv1.
  destruct (IH (S i) v1) as (v' & -> & Hv'); [done| | |done| |].
  - intros j t Ht. rewrite Nat.add_succ_comm. by apply Hk.
  - intros j Hj. destruct (Hg (S j)) as [b Hb]; [simpl; lia|]. exists b. by rewrite Nat.add_succ_comm.
  - rewrite Forall_forall in *. intros id Hid. specialize (Hv1 id). case_decide; [done|].
    rewrite decide_False in Hv1 by (intros ?; by eapply Hdis).
    rewrite (CanSpend_lookup v v1 id Hv1). by apply Hfs.
  - exists v'. split; [done|]. intros id. specialize (Hv' id). specialize (Hv1 id). specialize (Hsep id).
    specialize (Hdis id). rewrite elem_of_app in Hsep.
    destruct (decide (id ∈ spends ts (S i) txs)) as [Hs|Hs]; [by rewrite decide_True by set_solver|].
    destruct (decide (id ∈ S0)) as [HS|HS].
    { rewrite decide_True by set_solver. rewrite decide_False in Hv' by tauto. rewrite decide_False in Hv1 by tauto.
      by rewrite (CanSpend_lookup _ _ _ Hv'). }
    rewrite (decide_False (P := id ∈ S0 ++ _)) by set_solver.
    destruct (decide (id ∈ creates ts (S i) txs)) as [Hc|Hc]; [by rewrite decide_True by set_solver|].
    destruct (decide (id ∈ R0)) as [HR|HR].
    + rewrite decide_True by set_solver. by rewrite (CanSpend_lookup _ _ _ Hv').
    + rewrite decide_False by set_solver. congruence.
Qed.

(** How often an identifier occurs *)
Definition occurrences (id : Hash) (l : list Hash) : Z := len (filter (λ x, x = id) l).
Definition one_if (b : bool) : Z := if b then 1 else 0.

Lemma occurrences_app id l k : occurrences id (l ++ k) = occurrences id l + occurrences id k.
Proof. unfold occurrences, len. rewrite filter_app, length_app. lia. Qed.

Lemma occurrences_in id l : id ∈ l ↔ 1 <= occurrences id l.
Proof.
  unfold occurrences, len. split.
  - intros H. assert (id ∈ filter (λ x, x = id) l) as Hf by (by apply list_elem_of_filter).
    destruct (filter _ l); [by apply not_elem_of_nil in Hf|cbn; lia].
  - destruct (filter (λ x, x = id) l) as [|y k] eqn:E; [cbn; lia|]. intros _.
    assert (y ∈ filter (λ x, x = id) l) as Hf by (rewrite E; left).
    by apply list_elem_of_filter in Hf as [-> ?].
Qed.

Lemma occurrences_nonneg id l : 0 <= occurrences id l.
Proof. unfold occurrences, len. lia. Qed.

Lemma occurrences_cons id x l : occurrences id (x :: l) = one_if (bool_decide (x = id)) + occurrences id l.
Proof.
  unfold occurrences, len. case_bool_decide; [rewrite filter_cons_True by done|by rewrite filter_cons_False].
  cbn [length one_if]. lia.
Qed.

Lemma occurrences_NoDup id l : NoDup l → occurrences id l <= 1.
Proof.
  induction 1 as [|x l Hx _ IH]; [done|]. rewrite occurrences_cons. case_bool_decide as E; [|done].
  subst x. rewrite occurrences_in in Hx. cbn [one_if]. lia.
Qed.

Lemma NoDup_occurrences l : (∀ id, occurrences id l <= 1) → NoDup l.
Proof.
  induction l as [|x l IH]; intros H; [constructor|]. setoid_rewrite occurrences_cons in H. constructor.
  - intros Hin%occurrences_in. specialize (H x). rewrite bool_decide_true in H by done. cbn [one_if] in H. lia.
  - apply IH. intros id. specialize (H id). destruct (bool_decide _); cbn [one_if] in H; lia.
Qed.

(** A transaction takes no more than it finds and adds no more than it makes. *)
Lemma ApplyTransaction_balance block tx sf v v' id : ApplyTransaction block tx sf v = (Ok tt, v') →
  occurrences id (counted tx sf (SpentOutputIDs tx)) + one_if (CanSpend v' id)
  <= one_if (CanSpend v id) + occurrences id (counted tx sf (ResultIds tx)).
Proof.
  intros (_ & Hn & Hf & Hv)%ApplyTransaction_iff. specialize (Hv id). unfold applied in Hv.
  pose proof (occurrences_NoDup id _ Hn) as Hle. pose proof (occurrences_nonneg id (counted tx sf (ResultIds tx))).
  assert (occurrences id (counted tx sf (SpentOutputIDs tx)) <= one_if (CanSpend v id)) as Hs.
  { destruct (decide (id ∈ counted tx sf (SpentOutputIDs tx))) as [Hin|Hni].
    - rewrite Forall_forall in Hf. destruct (Hf id Hin) as (e & He & Hsp & _). unfold CanSpend. by rewrite He, Hsp.
    - rewrite occurrences_in in Hni. destruct (CanSpend v id); cbn; lia. }
  unfold CanSpend at 1. rewrite Hv. case_decide as HR.
  { apply occurrences_in in HR. cbn. lia. }
  case_decide as HS; [destruct (v !! id); cbn [fmap option_fmap option_map SpendOutput Spent negb one_if]; lia|].
  rewrite occurrences_in in HS. fold (CanSpend v id). lia.
Qed.

Lemma each_apply_balance block ts txs id : ∀ i v v',
  each_tx (ApplyTransaction block) ts i txs v = (Ok tt, v') →
  occurrences id (spends ts i txs) + one_if (CanSpend v' id)
  <= one_if (CanSpend v id) + occurrences id (creates ts i txs).
Proof.
  induction txs as [|tx txs IH]; intros i v v'; cbn [each_tx spends creates].
  { intros [= <-]. cbn. lia. }
  destruct (GetStatus ts i) as [sf| | |] eqn:Hg; try done.
  assert (status ts i = sf) as -> by (unfold status; by rewrite Hg).
  destruct (ApplyTransaction block tx sf v) as [[[]| | |] v1] eqn:Ha; try done.
  intros Hrest%IH. rewrite !occurrences_app. pose proof (ApplyTransaction_balance _ _ _ _ _ id Ha). lia.
Qed.

Lemma each_apply_other block ts txs id : ∀ i v v',
  each_tx (ApplyTransaction block) ts i txs v = (Ok tt, v') →
  id ∉ spends ts i txs → id ∉ creates ts i txs → v' !! id = v !! id.
Proof.
  induction txs as [|tx txs IH]; intros i v v'; cbn [each_tx spends creates]; [by intros [= <-]|].
  destruct (GetStatus ts i) as [sf| | |] eqn:Hg; try done.
  assert (status ts i = sf) as -> by (unfold status; by rewrite Hg).
  destruct (ApplyTransaction block tx sf v) as [[[]| | |] v1] eqn:Ha; try done.
  apply ApplyTransaction_iff in Ha as (_ & _ & _ & Hv1). rewrite !elem_of_app. intros Hrest Hs Hc.
  rewrite (IH _ _ _ Hrest), Hv1 by tauto. unfold applied. by rewrite !decide_False by tauto.
Qed.

(** ** Reorganisation ([protocol/block.go])

    The view of [reorganizeChain]: for every block the entries it needs are
    loaded from the database into the common view, detached blocks first, and
    the view is saved at the end. *)
Fixpoint each_block (f : Block → TransactionStatus → UtxoViewpoint → outcome utxo_error unit * UtxoViewpoint)
    (db : gmap Hash UtxoEntry) (blocks : list (Block * TransactionStatus)) (view : UtxoViewpoint)
    : outcome utxo_error unit * UtxoViewpoint :=
  match blocks with
  | [] => (Ok tt, view)
  | (b, ts) :: rest =>
      match f b ts (getTransactionsUtxo db view (Transactions b)) with
      | (Ok _, view') => each_block f db rest view'
      | r => r
      end
  end.

Definition reorganizeChain (db : gmap Hash UtxoEntry) (detach attach : list (Block * TransactionStatus))
    : outcome utxo_error (gmap Hash UtxoEntry) :=
  match each_block DetachBlock db detach ∅ with
  | (Ok _, v) =>
      match each_block ApplyBlock db attach v with
      | (Ok _, v') => Ok (saveUtxoView db v')
      | (Err e, _) => Err e
      | (Panic, _) => Panic
      | (Fuel, _) => Fuel
      end
  | (Err e, _) => Err e
  | (Panic, _) => Panic
  | (Fuel, _) => Fuel
  end.

(** ** Claims *)

(** C20: a transaction is applied exactly when every output it spends (that
    takes part, given its status) is one it knows, exists unspent, is mature
    at the block's height if it is a coinbase output, and is spent once; then
    those outputs are spent, its results are fresh unspent outputs of the
    block, and nothing else changes. *)
Theorem ApplyTransaction_spends_the_unspent block tx sf v v' :
  ApplyTransaction block tx sf v = (Ok tt, v') ↔
  mapped tx sf ∧ NoDup (counted tx sf (SpentOutputIDs tx))
  ∧ Forall (spendable (blk_Height block) v) (counted tx sf (SpentOutputIDs tx))
  ∧ ∀ id, v' !! id = applied block tx sf v id.
Proof. apply ApplyTransaction_iff. Qed.

(** C21: a block spends no output more often than there is one.  Whatever the
    block and the view, when the block is applied each output is spent at most
    once if it was unspent before, and once more for every time the block
    creates it; what is left to spend afterwards is counted in. *)
Theorem ApplyBlock_no_double_spend block ts v v' id :
  ApplyBlock block ts v = (Ok tt, v') →
  occurrences id (spends ts 0 (Transactions block)) + one_if (CanSpend v' id)
  <= one_if (CanSpend v id) + occurrences id (creates ts 0 (Transactions block)).
Proof. apply each_apply_balance. Qed.

(** C22: what detaching a block undoes and what it does not.  In a block that
    creates each of its outputs once, none of which could be spent before, the
    detachment succeeds; afterwards an output can be spent if it could be spent
    before the block was applied, and also if the block both created and spent
    it: the transactions are undone in their original order, so the output of a
    chained transaction is removed first and then returned by its spender. *)
Theorem DetachBlock_revives_chained_outputs block ts v v1 :
  NoDup (creates ts 0 (Transactions block)) →
  Forall (λ id, CanSpend v id = false) (creates ts 0 (Transactions block)) →
  ApplyBlock block ts v = (Ok tt, v1) →
  ∃ v2, DetachBlock block ts v1 = (Ok tt, v2) ∧ ∀ id, CanSpend v2 id =
    CanSpend v id || bool_decide (id ∈ creates ts 0 (Transactions block) ∧ id ∈ spends ts 0 (Transactions block)).
Proof.
  intros Hn Hnew Ha. destruct (each_apply_mapped block ts _ 0 v v1 Ha) as [Hk Hg].
  pose proof (each_apply_created_first block ts _ 0 v v1 Hn Hnew Ha) as Hf.
  assert (∀ id, occurrences id (spends ts 0 (Transactions block)) + one_if (CanSpend v1 id) <= 1) as Hb.
  { intros id. pose proof (each_apply_balance block ts _ id 0 v v1 Ha) as Hb.
    pose proof (occurrences_NoDup id _ Hn). rewrite Forall_forall in Hnew.
    destruct (decide (id ∈ creates ts 0 (Transactions block))) as [Hin|Hni].
    - rewrite (Hnew id Hin) in Hb. cbn [one_if] in Hb. lia.
    - rewrite occurrences_in in Hni. destruct (CanSpend v id); cbn [one_if] in Hb; lia. }
  destruct (each_detach ts (Transactions block) 0 v1 Hf Hk Hg) as (v2 & Hd & Hv2).
  - apply NoDup_occurrences. intros id. specialize (Hb id). destruct (CanSpend v1 id); cbn [one_if] in Hb; lia.
  - apply Forall_forall. intros id Hin%occurrences_in. specialize (Hb id).
    destruct (CanSpend v1 id); cbn [one_if] in Hb; [lia|done].
  - exists v2. split; [done|]. intros id. specialize (Hv2 id). rewrite Forall_forall in Hnew.
    destruct (decide (id ∈ spends ts 0 (Transactions block))) as [Hs|Hs];
      [|destruct (decide (id ∈ creates ts 0 (Transactions block))) as [Hc|Hc]].
    + rewrite Hv2. case_bool_decide as E; [by rewrite orb_true_r|]. rewrite orb_false_r.
      assert (id ∉ creates ts 0 (Transactions block)) as Hni by tauto.
      pose proof (each_apply_balance block ts _ id 0 v v1 Ha) as Hbal. rewrite occurrences_in in Hs, Hni.
      destruct (CanSpend v id), (CanSpend v1 id); cbn [one_if] in Hbal; done || lia.
    + rewrite Hv2, (Hnew id Hc), bool_decide_false by tauto. done.
    + rewrite bool_decide_false, orb_false_r by tauto. apply CanSpend_lookup. rewrite Hv2.
      by eapply each_apply_other.
Qed.
End utxo.

(** ** Witnesses and a reorganisation that creates money *)

Definition h_ (n : Z) : Hash := mkHash n 0 0 0.
Definition native_output : Entry :=
  EOutput (mkOutput (Some (mkValueSource (Some (h_ 0)) (Some (mkAssetAmount (Some NativeAsset) 100)) 0))
             (mkProgram 1 []) 0).
Definition simple_tx (id : Z) (ins outs : list Z) : Tx :=
  mkTx (mkTxHeader 1 100 0 (h_ <$> outs) (h_ 0) (h_ 0)) (h_ id)
    (list_to_map ((λ n, (h_ n, native_output)) <$> (ins ++ outs))) [] (h_ <$> ins) [].
Definition plain_Block (height : Z) (txs : list Tx) : Block :=
  mkBlock (mkBcHeader 1 height (h_ 0) 0 (h_ 0) (h_ 0) (h_ 0) 0 0 None) (h_ 0) txs.
Definition all_fine (n : nat) : TransactionStatus := mkTransactionStatus 1 (replicate n (mkTxVerifyResult false [])).

(** A coinbase creating 2, a payment of 1 into 3, a payment of 3 into 4 *)
Definition chained_block : Block :=
  plain_Block 50 [simple_tx 100 [] [2]; simple_tx 101 [1] [3]; simple_tx 102 [3] [4]].
Definition rival_blocks : list (Block * TransactionStatus) :=
  [(plain_Block 50 [simple_tx 200 [] [12]], all_fine 1); (plain_Block 51 [simple_tx 201 [] [13]], all_fine 1)].

(** The database before the block: output 1 is unspent *)
Definition db_before : gmap Hash UtxoEntry := {[ h_ 1 := NewUtxoEntry false 20 false ]}.
Definition db_connected : gmap Hash UtxoEntry :=
  saveUtxoView db_before
    (ApplyBlock chained_block (all_fine 3)
       (getTransactionsUtxo db_before ∅ (Transactions chained_block))).2.

(** The stored unspent outputs among the ids in play *)
Definition unspent_in (db : gmap Hash UtxoEntry) (ids : list Z) : list Z :=
  filter (λ n, CanSpend db (h_ n) = true) ids.

(** The money that a reorganisation creates in this way: output 1 was paid into
    3 and 3 into 4 in one block; after a reorganisation that drops the block,
    both the original output 1 and the output 3 of the dropped payment are
    stored as unspent. *)
Example reorganisation_creates_money :
  unspent_in db_before [1; 2; 3; 4; 12; 13] = [1] ∧
  unspent_in db_connected [1; 2; 3; 4; 12; 13] = [2; 4] ∧
  match reorganizeChain db_connected [(chained_block, all_fine 3)] rival_blocks with
  | Ok db => unspent_in db [1; 2; 3; 4; 12; 13] = [1; 3; 12; 13]
  | _ => False
  end.
Proof. vm_compute. done. Qed.

Lemma ok_pair {A} (p : outcome utxo_error unit * A) : p.1 = Ok tt → p = (Ok tt, p.2).
Proof. destruct p. by intros [= ->]. Qed.

Definition chained_view : UtxoViewpoint := getTransactionsUtxo db_before ∅ (Transactions chained_block).

(** Output 3 is created and spent once and gone; output 1 is spent once. *)
Lemma ApplyBlock_no_double_spend_witness :
  let v' := (ApplyBlock chained_block (all_fine 3) chained_view).2 in
  occurrences (h_ 3) (spends (all_fine 3) 0 (Transactions chained_block)) = 1
  ∧ occurrences (h_ 3) (spends (all_fine 3) 0 (Transactions chained_block)) + one_if (CanSpend v' (h_ 3))
    <= one_if (CanSpend chained_view (h_ 3)) + occurrences (h_ 3) (creates (all_fine 3) 0 (Transactions chained_block)).
Proof.
  intros v'. split; [vm_compute; reflexivity|].
  apply (ApplyBlock_no_double_spend chained_block (all_fine 3) chained_view v' (h_ 3)).
  apply ok_pair. vm_compute. reflexivity.
Defined.

(** After the detachment the outputs 1 and 3 can be spent; before the block only
    1 could. *)
Lemma DetachBlock_revives_chained_outputs_witness :
  let v1 := (ApplyBlock chained_block (all_fine 3) chained_view).2 in
  CanSpend chained_view (h_ 3) = false ∧
  ∃ v2, DetachBlock chained_block (all_fine 3) v1 = (Ok tt, v2) ∧ CanSpend v2 (h_ 1) = true ∧ CanSpend v2 (h_ 3) = true.
Proof.
  intros v1. split; [vm_compute; reflexivity|].
  destruct (DetachBlock_revives_chained_outputs chained_block (all_fine 3) chained_view v1) as (v2 & Hd & Hv2).
  - apply (bool_decide_unpack _). vm_compute. exact I.
  - repeat constructor; vm_compute; reflexivity.
  - apply ok_pair. vm_compute. reflexivity.
  - exists v2. rewrite !Hv2. split; [exact Hd|]. split; vm_compute; reflexivity.
Defined.
