(* ===== verification/Difficulty.v ===== *)
(** * Proof of work ([consensus/difficulty]) and block headers

    The compact representation of targets, the work of a target, retargeting,
    and what [protocol/state/blockindex.go] and [protocol/validation/block.go]
    derive from a chain of headers.  [big.Int] is [Z]. *)

From S2P Require Import Prelude Encoding Bc EntryHash.
From stdpp Require Import sorting.
Local Open Scope Z_scope.

(** [BlocksPerRetarget], [TargetSecondsPerBlock], [SeedPerRetarget],
    [MaxTimeOffsetSeconds], [MedianTimeBlocks] of [consensus/general.go] *)
Abbreviation BlocksPerRetarget := 11.
Abbreviation TargetSecondsPerBlock := 13.
Abbreviation SeedPerRetarget := 7.
Abbreviation MaxTimeOffsetSeconds := 3600.
Abbreviation MedianTimeBlocks := 11%nat.

Section difficulty.

(** [sha3pool.Sum256] *)
Context (Sum256 : list Z → list Z).

(** ** difficulty.go *)

(** The bytes of the hash reversed, as a big-endian number *)
Definition HashToBig (hash : Hash) : Z := be_value (rev (Byte32 hash)).

Definition CompactToBig (compact : Z) : Z :=
  let mantissa := Z.land compact 0x007fffffffffffff in
  let isNegative := negb (Z.land compact 0x0080000000000000 =? 0) in
  let exponent := Z.shiftr compact 56 in
  let bn := if exponent <=? 3 then Z.shiftr mantissa (8 * (3 - exponent))
            else Z.shiftl mantissa (8 * (exponent - 3)) in
  if isNegative then - bn else bn.

(** [len(n.Bytes())] *)
Definition byte_len (n : Z) : Z := if n =? 0 then 0 else Z.log2 (Z.abs n) / 8 + 1.

(** [n.Bits()[0]]: the low 64 bits of the absolute value *)
Definition low_word (n : Z) : Z := uint64 (Z.abs n).

Definition BigToCompact (n : Z) : Z :=
  if n =? 0 then 0
  else
    let exponent := byte_len n in
    let mantissa :=
      if exponent <=? 3 then uint64 (Z.shiftl (low_word n) (8 * (3 - exponent)))
      else low_word (Z.shiftr n (8 * (exponent - 3))) in
    let '(mantissa, exponent) :=
      if negb (Z.land mantissa 0x0080000000000000 =? 0) then (Z.shiftr mantissa 8, exponent + 1)
      else (mantissa, exponent) in
    let compact := Z.lor (uint64 (Z.shiftl exponent 56)) mantissa in
    if n <? 0 then Z.lor compact 0x0080000000000000 else compact.

Definition CalcWork (bits : Z) : Z :=
  let difficultyNum := CompactToBig bits in
  if difficultyNum <=? 0 then 0 else 2 ^ 256 / (difficultyNum + 1).

(** Division by zero panics *)
Definition CalcTargetBits (difficulty : Z) : outcome unit Z :=
  if difficulty =? 0 then Panic else Ok (BigToCompact (2 ^ 256 / difficulty - 1)).

Definition CheckProofOfWork (hash seed : Hash) (bits : Z) : bool :=
  HashToBig (NewHash (Sum256 (Byte32 hash ++ Byte32 seed))) <=? CompactToBig bits.

(** [big.Int.Div] rounds down for a positive divisor. *)
Definition CalcNextRequiredDifficulty (lastBH compareBH : BlockHeader) : Z :=
  if negb (bh_Height lastBH mod BlocksPerRetarget =? 0) || (bh_Height lastBH =? 0)
  then bh_Bits lastBH
  else
    let targetTimeSpan := int64 (BlocksPerRetarget * TargetSecondsPerBlock) in
    let actualTimeSpan := int64 (uint64 (bh_Timestamp lastBH - bh_Timestamp compareBH)) in
    BigToCompact (CompactToBig (bh_Bits lastBH) * actualTimeSpan / targetTimeSpan).

(** [consensus.BlockSubsidy] *)
Definition BlockSubsidy (height : Z) : Z :=
  if height =? 0 then 140700000750000000
  else Z.shiftr 750000000 (Z.quot height MaxUint64).

(** ** blockindex.go *)

Inductive BlockNode := mkNode {
  bn_Parent : option BlockNode;
  bn_Hash : Hash;
  bn_Seed : Hash;
  bn_WorkSum : Z;
  bn_Version : Z;
  bn_Height : Z;
  bn_Timestamp : Z;
  bn_Nonce : Z;
  bn_Bits : Z;
  bn_BlockCommitment : BlockCommitment;
}.

(** [InitialSeed] *)
Definition InitialSeed : Hash :=
  mkHash 1731360381494106119 2456720262922970904 438282961664083713 1303800995994077458.

(** [BlockNode.BlockHeader] *)
Definition node_header (node : BlockNode) : BlockHeader :=
  mkHeader (bn_Version node) (bn_Height node)
    (match bn_Parent node with Some p => bn_Hash p | None => mkHash 0 0 0 0 end)
    (bn_Timestamp node) (bn_Nonce node) (bn_Bits node) (bn_BlockCommitment node).

(** The timestamps of the node and its ancestors, at most [n] *)
Fixpoint timestamps (n : nat) (node : BlockNode) : list Z :=
  match n with
  | O => []
  | S n => bn_Timestamp node :: match bn_Parent node with Some p => timestamps n p | None => [] end
  end.

Definition CalcPastMedianTime (node : BlockNode) : Z :=
  let ts := timestamps MedianTimeBlocks node in
  default 0 (merge_sort Z.le ts !! Nat.div (length ts) 2).

(** The loop of [CalcNextBits]; a nil parent is dereferenced: a panic *)
Fixpoint retarget_node (n : nat) (node : option BlockNode) : outcome unit BlockNode :=
  match node with
  | None => Panic
  | Some c => if bn_Height c mod BlocksPerRetarget =? 0 then Ok c
              else match n with
                   | O => Fuel
                   | S n => retarget_node n (bn_Parent c)
                   end
  end.

Definition CalcNextBits (node : BlockNode) : outcome unit Z :=
  if negb (bn_Height node mod BlocksPerRetarget =? 0) || (bn_Height node =? 0) then Ok (bn_Bits node)
  else match retarget_node 11 (bn_Parent node) with
       | Ok c => Ok (CalcNextRequiredDifficulty (node_header node) (node_header c))
       | Err e => Err e
       | Panic => Panic
       | Fuel => Fuel
       end.

Definition CalcNextSeed (node : BlockNode) : Hash :=
  if bn_Height node =? 0 then InitialSeed
  else if bn_Height node mod SeedPerRetarget =? 0 then bn_Hash node
  else bn_Seed node.

(** The code's three root fields are the record [bn_BlockCommitment]. *)
Definition NewBlockNode (bh : BlockHeader) (parent : option BlockNode) : outcome unit BlockNode :=
  let work := CalcWork (bh_Bits bh) in
  let mk seed sum := mkNode parent (header_Hash Sum256 bh) seed sum (bh_Version bh) (bh_Height bh)
    (bh_Timestamp bh) (bh_Nonce bh) (bh_Bits bh) (bh_BlockCommitment bh) in
  if bh_Height bh =? 0 then Ok (mk InitialSeed work)
  else match parent with
       | None => Err tt
       | Some p => Ok (mk (CalcNextSeed p) (bn_WorkSum p + work))
       end.

(** ** validation/block.go *)

Inductive header_error :=
| errVersionRegression
| errMisorderedBlockHeight
| errBadBits
| errMismatchedBlock
| errBadTimestamp
| errWorkProof.

(** [now] is the clock in seconds *)
Definition checkBlockTime (now timestamp : Z) (parent : BlockNode) : option header_error :=
  if uint64 (now + MaxTimeOffsetSeconds) <? timestamp then Some errBadTimestamp
  else if timestamp <=? CalcPastMedianTime parent then Some errBadTimestamp
  else None.

Definition ValidateBlockHeader (now : Z) (b : Block) (parent : BlockNode) : outcome header_error unit :=
  let bh := blk_Header b in
  if bb_Version bh <? bn_Version parent then Err errVersionRegression
  else if negb (bb_Height bh =? uint64 (bn_Height parent + 1)) then Err errMisorderedBlockHeight
  else match CalcNextBits parent with
       | Ok bits =>
           if negb (bb_Bits bh =? bits) then Err errBadBits
           else if negb (bool_decide (bn_Hash parent = bb_PreviousBlockId bh)) then Err errMismatchedBlock
           else match checkBlockTime now (bb_Timestamp bh) parent with
                | Some e => Err e
                | None =>
                    if CheckProofOfWork (blk_ID b) (CalcNextSeed parent) (bb_Bits bh)
                    then Ok tt else Err errWorkProof
                end
       | Err _ => Panic
       | Panic => Panic
       | Fuel => Fuel
       end.

(** ** The compact representation *)

Lemma byte_len_bounds n : 0 < n → 0 < byte_len n ∧ 256 ^ (byte_len n - 1) <= n < 256 ^ byte_len n.
Proof.
  intros Hn. unfold byte_len. rewrite (proj2 (Z.eqb_neq n 0)), Z.abs_eq by lia.
  pose proof (Z.log2_nonneg n) as Hl. pose proof (Z.log2_spec n Hn) as [Hlo Hhi].
  pose proof (Z.div_mod (Z.log2 n) 8 ltac:(lia)) as Hd. pose proof (Z.mod_pos_bound (Z.log2 n) 8 ltac:(lia)).
  pose proof (Z.div_pos (Z.log2 n) 8 ltac:(lia) ltac:(lia)).
  change 256 with (2 ^ 8). rewrite <- !Z.pow_mul_r by lia. split; [lia|]. split.
  - etransitivity; [|exact Hlo]. apply Z.pow_le_mono_r; lia.
  - eapply Z.lt_le_trans; [exact Hhi|]. apply Z.pow_le_mono_r; lia.
Qed.

(** An exponent byte above a mantissa of at most 55 bits *)
Lemma compact_fields e m : 0 <= e < 256 → 0 <= m < 2 ^ 55 →
  let c := Z.lor (uint64 (Z.shiftl e 56)) m in
  Z.land c 0x007fffffffffffff = m ∧ Z.land c 0x0080000000000000 = 0 ∧ Z.shiftr c 56 = e
  ∧ c = e * 2 ^ 56 + m.
Proof.
  intros He Hm c. assert (c = e * 2 ^ 56 + m) as Hc.
  { unfold c. rewrite Z.shiftl_mul_pow2, uint64_id by (ranges; lia).
    assert (Z.land (e * 2 ^ 56) m = 0) as Hd.
    { apply Z.bits_inj'. intros k Hk. rewrite Z.bits_0, Z.land_spec.
      destruct (Z.ltb_spec k 56); [by rewrite Z.mul_pow2_bits_low|].
      assert (Z.testbit m k = false) as ->; [|apply andb_false_r].
      apply Z.testbit_false; [lia|]. rewrite Z.div_small; [done|].
      pose proof (Z.pow_le_mono_r 2 55 k). lia. }
    by rewrite Z.add_nocarry_lxor, Z.lxor_lor. }
  rewrite Hc. split_and!.
  - change 0x007fffffffffffff with (Z.ones 55). rewrite Z.land_ones by lia.
    symmetry. apply (Z.mod_unique _ _ (2 * e)); lia.
  - apply Z.bits_inj'. intros k Hk. rewrite Z.bits_0, Z.land_spec.
    change 0x0080000000000000 with (2 ^ 55). rewrite Z.pow2_bits_eqb by lia.
    destruct (Z.eqb_spec 55 k) as [<-|]; [|apply andb_false_r]. rewrite andb_true_r.
    apply Z.testbit_false; [lia|]. replace (e * 2 ^ 56 + m) with (m + 2 * e * 2 ^ 55) by lia.
    rewrite Z.div_add, Z.div_small by lia. rewrite Z.add_0_l, Z.mul_comm. apply Z.mod_mul. lia.
  - rewrite Z.shiftr_div_pow2, Z.div_add_l, Z.div_small by lia. lia.
  - done.
Qed.

(** The bytes of [n] below its three leading ones *)
Definition low_bytes (n : Z) : Z := Z.max 0 (byte_len n - 3).

Definition truncate (n : Z) : Z := n / 256 ^ low_bytes n * 256 ^ low_bytes n.

Lemma BigToCompact_pos n : 0 < n < 256 ^ 255 →
  0 <= byte_len n < 256 ∧
  ∃ m, 0 <= m < 2 ^ 24 ∧ BigToCompact n = Z.lor (uint64 (Z.shiftl (byte_len n) 56)) m
  ∧ (if byte_len n <=? 3 then m = n * 256 ^ (3 - byte_len n) else m = n / 256 ^ (byte_len n - 3)).
Proof.
  intros Hn. destruct (byte_len_bounds n) as (He & Hlo & Hhi); [lia|].
  assert (byte_len n < 256) as He2.
  { destruct (Z.ltb_spec (byte_len n) 256); [done|].
    assert (256 ^ 255 <= 256 ^ (byte_len n - 1)) by (apply Z.pow_le_mono_r; lia). lia. }
  split; [lia|]. set (e := byte_len n) in *.
  set (m := if e <=? 3 then n * 256 ^ (3 - e) else n / 256 ^ (e - 3)).
  assert (0 <= m < 2 ^ 24) as Hm.
  { unfold m. change (2 ^ 24) with (256 ^ 3). destruct (Z.leb_spec e 3).
    - assert (256 ^ e * 256 ^ (3 - e) = 256 ^ 3) as Hp by (rewrite <- Z.pow_add_r by lia; f_equal; lia).
      assert (0 < 256 ^ (3 - e)) by (apply Z.pow_pos_nonneg; lia). nia.
    - assert (256 ^ (e - 3) * 256 ^ 3 = 256 ^ e) as Hp by (rewrite <- Z.pow_add_r by lia; f_equal; lia).
      assert (0 < 256 ^ (e - 3)) by (apply Z.pow_pos_nonneg; lia).
      split; [apply Z.div_pos; lia|apply Z.div_lt_upper_bound; lia]. }
  exists m. split; [done|]. split; [|unfold m; by destruct (e <=? 3)].
  unfold BigToCompact. rewrite (proj2 (Z.eqb_neq n 0)) by lia. fold e. cbv zeta.
  assert ((if e <=? 3 then uint64 (Z.shiftl (low_word n) (8 * (3 - e)))
           else low_word (Z.shiftr n (8 * (e - 3)))) = m) as ->.
  { revert Hm. unfold m, low_word. destruct (Z.leb_spec e 3); intros Hm.
    - assert (n < 2 ^ 24). { change (2 ^ 24) with (256 ^ 3). eapply Z.lt_le_trans; [exact Hhi|]. apply Z.pow_le_mono_r; lia. }
      rewrite Z.abs_eq by lia. rewrite (uint64_id n) by (ranges; lia).
      rewrite Z.shiftl_mul_pow2, Z.pow_mul_r by lia. change (2 ^ 8) with 256.
      apply uint64_id. ranges. lia.
    - rewrite Z.shiftr_div_pow2, Z.pow_mul_r by lia. change (2 ^ 8) with 256.
      rewrite Z.abs_eq by lia. apply uint64_id. ranges. lia. }
  assert (Z.land m 0x0080000000000000 = 0) as ->.
  { apply (compact_fields 0 m); lia. }
  cbn [Z.eqb negb]. by rewrite (proj2 (Z.ltb_ge n 0)) by lia.
Qed.

Lemma compact_roundtrip n : 0 <= n < 256 ^ 255 → CompactToBig (BigToCompact n) = truncate n.
Proof.
  intros Hn. destruct (Z.eqb_spec n 0) as [->|Hz]; [reflexivity|].
  destruct (BigToCompact_pos n) as (He & m & Hm & -> & Hmv); [lia|].
  destruct (compact_fields (byte_len n) m He ltac:(lia)) as (Hman & Hsgn & Hexp & _).
  unfold CompactToBig, truncate, low_bytes. rewrite Hman, Hsgn, Hexp. cbn [Z.eqb negb].
  set (e := byte_len n) in *. destruct (Z.leb_spec e 3).
  - rewrite Z.max_l, Z.pow_0_r, Z.div_1_r, Z.mul_1_r by lia.
    rewrite Z.shiftr_div_pow2, Z.pow_mul_r by lia. change (2 ^ 8) with 256. rewrite Hmv.
    apply Z.div_mul. apply Z.pow_nonzero; lia.
  - rewrite Z.max_r by lia. rewrite Z.shiftl_mul_pow2, Z.pow_mul_r by lia. change (2 ^ 8) with 256.
    by rewrite Hmv.
Qed.

Lemma truncate_bounds n : 0 <= n → truncate n <= n ∧ (n - truncate n) * 65536 <= n.
Proof.
  intros Hn. destruct (Z.eqb_spec n 0) as [->|Hz]; [done|].
  destruct (byte_len_bounds n) as (He & Hlo & _); [lia|]. unfold truncate, low_bytes.
  set (e := byte_len n) in *. set (k := Z.max 0 (e - 3)).
  assert (0 < 256 ^ k) as Hk by (apply Z.pow_pos_nonneg; lia).
  pose proof (Z.div_mod n (256 ^ k) ltac:(lia)) as Hd. pose proof (Z.mod_pos_bound n (256 ^ k) Hk) as Hb.
  split; [lia|]. destruct (Z.leb_spec e 3).
  - unfold k in *. rewrite Z.max_l in * by lia. rewrite Z.pow_0_r, Z.div_1_r in *. lia.
  - assert (256 ^ (e - 1) = 256 ^ k * 65536) as Hp.
    { unfold k. rewrite Z.max_r by lia. change 65536 with (256 ^ 2). rewrite <- Z.pow_add_r by lia.
      f_equal. lia. }
    lia.
Qed.

Lemma CompactToBig_negative c : Z.testbit c 55 = true → CompactToBig c <= 0.
Proof.
  intros Hb. unfold CompactToBig.
  assert (Z.land c 0x0080000000000000 ≠ 0) as Hl.
  { intros H. apply (f_equal (λ z, Z.testbit z 55)) in H. rewrite Z.land_spec, Hb, Z.bits_0 in H. done. }
  rewrite (proj2 (Z.eqb_neq _ _) Hl). cbn [negb].
  assert (0 <= Z.land c 0x007fffffffffffff) by (apply Z.land_nonneg; lia).
  enough (0 <= if Z.shiftr c 56 <=? 3 then Z.shiftr (Z.land c 0x007fffffffffffff) (8 * (3 - Z.shiftr c 56))
               else Z.shiftl (Z.land c 0x007fffffffffffff) (8 * (Z.shiftr c 56 - 3))) by lia.
  destruct (_ <=? _); [by apply Z.shiftr_nonneg|by apply Z.shiftl_nonneg].
Qed.

Lemma BigToCompact_nonpos n : n <= 0 → CompactToBig (BigToCompact n) <= 0.
Proof.
  intros Hn. destruct (Z.eqb_spec n 0) as [->|Hz]; [reflexivity|]. apply CompactToBig_negative.
  unfold BigToCompact. rewrite (proj2 (Z.eqb_neq n 0) Hz). cbv zeta.
  destruct (if negb _ then _ else _) as [m e]. rewrite (proj2 (Z.ltb_lt n 0)) by lia.
  by rewrite Z.lor_spec, orb_true_r.
Qed.

Lemma HashToBig_nonneg h : 0 <= HashToBig h.
Proof.
  unfold HashToBig. rewrite be_value_rev. apply le_value_bound.
  unfold Byte32, put_be64. rewrite !Forall_app. split_and!; apply Forall_rev, le_bytes_range.
Qed.

(** ** Claims *)

(** C27: a target survives its compact representation up to its three leading
    bytes: the decoded target is the original with the lower bytes cleared,
    never larger, and smaller by less than one part in 65536. *)
Theorem compact_target_roundtrip n : 0 <= n < 256 ^ 255 →
  CompactToBig (BigToCompact n) = truncate n
  ∧ truncate n <= n ∧ (n - truncate n) * 65536 <= n.
Proof. intros Hn. split; [by apply compact_roundtrip|]. apply truncate_bounds. lia. Qed.

(** At a retarget height the new target is the old one scaled by the
    actual over the intended time of the interval (143 seconds), rounded down
    to the compact precision; at other heights the bits are kept. *)
Theorem retarget_scales_the_target last cmp :
  let span := bh_Timestamp last - bh_Timestamp cmp in
  let scaled := CompactToBig (bh_Bits last) * span / 143 in
  0 <= span <= MaxInt64 → 0 <= scaled < 256 ^ 255 →
  if (bh_Height last mod BlocksPerRetarget =? 0) && negb (bh_Height last =? 0)
  then CompactToBig (CalcNextRequiredDifficulty last cmp) = truncate scaled
  else CalcNextRequiredDifficulty last cmp = bh_Bits last.
Proof.
  intros span scaled Hspan Hscaled. unfold CalcNextRequiredDifficulty.
  destruct (_ mod _ =? 0); cbn [negb orb andb]; [|done].
  destruct (_ =? 0); cbn [negb]; [done|].
  rewrite (uint64_id (bh_Timestamp last - bh_Timestamp cmp)) by (fold span; ranges; lia).
  rewrite (int64_id (bh_Timestamp last - bh_Timestamp cmp)) by (fold span; ranges; lia).
  by apply compact_roundtrip.
Qed.

(** More work for a smaller target: the work of a block grows when its
    target shrinks, and a target that is not positive counts for nothing. *)
Theorem work_grows_as_the_target_shrinks b1 b2 : CompactToBig b1 <= CompactToBig b2 →
  if CompactToBig b1 <=? 0 then CalcWork b1 = 0 else CalcWork b2 <= CalcWork b1.
Proof.
  intros Hle. unfold CalcWork. destruct (Z.leb_spec (CompactToBig b1) 0); [done|].
  rewrite (proj2 (Z.leb_gt _ _)) by lia. apply Z.div_le_compat_l; lia.
Qed.

(** No header extends a node whose next target is negative. *)
Lemma negative_target_halts now b tip bits : CalcNextBits tip = Ok bits → CompactToBig bits < 0 →
  ValidateBlockHeader now b tip ≠ Ok tt.
Proof.
  intros Hbits Hneg. unfold ValidateBlockHeader. rewrite Hbits.
  destruct (_ <? _); [done|]. destruct (negb (_ =? uint64 _)); [done|].
  destruct (Z.eqb_spec (bb_Bits (blk_Header b)) bits) as [->|]; [|done]. cbn [negb].
  destruct (negb _); [done|]. destruct (checkBlockTime _ _ _); [done|].
  unfold CheckProofOfWork. pose proof (HashToBig_nonneg (NewHash (Sum256 (Byte32 (blk_ID b) ++ Byte32 (CalcNextSeed tip))))).
  by rewrite (proj2 (Z.leb_gt _ _)) by lia.
Qed.

(** ** A chain of headers that cannot be continued *)

Definition no_roots : BlockCommitment := mkCommitment (mkHash 0 0 0 0) (mkHash 0 0 0 0) (mkHash 0 0 0 0).
Definition genesis : BlockNode := mkNode None (mkHash 0 0 0 0) InitialSeed 0 1 0 1000 0 (BigToCompact (2 ^ 240)) no_roots.

(** The next node, with the bits the code requires *)
Definition extend (p : BlockNode) (ts : Z) : BlockNode :=
  mkNode (Some p) (mkHash (bn_Height p + 1) 0 0 0) (CalcNextSeed p) 0 1 (bn_Height p + 1) ts 0
    (match CalcNextBits p with Ok b => b | _ => 0 end) no_roots.

(** The block of a node, as a peer sends it *)
Definition block_of (n : BlockNode) : Block := mkBlock (mapBlockHeader (node_header n)) (bn_Hash n) [].

(** A block every 13 seconds by the clock, except that block 11 is dated an
    hour ahead *)
Definition slot (i : nat) : Z := 1000 + 13 * Z.of_nat i.
Definition spike_time (i : nat) : Z := if (i =? 11)%nat then slot 11 + 3600 else slot i.

Fixpoint spike_chain (n : nat) : BlockNode :=
  match n with
  | O => genesis
  | S m => extend (spike_chain m) (spike_time n)
  end.
End difficulty.

(** C30: one miner can halt the chain with a timestamp.  In this chain of 22
    headers every one is valid when it arrives (block 11 is dated an hour
    ahead of the clock, which the rules allow; the hash function here makes
    every proof of work succeed), but block 22, at the retarget height, is
    then older than block 11, the time span of the interval is negative, and
    so is the next target: whatever the hash function, the clock and the
    header, no block is accepted after block 22. *)
Theorem timestamp_spike_halts_the_chain :
  Forall (λ i, ValidateBlockHeader (λ _, replicate 32 0) (slot (S i))
                 (block_of (spike_chain (S i))) (spike_chain i) = Ok tt) (seq 0 22)
  ∧ ∀ Sum256 now b, ValidateBlockHeader Sum256 now b (spike_chain 22) ≠ Ok tt.
Proof.
  split.
  - apply Forall_forall. intros i Hi. apply elem_of_seq in Hi.
    do 22 (destruct i as [|i]; [vm_compute; reflexivity|]). lia.
  - intros Sum256 now b. eapply negative_target_halts; [vm_compute; reflexivity|].
    vm_compute. reflexivity.
Qed.

(** ** Witnesses *)

Definition timed_header (height time bits : Z) : BlockHeader :=
  mkHeader 1 height (mkHash 0 0 0 0) time 0 bits (mkCommitment (mkHash 0 0 0 0) (mkHash 0 0 0 0) (mkHash 0 0 0 0)).

Lemma compact_target_roundtrip_witness :
  CompactToBig (BigToCompact 0x123456789a) = 0x1234560000.
Proof. apply (compact_target_roundtrip 0x123456789a). lia. Defined.

Lemma retarget_scales_the_target_witness :
  CompactToBig (CalcNextRequiredDifficulty (timed_header 22 1286 (BigToCompact (2 ^ 200)))
                  (timed_header 11 1000 0)) = truncate (2 ^ 200 * 286 / 143).
Proof.
  apply (retarget_scales_the_target (timed_header 22 1286 (BigToCompact (2 ^ 200))) (timed_header 11 1000 0));
    vm_compute; split; done.
Defined.

Lemma work_grows_as_the_target_shrinks_witness :
  CalcWork (BigToCompact (2 ^ 240)) <= CalcWork (BigToCompact (2 ^ 230)).
Proof.
  apply (work_grows_as_the_target_shrinks (BigToCompact (2 ^ 230)) (BigToCompact (2 ^ 240))).
  vm_compute. done.
Defined.
