(* ===== verification/BlockValidation.v ===== *)
(** * Block validation ([protocol/validation/block.go])

    [ValidateBlock] checks the header, validates the transactions one after
    the other on one account database, and compares the coinbase output and
    the three roots with what it computed.  The database is go-ethereum's
    StateDB: the operations used on it here are fields of [BlockDB].  The byte
    arrays of the machine are shared by all the transactions. *)

From S2P Require Import Prelude Checked GoSlice VmProgram VmMachine VmOps EvmTransition.
From S2P Require Import VmEvmOps VmRun Encoding Bc EntryHash Merkle StdPrograms TxMap TxValidation Difficulty.
#[local] Open Scope Z_scope.
#[local] Open Scope go_scope.

Abbreviation MaxBlockGas := 10000000.

Inductive block_error :=
| ErrHeader (e : header_error)
| ErrTx (e : val_error)
| errOverBlockLimit
| errMismatchedMerkleRoot.

(** [Snapshot] is the database itself; reverting may keep what is not part of
    the journal. *)
Class BlockDB `{E : VmEnv} := {
  db_Prepare : StateDB → Hash → Hash → Z → StateDB;
  db_RevertToSnapshot : StateDB → StateDB → StateDB;
  db_Finalise : StateDB → StateDB;
  db_GetLogs : StateDB → Hash → list TxLog;
  db_IntermediateRoot : StateDB → list Z * StateDB;
}.

Section block.
Context `{E : VmEnv} `{R : GoRange} {DB : BlockDB}.

(** The clock, what the chain tells the machine, the configuration, and the
    bounds on the depth of [checkValid] and on the rounds of the machine *)
Record BlockSubject := mkBlockSubject {
  bs_now : Z;
  bs_info : Z * Z * Z;
  bs_SupportBalanceInStateDB : bool;
  bs_fuel : nat;
  bs_rounds : nat;
}.

Record BlockState := mkBlockState {
  st_status : TransactionStatus;
  st_heap : heap;
  st_db : StateDB;
}.

Definition subject (bs : BlockSubject) (b : Block) (i : nat) (tx : Tx) : Subject :=
  mkSubject tx b (bool_decide (i = 0%nat)) (bs_info bs) (bs_SupportBalanceInStateDB bs) (bs_rounds bs).

Definition checkCoinbaseAmount (b : Block) (amount : Z) : outcome block_error unit :=
  match Transactions b with
  | [] => Err (ErrTx ErrWrongCoinbaseTransaction)
  | tx :: _ =>
      match ResultIds tx with
      | [] => Panic
      | id :: _ =>
          match tx_Output tx id with
          | Ok output =>
              match (s ← out_Source output; vs_Value s) with
              | None => Panic
              | Some v => if negb (aa_Amount v =? amount) then Err (ErrTx ErrWrongCoinbaseTransaction) else Ok tt
              end
          | Err e => Err (ErrTx (ErrEntry e))
          | Panic => Panic
          | Fuel => Fuel
          end
      end
  end.

(** [SetLogs] and [SetStatus], their errors ignored *)
Definition record_result (ts : TransactionStatus) (i : nat) (logs : list TxLog) (gasOnlyTx : bool)
    : TransactionStatus :=
  let ts := match SetLogs ts i logs with Ok ts' => ts' | _ => ts end in
  match SetStatus ts i gasOnlyTx with Ok ts' => ts' | _ => ts end.

(** The loop over the transactions.  [Ok (Some amount)] is its end, with the
    coinbase amount; [Ok None] is the return out of it with a nil error, for a
    transaction without an error whose gas is not valid. *)
Fixpoint validate_txs (bs : BlockSubject) (b : Block) (i : nat) (txs : list Tx) (coinbaseAmount blockGasSum : Z)
    (st : BlockState) : outcome block_error (option Z) * BlockState :=
  match txs with
  | [] => (Ok (Some coinbaseAmount), st)
  | tx :: rest =>
      let db := db_Prepare (st_db st) (tx_ID tx) (blk_ID b) (Z.of_nat i) in
      let '(err, vs) := ValidateTx (bs_fuel bs) (subject bs b i tx) (st_heap st) db in
      let st1 := mkBlockState (st_status st) (v_heap vs) (v_db vs) in
      match err with
      | Panic => (Panic, st1)
      | Fuel => (Fuel, st1)
      | Ok _ | Err _ =>
          let gasStatus := v_gas vs in
          if negb (GasValid gasStatus) then
            (match err with Err e => Err (ErrTx e) | _ => Ok None end, st1)
          else
            let gasOnlyTx := match err with Err _ => true | _ => false end in
            let db2 := if gasOnlyTx then db_RevertToSnapshot (v_db vs) (st_db st) else v_db vs in
            let db3 := db_Finalise db2 in
            let st2 := mkBlockState (record_result (st_status st) i (db_GetLogs db3 (tx_ID tx)) gasOnlyTx)
                         (v_heap vs) db3 in
            let coinbaseAmount := uint64 (coinbaseAmount + AssetValue gasStatus) in
            let blockGasSum := uint64 (blockGasSum + uint64 (GasUsed gasStatus)) in
            if MaxBlockGas <? blockGasSum then (Err errOverBlockLimit, st2)
            else validate_txs bs b (S i) rest coinbaseAmount blockGasSum st2
      end
  end.

Definition header_result (o : outcome header_error unit) : outcome block_error unit :=
  match o with
  | Ok u => Ok u
  | Err e => Err (ErrHeader e)
  | Panic => Panic
  | Fuel => Fuel
  end.

(** Computing a root never fails. *)
Definition root_result (o : outcome unit Hash) (expected : Hash) : outcome block_error unit :=
  match o with
  | Ok root => if bool_decide (root = expected) then Ok tt else Err errMismatchedMerkleRoot
  | Err _ => Panic
  | Panic => Panic
  | Fuel => Fuel
  end.

Definition check_roots (b : Block) (st : BlockState) : outcome block_error unit * BlockState :=
  let bh := blk_Header b in
  let '(root, db) := db_IntermediateRoot (st_db st) in
  match root_result (TxMerkleRoot sha3_Sum256 (Transactions b)) (bb_TransactionsRoot bh) with
  | Ok _ =>
      match root_result (TxStatusMerkleRoot sha3_Sum256 (VerifyStatus (st_status st)))
              (bb_TransactionStatusHash bh) with
      | Ok _ => (root_result (Ok (NewHash root)) (bb_StateRoot bh),
                 mkBlockState (st_status st) (st_heap st) db)
      | o => (o, st)
      end
  | o => (o, st)
  end.

(** The state carries the transaction status that the code stores in the
    block, and the database. *)
Definition ValidateBlock (bs : BlockSubject) (b : Block) (parent : BlockNode) (h : heap) (d : StateDB)
    : outcome block_error unit * BlockState :=
  let st0 := mkBlockState NewTransactionStatus h d in
  match header_result (ValidateBlockHeader sha3_Sum256 (bs_now bs) b parent) with
  | Ok _ =>
      match validate_txs bs b 0 (Transactions b) (BlockSubsidy (blk_Height b)) 0 st0 with
      | (Ok (Some coinbaseAmount), st) =>
          match checkCoinbaseAmount b coinbaseAmount with
          | Ok _ => check_roots b st
          | o => (o, st)
          end
      | (Ok None, st) => (Ok tt, st)
      | (Err e, st) => (Err e, st)
      | (Panic, st) => (Panic, st)
      | (Fuel, st) => (Fuel, st)
      end
  | o => (o, st0)
  end.
End block.
