(* ===== verification/BlockSpec.v ===== *)
(** * What block validation guarantees, and how it can be left early

    The reward of a block whose transactions all succeeded; a transaction that
    ends the validation of its block with success. *)

From S2P Require Import Prelude Checked GoSlice VmProgram VmMachine VmOps EvmTransition.
From S2P Require Import VmEvmOps VmRun Encoding Bc EntryHash Merkle StdPrograms TxMap TxMapSpec.
From S2P Require Import TxValidation TxConservation Difficulty BlockValidation.
#[local] Open Scope Z_scope.
#[local] Set Default Goal Selector "!".

Section spec.
Context `{E : VmEnv} `{R : GoRange} {ROk : GoRangeOk} {DB : BlockDB}.

(** ** The recorded results *)

Lemma record_result_next ts i logs b : length (VerifyStatus ts) = i →
  VerifyStatus (record_result ts i logs b) = VerifyStatus ts ++ [mkTxVerifyResult b logs].
Proof.
  intros Hi. unfold record_result.
  assert (SetLogs ts i logs = Ok (mkTransactionStatus (ts_Version ts) (VerifyStatus ts ++ [mkTxVerifyResult false logs]))) as ->.
  { unfold SetLogs, set_result. rewrite decide_False by lia. by rewrite decide_True. }
  unfold SetStatus, set_result. cbn [VerifyStatus]. rewrite length_app. cbn [length].
  rewrite decide_False by lia. rewrite decide_False by lia. cbn [VerifyStatus ts_Version].
  rewrite <- Hi, <- (Nat.add_0_r (length _)), alter_app_r. done.
Qed.

(** ** Rewards *)

Hypothesis Sum256_size : ∀ bs, length (sha3_Sum256 bs) = 32%nat ∧ Forall is_byte (sha3_Sum256 bs).

(** Two of the strings hashed for the entries of a transaction have the same hash. *)
Definition tx_collision (td : TxData) : Prop := EntryHash.collision sha3_Sum256 (tx_inputs sha3_Sum256 td).

(** What a transaction leaves over of its native inputs *)
Definition left_over (td : TxData) : Z :=
  total NativeAsset (input_values sha3_Sum256 td) - total NativeAsset (output_values td).
Fixpoint all_left_over (tds : list TxData) : Z :=
  match tds with [] => 0 | td :: rest => left_over td + all_left_over rest end.

(** The transactions of the block are those of [tds], each of version 1 or with
    a result. *)
Definition typed_tx (td : TxData) (tx : Tx) : Prop :=
  MapTx sha3_Sum256 td = Ok tx ∧ (td_Version td = 1 ∨ ResultIds tx ≠ []) ∧ typed_amounts td.

Lemma uint64_add_l a b : uint64 (uint64 a + b) = uint64 (a + b).
Proof. unfold uint64, wrapU. by rewrite Zplus_mod_idemp_l. Qed.

Lemma validate_txs_spec bs b txs : ∀ i c g st o st' tds,
  validate_txs bs b i txs c g st = (Ok o, st') → length (VerifyStatus (st_status st)) = i → is_uint64 c →
  Forall2 typed_tx tds txs →
  ∃ news, VerifyStatus (st_status st') = VerifyStatus (st_status st) ++ news
  ∧ match o with
    | None => (length news < length txs)%nat
    | Some c' => length news = length txs ∧
                 (Forall (λ r, StatusFail r = false) news → c' = uint64 (c + all_left_over tds) ∨ Exists tx_collision tds)
    end.
Proof.
  induction txs as [|tx txs IH]; intros i c g st o st' tds H Hi Hc Hty.
  { injection H as <- <-. exists []. rewrite app_nil_r. split_and!; [done..|]. intros _. left.
    apply Forall2_nil_inv_r in Hty as ->. cbn. rewrite Z.add_0_r, uint64_id; done. }
  apply Forall2_cons_inv_r in Hty as (td & tds' & (Hmap & Hver & Ham) & Htys & ->). subst i. cbn [validate_txs] in H.
  destruct (ValidateTx _ _ _ _) as [err vs] eqn:Hv. set (n := length (VerifyStatus (st_status st))) in *.
  assert (∀ ok st1 st2, (ok = true → err = Ok tt) →
     VerifyStatus (st_status st1) = VerifyStatus (st_status st) ++ [mkTxVerifyResult (negb ok) st2] →
     validate_txs bs b (S n) txs (uint64 (c + AssetValue (v_gas vs)))
       (uint64 (g + uint64 (GasUsed (v_gas vs)))) st1 = (Ok o, st') →
     ∃ news, VerifyStatus (st_status st') = VerifyStatus (st_status st) ++ news
     ∧ match o with
       | None => (length news < length (tx :: txs))%nat
       | Some c' => length news = length (tx :: txs) ∧
          (Forall (λ r, StatusFail r = false) news → c' = uint64 (c + all_left_over (td :: tds'))
                                                     ∨ Exists tx_collision (td :: tds'))
       end) as Hgo.
  { intros ok st1 logs Hok Hst1 Hrest.
    destruct (IH (S n) _ _ _ _ _ tds' Hrest) as (news & Hnews & Ho); [|apply uint64_range|done|].
    { rewrite Hst1, length_app. cbn. unfold n. lia. }
    exists (mkTxVerifyResult (negb ok) logs :: news). split; [by rewrite Hnews, Hst1, <- app_assoc|].
    destruct o as [c'|]; [|cbn; lia]. destruct Ho as [Hl Hsum]. split; [cbn; lia|].
    intros [Hf Hfs]%Forall_cons. destruct ok; [|done]. specialize (Hok eq_refl) as ->.
    destruct (ValidateTx_conserves Sum256_size td _ (subject bs b n tx) _ _ vs NativeAsset Hmap Hver Ham Hv)
      as [[Hcons _]|]; [|by right; left]. rewrite decide_True in Hcons by done.
    destruct (Hsum Hfs) as [->|]; [|by right; right]. left. rewrite uint64_add_l. f_equal.
    cbn [all_left_over]. unfold left_over. lia. }
  destruct err as [[]|e| |]; try done.
  - destruct (negb (GasValid (v_gas vs))).
    { injection H as <- <-. exists []. rewrite app_nil_r. split; [done|]. cbn. lia. }
    destruct (MaxBlockGas <? _); [done|].
    eapply (Hgo true _ (db_GetLogs (db_Finalise (v_db vs)) (tx_ID tx))); [done| |exact H].
    cbn [st_status negb]. by apply record_result_next.
  - destruct (negb (GasValid (v_gas vs))); [done|]. destruct (MaxBlockGas <? _); [done|].
    eapply (Hgo false _ (db_GetLogs (db_Finalise (db_RevertToSnapshot (v_db vs) (st_db st))) (tx_ID tx)));
      [done| |exact H].
    cbn [st_status negb]. by apply record_result_next.
Qed.

(** The amount of the first result of the first transaction *)
Definition coinbase_amount (b : Block) : option Z :=
  match Transactions b with
  | tx :: _ => id ← head (ResultIds tx);
               match tx_Output tx id with
               | Ok o => s ← out_Source o; v ← vs_Value s; Some (aa_Amount v)
               | _ => None
               end
  | [] => None
  end.

Lemma checkCoinbaseAmount_Ok b amount : checkCoinbaseAmount b amount = Ok tt → coinbase_amount b = Some amount.
Proof.
  unfold checkCoinbaseAmount, coinbase_amount. destruct (Transactions b) as [|tx txs]; [done|].
  destruct (ResultIds tx) as [|id ids]; [done|]. cbn. destruct (tx_Output tx id) as [o| | |]; try done.
  destruct (out_Source o) as [s|]; [|done]. cbn. destruct (vs_Value s) as [v|]; [|done]. cbn.
  destruct (Z.eqb_spec (aa_Amount v) amount) as [->|]; done.
Qed.

Lemma root_result_Ok o r : root_result o r = Ok tt → o = Ok r.
Proof. destruct o as [h| | |]; cbn; try done. case_bool_decide; [by subst|done]. Qed.

Lemma BlockSubsidy_range height : is_uint64 (BlockSubsidy height) ∨ height < 0.
Proof.
  destruct (Z.ltb_spec height 0); [by right|left]. unfold BlockSubsidy. destruct (height =? 0); [ranges; lia|].
  rewrite Z.shiftr_div_pow2 by (apply Z.quot_pos; ranges; lia).
  assert (0 < 2 ^ (Z.quot height MaxUint64)) by (apply Z.pow_pos_nonneg; [lia|apply Z.quot_pos; ranges; lia]).
  pose proof (Z.div_pos 750000000 (2 ^ Z.quot height MaxUint64)).
  assert (750000000 / 2 ^ Z.quot height MaxUint64 <= 750000000) by (apply Z.div_le_upper_bound; nia).
  ranges. lia.
Qed.

(** C37: a block that validates pays its miner exactly the subsidy and what its
    transactions leave over of their native inputs, as a uint64, and its header
    commits to the transactions and to the results, under three conditions:
    there is a recorded result for each of its transactions, none of them
    failed, and each has version 1 or a result.  (Or two of the strings hashed
    for the entries of one transaction collide.)  The conditions are needed: the
    validation of a block may end before its last transaction, a failed
    transaction may have listed an input twice, and the mux of a transaction of
    another version without results is not validated. *)
Theorem valid_blocks_pay_exact_rewards bs b parent h d st tds :
  ValidateBlock bs b parent h d = (Ok tt, st) → 0 <= blk_Height b →
  Forall2 typed_tx tds (Transactions b) →
  length (VerifyStatus (st_status st)) = length (Transactions b) →
  Forall (λ r, StatusFail r = false) (VerifyStatus (st_status st)) →
  (coinbase_amount b = Some (uint64 (BlockSubsidy (blk_Height b) + all_left_over tds))
   ∧ TxMerkleRoot sha3_Sum256 (Transactions b) = Ok (bb_TransactionsRoot (blk_Header b))
   ∧ TxStatusMerkleRoot sha3_Sum256 (VerifyStatus (st_status st)) = Ok (bb_TransactionStatusHash (blk_Header b)))
  ∨ Exists tx_collision tds.
Proof.
  intros Hv Hh Hty Hlen Hok. unfold ValidateBlock in Hv.
  destruct (header_result _) as [[]| | |]; try done.
  destruct (validate_txs _ _ _ _ _ _ _) as [[o| | |] st1] eqn:Htx; try done.
  destruct (validate_txs_spec _ _ _ _ _ _ _ _ _ tds Htx) as (news & Hn & Ho);
    [done|by destruct (BlockSubsidy_range (blk_Height b)); [|lia]|done|]. cbn in Hn. destruct o as [c|].
  - destruct (checkCoinbaseAmount b c) as [[]| | |] eqn:Hc; try done. apply checkCoinbaseAmount_Ok in Hc.
    unfold check_roots in Hv. destruct (db_IntermediateRoot _) as [root db].
    destruct (root_result (TxMerkleRoot _ _) _) as [[]| | |] eqn:H1; try done.
    destruct (root_result (TxStatusMerkleRoot _ _) _) as [[]| | |] eqn:H2; try done.
    apply root_result_Ok in H1, H2. injection Hv as _ <-. cbn [st_status] in *. rewrite Hn in Hok.
    destruct Ho as [_ Ho]. destruct (Ho Hok) as [->|]; [|by right]. left. by split_and!.
  - injection Hv as <-. rewrite Hn in Hlen. lia.
Qed.

(** ** A transaction that ends the validation of its block *)

(** Entries that are not inputs leave the slices of [MapTx] empty. *)
Lemma collect_others n es inputs : Forall (λ p : Hash * Entry, ordinal p.2 = None) es →
  collect n es inputs ∅ [] = Ok (inputs, ∅, []).
Proof.
  induction 1 as [|[id e] es He _ IH]; [done|]. cbn [collect]. cbn in He.
  destruct e; try done; cbn [gas_input ordinal]; apply IH.
Qed.

Definition empty_mux : Mux := mkMux [] (mkProgram 1 [OP_TRUE]) [].
Definition empty_mux_id : Hash :=
  NewHash (sha3_Sum256 (entry_preimage sha3_Sum256 (EMux empty_mux) (writeForHash (EMux empty_mux)).2)).
Definition empty_header (size : Z) (data : list Z) : TxHeader :=
  mkTxHeader 1 size 0 [] empty_mux_id (NewHash (sha3_Sum256 data)).
Definition empty_id (size : Z) (data : list Z) : Hash :=
  let e := ETxHeader (empty_header size data) in
  NewHash (sha3_Sum256 (entry_preimage sha3_Sum256 e (writeForHash e).2)).

(** The transaction without inputs and outputs *)
Definition empty_td (size : Z) (data : list Z) : TxData := mkTxData 1 size 0 [] [] data.
Definition empty_tx (size : Z) (data : list Z) : Tx :=
  mkTx (empty_header size data) (empty_id size data)
    {[ empty_id size data := ETxHeader (empty_header size data); empty_mux_id := EMux empty_mux ]} [] [] [].

Lemma mapTx_empty size data : mapTx sha3_Sum256 (empty_td size data) empty_map_state
  = Ok (empty_id size data, empty_header size data,
        mkMapState [EMux empty_mux; ETxHeader (empty_header size data)]
          (<[empty_id size data := 1%nat]> (<[empty_mux_id := 0%nat]> ∅)) [] [] None [] [] [] []).
Proof. reflexivity. Qed.

Lemma empty_ids_differ size data : empty_id size data ≠ empty_mux_id ∨ tx_collision (empty_td size data).
Proof.
  destruct (decide (empty_id size data = empty_mux_id)) as [Heq|]; [right|by left].
  destruct (EntryID_typ sha3_Sum256 Sum256_size (ETxHeader (empty_header size data)) (EMux empty_mux) empty_mux_id)
    as [Ht|Hc]; [rewrite <- Heq; reflexivity|reflexivity|done|].
  eapply collision_mono, Hc. unfold tx_inputs. rewrite mapTx_empty. cbn [ms_store].
  apply list_subseteq_app_iff_l. split; apply store_inputs_elem; set_solver.
Qed.

Lemma MapTx_empty size data : MapTx sha3_Sum256 (empty_td size data) = Ok (empty_tx size data)
  ∨ tx_collision (empty_td size data).
Proof.
  destruct (empty_ids_differ size data) as [Hne|]; [left|by right]. unfold MapTx.
  rewrite mapTx_empty.
  cbn [ms_store ms_entryMap td_Inputs empty_td length].
  assert (omap (λ p, [EMux empty_mux; ETxHeader (empty_header size data)] !! p)
            (<[empty_id size data := 1%nat]> (<[empty_mux_id := 0%nat]> (∅ : gmap Hash nat)))
          = Entries (empty_tx size data)) as ->.
  { rewrite !omap_insert, omap_empty. cbn [lookup list_lookup]. done. }
  rewrite collect_others.
  - unfold empty_tx. f_equal. f_equal.
    pose proof (go_range_perm _ (∅ : gmap Hash bool)) as Hp. rewrite map_to_list_empty in Hp.
    by apply Permutation_nil_r in Hp as ->.
  - rewrite (go_range_perm _ (Entries (empty_tx size data))). apply Forall_forall. intros [id e] Hin.
    apply elem_of_map_to_list in Hin. cbn [Entries empty_tx] in Hin.
    apply lookup_insert_Some in Hin as [[_ <-]|[_ [_ <-]%lookup_singleton_Some]]; done.
Qed.

Lemma settle_empty size s : settle size (go_range (∅ : gmap AssetId Z)) s = (Ok tt, s).
Proof.
  pose proof (go_range_perm _ (∅ : gmap Hash Z)) as Hp. rewrite map_to_list_empty in Hp.
  by apply Permutation_nil_r in Hp as ->.
Qed.

Lemma cached_miss e id body s s' : EntryHash.EntryID (X:=val_error) sha3_Sum256 (Some e) = Ok id → v_cache s !! id = None →
  body s = (Ok tt, s') → cached (Some e) body s = (Ok tt, remember_result id None s').
Proof. intros Hid Hc Hb. unfold cached, vbind, vlift, vgets. by rewrite Hid, Hc, Hb. Qed.

(** Its validation succeeds and leaves the gas status untouched. *)
Lemma ValidateTx_empty fuel sj size data h d : sj_tx sj = empty_tx size data → size ≠ 0 → (2 <= fuel)%nat →
  (∃ s, ValidateTx fuel sj h d = (Ok tt, s) ∧ GasValid (v_gas s) = false) ∨ tx_collision (empty_td size data).
Proof.
  intros Htx Hsize Hf. destruct (empty_ids_differ size data) as [Hne|]; [left|by right].
  destruct fuel as [|[|fuel]]; [lia..|].
  assert (checkValid (S fuel) sj empty_mux_id (Entries (empty_tx size data) !! empty_mux_id) (initial_state h d)
    = (Ok tt, remember_result empty_mux_id None (initial_state h d))) as Hmux.
  { replace (Entries (empty_tx size data) !! empty_mux_id) with (Some (EMux empty_mux)).
    - cbn [checkValid]. apply cached_miss; [reflexivity|apply lookup_empty|].
      cbn [check_entry]. unfold check_mux, vbind, vlift. rewrite Htx.
      cbn [empty_mux mux_Sources mux_WitnessDestinations add_sources sub_destinations].
      rewrite settle_empty. cbn [GasInputIDs empty_tx]. reflexivity.
    - cbn [Entries empty_tx]. rewrite lookup_insert_ne by done. by rewrite lookup_singleton_eq. }
  exists (remember_result (empty_id size data) None (remember_result empty_mux_id None (initial_state h d))).
  split; [|done]. unfold ValidateTx. rewrite Htx.
  cbn [tx_Header empty_tx h_Version empty_header h_SerializedSize tx_ID].
  rewrite (proj2 (Z.eqb_neq size 0) Hsize), andb_false_r.
  unfold vbind, vlift, checkTimeRange, checkStandardTx.
  cbn [tx_Header h_TimeRange Z.eqb GasInputIDs check_standard_inputs ResultIds h_ResultIds check_standard_results].
  change (checkValid (S (S fuel)) sj) with
    (λ id e, cached e (check_entry sj (checkValid (S fuel) sj) id e)). cbv beta.
  apply cached_miss; [reflexivity|apply lookup_empty|].
  cbn [check_entry]. unfold check_header, vbind. rewrite Htx. exact Hmux.
Qed.

(** C38: one transaction without inputs and outputs ends the validation of its
    block with success.  [ValidateTx] accepts it, but no gas has been paid, so
    [ValidateBlock] returns the nil error of the transaction.  A block with a
    valid header that starts with such a transaction is accepted whatever the
    other transactions, the coinbase amount and the three roots are.  (Or two
    of the strings hashed for the entries of the transaction collide.) *)
Theorem empty_transaction_ends_block_validation bs b parent h d size data rest :
  ValidateBlockHeader sha3_Sum256 (bs_now bs) b parent = Ok tt →
  Transactions b = empty_tx size data :: rest → size ≠ 0 → (2 <= bs_fuel bs)%nat →
  (MapTx sha3_Sum256 (empty_td size data) = Ok (empty_tx size data)
   ∧ ∃ st, ValidateBlock bs b parent h d = (Ok tt, st) ∧ VerifyStatus (st_status st) = [])
  ∨ tx_collision (empty_td size data).
Proof.
  intros Hh Htx Hsize Hf. destruct (MapTx_empty size data) as [Hmap|]; [|by right]. unfold ValidateBlock.
  rewrite Hh, Htx. cbn [header_result validate_txs st_heap st_db].
  destruct (ValidateTx_empty (bs_fuel bs) (subject bs b 0 (empty_tx size data)) size data h
              (db_Prepare d (tx_ID (empty_tx size data)) (blk_ID b) 0) eq_refl Hsize Hf) as [(s & Hv & Hg)|]; [|by right].
  change (Z.of_nat 0) with 0. rewrite Hv, Hg. left. split; [done|]. by eexists.
Qed.
End spec.
