(* ===== verification/BlockExamples.v ===== *)
(** * Concrete blocks

    A block with a payment, for the witnesses; and a block whose second
    transaction spends the same output twice, which creates money. *)

From S2P Require Import Prelude Checked GoSlice VmProgram VmMachine VmOps EvmTransition.
From S2P Require Import VmEvmOps VmRun Encoding Bc EntryHash Merkle StdPrograms TxMap TxMapSpec.
From S2P Require Import TxValidation TxConservation UtxoView Difficulty BlockValidation BlockSpec.
#[local] Open Scope Z_scope.

#[local] Existing Instance ledger_env.
#[local] Existing Instance toy_range.
#[local] Existing Instance toy_range_ok.

#[local] Instance ledger_db : BlockDB := {|
  db_Prepare := λ d _ _ _, d;
  db_RevertToSnapshot := λ _ d, d;
  db_Finalise := λ d, d;
  db_GetLogs := λ _ _, [];
  db_IntermediateRoot := λ d, (replicate 32 0, d);
|}.

Definition zero : Hash := mkHash 0 0 0 0.

(** A parent whose target every hash meets *)
Definition easy_parent : BlockNode :=
  mkNode None zero InitialSeed 0 1 0 1000 0 (BigToCompact (2 ^ 256)) (mkCommitment zero zero zero).

Definition coinbase_td (amount : Z) : TxData :=
  mkTxData 1 100 0 [mkTxInput 1 (Some (CoinbaseInput [])) [] []] [toy_txout amount] [].

Definition mapped_tx (td : TxData) : Tx := sj_tx (toy_subject td).

Definition root_of (o : outcome unit Hash) : Hash := match o with Ok h => h | _ => zero end.

(** The block at height 1 with these transactions and these results *)
Definition toy_block (tds : list TxData) (fails : list bool) : Block :=
  let txs := mapped_tx <$> tds in
  mkBlock (mkBcHeader 1 1 zero 1013 (root_of (TxMerkleRoot toy_sum txs))
             (root_of (TxStatusMerkleRoot toy_sum ((λ b, mkTxVerifyResult b []) <$> fails)))
             (NewHash (replicate 32 0)) 0 (BigToCompact (2 ^ 256)) None) zero txs.

Definition toy_bs : BlockSubject := mkBlockSubject 1013 (0, 0, 0) false 6 1000.

#[local] Abbreviation check_block b := (ValidateBlock (E := ledger_env) toy_bs b easy_parent [[1]] tt).

Definition paying_block : Block := toy_block [coinbase_td 753000000; toy_payment] [false; false].
Definition double_td : TxData :=
  mkTxData 1 100 0 [toy_spend 10000000; toy_spend 10000000] [toy_txout 6000000; toy_txout 1000000] [].
Definition doubling_block : Block := toy_block [coinbase_td 763000000; double_td] [false; true].

Lemma first_ok {A B} (p : outcome B unit * A) : p.1 = Ok tt → p = (Ok tt, p.2).
Proof. destruct p. by intros [= ->]. Qed.

Lemma paying_block_valid :
  ValidateBlock toy_bs paying_block easy_parent [[1]] tt = (Ok tt, (check_block paying_block).2).
Proof. apply (first_ok (check_block paying_block)). vm_compute. reflexivity. Qed.

Lemma typed_mapped td : MapTx sha3_Sum256 td = Ok (mapped_tx td) → td_Version td = 1 → typed_amounts td →
  typed_tx td (mapped_tx td).
Proof. intros. split_and!; by auto. Qed.

Lemma coinbase_mapped : MapTx sha3_Sum256 (coinbase_td 753000000) = Ok (mapped_tx (coinbase_td 753000000)).
Proof. vm_compute. reflexivity. Qed.

Lemma coinbase_typed : typed_amounts (coinbase_td 753000000).
Proof. split; repeat constructor; vm_compute; congruence. Qed.

Lemma paying_block_typed :
  Forall2 typed_tx [coinbase_td 753000000; toy_payment] (mapped_tx <$> [coinbase_td 753000000; toy_payment]).
Proof.
  rewrite !fmap_cons. constructor; [|constructor; [|constructor]].
  - exact (typed_mapped _ coinbase_mapped eq_refl coinbase_typed).
  - exact (typed_mapped _ toy_payment_mapped eq_refl toy_payment_typed).
Qed.

Lemma paying_block_status : VerifyStatus (st_status (check_block paying_block).2)
  = [mkTxVerifyResult false []; mkTxVerifyResult false []].
Proof. vm_compute. reflexivity. Qed.

Lemma valid_blocks_pay_exact_rewards_witness :
  (coinbase_amount paying_block
     = Some (uint64 (BlockSubsidy (blk_Height paying_block)
                     + all_left_over [coinbase_td 753000000; toy_payment]))
   ∧ TxMerkleRoot sha3_Sum256 (Transactions paying_block) = Ok (bb_TransactionsRoot (blk_Header paying_block))
   ∧ TxStatusMerkleRoot sha3_Sum256 (VerifyStatus (st_status (check_block paying_block).2))
     = Ok (bb_TransactionStatusHash (blk_Header paying_block)))
  ∨ Exists tx_collision [coinbase_td 753000000; toy_payment].
Proof.
  apply (valid_blocks_pay_exact_rewards (E := ledger_env) toy_sum_size toy_bs paying_block easy_parent [[1]] tt).
  - exact paying_block_valid.
  - vm_compute. congruence.
  - exact paying_block_typed.
  - rewrite paying_block_status. reflexivity.
  - rewrite paying_block_status. repeat constructor.
Defined.

(** The empty transaction first, a coinbase of any amount second, and roots
    that nothing matches *)
Definition careless_block : Block :=
  mkBlock (mkBcHeader 1 1 zero 1013 zero zero zero 0 (BigToCompact (2 ^ 256)) None) zero
    [empty_tx 100 []; mapped_tx (coinbase_td 1000000000000)].

Lemma empty_transaction_ends_block_validation_witness :
  (MapTx sha3_Sum256 (empty_td 100 []) = Ok (empty_tx 100 [])
   ∧ ∃ st, ValidateBlock toy_bs careless_block easy_parent [[1]] tt = (Ok tt, st) ∧ VerifyStatus (st_status st) = [])
  ∨ tx_collision (empty_td 100 []).
Proof.
  eapply (empty_transaction_ends_block_validation (E := ledger_env) toy_sum_size toy_bs careless_block easy_parent [[1]] tt).
  - vm_compute. reflexivity.
  - reflexivity.
  - congruence.
  - cbn. lia.
Defined.

(** ** Money from a duplicated input *)

(** The native amounts of the outputs that occur in these transactions and can
    be spent *)
Definition native_amount (e : Entry) : Z :=
  match e with
  | EOutput o =>
      match (s ← out_Source o; vs_Value s) with
      | Some v => if bool_decide (aa_AssetId v = Some NativeAsset) then aa_Amount v else 0
      | None => 0
      end
  | _ => 0
  end.
Definition unspent_value (view : UtxoViewpoint) (txs : list Tx) : Z :=
  foldr (λ p acc, (if CanSpend view p.1 then native_amount p.2 else 0) + acc) 0
    (map_to_list (foldr (λ tx m, Entries tx ∪ m) ∅ txs)).

(** The output that is spent, at height 0 and mature *)
Definition view_before : UtxoViewpoint :=
  list_to_map ((λ id, (id, NewUtxoEntry false 0 false)) <$> SpentOutputIDs (mapped_tx double_td)).
Definition view_after (b : Block) : UtxoViewpoint :=
  (ApplyBlock b (st_status (check_block b).2) view_before).2.

(** A block can create money.  A transaction that lists one input twice
    fails, but only after its gas has been found valid; the block is accepted
    with the transaction marked as failed, and its fee was computed from both
    copies of the input.  Here the block is valid and applies to the unspent
    outputs; 10000000 native units were unspent before, and 770000000 are
    unspent after it: 10000000 more than the subsidy of 750000000 adds. *)
Theorem duplicated_input_creates_money :
  (check_block doubling_block).1 = Ok tt
  ∧ VerifyStatus (st_status (check_block doubling_block).2)
    = [mkTxVerifyResult false []; mkTxVerifyResult true []]
  ∧ (ApplyBlock doubling_block (st_status (check_block doubling_block).2) view_before).1 = Ok tt
  ∧ unspent_value view_before (Transactions doubling_block) = 10000000
  ∧ unspent_value (view_after doubling_block) (Transactions doubling_block) = 770000000
  ∧ BlockSubsidy (blk_Height doubling_block) = 750000000.
Proof. vm_compute. done. Qed.
