(* ===== verification/TxPool.v ===== *)
(** * The transaction pool ([protocol/txpool.go])

    The pool keeps unconfirmed transactions, the outputs they create, and the
    transactions whose inputs are not known yet.  Each operation holds the
    pool's lock, so it is one step on the state.  The messages sent on the
    channel are logged in order.  The cache of failed transactions, which no
    other operation of the pool reads, is a state of its own. *)

From S2P Require Import Prelude Encoding Bc EntryHash TxMap Wire UtxoView.
From stdpp Require Import gmap.
#[local] Open Scope Z_scope.

Abbreviation maxNewTxNum := 10000.
Abbreviation maxOrphanNum := 2000.
(** Nanoseconds *)
Abbreviation orphanTTL := (10 * 60 * 1000000000).

Record TxDesc := mkTxDesc {
  ds_Tx : TypesTx;
  ds_Added : Z;
  ds_StatusFail : bool;
  ds_Height : Z;
  ds_Weight : Z;
  ds_Fee : Z;
}.
Record orphanTx := mkOrphanTx { ot_TxDesc : TxDesc; ot_expiration : Z }.
Inductive TxPoolMsg := MsgNewTx (d : TxDesc) | MsgRemoveTx (d : TxDesc).

Record TxPool := mkTxPool {
  tp_lastUpdated : Z;
  tp_pool : gmap Hash TxDesc;
  tp_utxo : gmap Hash TypesTx;
  tp_orphans : gmap Hash orphanTx;
  tp_orphansByPrev : gmap Hash (gmap Hash orphanTx);
  tp_msgs : list TxPoolMsg;
}.
Definition NewTxPool (now : Z) : TxPool := mkTxPool now ∅ ∅ ∅ ∅ [].

Inductive pool_error := ErrTransactionNotExist | ErrPoolIsFull.

Definition tt_ID (t : TypesTx) : Hash := tx_ID (tt_Tx t).
Definition tt_ResultIds (t : TypesTx) : list Hash := ResultIds (tt_Tx t).

Definition set_orphans (o : gmap Hash orphanTx) (p : gmap Hash (gmap Hash orphanTx)) (tp : TxPool) : TxPool :=
  mkTxPool (tp_lastUpdated tp) (tp_pool tp) (tp_utxo tp) o p (tp_msgs tp).

(** ** Reading *)

Definition GetTransaction (txHash : Hash) (tp : TxPool) : outcome pool_error TxDesc :=
  match tp_pool tp !! txHash with Some d => Ok d | None => Err ErrTransactionNotExist end.
Definition IsTransactionInPool (txHash : Hash) (tp : TxPool) : bool := bool_decide (is_Some (tp_pool tp !! txHash)).

(** ** The cache of failed transactions

    Its keys are the pointers [*bc.Hash] that the callers pass, compared as
    pointers: a key is an address, and the hash stored there plays no part. *)

Record HashPtr := mkHashPtr { hp_addr : Z; hp_hash : Hash }.

Section errCache.
Context {error : Type}.

Abbreviation maxCachedErrTxs := 1000%nat.
Definition ErrCache : Type := lru Z error.

Definition AddErrCache (txHash : HashPtr) (err : error) (c : ErrCache) : ErrCache :=
  lru_Add maxCachedErrTxs (hp_addr txHash) err c.
Definition GetErrCache (txHash : HashPtr) (c : ErrCache) : option error * ErrCache := lru_Get (hp_addr txHash) c.
Definition IsTransactionInErrCache (txHash : HashPtr) (c : ErrCache) : bool * ErrCache :=
  let '(v, c) := lru_Get (hp_addr txHash) c in (bool_decide (is_Some v), c).

Definition HaveTransaction (txHash : HashPtr) (tp : TxPool) (c : ErrCache) : bool * ErrCache :=
  if IsTransactionInPool (hp_hash txHash) tp then (true, c) else IsTransactionInErrCache txHash c.
End errCache.
Arguments ErrCache : clear implicits.

Section pool.
Context `{R : GoRange}.

Definition GetTransactions (tp : TxPool) : list TxDesc := snd <$> go_range (tp_pool tp).

(** ** Removing *)

Definition RemoveTransaction (now : Z) (txHash : Hash) (tp : TxPool) : TxPool :=
  match tp_pool tp !! txHash with
  | None => tp
  | Some txD =>
      mkTxPool now (delete txHash (tp_pool tp))
        (foldl (λ m id, delete id m) (tp_utxo tp) (tt_ResultIds (ds_Tx txD)))
        (tp_orphans tp) (tp_orphansByPrev tp) (tp_msgs tp ++ [MsgRemoveTx txD])
  end.

(** The loop of [removeOrphan] *)
Definition forget_spend (txHash : Hash) (byPrev : gmap Hash (gmap Hash orphanTx)) (spend : Hash)
    : gmap Hash (gmap Hash orphanTx) :=
  match byPrev !! spend with
  | None => byPrev
  | Some orphans =>
      let orphans := delete txHash orphans in
      if bool_decide (size orphans = 0%nat) then delete spend byPrev else <[spend := orphans]> byPrev
  end.

Definition removeOrphan (txHash : Hash) (tp : TxPool) : TxPool :=
  match tp_orphans tp !! txHash with
  | None => tp
  | Some orphan =>
      set_orphans (delete txHash (tp_orphans tp))
        (foldl (forget_spend txHash) (tp_orphansByPrev tp) (SpentOutputIDs (tt_Tx (ds_Tx (ot_TxDesc orphan))))) tp
  end.

Definition ExpireOrphan (now : Z) (tp : TxPool) : TxPool :=
  foldl (λ tp p, if ot_expiration p.2 <? now then removeOrphan p.1 tp else tp) tp (go_range (tp_orphans tp)).

(** ** Adding *)

(** The pointers collected are all to the loop variable, which after the loop
    holds the last of the spent outputs. *)
Definition checkOrphanUtxos (db : gmap Hash UtxoEntry) (tx : TypesTx) (tp : TxPool) : list Hash :=
  let view := getTransactionsUtxo db ∅ [tt_Tx tx] in
  let ids := SpentOutputIDs (tt_Tx tx) in
  let missing := filter (λ id, CanSpend view id = false ∧ tp_utxo tp !! id = None) ids in
  match last ids with
  | None => []
  | Some hash => replicate (length missing) hash
  end.

Definition addOrphan (now : Z) (txD : TxDesc) (requireParents : list Hash) (tp : TxPool)
    : outcome pool_error unit * TxPool :=
  if maxOrphanNum <=? Z.of_nat (size (tp_orphans tp)) then (Err ErrPoolIsFull, tp)
  else
    let orphan := mkOrphanTx txD (now + orphanTTL) in
    let id := tt_ID (ds_Tx txD) in
    (Ok tt, set_orphans (<[id := orphan]> (tp_orphans tp))
              (foldl (λ m hash, <[hash := <[id := orphan]> (default ∅ (m !! hash))]> m) (tp_orphansByPrev tp)
                 requireParents) tp).

(** The new outputs; reading the asset of an output without one panics *)
Fixpoint add_outputs (statusFail : bool) (tx : TypesTx) (ids : list Hash) (utxo : gmap Hash TypesTx)
    : outcome pool_error unit * gmap Hash TypesTx :=
  match ids with
  | [] => (Ok tt, utxo)
  | id :: rest =>
      match tx_Output (tt_Tx tx) id with
      | Ok output =>
          if nil_asset statusFail output then (Panic, utxo)
          else add_outputs statusFail tx rest (if skipped statusFail output then utxo else <[id := tx]> utxo)
      | _ => add_outputs statusFail tx rest utxo
      end
  end.

Definition addTransaction (now : Z) (txD : TxDesc) (tp : TxPool) : outcome pool_error unit * TxPool :=
  if maxNewTxNum <=? Z.of_nat (size (tp_pool tp)) then (Err ErrPoolIsFull, tp)
  else
    let tx := ds_Tx txD in
    let txD := mkTxDesc tx now (ds_StatusFail txD) (ds_Height txD) (ds_Weight txD) (ds_Fee txD) in
    let pool := <[tt_ID tx := txD]> (tp_pool tp) in
    match add_outputs (ds_StatusFail txD) tx (tt_ResultIds tx) (tp_utxo tp) with
    | (Ok _, utxo) => (Ok tt, mkTxPool now pool utxo (tp_orphans tp) (tp_orphansByPrev tp)
                                (tp_msgs tp ++ [MsgNewTx txD]))
    | (o, utxo) => (o, mkTxPool (tp_lastUpdated tp) pool utxo (tp_orphans tp) (tp_orphansByPrev tp) (tp_msgs tp))
    end.

(** [addRely] of [processOrphans]: the orphans that wait for these outputs *)
Fixpoint addRely (ids : list Hash) (byPrev : gmap Hash (gmap Hash orphanTx)) (queue : list orphanTx)
    : gmap Hash (gmap Hash orphanTx) * list orphanTx :=
  match ids with
  | [] => (byPrev, queue)
  | id :: rest =>
      match byPrev !! id with
      | None => addRely rest byPrev queue
      | Some orphans => addRely rest (delete id byPrev) (queue ++ (snd <$> go_range orphans))
      end
  end.

Definition rely (tx : TypesTx) (queue : list orphanTx) (tp : TxPool) : TxPool * list orphanTx :=
  let '(byPrev, queue) := addRely (tt_ResultIds tx) (tp_orphansByPrev tp) queue in
  (set_orphans (tp_orphans tp) byPrev tp, queue).

(** The loop over the queue; an error of [addTransaction] is ignored. *)
Fixpoint process_queue (fuel : nat) (now : Z) (db : gmap Hash UtxoEntry) (queue : list orphanTx) (tp : TxPool)
    : outcome pool_error unit * TxPool :=
  match queue with
  | [] => (Ok tt, tp)
  | orphan :: rest =>
      match fuel with
      | O => (Fuel, tp)
      | S fuel =>
          let tx := ds_Tx (ot_TxDesc orphan) in
          match checkOrphanUtxos db tx tp with
          | _ :: _ => process_queue fuel now db rest tp
          | [] =>
              let '(tp1, rest) := rely tx rest tp in
              match addTransaction now (ot_TxDesc orphan) (removeOrphan (tt_ID tx) tp1) with
              | (Panic, tp2) => (Panic, tp2)
              | (_, tp2) => process_queue fuel now db rest tp2
              end
          end
      end
  end.

(** The orphans waiting in the index bound the iterations. *)
Definition waiting (tp : TxPool) : nat := map_fold (λ _ m n, size m + n)%nat 0%nat (tp_orphansByPrev tp).

Definition processOrphans (now : Z) (db : gmap Hash UtxoEntry) (txD : TxDesc) (tp : TxPool)
    : outcome pool_error unit * TxPool :=
  let '(tp1, queue) := rely (ds_Tx txD) [] tp in
  process_queue (S (waiting tp)) now db queue tp1.

Definition ProcessTransaction (now : Z) (db : gmap Hash UtxoEntry) (tx : TypesTx) (statusFail : bool)
    (height fee : Z) (tp : TxPool) : outcome pool_error bool * TxPool :=
  let txD := mkTxDesc tx 0 statusFail height (td_SerializedSize (tt_TxData tx)) fee in
  match checkOrphanUtxos db tx tp with
  | (_ :: _) as requireParents =>
      match addOrphan now txD requireParents tp with
      | (Ok _, tp1) => (Ok true, tp1)
      | (Err e, tp1) => (Err e, tp1)
      | (Panic, tp1) => (Panic, tp1)
      | (Fuel, tp1) => (Fuel, tp1)
      end
  | [] =>
      match addTransaction now txD tp with
      | (Ok _, tp1) =>
          match processOrphans now db txD tp1 with
          | (Ok _, tp2) => (Ok false, tp2)
          | (Err e, tp2) => (Err e, tp2)
          | (Panic, tp2) => (Panic, tp2)
          | (Fuel, tp2) => (Fuel, tp2)
          end
      | (Err e, tp1) => (Err e, tp1)
      | (Panic, tp1) => (Panic, tp1)
      | (Fuel, tp1) => (Fuel, tp1)
      end
  end.
End pool.
