(* ===== verification/TxPoolSpec.v ===== *)
(** * The pool stays well formed, and its loop over orphans ends *)

From S2P Require Import Prelude Encoding Bc EntryHash TxMap Wire UtxoView TxPool.
From stdpp Require Import gmap.
#[local] Open Scope Z_scope.
#[local] Set Default Goal Selector "!".
#[local] Set Warnings "-clear-no-such-hyp".

(** ** The index of waiting orphans *)

Definition index_size (m : gmap Hash (gmap Hash orphanTx)) : nat := map_fold (λ _ x n, size x + n)%nat 0%nat m.

Lemma index_size_insert m id x : m !! id = None → index_size (<[id := x]> m) = (size x + index_size m)%nat.
Proof. intros Hm. unfold index_size. rewrite map_fold_insert_L; [done| |done]. intros. lia. Qed.

Lemma index_size_delete m id x : m !! id = Some x → index_size m = (size x + index_size (delete id m))%nat.
Proof.
  intros Hm. rewrite <- (insert_delete_id m id x Hm) at 1. apply index_size_insert, lookup_delete_eq.
Qed.

Lemma forget_spend_size h m spend : (index_size (forget_spend h m spend) <= index_size m)%nat.
Proof.
  unfold forget_spend. destruct (m !! spend) as [x|] eqn:Hm; [|done]. rewrite (index_size_delete m spend x Hm).
  case_bool_decide; [lia|]. rewrite <- (insert_delete_eq m spend), index_size_insert by apply lookup_delete_eq.
  pose proof (map_size_delete h x) as Hs. destruct (x !! h); cbn in Hs; lia.
Qed.

Lemma forget_spends_size h ids : ∀ m, (index_size (foldl (forget_spend h) m ids) <= index_size m)%nat.
Proof.
  induction ids as [|id ids IH]; intros m; [done|]. cbn [foldl].
  etransitivity; [apply IH|apply forget_spend_size].
Qed.

Lemma removeOrphan_size h tp : (index_size (tp_orphansByPrev (removeOrphan h tp)) <= index_size (tp_orphansByPrev tp))%nat.
Proof. unfold removeOrphan. destruct (_ !! _); [|done]. apply forget_spends_size. Qed.

Section spec.
Context `{R : GoRange} {ROk : GoRangeOk}.

(** The iteration over a map visits all its entries. *)
Lemma go_range_length {V} (m : gmap Hash V) : length (go_range m) = size m.
Proof. rewrite (go_range_perm _ m). apply length_map_to_list. Qed.

Lemma addRely_size ids : ∀ m q, let '(m', q') := addRely ids m q in
  (length q' + index_size m' = length q + index_size m)%nat.
Proof.
  induction ids as [|id ids IH]; intros m q; [done|]. cbn [addRely].
  destruct (m !! id) as [x|] eqn:Hm; [|apply IH]. pose proof (IH (delete id m) (q ++ (snd <$> go_range x))) as Hr.
  destruct (addRely _ _ _) as [m' q']. rewrite Hr, length_app, length_fmap, go_range_length.
  rewrite (index_size_delete m id x Hm). lia.
Qed.

Lemma addTransaction_index now d tp : tp_orphansByPrev (addTransaction now d tp).2 = tp_orphansByPrev tp.
Proof.
  unfold addTransaction. destruct (_ <=? _); [done|]. by destruct (add_outputs _ _ _ _) as [[[]| | |] u].
Qed.

(** The fuel of the loop is enough. *)
Lemma process_queue_ends fuel : ∀ now db q tp,
  (length q + index_size (tp_orphansByPrev tp) <= fuel)%nat → (process_queue fuel now db q tp).1 ≠ Fuel.
Proof.
  induction fuel as [|fuel IH]; intros now db [|o q] tp Hf; cbn [process_queue]; try done; [cbn in Hf; lia|].
  cbn [length] in Hf. destruct (checkOrphanUtxos _ _ _) as [|h hs]; [|apply IH; lia].
  unfold rely. pose proof (addRely_size (tt_ResultIds (ds_Tx (ot_TxDesc o))) (tp_orphansByPrev tp) q) as Hr.
  destruct (addRely _ _ _) as [m' q']. set (tp1 := set_orphans _ _ _).
  pose proof (addTransaction_index now (ot_TxDesc o) (removeOrphan (tt_ID (ds_Tx (ot_TxDesc o))) tp1)) as Ha.
  pose proof (removeOrphan_size (tt_ID (ds_Tx (ot_TxDesc o))) tp1) as Hs.
  destruct (addTransaction _ _ _) as [[[]| | |] tp2]; cbn [snd] in Ha; try done; apply IH; rewrite Ha;
    cbn [tp1 set_orphans tp_orphansByPrev] in Hs; lia.
Qed.

Lemma processOrphans_ends now db d tp : (processOrphans now db d tp).1 ≠ Fuel.
Proof.
  unfold processOrphans, rely. pose proof (addRely_size (tt_ResultIds (ds_Tx d)) (tp_orphansByPrev tp) []) as Hr.
  destruct (addRely _ _ _) as [m' q']. apply process_queue_ends. cbn [set_orphans tp_orphansByPrev length] in *.
  unfold waiting. change (map_fold _ _ _) with (index_size (tp_orphansByPrev tp)). lia.
Qed.

(** ** Well-formedness *)

(** The identifier of a transaction determines its results. *)
Context (results : Hash → list Hash).
Definition tx_ok (t : TypesTx) : Prop := tt_ResultIds t = results (tt_ID t).

Record pool_ok (tp : TxPool) : Prop := {
  po_size : Z.of_nat (size (tp_pool tp)) <= maxNewTxNum;
  po_orphans_size : Z.of_nat (size (tp_orphans tp)) <= maxOrphanNum;
  po_pool : map_Forall (λ h d, tt_ID (ds_Tx d) = h ∧ tx_ok (ds_Tx d)) (tp_pool tp);
  po_orphans : map_Forall (λ h o, tt_ID (ds_Tx (ot_TxDesc o)) = h ∧ tx_ok (ds_Tx (ot_TxDesc o))) (tp_orphans tp);
  po_waiting : map_Forall (λ _ m, map_Forall (λ _ o, tx_ok (ds_Tx (ot_TxDesc o))) m) (tp_orphansByPrev tp);
  (** an output is offered only by a transaction of the pool that creates it *)
  po_utxo : map_Forall (λ id t, tx_ok t ∧ id ∈ tt_ResultIds t ∧ is_Some (tp_pool tp !! tt_ID t)) (tp_utxo tp);
}.

Lemma NewTxPool_ok now : pool_ok (NewTxPool now).
Proof. split; cbn; rewrite ?map_size_empty; try lia; apply map_Forall_empty. Qed.

Lemma lookup_foldl_delete {V} ids (m : gmap Hash V) id v :
  foldl (λ m id, delete id m) m ids !! id = Some v → m !! id = Some v ∧ id ∉ ids.
Proof.
  revert m. induction ids as [|i ids IH]; intros m; cbn [foldl]; [split; [done|set_solver]|].
  intros [Hd Hn]%IH. apply lookup_delete_Some in Hd as [Hne Hm]. split; [done|set_solver].
Qed.

Lemma RemoveTransaction_ok now h tp : pool_ok tp → pool_ok (RemoveTransaction now h tp).
Proof.
  intros Hp. unfold RemoveTransaction. destruct (tp_pool tp !! h) as [d|] eqn:Hd; [|done].
  destruct Hp as [Hs Hos Hpool Horph Hwait Hutxo]. destruct (Hpool h d Hd) as [Hid Hok].
  split; cbn; try done.
  - pose proof (map_size_delete h (tp_pool tp)) as Hd'. rewrite Hd in Hd'. cbn in Hd'. lia.
  - by apply map_Forall_delete.
  - intros id t [Ht Hn]%lookup_foldl_delete. destruct (Hutxo id t Ht) as (Htok & Hin & Hsome). split_and!; [done..|].
    rewrite lookup_delete_ne; [done|]. intros ->. apply Hn. rewrite Hok, Hid, <- Htok. done.
Qed.

Lemma forget_spend_wait h m spend :
  map_Forall (λ _ m, map_Forall (λ _ o, tx_ok (ds_Tx (ot_TxDesc o))) m) m →
  map_Forall (λ _ m, map_Forall (λ _ o, tx_ok (ds_Tx (ot_TxDesc o))) m) (forget_spend h m spend).
Proof.
  intros Hm. unfold forget_spend. destruct (m !! spend) as [x|] eqn:Hx; [|done]. case_bool_decide.
  - by apply map_Forall_delete.
  - apply map_Forall_insert_2; [|done]. apply map_Forall_delete. by eapply Hm.
Qed.

Lemma removeOrphan_ok h tp : pool_ok tp → pool_ok (removeOrphan h tp).
Proof.
  intros [Hs Hos Hpool Horph Hwait Hutxo]. unfold removeOrphan. destruct (tp_orphans tp !! h) as [o|] eqn:Ho; [|by split].
  split; cbn; try done.
  - pose proof (map_size_delete h (tp_orphans tp)) as Hd. rewrite Ho in Hd. cbn in Hd. lia.
  - by apply map_Forall_delete.
  - clear Ho. generalize (SpentOutputIDs (tt_Tx (ds_Tx (ot_TxDesc o)))). intros ids.
    revert Hwait. generalize (tp_orphansByPrev tp). induction ids as [|id ids IH]; intros m Hm; [done|].
    cbn [foldl]. apply IH. by apply forget_spend_wait.
Qed.

Lemma add_outputs_ok sf t ids : ∀ u P, (∀ id, id ∈ ids → P id t) →
  map_Forall P u → map_Forall P (add_outputs sf t ids u).2.
Proof.
  induction ids as [|id ids IH]; intros u P HP Hu; [done|]. cbn [add_outputs].
  assert (∀ i, i ∈ ids → P i t) as HP' by (intros i Hi; apply HP; set_solver).
  destruct (tx_Output _ _) as [o| | |]; [|by apply IH..]. destruct (nil_asset sf o); [done|].
  apply IH; [done|]. destruct (skipped sf o); [done|]. apply map_Forall_insert_2; [apply HP; set_solver|done].
Qed.

Lemma addTransaction_ok now d tp : tx_ok (ds_Tx d) → pool_ok tp → pool_ok (addTransaction now d tp).2.
Proof.
  intros Hd [Hs Hos Hpool Horph Hwait Hutxo]. unfold addTransaction.
  destruct (Z.leb_spec maxNewTxNum (Z.of_nat (size (tp_pool tp)))); [by split|].
  set (d' := mkTxDesc _ _ _ _ _ _).
  assert (map_Forall (λ id t, tx_ok t ∧ id ∈ tt_ResultIds t ∧ is_Some (<[tt_ID (ds_Tx d) := d']> (tp_pool tp) !! tt_ID t))
            (add_outputs (ds_StatusFail d') (ds_Tx d) (tt_ResultIds (ds_Tx d)) (tp_utxo tp)).2) as Hu.
  { apply add_outputs_ok.
    - intros id Hin. split_and!; [done..|]. rewrite lookup_insert_eq. by eexists.
    - intros id t Ht. destruct (Hutxo id t Ht) as (? & ? & Hsome). split_and!; [done..|].
      destruct (decide (tt_ID t = tt_ID (ds_Tx d))) as [->|]; [rewrite lookup_insert_eq; by eexists|].
      by rewrite lookup_insert_ne. }
  assert (Z.of_nat (size (<[tt_ID (ds_Tx d) := d']> (tp_pool tp))) <= maxNewTxNum) as Hsize.
  { rewrite map_size_insert. destruct (_ !! _); unfold id; lia. }
  assert (map_Forall (λ h x, tt_ID (ds_Tx x) = h ∧ tx_ok (ds_Tx x)) (<[tt_ID (ds_Tx d) := d']> (tp_pool tp))) as Hp'
    by (by apply map_Forall_insert_2).
  destruct (add_outputs _ _ _ _) as [[[]| | |] u]; by split.
Qed.

Lemma addOrphan_ok now d ps tp : tx_ok (ds_Tx d) → pool_ok tp → pool_ok (addOrphan now d ps tp).2.
Proof.
  intros Hd [Hs Hos Hpool Horph Hwait Hutxo]. unfold addOrphan.
  destruct (Z.leb_spec maxOrphanNum (Z.of_nat (size (tp_orphans tp)))); [by split|]. split; cbn; try done.
  - rewrite map_size_insert. destruct (_ !! _); unfold id; lia.
  - by apply map_Forall_insert_2.
  - revert Hwait. generalize (tp_orphansByPrev tp). induction ps as [|h ps IH]; intros m Hm; [done|].
    cbn [foldl]. apply IH. apply map_Forall_insert_2; [|done]. apply map_Forall_insert_2; [done|].
    destruct (m !! h) as [x|] eqn:Hx; [by eapply Hm|apply map_Forall_empty].
Qed.

Lemma addRely_ok ids : ∀ m q,
  map_Forall (λ _ m, map_Forall (λ _ o, tx_ok (ds_Tx (ot_TxDesc o))) m) m →
  Forall (λ o, tx_ok (ds_Tx (ot_TxDesc o))) q →
  map_Forall (λ _ m, map_Forall (λ _ o, tx_ok (ds_Tx (ot_TxDesc o))) m) (addRely ids m q).1 ∧
  Forall (λ o, tx_ok (ds_Tx (ot_TxDesc o))) (addRely ids m q).2.
Proof.
  induction ids as [|id ids IH]; intros m q Hm Hq; [done|]. cbn [addRely].
  destruct (m !! id) as [x|] eqn:Hx; [|by apply IH]. apply IH; [by apply map_Forall_delete|].
  apply Forall_app. split; [done|]. apply Forall_fmap, Forall_forall. intros [h o] Hin.
  rewrite (go_range_perm _ x) in Hin. apply elem_of_map_to_list in Hin. exact (Hm id x Hx h o Hin).
Qed.

Lemma rely_ok t q tp : pool_ok tp → Forall (λ o, tx_ok (ds_Tx (ot_TxDesc o))) q →
  pool_ok (rely t q tp).1 ∧ Forall (λ o, tx_ok (ds_Tx (ot_TxDesc o))) (rely t q tp).2.
Proof.
  intros [Hs Hos Hpool Horph Hwait Hutxo] Hq. unfold rely.
  destruct (addRely_ok (tt_ResultIds t) _ _ Hwait Hq) as [Hm Hq']. destruct (addRely _ _ _) as [m q']. by split.
Qed.

Lemma process_queue_ok fuel : ∀ now db q tp, pool_ok tp → Forall (λ o, tx_ok (ds_Tx (ot_TxDesc o))) q →
  pool_ok (process_queue fuel now db q tp).2.
Proof.
  induction fuel as [|fuel IH]; intros now db q tp Hp Hq; (destruct Hq as [|o q Ho Hq]; [done|]); [done|].
  cbn [process_queue]. destruct (checkOrphanUtxos _ _ _); [|by apply IH].
  pose proof (rely_ok (ds_Tx (ot_TxDesc o)) q tp Hp Hq) as [Hp1 Hq1]. destruct (rely _ _ _) as [tp1 q1]. cbn in Hp1, Hq1.
  pose proof (addTransaction_ok now (ot_TxDesc o) _ Ho (removeOrphan_ok (tt_ID (ds_Tx (ot_TxDesc o))) _ Hp1)) as Hp2.
  destruct (addTransaction _ _ _) as [[[]| | |] tp2]; cbn in Hp2; try done; by apply IH.
Qed.

Lemma ProcessTransaction_ok now db t sf height fee tp : tx_ok t → pool_ok tp →
  pool_ok (ProcessTransaction now db t sf height fee tp).2 ∧ (ProcessTransaction now db t sf height fee tp).1 ≠ Fuel.
Proof.
  intros Ht Hp. unfold ProcessTransaction. set (d := mkTxDesc _ _ _ _ _ _).
  destruct (checkOrphanUtxos db t tp) as [|h hs].
  - pose proof (addTransaction_ok now d tp Ht Hp) as Hp1.
    assert ((addTransaction now d tp).1 ≠ Fuel) as Hf.
    { unfold addTransaction. destruct (_ <=? _); [done|]. generalize (tp_utxo tp) (tt_ResultIds (ds_Tx d)).
      intros u ids. cbn [ds_StatusFail d ds_Tx].
      assert (∀ u, (add_outputs sf t ids u).1 ≠ Fuel) as Ha.
      { clear. induction ids as [|id ids IH]; intros u; [done|]. cbn [add_outputs].
        destruct (tx_Output _ _); [|apply IH..]. destruct (nil_asset _ _); [done|apply IH]. }
      specialize (Ha u). by destruct (add_outputs _ _ _ _) as [[[]| | |] u']. }
    destruct (addTransaction now d tp) as [[[]| | |] tp1]; try done. cbn in Hp1.
    pose proof (processOrphans_ends now db d tp1) as He. unfold processOrphans in *.
    destruct (rely_ok (ds_Tx d) [] tp1 Hp1 (List.Forall_nil _)) as [Hp2 Hq]. destruct (rely _ _ _) as [tp2 q]. cbn in Hp2, Hq.
    pose proof (process_queue_ok (S (waiting tp1)) now db q tp2 Hp2 Hq) as Hp3.
    by destruct (process_queue _ _ _ _ _) as [[[]| | |] tp3].
  - pose proof (addOrphan_ok now d (h :: hs) tp Ht Hp) as Hp1.
    assert ((addOrphan now d (h :: hs) tp).1 ≠ Fuel) as Hf by (unfold addOrphan; by destruct (_ <=? _)).
    destruct (addOrphan _ _ _ _) as [[[]| | |] tp1]; by split.
Qed.

Lemma ExpireOrphan_ok now tp : pool_ok tp → pool_ok (ExpireOrphan now tp).
Proof.
  unfold ExpireOrphan. generalize (go_range (tp_orphans tp)). intros l. revert tp.
  induction l as [|[h o] l IH]; intros tp Hp; [done|]. cbn [foldl]. apply IH. cbn.
  destruct (_ <? _); [by apply removeOrphan_ok|done].
Qed.

(** ** Any sequence of operations *)

Inductive pool_op :=
| DoProcess (now : Z) (db : gmap Hash UtxoEntry) (tx : TypesTx) (statusFail : bool) (height fee : Z)
| DoRemove (now : Z) (txHash : Hash)
| DoExpire (now : Z).

Definition op_ok (op : pool_op) : Prop := match op with DoProcess _ _ t _ _ _ => tx_ok t | _ => True end.

Definition pool_step (tp : TxPool) (op : pool_op) : outcome pool_error bool * TxPool :=
  match op with
  | DoProcess now db t sf height fee => ProcessTransaction now db t sf height fee tp
  | DoRemove now h => (Ok false, RemoveTransaction now h tp)
  | DoExpire now => (Ok false, ExpireOrphan now tp)
  end.

Lemma pool_step_ok op tp : op_ok op → pool_ok tp → pool_ok (pool_step tp op).2 ∧ (pool_step tp op).1 ≠ Fuel.
Proof.
  destruct op; cbn; intros Hop Hp; [by apply ProcessTransaction_ok|..]; (split; [|done]).
  - by apply RemoveTransaction_ok.
  - by apply ExpireOrphan_ok.
Qed.

(** C10: the pool stays well formed under every sequence of arriving
    transactions, removals and expirations, whatever unspent outputs the store
    reports at each arrival and whatever the operations return.  The pool and
    the orphans stay within their limits, each is filed under its own
    identifier, and an output is offered to later transactions only while a
    transaction of the pool creates it.  Adopting orphans ends: the loop takes
    at most one round for each orphan that waits.  The hypothesis says that
    transactions with equal identifiers have equal results. *)
Theorem pool_stays_well_formed now ops :
  Forall op_ok ops →
  let tp := foldl (λ tp op, (pool_step tp op).2) (NewTxPool now) ops in
  pool_ok tp ∧ ∀ op, op_ok op → (pool_step tp op).1 ≠ Fuel.
Proof.
  intros Hops tp. assert (pool_ok tp) as Hp.
  { subst tp. generalize (NewTxPool_ok now). generalize (NewTxPool now).
    induction Hops as [|op ops Hop Hops IH]; intros tp Hp; [done|]. cbn [foldl]. apply IH. by apply pool_step_ok. }
  split; [done|]. intros op Hop. by apply pool_step_ok.
Qed.
End spec.

(** ** Orphans filed under the wrong output *)

Definition pool_tx (id : Z) (ins outs : list Z) : TypesTx :=
  mkTypesTx (mkTxData 1 1 0 [] [] []) (simple_tx id ins outs).

#[local] Instance plain_range : GoRange := λ V m, map_to_list m.
#[local] Instance plain_range_ok : GoRangeOk.
Proof. by intros V m. Qed.

(** Transaction 30 spends the outputs 1, which is missing, and 2, which the
    store has. *)
Definition child_tx : TypesTx := pool_tx 30 [1; 2] [3].
Definition parent_tx : TypesTx := pool_tx 10 [5] [1].
Definition stored : gmap Hash UtxoEntry :=
  {[ h_ 2 := NewUtxoEntry false 1 false; h_ 5 := NewUtxoEntry false 1 false ]}.
Definition arrivals : list pool_op := [DoProcess 0 stored child_tx false 9 0; DoProcess 1 stored parent_tx false 9 0].
Definition after_arrivals : TxPool := foldl (λ tp op, (pool_step tp op).2) (NewTxPool 0) arrivals.

(** [checkOrphanUtxos] collects the address of its loop variable: the orphan is
    filed under the last output it spends, here one that the store has, and
    stays an orphan when the transaction it waits for enters the pool. *)
Lemma orphan_waits_for_the_wrong_output :
  checkOrphanUtxos stored child_tx (NewTxPool 0) = [h_ 2] ∧
  tp_utxo after_arrivals !! h_ 1 = Some parent_tx ∧
  checkOrphanUtxos stored child_tx after_arrivals = [] ∧
  is_Some (tp_orphans after_arrivals !! h_ 30) ∧ tp_pool after_arrivals !! h_ 30 = None.
Proof. vm_compute. split_and!; try reflexivity. by eexists. Qed.

(** The cache of failures knows addresses, not hashes: a transaction that
    failed and arrives again, at another address, is not found. *)
Lemma failure_is_forgotten {error} (e : error) h p q : p ≠ q →
  (IsTransactionInErrCache (mkHashPtr q h) (AddErrCache (mkHashPtr p h) e [])).1 = false.
Proof.
  intros Hpq. unfold IsTransactionInErrCache, lru_Get. rewrite (proj2 (lru_find_None _ _)); [done|].
  cbn. rewrite list_elem_of_singleton. congruence.
Qed.

Lemma pool_stays_well_formed_witness :
  let results h := if bool_decide (h = h_ 30) then [h_ 3] else [h_ 1] in
  Forall (op_ok results) arrivals ∧ pool_ok results after_arrivals ∧
  ∀ op, op_ok results op → (pool_step after_arrivals op).1 ≠ Fuel.
Proof.
  intros results. assert (Forall (op_ok results) arrivals) as Hops by (repeat constructor; reflexivity).
  split; [done|]. apply (pool_stays_well_formed results 0 arrivals Hops).
Defined.
