(* ===== verification/BlockIndex.v ===== *)
(** * The tree of block headers ([protocol/state/blockindex.go])

    Nodes are shared by pointer in the code.  The index holds one node for a
    hash, and every node the chain handles comes from it, so two pointers are
    equal when the hashes of the nodes are: [same_node]. *)

From S2P Require Import Prelude Encoding Bc EntryHash Difficulty.
From stdpp Require Import gmap.
#[local] Open Scope Z_scope.

(** ** Operations *)

Definition same_node (a b : option BlockNode) : bool :=
  match a, b with
  | Some a, Some b => bool_decide (bn_Hash a = bn_Hash b)
  | None, None => true
  | _, _ => false
  end.

Record BlockIndex := mkBlockIndex {
  bi_index : gmap Hash BlockNode;
  bi_mainChain : list (option BlockNode);
}.

Definition NewBlockIndex : BlockIndex := mkBlockIndex ∅ [].

Definition AddNode (node : BlockNode) (bi : BlockIndex) : BlockIndex :=
  mkBlockIndex (<[bn_Hash node := node]> (bi_index bi)) (bi_mainChain bi).

Definition GetNode (hash : Hash) (bi : BlockIndex) : option BlockNode := bi_index bi !! hash.

(** An empty main chain is indexed at -1: a panic. *)
Definition BestNode (bi : BlockIndex) : outcome unit (option BlockNode) :=
  match last (bi_mainChain bi) with Some n => Ok n | None => Panic end.

Definition index_BlockExist (hash : Hash) (bi : BlockIndex) : bool := bool_decide (is_Some (bi_index bi !! hash)).

Definition nodeByHeight (height : Z) (bi : BlockIndex) : option BlockNode :=
  if Z.of_nat (length (bi_mainChain bi)) <=? height then None
  else mjoin (bi_mainChain bi !! Z.to_nat height).
Definition NodeByHeight := nodeByHeight.

Definition InMainchain (hash : Hash) (bi : BlockIndex) : bool :=
  match bi_index bi !! hash with
  | None => false
  | Some node => same_node (nodeByHeight (bn_Height node) bi) (Some node)
  end.

(** The loop of [SetMainChain] *)
Fixpoint set_main (node : BlockNode) (mainChain : list (option BlockNode)) {struct node}
    : outcome unit (list (option BlockNode)) :=
  match mainChain !! Z.to_nat (bn_Height node) with
  | None => Panic
  | Some cur =>
      if same_node cur (Some node) then Ok mainChain
      else
        let mainChain := <[Z.to_nat (bn_Height node) := Some node]> mainChain in
        match bn_Parent node with
        | None => Ok mainChain
        | Some parent => set_main parent mainChain
        end
  end.

(** A slice that has to grow is copied into a longer one; otherwise it is
    resliced, and what a larger length uncovers is cleared.  Both give the old
    elements followed by nil. *)
Definition SetMainChain (node : BlockNode) (bi : BlockIndex) : outcome unit BlockIndex :=
  let needed := uint64 (bn_Height node + 1) in
  match set_main node (resize (Z.to_nat needed) None (bi_mainChain bi)) with
  | Ok m => Ok (mkBlockIndex (bi_index bi) m)
  | Err e => Err e
  | Panic => Panic
  | Fuel => Fuel
  end.

(** ** Chains of nodes *)

(** From the first block to the node *)
Fixpoint path (n : BlockNode) : list BlockNode :=
  match bn_Parent n with
  | None => [n]
  | Some p => path p ++ [n]
  end.

Lemma BlockNode_parent_ind (P : BlockNode → Prop) :
  (∀ n, bn_Parent n = None → P n) → (∀ n p, bn_Parent n = Some p → P p → P n) → ∀ n, P n.
Proof.
  intros Hroot Hstep. fix IH 1. intros n. destruct (bn_Parent n) as [p|] eqn:Hp.
  - apply (Hstep n p Hp). destruct n as [o]. cbn in Hp. subst o. apply IH.
  - by apply Hroot.
Qed.

Lemma path_root n : bn_Parent n = None → path n = [n].
Proof. destruct n. cbn. by intros ->. Qed.

Lemma path_child n p : bn_Parent n = Some p → path n = path p ++ [n].
Proof. destruct n. cbn. by intros ->. Qed.

Lemma set_main_unfold node m : set_main node m =
  match m !! Z.to_nat (bn_Height node) with
  | None => Panic
  | Some cur =>
      if same_node cur (Some node) then Ok m
      else match bn_Parent node with
           | None => Ok (<[Z.to_nat (bn_Height node) := Some node]> m)
           | Some parent => set_main parent (<[Z.to_nat (bn_Height node) := Some node]> m)
           end
  end.
Proof. by destruct node. Qed.

(** [n] heads a chain of nodes from the root whose hashes tell them apart:
    what an index holds. *)
Section tree.
Context (root : BlockNode) (index : gmap Hash BlockNode).

Record tree_ok : Prop := {
  to_hash : map_Forall (λ h n, bn_Hash n = h) index;
  to_root : map_Forall (λ _ n, bn_Parent n = None → n = root) index;
  to_height : bn_Height root = 0;
  to_parent : map_Forall (λ _ n, ∀ p, bn_Parent n = Some p →
    index !! bn_Hash p = Some p ∧ bn_Height n = bn_Height p + 1 ∧ bn_WorkSum n = bn_WorkSum p + CalcWork (bn_Bits n)) index;
  to_bound : map_Forall (λ _ n, bn_Height n < 2 ^ 63) index;
}.

Definition indexed (n : BlockNode) : Prop := index !! bn_Hash n = Some n.
Context (Htree : tree_ok).

Lemma indexed_lookup h n : index !! h = Some n → indexed n.
Proof. intros Hn. unfold indexed. by rewrite (to_hash Htree h n Hn). Qed.

Lemma indexed_inj n m : indexed n → indexed m → bn_Hash n = bn_Hash m → n = m.
Proof. unfold indexed. intros Hn Hm Hh. rewrite Hh in Hn. congruence. Qed.

Lemma same_node_eq n m : indexed n → indexed m → same_node (Some n) (Some m) = true ↔ n = m.
Proof.
  intros Hn Hm. cbn. rewrite bool_decide_eq_true. split; [by apply indexed_inj|by intros ->].
Qed.

Lemma indexed_parent n p : indexed n → bn_Parent n = Some p →
  indexed p ∧ bn_Height n = bn_Height p + 1 ∧ bn_WorkSum n = bn_WorkSum p + CalcWork (bn_Bits n).
Proof. intros Hn Hp. exact (to_parent Htree _ n Hn p Hp). Qed.

Lemma indexed_root n : indexed n → bn_Parent n = None → n = root ∧ bn_Height n = 0.
Proof. intros Hn Hp. pose proof (to_root Htree _ n Hn Hp) as ->. split; [done|apply Htree]. Qed.

Lemma length_path n : indexed n → Z.of_nat (length (path n)) = bn_Height n + 1.
Proof.
  induction n as [n Hn|n p Hp IH] using BlockNode_parent_ind; intros Hi.
  - rewrite (path_root n Hn). cbn. destruct (indexed_root n Hi Hn). lia.
  - destruct (indexed_parent n p Hi Hp) as (Hip & Hh & _). rewrite (path_child n p Hp), length_app. cbn.
    specialize (IH Hip). lia.
Qed.

Lemma height_nonneg n : indexed n → 0 <= bn_Height n.
Proof.
  intros Hi. pose proof (length_path n Hi). assert (length (path n) ≠ 0%nat); [|lia].
  destruct (bn_Parent n) as [p|] eqn:Hp; [rewrite (path_child n p Hp), length_app|rewrite (path_root n Hp)]; cbn; lia.
Qed.

Lemma path_length_nat n : indexed n → length (path n) = S (Z.to_nat (bn_Height n)).
Proof. intros Hi. pose proof (length_path n Hi). pose proof (height_nonneg n Hi). lia. Qed.

Lemma path_last n : indexed n → path n !! Z.to_nat (bn_Height n) = Some n.
Proof.
  intros Hi. pose proof (path_length_nat n Hi) as Hl. destruct (bn_Parent n) as [p|] eqn:Hp.
  - rewrite (path_child n p Hp) in *. rewrite length_app in Hl. cbn in Hl. apply list_lookup_middle. lia.
  - rewrite (path_root n Hp). destruct (indexed_root n Hi Hp) as [_ ->]. done.
Qed.

(** An element of a path is indexed, and the path to it is a prefix. *)
Lemma path_prefix n i m : indexed n → path n !! i = Some m →
  indexed m ∧ Z.of_nat i = bn_Height m ∧ path m = take (S i) (path n).
Proof.
  induction n as [n Hn|n p Hp IH] using BlockNode_parent_ind; intros Hi Hm.
  - rewrite (path_root n Hn) in *. destruct i as [|i]; [|done]. injection Hm as <-.
    destruct (indexed_root n Hi Hn). split_and!; [done|lia|by apply path_root].
  - destruct (indexed_parent n p Hi Hp) as (Hip & Hh & _). specialize (IH Hip).
    pose proof (path_length_nat p Hip). pose proof (height_nonneg p Hip). rewrite (path_child n p Hp) in *.
    apply lookup_app_Some in Hm as [Hm|[Hl Hm]].
    + destruct (IH Hm) as (? & ? & ->). split_and!; [done..|]. apply lookup_lt_Some in Hm. by rewrite take_app_le by lia.
    + apply list_lookup_singleton_Some in Hm as [Hi' <-]. split_and!; [done|lia|].
      rewrite (path_child n p Hp), take_ge; [done|rewrite length_app; cbn; lia].
Qed.

(** ** The main chain *)

(** Where the old main chain holds the node, it holds its whole path. *)
Lemma main_joins best old n k h m cur : indexed best → old = [] ∨ old = Some <$> path best →
  indexed n → h = Z.to_nat (bn_Height n) → (h < k)%nat → take (S h) m = take (S h) (resize k None old) →
  m !! h = Some cur → same_node cur (Some n) = true → take (S h) m = Some <$> path n.
Proof.
  intros Hbest Hold Hn -> Hk Htake Hcur Hs. set (h := Z.to_nat (bn_Height n)) in *. destruct cur as [x|]; [|done].
  rewrite take_resize_le in Htake by lia.
  assert (resize (S h) None old !! h = Some (Some x)) as Hx by (rewrite <- Htake, lookup_take_lt by lia; done).
  destruct Hold as [-> | ->]; [rewrite lookup_resize_new in Hx by (cbn; lia); done|].
  destruct (decide (h < length (path best))%nat) as [Hl|Hl].
  - rewrite lookup_resize in Hx by (rewrite ?length_fmap; lia).
    apply list_lookup_fmap_Some in Hx as (y & [= ->] & Hy).
    destruct (path_prefix best h y Hbest Hy) as (Hxi & _ & Hpx).
    apply same_node_eq in Hs as ->; [|done..]. rewrite Hpx, Htake, resize_le by (rewrite length_fmap; lia).
    symmetry. apply fmap_take.
  - rewrite lookup_resize_new in Hx by (rewrite ?length_fmap; lia). done.
Qed.

(** The loop replaces what differs from the path of the node and stops where
    the path joins the old main chain. *)
Lemma set_main_path best old k : indexed best → old = [] ∨ old = Some <$> path best →
  ∀ n, indexed n → ∀ m h, h = Z.to_nat (bn_Height n) → (h < k)%nat → length m = k →
  take (S h) m = take (S h) (resize k None old) →
  ∃ m', set_main n m = Ok m' ∧ take (S h) m' = Some <$> path n ∧ drop (S h) m' = drop (S h) m.
Proof.
  intros Hbest Hold n. induction n as [n Hn|n p Hp IH] using BlockNode_parent_ind; intros Hi m h -> Hk Hm Htake;
    rewrite set_main_unfold; set (h := Z.to_nat (bn_Height n)) in *;
    (destruct (lookup_lt_is_Some_2 m h ltac:(lia)) as [cur Hcur]); rewrite Hcur;
    (destruct (same_node cur (Some n)) eqn:Hs; [by exists m; eauto using main_joins|]).
  - rewrite Hn. eexists. split; [done|]. rewrite (path_root n Hn). destruct (indexed_root n Hi Hn) as [_ Hz].
    subst h. rewrite Hz in *. destruct m; [cbn in Hm; lia|]. done.
  - rewrite Hp. destruct (indexed_parent n p Hi Hp) as (Hip & Hh & _). pose proof (height_nonneg p Hip).
    destruct (IH Hip (<[h := Some n]> m) (Z.to_nat (bn_Height p)) eq_refl) as (m' & -> & Ht & Hd);
      [lia|by rewrite length_insert| |].
    { rewrite take_insert_ge by lia. replace (S (Z.to_nat (bn_Height p))) with h by lia.
      apply (f_equal (take h)) in Htake. rewrite !take_take in Htake. by replace (h `min` S h)%nat with h in Htake by lia. }
    exists m'. replace (S (Z.to_nat (bn_Height p))) with h in Ht, Hd by lia. split; [done|].
    assert (drop h m' = Some n :: drop (S h) m) as Hd'.
    { rewrite Hd. rewrite drop_insert_ge by lia. rewrite Nat.sub_diag, (drop_S m cur h Hcur). done. }
    split.
    + rewrite (path_child n p Hp), fmap_app, <- Ht, <- (take_drop h m') at 1. rewrite Hd'.
      apply (f_equal length) in Ht. rewrite length_fmap, (path_length_nat p Hip) in Ht.
      rewrite take_app_ge by lia.
      by replace (S h - length (take h m'))%nat with 1%nat by lia.
    + replace (S h) with (h + 1)%nat at 1 by lia. by rewrite <- drop_drop, Hd'.
Qed.

Lemma SetMainChain_path best n (bi : BlockIndex) : bi_index bi = index → indexed best → indexed n →
  bi_mainChain bi = [] ∨ bi_mainChain bi = Some <$> path best →
  SetMainChain n bi = Ok (mkBlockIndex index (Some <$> path n)).
Proof.
  intros Hidx Hbest Hn Hmain. unfold SetMainChain. pose proof (height_nonneg n Hn). pose proof (to_bound Htree _ n Hn) as Hb.
  cbn in Hb. rewrite uint64_id by (ranges; lia). rewrite Hidx.
  replace (Z.to_nat (bn_Height n + 1)) with (S (Z.to_nat (bn_Height n))) by lia.
  destruct (set_main_path best _ _ Hbest Hmain n Hn (resize (S (Z.to_nat (bn_Height n))) None (bi_mainChain bi))
              _ eq_refl (Nat.lt_succ_diag_r _)) as (m' & -> & Ht & Hd); [by rewrite length_resize|done|].
  rewrite (drop_ge (resize _ _ _)) in Hd by (by rewrite length_resize). do 2 f_equal.
  rewrite <- (take_drop (S (Z.to_nat (bn_Height n))) m'), Ht, Hd. apply app_nil_r.
Qed.
End tree.

Lemma CalcWork_nonneg bits : 0 <= CalcWork bits.
Proof. unfold CalcWork. destruct (Z.leb_spec (CompactToBig bits) 0); [done|]. apply Z.div_pos; lia. Qed.

(** A new child of an indexed node keeps the tree. *)
Lemma tree_ok_AddNode root index n p : tree_ok root index → index !! bn_Hash n = None → bn_Parent n = Some p →
  indexed index p → bn_Height n = bn_Height p + 1 → bn_Height n < 2 ^ 63 →
  bn_WorkSum n = bn_WorkSum p + CalcWork (bn_Bits n) → tree_ok root (<[bn_Hash n := n]> index).
Proof.
  intros Ht Hnew Hpar Hp Hh Hb Hw. split.
  - apply map_Forall_insert_2; [done|apply Ht].
  - apply map_Forall_insert_2; [by rewrite Hpar|apply Ht].
  - apply Ht.
  - intros h x [[<- <-]|[Hne Hx]]%lookup_insert_Some q Hq.
    + rewrite Hpar in Hq. injection Hq as <-. split_and!; [|done..]. rewrite lookup_insert_ne; [done|].
      intros Heq. unfold indexed in Hp. congruence.
    + destruct (to_parent _ _ Ht h x Hx q Hq) as (Hq' & ? & ?). split_and!; [|done..].
      rewrite lookup_insert_ne; [done|]. intros Heq. congruence.
  - apply map_Forall_insert_2; [done|apply Ht].
Qed.

Lemma indexed_insert index h x n : index !! h = None → indexed index n → indexed (<[h := x]> index) n.
Proof. unfold indexed. intros Hn Hi. rewrite lookup_insert_ne; [done|]. intros ->. congruence. Qed.
