(* ===== verification/Orphans.v ===== *)
(** * Orphan blocks ([protocol/orphan_manage.go])

    Blocks whose parent is unknown, with the lists of children by parent.  The
    lists hold pointers to hashes, and [delete] looks for the pointer it was
    given: a pointer is an address with the hash it points to.  [om_next] is
    the next address that is allocated; a caller that takes the address of a
    variable of its own passes [own_pointer]. *)

From S2P Require Import Prelude Encoding Bc EntryHash TxMap Wire TxPool.
From stdpp Require Import gmap.
#[local] Open Scope Z_scope.

(** Nanoseconds *)
Abbreviation orphanBlockTTL := (60 * 60 * 1000000000).

Record orphanBlock := mkOrphanBlock { ob_Block : TypesBlock; ob_expiration : Z }.
Record OrphanManage := mkOrphanManage {
  om_orphan : gmap Hash orphanBlock;
  om_prevOrphans : gmap Hash (list HashPtr);
  om_next : Z;
}.
Definition NewOrphanManage : OrphanManage := mkOrphanManage ∅ ∅ 0.

Definition own_pointer (hash : Hash) (o : OrphanManage) : HashPtr := mkHashPtr (om_next o) hash.

Definition orphan_BlockExist (hash : Hash) (o : OrphanManage) : bool := bool_decide (is_Some (om_orphan o !! hash)).

Section orphans.
Context (Sum256 : list Z → list Z) `{R : GoRange}.

Definition block_Hash (b : TypesBlock) : Hash := header_Hash Sum256 (tb_BlockHeader b).
Definition PreviousBlockHash (b : TypesBlock) : Hash := bh_PreviousBlockHash (tb_BlockHeader b).
Definition Height (b : TypesBlock) : Z := bh_Height (tb_BlockHeader b).

Definition orphan_Add (now : Z) (block : TypesBlock) (o : OrphanManage) : OrphanManage :=
  let blockHash := block_Hash block in
  if orphan_BlockExist blockHash o then o
  else
    let prev := PreviousBlockHash block in
    mkOrphanManage (<[blockHash := mkOrphanBlock block (now + orphanBlockTTL)]> (om_orphan o))
      (<[prev := default [] (om_prevOrphans o !! prev) ++ [own_pointer blockHash o]]> (om_prevOrphans o))
      (om_next o + 1).

(** The pointers before and after the first with the address *)
Fixpoint cut_pointer (addr : Z) (ps : list HashPtr) : option (list HashPtr) :=
  match ps with
  | [] => None
  | p :: rest => if hp_addr p =? addr then Some rest else cons p <$> cut_pointer addr rest
  end.

Definition orphan_delete (hash : HashPtr) (o : OrphanManage) : OrphanManage :=
  match om_orphan o !! hp_hash hash with
  | None => o
  | Some block =>
      let orphan := delete (hp_hash hash) (om_orphan o) in
      let prev := PreviousBlockHash (ob_Block block) in
      let forget := mkOrphanManage orphan (delete prev (om_prevOrphans o)) (om_next o) in
      match om_prevOrphans o !! prev with
      | None | Some [_] => forget
      | Some prevOrphans =>
          mkOrphanManage orphan
            (match cut_pointer (hp_addr hash) prevOrphans with
             | Some rest => <[prev := rest]> (om_prevOrphans o)
             | None => om_prevOrphans o
             end) (om_next o)
      end
  end.
Definition orphan_Delete := orphan_delete.

(** The block's field is read even if there is none: a panic. *)
Definition orphan_Get (hash : HashPtr) (o : OrphanManage) : outcome unit TypesBlock :=
  match om_orphan o !! hp_hash hash with
  | Some block => Ok (ob_Block block)
  | None => Panic
  end.

Definition GetPrevOrphans (hash : Hash) (o : OrphanManage) : option (list HashPtr) := om_prevOrphans o !! hash.

(** [&hash] is the address of the loop variable. *)
Definition orphanExpire (now : Z) (o : OrphanManage) : OrphanManage :=
  foldl (λ o p, if ob_expiration p.2 <? now then orphan_delete (own_pointer p.1 o) o else o) o
    (go_range (om_orphan o)).
End orphans.
