(* ===== verification/Chain.v ===== *)
(** * The chain ([protocol/block.go], [protocol/protocol.go])

    One block after the other goes through [processBlock].  The store and the
    validation of a block with its account database are interfaces: the class
    [Store] is the Go interface of that name, [BlockValidator] is what
    [saveBlock] does with the account database and [ValidateBlock]. *)

From S2P Require Import Prelude Encoding Bc EntryHash TxMap Wire UtxoView Difficulty TxPool BlockIndex Orphans.
From stdpp Require Import gmap.
#[local] Open Scope Z_scope.
#[local] Open Scope go_scope.

(** ** Interfaces *)

Inductive chain_error :=
| ErrStore
| ErrBadBlock
| ErrState
| ErrUtxo (e : utxo_error)
| ErrNode.

(** [protocol.Store]; a write may fail after it changed the store *)
Class Store := {
  StoreState : Type;
  store_GetBlock : StoreState → Hash → outcome chain_error TypesBlock;
  store_GetTransactionStatus : StoreState → Hash → outcome chain_error TransactionStatus;
  store_GetTransactionsUtxo : StoreState → UtxoViewpoint → list Tx → outcome chain_error UtxoViewpoint;
  store_SaveBlock : StoreState → TypesBlock → TransactionStatus → outcome chain_error unit * StoreState;
  store_SaveChainStatus : StoreState → BlockNode → UtxoViewpoint → outcome chain_error unit * StoreState;
}.

(** A block that the store takes has a height that can be written, and can be
    no wrapped one. *)
Class StoreOk `{Store} : Prop := {
  SaveBlock_height st b ts st' : store_SaveBlock st b ts = (Ok tt, st') → bh_Height (tb_BlockHeader b) < 2 ^ 63;
}.

(** Opening the accounts at the parent's root and validating the block on
    them; then making the resulting accounts persistent.  [World] is what the
    validation can see besides its arguments: the database and the clock.  The
    triple is [BestBlockInfo], what the chain tells the machine. *)
Class BlockValidator := {
  World : Type;
  Accounts : Type;
  validate : World → Z * Z * Z → Block → BlockNode → outcome chain_error (TransactionStatus * Accounts) * World;
  commit : World → Accounts → outcome chain_error unit * World;
}.

Class BlockValidatorOk `{BlockValidator} : Prop := {
  validate_header w info b parent r w' : validate w info b parent = (Ok r, w') →
    bb_Height (blk_Header b) = uint64 (bn_Height parent + 1) ∧ bb_PreviousBlockId (blk_Header b) = bn_Hash parent;
}.

Section chain.
Context (Sum256 : list Z → list Z) `{S : Store} `{V : BlockValidator} `{R : GoRange}.

(** [c.cond] only wakes the goroutines that wait for a height. *)
Record Chain := mkChain {
  c_index : BlockIndex;
  c_orphanManage : OrphanManage;
  c_txPool : TxPool;
  c_store : StoreState;
  c_bestNode : BlockNode;
  c_world : World;
}.

Definition with_index (i : BlockIndex) (c : Chain) : Chain :=
  mkChain i (c_orphanManage c) (c_txPool c) (c_store c) (c_bestNode c) (c_world c).
Definition with_orphans (o : OrphanManage) (c : Chain) : Chain :=
  mkChain (c_index c) o (c_txPool c) (c_store c) (c_bestNode c) (c_world c).
Definition with_pool (p : TxPool) (c : Chain) : Chain :=
  mkChain (c_index c) (c_orphanManage c) p (c_store c) (c_bestNode c) (c_world c).
Definition with_store (s : StoreState) (c : Chain) : Chain :=
  mkChain (c_index c) (c_orphanManage c) (c_txPool c) s (c_bestNode c) (c_world c).
Definition with_best (n : BlockNode) (c : Chain) : Chain :=
  mkChain (c_index c) (c_orphanManage c) (c_txPool c) (c_store c) n (c_world c).
Definition with_world (w : World) (c : Chain) : Chain :=
  mkChain (c_index c) (c_orphanManage c) (c_txPool c) (c_store c) (c_bestNode c) w.

(** ** A state and error monad: an error keeps the state reached *)

Definition C (A : Type) : Type := Chain → outcome chain_error A * Chain.
Definition ret {A} (a : A) : C A := λ c, (Ok a, c).
Definition cbind {A B} (m : C A) (k : A → C B) : C B := λ c,
  match m c with
  | (Ok a, c') => k a c'
  | (Err e, c') => (Err e, c')
  | (Panic, c') => (Panic, c')
  | (Fuel, c') => (Fuel, c')
  end.
Definition lift {A} (o : Chain → outcome chain_error A) : C A := λ c, (o c, c).
Definition modify (f : Chain → Chain) : C unit := λ c, (Ok tt, f c).
Notation "x <-- m ;;; k" := (cbind m (λ x, k)) (at level 100, m at next level, right associativity).
Notation "m ;;; k" := (cbind m (λ _, k)) (at level 100, right associativity).

Definition in_store (f : StoreState → outcome chain_error unit * StoreState) : C unit := λ c,
  let '(o, s) := f (c_store c) in (o, with_store s c).
Definition in_world {A} (f : World → outcome chain_error A * World) : C A := λ c,
  let '(o, w) := f (c_world c) in (o, with_world w c).

(** A pointer that is dereferenced *)
Definition deref {A} (o : Chain → option A) : C A := lift (λ c, match o c with Some a => Ok a | None => Panic end).
Definition no_error {A} (o : outcome unit A) : outcome chain_error A :=
  match o with Ok a => Ok a | Err _ => Err ErrNode | Panic => Panic | Fuel => Fuel end.
Definition of_utxo (p : outcome utxo_error unit * UtxoViewpoint) : outcome chain_error UtxoViewpoint :=
  match p with
  | (Ok _, v) => Ok v
  | (Err e, _) => Err (ErrUtxo e)
  | (Panic, _) => Panic
  | (Fuel, _) => Fuel
  end.

(** ** Reading *)

Definition MapBlock (old : TypesBlock) : Block :=
  mkBlock (mapBlockHeader (tb_BlockHeader old)) (header_Hash Sum256 (tb_BlockHeader old)) (tt_Tx <$> tb_Transactions old).

Definition BlockExist (hash : Hash) (c : Chain) : bool :=
  index_BlockExist hash (c_index c) || orphan_BlockExist hash (c_orphanManage c).
Definition GetBlockByHash (hash : Hash) (c : Chain) : outcome chain_error TypesBlock := store_GetBlock (c_store c) hash.
Definition GetBlockByHeight (height : Z) (c : Chain) : outcome chain_error TypesBlock :=
  match NodeByHeight height (c_index c) with
  | None => Err ErrNode
  | Some node => store_GetBlock (c_store c) (bn_Hash node)
  end.
Definition GetHeaderByHash (hash : Hash) (c : Chain) : outcome chain_error BlockHeader :=
  match GetNode hash (c_index c) with None => Err ErrNode | Some node => Ok (node_header node) end.
Definition GetHeaderByHeight (height : Z) (c : Chain) : outcome chain_error BlockHeader :=
  match NodeByHeight height (c_index c) with None => Err ErrNode | Some node => Ok (node_header node) end.
Definition BestBlockHeight (c : Chain) : Z := bn_Height (c_bestNode c).
Definition BestBlockHash (c : Chain) : Hash := bn_Hash (c_bestNode c).
Definition BestBlockHeader (c : Chain) : outcome unit BlockHeader :=
  match BestNode (c_index c) with
  | Ok (Some node) => Ok (node_header node)
  | _ => Panic
  end.
Definition BestBlockInfo (c : Chain) : Z * Z * Z :=
  (bn_Height (c_bestNode c), bn_Timestamp (c_bestNode c), bn_Bits (c_bestNode c)).
Definition InMainChain (hash : Hash) (c : Chain) : bool := InMainchain hash (c_index c).
Definition chain_CalcNextSeed (preBlock : Hash) (c : Chain) : outcome chain_error Hash :=
  match GetNode preBlock (c_index c) with None => Err ErrNode | Some node => Ok (CalcNextSeed node) end.
Definition chain_CalcNextBits (preBlock : Hash) (c : Chain) : outcome chain_error Z :=
  match GetNode preBlock (c_index c) with None => Err ErrNode | Some node => no_error (CalcNextBits node) end.

(** ** The best chain *)

(** The first loop of [calcReorganizeNodes]; a nil parent is dereferenced. *)
Fixpoint find_attach (bi : BlockIndex) (node : BlockNode) (attachNodes : list BlockNode) {struct node}
    : outcome chain_error (list BlockNode * BlockNode) :=
  if same_node (NodeByHeight (bn_Height node) bi) (Some node) then Ok (attachNodes, node)
  else match bn_Parent node with
       | None => Panic
       | Some parent => find_attach bi parent (node :: attachNodes)
       end.

(** The second *)
Fixpoint find_detach (attachNode : BlockNode) (node : BlockNode) (detachNodes : list BlockNode) {struct node}
    : outcome chain_error (list BlockNode) :=
  if same_node (Some node) (Some attachNode) then Ok detachNodes
  else match bn_Parent node with
       | None => Panic
       | Some parent => find_detach attachNode parent (detachNodes ++ [node])
       end.

Definition calcReorganizeNodes (node : BlockNode) (c : Chain)
    : outcome chain_error (list BlockNode * list BlockNode) :=
  let? (attachNodes, attachNode) := find_attach (c_index c) node [] in
  let? detachNodes := find_detach attachNode (c_bestNode c) [] in
  Ok (attachNodes, detachNodes).

Definition setState (node : BlockNode) (view : UtxoViewpoint) : C unit :=
  in_store (λ s, store_SaveChainStatus s node view) ;;;
  index <-- lift (λ c, no_error (SetMainChain node (c_index c))) ;;;
  modify (λ c, with_best node (with_index index c)).

Definition connectBlock (now : Z) (block : TypesBlock) : C unit :=
  let bcBlock := MapBlock block in
  ts <-- lift (λ c, store_GetTransactionStatus (c_store c) (blk_ID bcBlock)) ;;;
  view <-- lift (λ c, store_GetTransactionsUtxo (c_store c) ∅ (Transactions bcBlock)) ;;;
  view <-- lift (λ _, of_utxo (ApplyBlock bcBlock ts view)) ;;;
  node <-- deref (λ c, GetNode (blk_ID bcBlock) (c_index c)) ;;;
  setState node view ;;;
  modify (λ c, with_pool (foldl (λ tp tx, RemoveTransaction now (tt_ID tx) tp) (c_txPool c) (tb_Transactions block)) c).

(** A loop of [reorganizeChain] *)
Fixpoint each_node (f : Block → TransactionStatus → UtxoViewpoint → outcome utxo_error unit * UtxoViewpoint)
    (nodes : list BlockNode) (view : UtxoViewpoint) : C UtxoViewpoint :=
  match nodes with
  | [] => ret view
  | node :: rest =>
      b <-- lift (λ c, store_GetBlock (c_store c) (bn_Hash node)) ;;;
      let block := MapBlock b in
      view <-- lift (λ c, store_GetTransactionsUtxo (c_store c) view (Transactions block)) ;;;
      ts <-- lift (λ c, store_GetTransactionStatus (c_store c) (blk_ID block)) ;;;
      view <-- lift (λ _, of_utxo (f block ts view)) ;;;
      each_node f rest view
  end.

Definition chain_reorganizeChain (node : BlockNode) : C unit :=
  nodes <-- lift (calcReorganizeNodes node) ;;;
  view <-- each_node DetachBlock (snd nodes) ∅ ;;;
  view <-- each_node ApplyBlock (fst nodes) view ;;;
  setState node view.

(** ** Arriving blocks *)

Definition saveBlock (block : TypesBlock) : C unit :=
  let bcBlock := MapBlock block in
  parent <-- deref (λ c, GetNode (PreviousBlockHash block) (c_index c)) ;;;
  info <-- lift (λ c, Ok (BestBlockInfo c)) ;;;
  r <-- in_world (λ w, validate w info bcBlock parent) ;;;
  in_store (λ s, store_SaveBlock s block (fst r)) ;;;
  in_world (λ w, commit w (snd r)) ;;;
  modify (λ c, with_orphans (orphan_Delete (own_pointer (blk_ID bcBlock) (c_orphanManage c)) (c_orphanManage c)) c) ;;;
  node <-- lift (λ _, no_error (NewBlockNode Sum256 (tb_BlockHeader block) (Some parent))) ;;;
  modify (λ c, with_index (AddNode node (c_index c)) c).

(** The recursion goes from a block to the orphans that wait for it; [sub] is
    the recursive call, a failure to save an orphan is only logged. *)
Fixpoint save_orphans (sub : TypesBlock → C TypesBlock) (prevOrphans : list HashPtr) (bestBlock : TypesBlock)
    : C TypesBlock :=
  match prevOrphans with
  | [] => ret bestBlock
  | p :: rest =>
      orphanBlock <-- lift (λ c, no_error (orphan_Get p (c_orphanManage c))) ;;;
      λ c, match saveBlock orphanBlock c with
           | (Ok _, c1) =>
               (subBestBlock <-- sub orphanBlock ;;;
                save_orphans sub rest (if Height bestBlock <? Height subBestBlock then subBestBlock else bestBlock)) c1
           | (Err _, c1) => save_orphans sub rest bestBlock c1
           | (Panic, c1) => (Panic, c1)
           | (Fuel, c1) => (Fuel, c1)
           end
  end.

Fixpoint saveSubBlock (fuel : nat) (block : TypesBlock) : C TypesBlock := λ c,
  match GetPrevOrphans (block_Hash Sum256 block) (c_orphanManage c) with
  | None => (Ok block, c)
  | Some prevOrphans =>
      match fuel with
      | O => (Fuel, c)
      | Datatypes.S fuel => save_orphans (saveSubBlock fuel) prevOrphans block c
      end
  end.

(** Each level of the recursion but the first has removed an orphan. *)
Definition orphan_count (c : Chain) : nat := size (om_orphan (c_orphanManage c)).
Definition sub_fuel (c : Chain) : nat := Datatypes.S (orphan_count c).

Definition processBlock (now : Z) (block : TypesBlock) : C bool := λ c,
  let blockHash := block_Hash Sum256 block in
  if BlockExist blockHash c then (Ok (orphan_BlockExist blockHash (c_orphanManage c)), c)
  else match GetNode (PreviousBlockHash block) (c_index c) with
  | None => (Ok true, with_orphans (orphan_Add Sum256 now block (c_orphanManage c)) c)
  | Some _ =>
      (saveBlock block ;;;
       bestBlock <-- (λ c, saveSubBlock (sub_fuel c) block c) ;;;
       bestNode <-- deref (λ c, GetNode (block_Hash Sum256 bestBlock) (c_index c)) ;;;
       λ c,
         if same_node (bn_Parent bestNode) (Some (c_bestNode c))
         then (connectBlock now bestBlock ;;; ret false) c
         else if (bn_Height (c_bestNode c) <? bn_Height bestNode)
                 && (bn_WorkSum (c_bestNode c) <=? bn_WorkSum bestNode)
         then (chain_reorganizeChain bestNode ;;; ret false) c
         else (Ok false, c)) c
  end.
End chain.
