(* ===== verification/ChainSpec.v ===== *)
(** * The best chain: invariants of [processBlock] *)

From S2P Require Import Prelude Encoding Bc EntryHash TxMap Wire UtxoView Difficulty TxPool BlockIndex Orphans Chain.
From stdpp Require Import gmap.
#[local] Open Scope Z_scope.
#[local] Set Default Goal Selector "!".
#[local] Set Warnings "-clear-no-such-hyp".

Section spec.
Context (Sum256 : list Z → list Z) `{S : Store} {SOk : StoreOk} `{V : BlockValidator} {VOk : BlockValidatorOk}.
Context (root : BlockNode).
Abbreviation Chain := (@Chain S V).

(** ** The invariant *)

Definition nodes (c : Chain) : gmap Hash BlockNode := bi_index (c_index c).

Record chain_ok (c : Chain) : Prop := {
  co_tree : tree_ok root (nodes c);
  co_best : indexed (nodes c) (c_bestNode c);
  co_main : bi_mainChain (c_index c) = Some <$> path (c_bestNode c);
  co_orphans : map_Forall (λ h o, block_Hash Sum256 (ob_Block o) = h ∧ nodes c !! h = None)
                 (om_orphan (c_orphanManage c));
}.

(** What saving blocks may change *)
Record grows (c c' : Chain) : Prop := {
  gr_ok : chain_ok c';
  gr_nodes : nodes c ⊆ nodes c';
  gr_best : c_bestNode c' = c_bestNode c;
  gr_orphans : om_orphan (c_orphanManage c') ⊆ om_orphan (c_orphanManage c);
}.

Lemma grows_refl c : chain_ok c → grows c c.
Proof. by split. Qed.

Lemma grows_trans a b c : grows a b → grows b c → grows a c.
Proof. intros [? ? Hb ?] [? ? Hc ?]. split; [done| |congruence|]; by etransitivity. Qed.

Lemma grows_store s c : chain_ok c → grows c (with_store s c).
Proof. intros [????]. split; [by split|done..]. Qed.
Lemma grows_world w c : chain_ok c → grows c (with_world w c).
Proof. intros [????]. split; [by split|done..]. Qed.

Lemma grows_indexed c c' n : grows c c' → indexed (nodes c) n → indexed (nodes c') n.
Proof. intros Hg Hn. eapply lookup_weaken; [exact Hn|apply Hg]. Qed.

(** ** Postconditions of computations on the chain *)

Definition wp {A} (m : C A) (Φ : outcome chain_error A → Chain → Prop) (c : Chain) : Prop := Φ (m c).1 (m c).2.

Lemma cwp_bind {A B} (m : C A) (k : A → C B) Φ c :
  wp m (λ o c', match o with
                | Ok a => wp (k a) Φ c'
                | Err e => Φ (Err e) c'
                | Panic => Φ Panic c'
                | Fuel => Φ Fuel c'
                end) c → wp (cbind m k) Φ c.
Proof. unfold wp, cbind. by destruct (m c) as [[] c']. Qed.

Lemma cwp_mono {A} (m : C A) (Φ Ψ : outcome chain_error A → Chain → Prop) c :
  wp m Φ c → (∀ o c', Φ o c' → Ψ o c') → wp m Ψ c.
Proof. unfold wp. auto. Qed.

(** A computation that only reads *)
Lemma cwp_lift {A} (o : Chain → outcome chain_error A) Φ c : Φ (o c) c → wp (lift o) Φ c.
Proof. done. Qed.

Lemma wp_in_store f Φ c : chain_ok c → (∀ o s, f (c_store c) = (o, s) → Φ o (with_store s c)) → wp (in_store f) Φ c.
Proof. unfold wp, in_store. intros Hc HΦ. destruct (f (c_store c)) as [o s] eqn:Hf. by apply HΦ. Qed.

Lemma wp_in_world {A} (f : World → outcome chain_error A * World) Φ c :
  (∀ o w, f (c_world c) = (o, w) → Φ o (with_world w c)) → wp (in_world f) Φ c.
Proof. unfold wp, in_world. intros HΦ. destruct (f (c_world c)) as [o w] eqn:Hf. by apply HΦ. Qed.

(** ** Saving a block *)

Lemma mapped_hash b : blk_ID (MapBlock Sum256 b) = block_Hash Sum256 b.
Proof. done. Qed.

Lemma orphan_delete_orphans h o : om_orphan (orphan_delete h o) = delete (hp_hash h) (om_orphan o).
Proof.
  unfold orphan_delete. destruct (om_orphan o !! hp_hash h) as [ob|] eqn:Ho; [|by rewrite delete_id].
  destruct (om_prevOrphans o !! _) as [[|x [|y l]]|]; done.
Qed.

Lemma NewBlockNode_child bh p : bh_Height bh = bn_Height p + 1 → 0 <= bn_Height p →
  ∃ n, NewBlockNode Sum256 bh (Some p) = Ok n ∧ bn_Hash n = header_Hash Sum256 bh ∧ bn_Parent n = Some p ∧
       bn_Height n = bh_Height bh ∧ bn_WorkSum n = bn_WorkSum p + CalcWork (bn_Bits n).
Proof.
  intros Hh Hp. unfold NewBlockNode. rewrite (proj2 (Z.eqb_neq _ _)) by lia. by eexists.
Qed.

(** Filing a block that is valid *)
Lemma add_grows c n p : chain_ok c → nodes c !! bn_Hash n = None → bn_Parent n = Some p → indexed (nodes c) p →
  bn_Height n = bn_Height p + 1 → bn_Height n < 2 ^ 63 → bn_WorkSum n = bn_WorkSum p + CalcWork (bn_Bits n) →
  let o := orphan_Delete (own_pointer (bn_Hash n) (c_orphanManage c)) (c_orphanManage c) in
  grows c (with_index (AddNode n (c_index (with_orphans o c))) (with_orphans o c)).
Proof.
  intros [Ht Hb Hm Ho] Hnew Hpar Hp Hh Hlt Hw o. subst o. split.
  - split; cbn.
    + by eapply tree_ok_AddNode.
    + by apply indexed_insert.
    + done.
    + unfold orphan_Delete. rewrite orphan_delete_orphans. intros h x [Hne Hx]%lookup_delete_Some.
      destruct (Ho h x Hx) as [Hk Hn]. split; [done|]. by rewrite lookup_insert_ne by done.
  - by apply insert_subseteq.
  - done.
  - cbn. unfold orphan_Delete. rewrite orphan_delete_orphans. apply delete_subseteq.
Qed.

Lemma saveBlock_grows b c : chain_ok c → nodes c !! block_Hash Sum256 b = None →
  wp (saveBlock Sum256 b) (λ o c', grows c c' ∧
    (o = Ok tt → is_Some (nodes c' !! block_Hash Sum256 b) ∧
                 om_orphan (c_orphanManage c') !! block_Hash Sum256 b = None)) c.
Proof.
  intros Hc Hnew. pose proof (grows_refl c Hc) as Hg0. unfold saveBlock.
  apply cwp_bind, cwp_lift. destruct (GetNode _ _) as [p|] eqn:Hp; [|done].
  apply cwp_bind, cwp_lift. apply cwp_bind, wp_in_world. intros o w Hv. pose proof (grows_world w c Hc) as Hg1.
  destruct o as [[ts acc]| | |]; [|done..].
  apply cwp_bind, wp_in_store; [apply Hg1|]. intros o s Hs. pose proof (grows_store s _ (gr_ok _ _ Hg1)) as Hg2.
  pose proof (grows_trans _ _ _ Hg1 Hg2) as Hg. destruct o as [[]| | |]; [|done..]. clear Hg1 Hg2.
  apply cwp_bind, wp_in_world. intros o w' Hw. pose proof (grows_world w' _ (gr_ok _ _ Hg)) as Hg2.
  pose proof (grows_trans _ _ _ Hg Hg2) as Hg3. destruct o as [[]| | |]; [|done..]. clear Hg Hg2.
  apply cwp_bind. unfold wp at 1. cbn [modify fst snd]. apply cwp_bind, cwp_lift.
  pose proof (indexed_lookup _ _ (co_tree _ Hc) _ _ Hp) as Hip. pose proof (height_nonneg _ _ (co_tree _ Hc) p Hip) as Hp0.
  pose proof (to_bound _ _ (co_tree _ Hc) _ _ Hp) as Hpb. cbn in Hpb.
  destruct (validate_header _ _ _ _ _ _ Hv) as [Hh _]. rewrite uint64_id in Hh by (ranges; lia).
  destruct (NewBlockNode_child (tb_BlockHeader b) p Hh Hp0) as (n & -> & Hhash & Hpar & Hheight & Hwork).
  cbn [no_error]. unfold wp. cbn [modify fst snd]. rewrite mapped_hash. unfold block_Hash in *. rewrite <- Hhash in *.
  split.
  - eapply grows_trans; [exact Hg3|]. apply (add_grows _ n p); try done; [apply Hg3|rewrite Hheight; exact Hh|].
    rewrite Hheight. exact (SaveBlock_height _ _ _ _ Hs).
  - intros _. split.
    + cbn. rewrite lookup_insert_eq. by eexists.
    + cbn. unfold orphan_Delete. rewrite orphan_delete_orphans. apply lookup_delete_eq.
Qed.

(** ** Saving the orphans that wait for a block *)

Definition saves (sub : TypesBlock → C TypesBlock) : Prop := ∀ b c, chain_ok c → is_Some (nodes c !! block_Hash Sum256 b) →
  wp (sub b) (λ o c', grows c c' ∧ ∀ b', o = Ok b' → is_Some (nodes c' !! block_Hash Sum256 b')) c.

Lemma is_Some_grows c c' h : grows c c' → is_Some (nodes c !! h) → is_Some (nodes c' !! h).
Proof. intros Hg [n Hn]. exists n. eapply lookup_weaken; [exact Hn|apply Hg]. Qed.

(** An orphan that is found is saved as a new block and leaves the orphans. *)
Lemma saved_orphan c ptr ob : chain_ok c → orphan_Get ptr (c_orphanManage c) = Ok ob →
  wp (saveBlock Sum256 ob) (λ o c1, grows c c1 ∧
    (o = Ok tt → is_Some (nodes c1 !! block_Hash Sum256 ob) ∧ (orphan_count c1 < orphan_count c)%nat)) c.
Proof.
  intros Hc Hget. unfold orphan_Get in Hget. destruct (om_orphan _ !! _) as [o|] eqn:Ho; [|done]. apply Ok_inj in Hget as <-.
  destruct (co_orphans c Hc _ _ Ho) as [Hhash Hnew]. rewrite <- Hhash in Hnew.
  eapply cwp_mono; [by apply saveBlock_grows|]. cbn. intros r c1 [Hg Hr]. split; [done|].
  intros [Hin Hgone]%Hr. split; [done|]. apply map_subset_size. split; [apply Hg|].
  intros Hsub. rewrite <- Hhash in Ho. pose proof (lookup_weaken _ _ _ _ Ho Hsub). congruence.
Qed.

Lemma save_orphans_saves sub : saves sub → ∀ ps b c, chain_ok c → is_Some (nodes c !! block_Hash Sum256 b) →
  wp (save_orphans Sum256 sub ps b) (λ o c', grows c c' ∧ ∀ b', o = Ok b' → is_Some (nodes c' !! block_Hash Sum256 b')) c.
Proof.
  intros Hsub ps. induction ps as [|ptr ps IH]; intros b c Hc Hb; cbn [save_orphans].
  - unfold wp. cbn. split; [by apply grows_refl|]. by intros b' [= <-].
  - apply cwp_bind, cwp_lift. destruct (orphan_Get _ _) as [ob| | |] eqn:Hget; cbn [no_error];
      [|by split; [apply grows_refl|]..].
    pose proof (saved_orphan c ptr ob Hc Hget) as Hs. unfold wp in Hs. unfold wp at 1. destruct (saveBlock _ ob c) as [[[]| | |] c1].
    + cbn [fst snd] in Hs. destruct Hs as [Hg [Hin _]]; [done|].
      apply cwp_bind. eapply cwp_mono; [apply Hsub; [apply Hg|done]|]. intros o c2 [Hg2 Hbest].
      pose proof (grows_trans _ _ _ Hg Hg2) as Hg3. destruct o as [sb| | |]; [|done..].
      eapply cwp_mono; [apply IH; [apply Hg3|]|].
      * destruct (_ <? _); [by apply Hbest|]. by eapply is_Some_grows.
      * cbn. intros o c3 [Hg4 Ho]. split; [by eapply grows_trans|done].
    + destruct Hs as [Hg _]. cbn [snd] in Hg. eapply cwp_mono; [apply IH; [apply Hg|by eapply is_Some_grows]|].
      cbn. intros o c3 [Hg4 Ho]. split; [by eapply grows_trans|done].
    + destruct Hs as [Hg _]. by split.
    + destruct Hs as [Hg _]. by split.
Qed.

Lemma saveSubBlock_saves fuel : saves (saveSubBlock Sum256 fuel).
Proof.
  induction fuel as [|fuel IH]; intros b c Hc Hb; unfold wp; cbn [saveSubBlock]; destruct (GetPrevOrphans _ _) as [ps|].
  1, 2, 4: cbn; (split; [by apply grows_refl|]; by intros b' [= <-]).
  by apply save_orphans_saves.
Qed.

(** The bound on the depth of the recursion plays no part. *)
Lemma save_orphans_agree k sub1 sub2 : saves sub1 →
  (∀ b c, chain_ok c → (orphan_count c < k)%nat → sub1 b c = sub2 b c) →
  ∀ ps b c, chain_ok c → (orphan_count c <= k)%nat → save_orphans Sum256 sub1 ps b c = save_orphans Sum256 sub2 ps b c.
Proof.
  intros Hs1 Heq ps. induction ps as [|ptr ps IH]; intros b c Hc Hk; cbn [save_orphans]; [done|].
  unfold cbind, lift. destruct (orphan_Get _ _) as [ob| | |] eqn:Hget; cbn [no_error]; try done.
  pose proof (saved_orphan c ptr ob Hc Hget) as Hs. unfold wp in Hs. destruct (saveBlock _ ob c) as [[[]| | |] c1]; try done.
  - cbn [fst snd] in Hs. destruct Hs as [Hg [Hin Hlt]]; [done|]. rewrite <- Heq by (try apply Hg; lia).
    pose proof (Hs1 ob c1 (gr_ok _ _ Hg) Hin) as Hr. unfold wp in Hr. destruct (sub1 ob c1) as [[sb| | |] c2]; try done.
    destruct Hr as [Hg2 _]. apply IH; [apply Hg2|]. pose proof (map_subseteq_size _ _ (gr_orphans _ _ Hg2)).
    unfold orphan_count in *. cbn [snd] in *. lia.
  - destruct Hs as [Hg _]. apply IH; [apply Hg|]. pose proof (map_subseteq_size _ _ (gr_orphans _ _ Hg)).
    unfold orphan_count in *. cbn [snd] in *. lia.
Qed.

Lemma saveSubBlock_fuel f1 : ∀ f2 b c, chain_ok c → (orphan_count c < f1)%nat → (orphan_count c < f2)%nat →
  saveSubBlock Sum256 f1 b c = saveSubBlock Sum256 f2 b c.
Proof.
  induction f1 as [|f1 IH]; intros [|f2] b c Hc H1 H2; [lia..|]. cbn [saveSubBlock].
  destruct (GetPrevOrphans _ _) as [ps|]; [|done]. apply (save_orphans_agree (f1 `min` f2)); [apply saveSubBlock_saves| |done|lia].
  intros b' c' Hc' Hlt. apply IH; [done|lia..].
Qed.

(** The depth is never exceeded. *)
Lemma saveSubBlock_answers : (∀ b c, (saveBlock Sum256 b c).1 ≠ Fuel) → ∀ fuel b c, chain_ok c →
  (orphan_count c < fuel)%nat → (saveSubBlock Sum256 fuel b c).1 ≠ Fuel.
Proof.
  intros Hsave fuel. induction fuel as [|fuel IH]; intros b c Hc Hf; [lia|]. cbn [saveSubBlock].
  destruct (GetPrevOrphans _ _) as [ps|]; [|done]. assert (orphan_count c <= fuel)%nat as Hk by lia. clear Hf.
  revert b c Hc Hk. induction ps as [|ptr ps IHps]; intros b c Hc Hk; [done|]. cbn [save_orphans]. unfold cbind, lift.
  destruct (orphan_Get _ _) as [ob| | |] eqn:Hget; cbn [no_error]; try done; [|unfold orphan_Get in Hget; by destruct (_ !! _)].
  pose proof (saved_orphan c ptr ob Hc Hget) as Hs. pose proof (Hsave ob c) as Hn. unfold wp in Hs.
  destruct (saveBlock _ ob c) as [[[]| | |] c1]; try done.
  - cbn [fst snd] in Hs. destruct Hs as [Hg [Hin Hlt]]; [done|]. pose proof (IH ob c1 (gr_ok _ _ Hg) ltac:(lia)) as Hn1.
    pose proof (saveSubBlock_saves fuel ob c1 (gr_ok _ _ Hg) Hin) as Hr. unfold wp in Hr.
    destruct (saveSubBlock _ fuel ob c1) as [[sb| | |] c2]; try done. destruct Hr as [Hg2 _]. apply IHps; [apply Hg2|].
    pose proof (map_subseteq_size _ _ (gr_orphans _ _ Hg2)). unfold orphan_count in *. cbn [snd] in *. lia.
  - destruct Hs as [Hg _]. apply IHps; [apply Hg|]. pose proof (map_subseteq_size _ _ (gr_orphans _ _ Hg)).
    unfold orphan_count in *. cbn [snd] in *. lia.
Qed.

(** ** The nodes of a reorganisation *)

Lemma path_head n : ∀ c, chain_ok c → indexed (nodes c) n → path n !! 0%nat = Some root.
Proof.
  intros c Hc. pose proof (co_tree c Hc) as Ht.
  induction n as [n Hn|n p Hp IH] using BlockNode_parent_ind; intros Hi.
  - rewrite (path_root n Hn). by destruct (indexed_root _ _ Ht n Hi Hn) as [-> _].
  - destruct (indexed_parent _ _ Ht n p Hi Hp) as (Hip & _). rewrite (path_child n p Hp), lookup_app_l; [by apply IH|].
    rewrite (path_length_nat _ _ Ht p Hip). lia.
Qed.

Lemma NodeByHeight_main c n : chain_ok c → indexed (nodes c) n →
  NodeByHeight (bn_Height n) (c_index c) = path (c_bestNode c) !! Z.to_nat (bn_Height n).
Proof.
  intros Hc Hn. unfold NodeByHeight, nodeByHeight. rewrite (co_main c Hc), length_fmap.
  pose proof (height_nonneg _ _ (co_tree c Hc) n Hn). destruct (Z.leb_spec (Z.of_nat (length (path (c_bestNode c)))) (bn_Height n)).
  - symmetry. apply lookup_ge_None. lia.
  - rewrite list_lookup_fmap. by destruct (path _ !! _).
Qed.

(** The node is on the main chain exactly when the index says so. *)
Lemma on_main c n : chain_ok c → indexed (nodes c) n →
  same_node (NodeByHeight (bn_Height n) (c_index c)) (Some n) = true ↔ n ∈ path (c_bestNode c).
Proof.
  intros Hc Hn. rewrite (NodeByHeight_main c n Hc Hn). pose proof (co_tree c Hc) as Ht. pose proof (co_best c Hc) as Hb. split.
  - destruct (path _ !! _) as [x|] eqn:Hx; [|done]. destruct (path_prefix _ _ Ht _ _ _ Hb Hx) as (Hxi & _).
    intros ->%(same_node_eq _ _ _ Hxi Hn). by eapply list_elem_of_lookup_2.
  - intros [i Hi]%list_elem_of_lookup. destruct (path_prefix _ _ Ht _ _ _ Hb Hi) as (_ & Hih & _).
    rewrite <- Hih, Nat2Z.id, Hi. by apply (same_node_eq _ n n Hn Hn).
Qed.

Lemma find_attach_unfold bi n acc : find_attach bi n acc =
  if same_node (NodeByHeight (bn_Height n) bi) (Some n) then Ok (acc, n)
  else match bn_Parent n with None => Panic | Some p => find_attach bi p (n :: acc) end.
Proof. by destruct n. Qed.
Lemma find_detach_unfold a n acc : find_detach a n acc =
  if same_node (Some n) (Some a) then Ok acc
  else match bn_Parent n with None => Panic | Some p => find_detach a p (acc ++ [n]) end.
Proof. by destruct n. Qed.

Lemma find_attach_spec c : chain_ok c → ∀ n acc, indexed (nodes c) n → ∃ fork att,
  find_attach (c_index c) n acc = Ok (att ++ acc, fork) ∧ path n = path fork ++ att ∧
  fork ∈ path (c_bestNode c) ∧ Forall (λ x, x ∉ path (c_bestNode c)) att.
Proof.
  intros Hc n. pose proof (co_tree c Hc) as Ht.
  induction n as [n Hn|n p Hp IH] using BlockNode_parent_ind; intros acc Hi; rewrite find_attach_unfold;
    (destruct (same_node _ _) eqn:Hs;
     [exists n, []; split_and!; [done|by rewrite app_nil_r|by apply on_main|constructor]|]).
  - exfalso. destruct (indexed_root _ _ Ht n Hi Hn) as [-> _].
    apply not_true_iff_false in Hs. apply Hs, on_main; [done..|].
    eapply list_elem_of_lookup_2, (path_head _ c Hc), co_best, Hc.
  - destruct (indexed_parent _ _ Ht n p Hi Hp) as (Hip & _). rewrite Hp.
    destruct (IH (n :: acc) Hip) as (fork & att & Hf & Hpath & Hfork & Hatt).
    exists fork, (att ++ [n]). rewrite Hf, <- app_assoc. split_and!; [done| |done|].
    + by rewrite (path_child n p Hp), Hpath, app_assoc.
    + apply Forall_app. split; [done|]. constructor; [|done]. intros Hin. apply (on_main c n Hc Hi) in Hin. congruence.
Qed.

Lemma find_detach_spec c fork : chain_ok c → indexed (nodes c) fork → ∀ n acc, indexed (nodes c) n → fork ∈ path n →
  ∃ det, find_detach fork n acc = Ok (acc ++ det) ∧ path n = path fork ++ rev det.
Proof.
  intros Hc Hf n. pose proof (co_tree c Hc) as Ht.
  induction n as [n Hn|n p Hp IH] using BlockNode_parent_ind; intros acc Hi Hin; rewrite find_detach_unfold;
    (destruct (same_node _ _) eqn:Hs;
     [apply (same_node_eq _ _ _ Hi Hf) in Hs as ->; exists []; by rewrite !app_nil_r|]).
  - exfalso. rewrite (path_root n Hn) in Hin. apply list_elem_of_singleton in Hin as ->.
    apply not_true_iff_false in Hs. by apply Hs, (same_node_eq _ _ _ Hi Hi).
  - destruct (indexed_parent _ _ Ht n p Hi Hp) as (Hip & _). rewrite Hp. rewrite (path_child n p Hp) in Hin |- *.
    apply elem_of_app in Hin as [Hin|Hin].
    + destruct (IH (acc ++ [n]) Hip Hin) as (det & -> & ->). exists (n :: det). rewrite <- app_assoc. split; [done|].
      cbn. by rewrite app_assoc.
    + apply list_elem_of_singleton in Hin as ->. apply not_true_iff_false in Hs. exfalso. by apply Hs, (same_node_eq _ _ _ Hi Hi).
Qed.

Lemma calcReorganizeNodes_spec c n : chain_ok c → indexed (nodes c) n → ∃ fork attach detach,
  calcReorganizeNodes n c = Ok (attach, detach) ∧ path n = path fork ++ attach ∧
  path (c_bestNode c) = path fork ++ rev detach ∧ Forall (λ x, x ∉ path (c_bestNode c)) attach.
Proof.
  intros Hc Hn. destruct (find_attach_spec c Hc n [] Hn) as (fork & att & Ha & Hpath & Hfork & Hatt).
  pose proof Hfork as [i Hi]%list_elem_of_lookup.
  destruct (path_prefix _ _ (co_tree c Hc) _ _ _ (co_best c Hc) Hi) as (Hfi & _).
  destruct (find_detach_spec c fork Hc Hfi _ [] (co_best c Hc) Hfork) as (det & Hd & Hpath').
  exists fork, att, det. unfold calcReorganizeNodes. rewrite Ha, app_nil_r. cbn. rewrite Hd. done.
Qed.

(** ** Moving the best chain *)

(** The new best node *)
Record moves (n : BlockNode) (c c' : Chain) : Prop := {
  mv_ok : chain_ok c';
  mv_nodes : nodes c' = nodes c;
  mv_orphans : c_orphanManage c' = c_orphanManage c;
  mv_best : c_bestNode c' = c_bestNode c ∨ c_bestNode c' = n;
}.

Lemma moves_refl n c : chain_ok c → moves n c c.
Proof. split; auto. Qed.

Lemma moves_store n s c : chain_ok c → moves n c (with_store s c).
Proof. intros Hc. split; [by apply grows_store|done|done|by left]. Qed.

Lemma setState_moves n view c : chain_ok c → indexed (nodes c) n → wp (setState n view) (λ _, moves n c) c.
Proof.
  intros Hc Hn. unfold setState. apply cwp_bind, wp_in_store; [done|]. intros o s _.
  pose proof (moves_store n s c Hc) as Hm. destruct o as [[]| | |]; [|done..].
  apply cwp_bind, cwp_lift. destruct Hc as [Ht Hb Hmain Ho].
  erewrite (SetMainChain_path root _ Ht (c_bestNode c) n); [|done|done|done|by right]. cbn [no_error]. unfold wp. cbn [modify fst snd].
  split; [by split|done|done|by right].
Qed.

Lemma connectBlock_moves now b n c : chain_ok c → nodes c !! block_Hash Sum256 b = Some n →
  wp (connectBlock Sum256 now b) (λ _, moves n c) c.
Proof.
  intros Hc Hn. pose proof (moves_refl n c Hc) as Hr. unfold connectBlock.
  apply cwp_bind, cwp_lift. destruct (store_GetTransactionStatus _ _) as [ts| | |]; [|done..].
  apply cwp_bind, cwp_lift. destruct (store_GetTransactionsUtxo _ _ _) as [v| | |]; [|done..].
  apply cwp_bind, cwp_lift. destruct (of_utxo _) as [v'| | |]; [|done..].
  apply cwp_bind, cwp_lift. unfold GetNode. change (bi_index (c_index c)) with (nodes c). rewrite mapped_hash, Hn.
  apply cwp_bind. eapply cwp_mono; [apply setState_moves; [done|by eapply indexed_lookup; [apply Hc|]]|].
  cbn. intros o c' Hm. destruct o as [[]| | |]; [|done..]. unfold wp. cbn [modify snd fst].
  destruct Hm as [[????] ???]. split; [by split|done..].
Qed.

Lemma each_node_reads f ns : ∀ view c, (each_node Sum256 f ns view c).2 = c.
Proof.
  induction ns as [|n ns IH]; intros view c; [done|]. cbn [each_node]. unfold cbind, lift.
  destruct (store_GetBlock _ _); [|done..]. destruct (store_GetTransactionsUtxo _ _ _); [|done..].
  destruct (store_GetTransactionStatus _ _); [|done..]. destruct (of_utxo _); [|done..]. apply IH.
Qed.

Lemma wp_each_node f ns view Φ c : (∀ o, Φ o c) → wp (each_node Sum256 f ns view) Φ c.
Proof. intros HΦ. unfold wp. rewrite each_node_reads. apply HΦ. Qed.

Lemma reorganizeChain_moves n c : chain_ok c → indexed (nodes c) n →
  wp (chain_reorganizeChain Sum256 n) (λ _, moves n c) c.
Proof.
  intros Hc Hn. pose proof (moves_refl n c Hc) as Hr. unfold chain_reorganizeChain. apply cwp_bind, cwp_lift.
  destruct (calcReorganizeNodes n c) as [ns| | |]; [|done..].
  apply cwp_bind, wp_each_node. intros [v| | |]; [|done..]. apply cwp_bind, wp_each_node. intros [v'| | |]; [|done..].
  by apply setState_moves.
Qed.

(** ** Arriving blocks *)

(** The chain keeps its best node, or takes a higher one with no less work. *)
Record advances (c c' : Chain) : Prop := {
  ad_ok : chain_ok c';
  ad_nodes : nodes c ⊆ nodes c';
  ad_best : c_bestNode c' = c_bestNode c ∨
    bn_Height (c_bestNode c) < bn_Height (c_bestNode c') ∧ bn_WorkSum (c_bestNode c) <= bn_WorkSum (c_bestNode c');
}.

Lemma advances_trans a b c : advances a b → advances b c → advances a c.
Proof.
  intros [Ha Hn Hb] [Ha' Hn' Hb']. split; [done|by etransitivity|].
  destruct Hb as [Hb|Hb], Hb' as [Hb'|Hb']; rewrite ?Hb', ?Hb in *; auto. right. lia.
Qed.

Lemma grows_advances c c' : grows c c' → advances c c'.
Proof. intros [????]. by split; auto. Qed.

Lemma moves_advances n c c' : chain_ok c → indexed (nodes c) n → moves n c c' →
  bn_Parent n = Some (c_bestNode c) ∨
    bn_Height (c_bestNode c) < bn_Height n ∧ bn_WorkSum (c_bestNode c) <= bn_WorkSum n → advances c c'.
Proof.
  intros Hc Hn [Hok Hnodes _ Hb] Hbetter. split; [done|by rewrite Hnodes|].
  destruct Hb as [Hb|Hb]; rewrite Hb; [by left|]. right. destruct Hbetter as [Hp|?]; [|done].
  destruct (indexed_parent _ _ (co_tree c Hc) n _ Hn Hp) as (_ & Hh & Hw). pose proof (CalcWork_nonneg (bn_Bits n)). lia.
Qed.

(** The last step of [processBlock] *)
Lemma choose_best_advances now b n c : chain_ok c → nodes c !! block_Hash Sum256 b = Some n →
  wp (λ c, if same_node (bn_Parent n) (Some (c_bestNode c)) then cbind (connectBlock Sum256 now b) (λ _, ret false) c
           else if (bn_Height (c_bestNode c) <? bn_Height n) && (bn_WorkSum (c_bestNode c) <=? bn_WorkSum n)
           then cbind (chain_reorganizeChain Sum256 n) (λ _, ret false) c
           else (Ok false, c)) (λ _, advances c) c.
Proof.
  intros Hc Hn. pose proof (indexed_lookup _ _ (co_tree c Hc) _ _ Hn) as Hi. unfold wp at 1.
  destruct (same_node (bn_Parent n) (Some (c_bestNode c))) eqn:Hs.
  - assert (bn_Parent n = Some (c_bestNode c)) as Hp.
    { destruct (bn_Parent n) as [p|] eqn:Hp; [|done]. destruct (indexed_parent _ _ (co_tree c Hc) n p Hi Hp) as (Hip & _).
      apply (same_node_eq _ _ _ Hip (co_best c Hc)) in Hs. by rewrite Hs. }
    apply (cwp_bind _ _ (λ _, advances c)). eapply cwp_mono; [by apply connectBlock_moves|]. intros o c' Hm.
    assert (advances c c') as Ha by (eapply moves_advances; eauto). by destruct o.
  - destruct (Z.ltb_spec (bn_Height (c_bestNode c)) (bn_Height n)); [|by apply grows_advances, grows_refl].
    destruct (Z.leb_spec (bn_WorkSum (c_bestNode c)) (bn_WorkSum n)); [|by apply grows_advances, grows_refl]. cbn [andb].
    apply (cwp_bind _ _ (λ _, advances c)). eapply cwp_mono; [by apply reorganizeChain_moves|]. intros o c' Hm.
    assert (advances c c') as Ha by (eapply moves_advances; eauto). by destruct o.
Qed.

Lemma orphan_Add_advances now b c : chain_ok c → nodes c !! block_Hash Sum256 b = None →
  advances c (with_orphans (orphan_Add Sum256 now b (c_orphanManage c)) c).
Proof.
  intros [Ht Hb Hm Ho] Hnew. split; [|done|by left]. split; [done..|]. cbn. unfold orphan_Add.
  destruct (orphan_BlockExist _ _); [done|]. by apply map_Forall_insert_2.
Qed.

Lemma processBlock_advances now b c : chain_ok c → wp (processBlock Sum256 now b) (λ _, advances c) c.
Proof.
  intros Hc. unfold processBlock, wp at 1. destruct (BlockExist _ _) eqn:He.
  { by apply grows_advances, grows_refl. }
  apply orb_false_iff in He as [He _]. unfold index_BlockExist in He. apply bool_decide_eq_false, eq_None_not_Some in He.
  destruct (GetNode _ _) as [p|]; [|by apply orphan_Add_advances].
  apply (cwp_bind _ _ (λ _, advances c)). eapply cwp_mono; [by apply saveBlock_grows|]. intros o c1 [Hg Hin].
  destruct o as [[]| | |]; [|by apply grows_advances..]. destruct (Hin eq_refl) as [Hin1 _].
  pose proof (saveSubBlock_saves (sub_fuel c1) b c1 (gr_ok _ _ Hg) Hin1) as Hsub.
  apply (cwp_bind _ _ (λ _, advances c)). unfold wp in Hsub. unfold wp at 1.
  destruct (saveSubBlock _ _ _ _) as [o c2]. cbn [fst snd] in *. destruct Hsub as [Hg2 Hbest]. pose proof (grows_trans _ _ _ Hg Hg2) as Hg3.
  destruct o as [best| | |]; [|by apply grows_advances..]. destruct (Hbest best eq_refl) as [n Hn].
  apply (cwp_bind _ _ (λ _, advances c)), cwp_lift. unfold GetNode. change (bi_index (c_index c2)) with (nodes c2). rewrite Hn.
  eapply cwp_mono; [apply choose_best_advances; [apply Hg3|done]|].
  intros o c3 Ha. eapply advances_trans; [by apply grows_advances|done].
Qed.

(** ** What happens to a chain *)

Inductive chain_event :=
| BlockArrives (now : Z) (b : TypesBlock)
| OrphansExpire (now : Z).

Context `{R : GoRange}.

Definition chain_step (c : Chain) (e : chain_event) : outcome chain_error bool * Chain :=
  match e with
  | BlockArrives now b => processBlock Sum256 now b c
  | OrphansExpire now => (Ok false, with_orphans (orphanExpire now (c_orphanManage c)) c)
  end.

Lemma orphanExpire_subseteq now o : om_orphan (orphanExpire now o) ⊆ om_orphan o.
Proof.
  unfold orphanExpire. generalize (go_range (om_orphan o)). intros l. revert o.
  induction l as [|[h ob] l IH]; intros o; [done|]. cbn [foldl]. etransitivity; [apply IH|]. cbn.
  destruct (_ <? _); [|done]. rewrite orphan_delete_orphans. apply delete_subseteq.
Qed.

Lemma chain_step_advances e c : chain_ok c → advances c (chain_step c e).2.
Proof.
  intros Hc. destruct e as [now b|now]; [by apply processBlock_advances|].
  destruct Hc as [Ht Hb Hm Ho]. split; [|done|by left]. split; [done..|]. cbn. intros h ob Hob.
  apply Ho. eapply lookup_weaken; [done|apply orphanExpire_subseteq].
Qed.

Lemma chain_steps_advance events : ∀ c, chain_ok c → advances c (foldl (λ c e, (chain_step c e).2) c events).
Proof.
  induction events as [|e events IH]; intros c Hc; [by apply grows_advances, grows_refl|]. cbn [foldl].
  pose proof (chain_step_advances e c Hc) as Ha. eapply advances_trans; [done|]. apply IH, Ha.
Qed.

Lemma InMainChain_path c n : chain_ok c → indexed (nodes c) n →
  InMainChain (bn_Hash n) c = true ↔ n ∈ path (c_bestNode c).
Proof. intros Hc Hn. unfold InMainChain, InMainchain. fold (nodes c). rewrite Hn. by apply on_main. Qed.

Lemma last_path n : last (path n) = Some n.
Proof. destruct (bn_Parent n) as [p|] eqn:Hp; [by rewrite (path_child n p Hp), last_snoc|by rewrite (path_root n Hp)]. Qed.

Lemma best_header c : chain_ok c → BestBlockHeader c = Ok (node_header (c_bestNode c)).
Proof. intros Hc. unfold BestBlockHeader, BestNode. by rewrite (co_main _ Hc), fmap_last, last_path. Qed.
End spec.

Section claims.
Context (Sum256 : list Z → list Z) `{S : Store} {SOk : StoreOk} `{V : BlockValidator} {VOk : BlockValidatorOk} `{R : GoRange}.

(** C3: whatever blocks arrive, in whatever order, and however the store and
    the validation fail, the chain stays consistent: the index is a tree of
    headers above one root, the main chain array is the path from the root to
    the best node, and no orphan is indexed.  The best chain never loses height
    or work: each change takes a higher node with at least as much work.  The
    nodes indexed are never lost, and [InMainChain] answers for each of them
    whether it lies on that path. *)
Theorem best_chain_stays_consistent root c events : chain_ok Sum256 root c →
  let c' := foldl (λ c e, (chain_step Sum256 c e).2) c events in
  advances Sum256 root c c' ∧
  BestNode (c_index c') = Ok (Some (c_bestNode c')) ∧
  ∀ n, indexed (nodes c') n → InMainChain (bn_Hash n) c' = true ↔ n ∈ path (c_bestNode c').
Proof.
  intros Hc c'. pose proof (chain_steps_advance Sum256 root events c Hc) as Ha. fold c' in Ha.
  clearbody c'. split_and!; [done| |].
  - destruct Ha as [[Ht Hb Hm _] _ _]. unfold BestNode. rewrite Hm, fmap_last, last_lookup.
    rewrite (path_length_nat _ _ Ht _ Hb). cbn. by rewrite (path_last _ _ Ht _ Hb).
  - intros n Hn. apply (InMainChain_path Sum256 root); [apply Ha|done].
Qed.

(** C19: a reorganisation works on the right blocks.  From the block where the
    new branch leaves the main chain, [calcReorganizeNodes] lists the nodes of
    the branch in ascending order and those of the main chain in descending
    order, and none of the attached nodes is on the main chain. *)
Theorem reorganisation_switches_branches root c n : chain_ok Sum256 root c → indexed (nodes c) n →
  ∃ fork attach detach, calcReorganizeNodes n c = Ok (attach, detach) ∧
    path n = path fork ++ attach ∧ path (c_bestNode c) = path fork ++ rev detach ∧
    Forall (λ x, x ∉ path (c_bestNode c)) attach.
Proof. apply calcReorganizeNodes_spec. Qed.

(** C25: saving the descendants of a block ends.  The recursion of
    [saveSubBlock] goes no deeper than there are orphans: within that depth it
    has a result, provided that saving a single block has one, and any larger
    bound gives the same result and the same chain. *)
Theorem saving_orphans_ends root c b fuel : (∀ b c, (saveBlock Sum256 b c).1 ≠ Fuel) →
  chain_ok Sum256 root c → (orphan_count c < fuel)%nat →
  (saveSubBlock Sum256 (sub_fuel c) b c).1 ≠ Fuel ∧
  saveSubBlock Sum256 fuel b c = saveSubBlock Sum256 (sub_fuel c) b c.
Proof.
  intros Hs Hc Hf. split.
  - apply (saveSubBlock_answers Sum256 root Hs); [done|unfold sub_fuel; lia].
  - apply (saveSubBlock_fuel Sum256 root); [done..|]. unfold sub_fuel. lia.
Qed.
End claims.
