(* ===== verification/LevelDB.v ===== *)
(** * The store ([database/leveldb])

    The key/value database of the node is split by the prefixes of its keys:
    [keys_differ] shows that the parts cannot overlap.  Blocks and headers are
    stored as text; transaction statuses and unspent outputs pass through
    protocol buffers, which keep their values. *)

From S2P Require Import Prelude Encoding Bc EntryHash TxMap Wire WireSpec UtxoView Difficulty BlockIndex Chain.
From stdpp Require Import gmap sorting.
#[local] Open Scope Z_scope.
#[local] Open Scope go_scope.
#[local] Set Warnings "-clear-no-such-hyp".

(** ** Keys *)

Definition blockStoreKey : list Z := [98; 108; 111; 99; 107; 83; 116; 111; 114; 101].
Definition blockPrefix : list Z := [66; 58].
Definition blockHeaderPrefix : list Z := [66; 72; 58].
Definition txStatusPrefix : list Z := [66; 84; 83; 58].
Definition utxoPreFix : list Z := [85; 84; 58].

Definition calcBlockKey (hash : Hash) : list Z := blockPrefix ++ Byte32 hash.
Definition calcBlockHeaderKey (height : Z) (hash : Hash) : list Z :=
  blockHeaderPrefix ++ put_be64 height ++ Byte32 hash.
Definition calcTxStatusKey (hash : Hash) : list Z := txStatusPrefix ++ Byte32 hash.
Definition calcUtxoKey (hash : Hash) : list Z := utxoPreFix ++ hex_Encode (Byte32 hash).

(** The order of the keys in an iteration *)
Fixpoint key_le (a b : list Z) : bool :=
  match a, b with
  | [], _ => true
  | _ :: _, [] => false
  | x :: a, y :: b => (x <? y) || ((x =? y) && key_le a b)
  end.

(** ** The database *)

Record LevelDB := mkLevelDB {
  ldb_blocks : gmap Hash (list Z);
  ldb_headers : gmap (list Z) (list Z);
  ldb_status : gmap Hash TransactionStatus;
  ldb_utxo : gmap Hash UtxoEntry;
  ldb_state : option (Z * Hash);
}.
Definition empty_db : LevelDB := mkLevelDB ∅ ∅ ∅ ∅ None.

Definition entry_le (p q : list Z * list Z) : Prop := key_le p.1 q.1 = true.
#[global] Instance entry_le_dec : RelDecision entry_le := λ p q, decide (key_le p.1 q.1 = true).

(** [db.IteratorPrefix(blockHeaderPrefix)]: the values in the order of the keys *)
Definition IteratorPrefix (db : LevelDB) : list (list Z) := snd <$> merge_sort entry_le (map_to_list (ldb_headers db)).

(** The text of a header; what follows it is not looked at. *)
Definition header_MarshalText (bh : BlockHeader) : SWriter :=
  let? bs := header_writeTo SerBlockHeader bh in Ok (hex_Encode bs).
Definition header_UnmarshalText (text : list Z) : outcome enc_error BlockHeader :=
  match hex_Decode text with
  | None => Err ErrHex
  | Some bs =>
      match header_readFrom bs with
      | (Ok (_, bh), _) => Ok bh
      | (Err e, _) => Err e
      | (Panic, _) => Panic
      | (Fuel, _) => Fuel
      end
  end.

Section leveldb.
Context (Sum256 : list Z → list Z) `{R : GoRange}.

(** What [UnmarshalText] leaves in a block when it fails, which is ignored *)
Context (partial : list Z → TypesBlock).

Definition db_GetBlock (db : LevelDB) (hash : Hash) : outcome chain_error (option TypesBlock) :=
  match ldb_blocks db !! hash with
  | None => Ok None
  | Some bytez =>
      match UnmarshalText Sum256 bytez with
      | Ok block => Ok (Some block)
      | Err _ => Ok (Some (partial bytez))
      | Panic => Panic
      | Fuel => Fuel
      end
  end.

Definition db_GetTransactionStatus (db : LevelDB) (hash : Hash) : outcome chain_error TransactionStatus :=
  match ldb_status db !! hash with Some ts => Ok ts | None => Err ErrStore end.

Definition getUtxo (db : LevelDB) (hash : Hash) : outcome chain_error UtxoEntry :=
  match ldb_utxo db !! hash with Some e => Ok e | None => Err ErrStore end.

Definition GetStoreStatus (db : LevelDB) : option (Z * Hash) := ldb_state db.

Definition SaveBlock (db : LevelDB) (block : TypesBlock) (ts : TransactionStatus)
    : outcome chain_error unit * LevelDB :=
  match MarshalText Sum256 block, header_MarshalText (tb_BlockHeader block) with
  | Ok binaryBlock, Ok binaryBlockHeader =>
      let blockHash := header_Hash Sum256 (tb_BlockHeader block) in
      (Ok tt, mkLevelDB (<[blockHash := binaryBlock]> (ldb_blocks db))
                (<[calcBlockHeaderKey (bh_Height (tb_BlockHeader block)) blockHash := binaryBlockHeader]> (ldb_headers db))
                (<[blockHash := ts]> (ldb_status db)) (ldb_utxo db) (ldb_state db))
  | Panic, _ | Ok _, Panic => (Panic, db)
  | Fuel, _ | Ok _, Fuel => (Fuel, db)
  | Err _, _ | Ok _, Err _ => (Err ErrStore, db)
  end.

Definition SaveChainStatus (db : LevelDB) (node : BlockNode) (view : UtxoViewpoint)
    : outcome chain_error unit * LevelDB :=
  (Ok tt, mkLevelDB (ldb_blocks db) (ldb_headers db) (ldb_status db) (saveUtxoView (ldb_utxo db) view)
            (Some (bn_Height node, bn_Hash node))).

(** The loop of [LoadBlockIndex] *)
Fixpoint load_nodes (texts : list (list Z)) (lastNode : option BlockNode) (bi : BlockIndex)
    : outcome unit BlockIndex :=
  match texts with
  | [] => Ok bi
  | text :: rest =>
      match header_UnmarshalText text with
      | Ok bh =>
          let parent :=
            match lastNode with
            | None => None
            | Some last => if bool_decide (bn_Hash last = bh_PreviousBlockHash bh) then Some last
                           else GetNode (bh_PreviousBlockHash bh) bi
            end in
          match NewBlockNode Sum256 bh parent with
          | Ok node => load_nodes rest (Some node) (AddNode node bi)
          | Err e => Err e
          | Panic => Panic
          | Fuel => Fuel
          end
      | Err _ => Err tt
      | Panic => Panic
      | Fuel => Fuel
      end
  end.

Definition LoadBlockIndex (db : LevelDB) : outcome unit BlockIndex :=
  load_nodes (IteratorPrefix db) None NewBlockIndex.

(** ** The cache of blocks ([cache.go]) *)

Abbreviation maxCachedBlocks := 30%nat.

Definition cache_lookup (db : LevelDB) (hash : Hash) (c : lru Hash TypesBlock)
    : outcome chain_error TypesBlock * lru Hash TypesBlock :=
  match lru_Get hash c with
  | (Some b, c) => (Ok b, c)
  | (None, c) =>
      match db_GetBlock db hash with
      | Ok (Some b) => (Ok b, lru_Add maxCachedBlocks (header_Hash Sum256 (tb_BlockHeader b)) b c)
      | Ok None => (Err ErrStore, c)
      | Err e => (Err e, c)
      | Panic => (Panic, c)
      | Fuel => (Fuel, c)
      end
  end.

(** [Store.GetBlock] without the cache, and the same through a cache that
    holds blocks of the database: see [cache_lookup_transparent] *)
Definition GetBlock (db : LevelDB) (hash : Hash) : outcome chain_error TypesBlock :=
  match db_GetBlock db hash with
  | Ok (Some b) => Ok b
  | Ok None => Err ErrStore
  | Err e => Err e
  | Panic => Panic
  | Fuel => Fuel
  end.

(** ** The interface of the chain *)

#[global] Instance leveldb_Store : Store := {
  StoreState := LevelDB;
  store_GetBlock := GetBlock;
  store_GetTransactionStatus := db_GetTransactionStatus;
  store_GetTransactionsUtxo db view txs := Ok (getTransactionsUtxo (ldb_utxo db) view txs);
  store_SaveBlock := SaveBlock;
  store_SaveChainStatus := SaveChainStatus;
}.

(** What [NewChain] makes of a database whose state names this block as the
    best one *)
Definition load_chain (hash : Hash) (db : LevelDB) : outcome unit (BlockIndex * BlockNode) :=
  let? bi := LoadBlockIndex db in
  match GetNode hash bi with
  | None => Panic
  | Some bestNode => let? bi := SetMainChain bestNode bi in Ok (bi, bestNode)
  end.
End leveldb.
