(* ===== verification/LevelDBSpec.v ===== *)
(** * The store: keys, cache, and restarting the node *)

From S2P Require Import Prelude Encoding Bc EntryHash TxMap Wire WireSpec UtxoView Difficulty BlockIndex Chain LevelDB.
From stdpp Require Import gmap sorting.
#[local] Open Scope Z_scope.
#[local] Open Scope go_scope.
#[local] Set Default Goal Selector "!".
#[local] Set Warnings "-clear-no-such-hyp".

(** ** Keys *)

Lemma put_be64_inj a b : is_uint64 a → is_uint64 b → put_be64 a = put_be64 b → a = b.
Proof.
  intros Ha Hb Heq. rewrite <- (be64_put a []), <- (be64_put b []) by done. by rewrite Heq.
Qed.

(** The parts of the database do not overlap: the first letters of their keys
    differ. *)
Lemma keys_differ h1 h2 h3 h4 height :
  NoDup [blockStoreKey; calcBlockKey h1; calcBlockHeaderKey height h2; calcTxStatusKey h3; calcUtxoKey h4].
Proof.
  unfold calcBlockKey, calcBlockHeaderKey, calcTxStatusKey, calcUtxoKey. cbn.
  repeat (apply NoDup_cons; split; [rewrite ?not_elem_of_cons; split_and?; try done; apply not_elem_of_nil|]).
  apply NoDup_nil_2.
Qed.

Lemma calcBlockHeaderKey_inj h1 h2 a b : is_uint64 h1 → is_uint64 h2 → hash_ok a → hash_ok b →
  calcBlockHeaderKey h1 a = calcBlockHeaderKey h2 b → h1 = h2 ∧ a = b.
Proof.
  intros ???? Heq. unfold calcBlockHeaderKey in Heq. apply app_inv_head in Heq.
  apply app_inj_1 in Heq as [Hh Ha]; [|by rewrite !length_put_be64].
  split; [by apply put_be64_inj|by apply Byte32_inj].
Qed.

(** *** The order of an iteration *)

#[local] Instance entry_le_total : Total entry_le.
Proof.
  intros [a ?] [b ?]. unfold entry_le. cbn. revert b. induction a as [|x a IH]; intros [|y b]; cbn; [by auto..|].
  destruct (Z.ltb_spec x y); [by left|]. destruct (Z.ltb_spec y x); [by right|].
  replace y with x by lia. rewrite Z.eqb_refl. cbn. apply IH.
Qed.

#[local] Instance entry_le_trans : Transitive entry_le.
Proof.
  intros [a ?] [b ?] [c ?]. unfold entry_le. cbn. revert b c. induction a as [|x a IH]; intros [|y b] [|z c]; cbn; try done.
  rewrite !orb_true_iff, !andb_true_iff, !Z.ltb_lt, !Z.eqb_eq. intros [?|[-> H1]] [?|[-> H2]]; [left; lia..|].
  right. split; [done|by eapply IH].
Qed.

Lemma be_value_fold bs : ∀ acc, fold_left (λ acc b, 256 * acc + b) bs acc = acc * 256 ^ len bs + be_value bs.
Proof.
  induction bs as [|b bs IH]; intros acc; [change (acc = acc * 1 + 0); lia|]. unfold be_value. cbn [fold_left]. rewrite !IH, len_cons, Z.pow_add_r.
  - lia.
  - lia.
  - apply len_nonneg.
Qed.

Lemma be_value_cons b bs : be_value (b :: bs) = b * 256 ^ len bs + be_value bs.
Proof. unfold be_value at 1. cbn [fold_left]. rewrite be_value_fold. lia. Qed.

Lemma be_value_bound bs : Forall is_byte bs → 0 <= be_value bs < 256 ^ len bs.
Proof.
  intros Hb. rewrite <- (rev_involutive bs), be_value_rev. replace (len (rev (rev bs))) with (len (rev bs)).
  - by apply le_value_bound, Forall_rev.
  - unfold len. by rewrite !length_rev.
Qed.

Lemma key_le_value a : ∀ b x y, Forall is_byte a → Forall is_byte b → length a = length b →
  key_le (a ++ x) (b ++ y) = true → be_value a <= be_value b.
Proof.
  induction a as [|u a IH]; intros [|v b] x y Ha Hb Hl; try done. apply Forall_cons in Ha as [Hu Ha], Hb as [Hv Hb].
  cbn [app key_le]. rewrite orb_true_iff, andb_true_iff, Z.ltb_lt, Z.eqb_eq, !be_value_cons. injection Hl as Hl.
  assert (len a = len b) as Hlen by (unfold len; lia). pose proof (be_value_bound a Ha). pose proof (be_value_bound b Hb).
  rewrite Hlen in *. intros [?|[-> Hk]]; [nia|]. specialize (IH b x y Ha Hb Hl Hk). lia.
Qed.

Lemma put_be64_bytes v : Forall is_byte (put_be64 v).
Proof. apply Forall_rev, le_bytes_range. Qed.

Lemma be_value_put v : is_uint64 v → be_value (put_be64 v) = v.
Proof.
  intros Hv. pose proof (be64_put v [] Hv) as Hb. unfold be64 in Hb. rewrite app_nil_r in Hb.
  by rewrite take_ge in Hb by (by rewrite length_put_be64).
Qed.

(** Headers come in the order of their heights. *)
Lemma header_keys_ordered h1 h2 a b : is_uint64 h1 → is_uint64 h2 →
  key_le (calcBlockHeaderKey h1 a) (calcBlockHeaderKey h2 b) = true → h1 <= h2.
Proof.
  intros H1 H2 Hk. pose proof (be_value_put h1 H1) as Hv1. pose proof (be_value_put h2 H2) as Hv2.
  unfold calcBlockHeaderKey in Hk. pose proof (put_be64_bytes h1). pose proof (put_be64_bytes h2).
  assert (length (put_be64 h1) = length (put_be64 h2)) by (by rewrite !length_put_be64).
  revert Hv1 Hv2 Hk. generalize dependent (put_be64 h2). generalize dependent (put_be64 h1).
  intros bs1 Hb1 bs2 Hb2 Hl <- <- Hk. exact (key_le_value bs1 bs2 _ _ Hb1 Hb2 Hl Hk).
Qed.

#[local] Opaque calcBlockHeaderKey.

(** ** The text of a header *)

(** Bytes, and not more than [n] *)
Definition short (n : Z) (w : SWriter) : Prop := ∀ bs, w = Ok bs → Forall is_byte bs ∧ len bs <= n.

Lemma short_then n m a b : short n a → short m b → short (n + m) (a @> b).
Proof.
  intros Ha Hb bs (x & y & Hx & Hy & ->)%then_put_Ok. destruct (Ha x Hx), (Hb y Hy). rewrite len_app.
  split; [by apply Forall_app|lia].
Qed.

Lemma short_varint63 v : 0 <= v → short 10 (put_varint63 v).
Proof.
  intros Hv bs. unfold put_varint63, WriteVarint63. destruct (_ <? _); [done|]. intros <-%Ok_inj.
  split; [by apply put_bytes|]. pose proof (length_put 10 v). unfold len. lia.
Qed.

Lemma short_hash h : short 32 (put_hash h).
Proof.
  intros bs <-%Ok_inj. split; [|unfold len; rewrite length_Byte32; lia]. unfold Byte32.
  rewrite !Forall_app. split_and!; apply put_be64_bytes.
Qed.

Lemma short_extensible n w : short n w → short (10 + n) (put_extensible [] w).
Proof.
  intros Hw bs. unfold put_extensible. destruct w as [x| | |] eqn:Hx; try done. cbn [obind]. rewrite app_nil_r.
  destruct (Hw x eq_refl) as [Hb Hl]. unfold put_varstr, WriteVarstr31, WriteVarint31. destruct (_ <? _); [done|].
  intros <-%Ok_inj. rewrite len_app. pose proof (length_put 10 (uint64 (len x))).
  split; [|unfold len in *; lia]. apply Forall_app. split; [|done]. apply put_bytes, uint64_range.
Qed.

Lemma short_header f bh : is_byte f → wire_header bh → short 250 (header_writeTo f bh).
Proof.
  intros Hf (? & ? & ? & ? & ? & ? & _). unfold header_writeTo, commitment_writeTo.
  intros bs Hbs. eapply (short_then 1 249) in Hbs; [exact Hbs| |].
  - intros ? <-%Ok_inj. split; [by apply Forall_singleton|by vm_compute].
  - apply (short_then 10 239); [by apply short_varint63|]. apply (short_then 10 229); [by apply short_varint63|].
    apply (short_then 32 197); [apply short_hash|]. apply (short_then 10 187); [by apply short_varint63|].
    apply (short_then 167 20).
    + eapply (short_extensible 157). apply (short_then 32 125); [apply short_hash|]. apply (short_then 32 93); [apply short_hash|].
      intros ? Hh. destruct (short_hash _ _ Hh). split; [done|lia].
    + apply (short_then 10 10); by apply short_varint63.
Qed.

Lemma header_text_roundtrip bh text : wire_header bh → header_MarshalText bh = Ok text →
  header_UnmarshalText text = Ok bh.
Proof.
  intros Hw. unfold header_MarshalText. destruct (header_writeTo _ bh) as [bs| | |] eqn:Hbs; try done. intros <-%Ok_inj.
  destruct (short_header SerBlockHeader bh ltac:(ranges; lia) Hw bs Hbs) as [Hbytes Hl].
  unfold header_UnmarshalText. rewrite hex_Decode_Encode by done.
  pose proof (reads_back_header SerBlockHeader bh ltac:(by left) Hw bs [] Hbs) as Hr. rewrite app_nil_r in Hr.
  rewrite Hr; [done|]. unfold go_len. lia.
Qed.

(** ** The laws of the interface *)

Section spec.
Context (Sum256 : list Z → list Z) `{R : GoRange} (partial : list Z → TypesBlock).

Lemma header_writeTo_height f bh bs : header_writeTo f bh = Ok bs → bh_Height bh < 2 ^ 63.
Proof.
  unfold header_writeTo. intros (? & ? & _ & Hbs & _)%then_put_Ok. apply then_put_Ok in Hbs as (? & ? & _ & Hbs & _).
  apply then_put_Ok in Hbs as (? & ? & Hh & _ & _). unfold put_varint63, WriteVarint63 in Hh.
  destruct (Z.ltb_spec MaxInt64 (bh_Height bh)); [done|lia].
Qed.

#[global] Instance leveldb_StoreOk : @StoreOk (leveldb_Store Sum256 partial).
Proof.
  constructor. intros st b ts st'. cbn. unfold SaveBlock. destruct (MarshalText Sum256 b); try done.
  unfold header_MarshalText. destruct (header_writeTo _ _) as [bs| | |] eqn:Hbs; try done. intros _.
  by eapply header_writeTo_height.
Qed.

(** The cache answers as the database does, as long as its entries are the
    blocks of the database and each block is stored under its own hash. *)
Definition coherent (db : LevelDB) (c : lru Hash TypesBlock) : Prop :=
  Forall (λ p, db_GetBlock Sum256 partial db p.1 = Ok (Some p.2)) c.

Lemma cache_lookup_transparent db hash c :
  (∀ h b, db_GetBlock Sum256 partial db h = Ok (Some b) → header_Hash Sum256 (tb_BlockHeader b) = h) → coherent db c →
  (cache_lookup Sum256 partial db hash c).1 = GetBlock Sum256 partial db hash ∧
  coherent db (cache_lookup Sum256 partial db hash c).2.
Proof.
  intros Hown Hc. unfold cache_lookup, GetBlock. pose proof (lru_Get_Forall _ hash c Hc) as Hc'.
  unfold lru_Get in *. destruct (lru_find hash c) as [b|] eqn:Hf.
  - split; [|exact Hc']. apply lru_find_in in Hf. unfold coherent in Hc. rewrite Forall_forall in Hc.
    pose proof (Hc _ Hf) as Hb. cbn in Hb. by rewrite Hb.
  - destruct (db_GetBlock _ _ db hash) as [[b|]| | |] eqn:Hb; cbn; [|by split..]. split; [done|].
    apply lru_Add_Forall; [|done]. cbn. by rewrite (Hown _ _ Hb).
Qed.

(** ** Restarting *)

Definition header_key (n : BlockNode) : list Z := calcBlockHeaderKey (bn_Height n) (bn_Hash n).

(** The headers of the index are the headers of the database. *)
Record stored (index : gmap Hash BlockNode) (db : LevelDB) : Prop := {
  sd_hash : map_Forall (λ h _, hash_ok h) index;
  sd_text : map_Forall (λ _ n, ∃ text, ldb_headers db !! header_key n = Some text ∧
    header_UnmarshalText text = Ok (node_header n)) index;
  sd_node : map_Forall (λ key _, ∃ n, indexed index n ∧ key = header_key n) (ldb_headers db);
  sd_made : map_Forall (λ _ n, NewBlockNode Sum256 (node_header n) (bn_Parent n) = Ok n) index;
}.

Section restart.
Context (root : BlockNode) (index : gmap Hash BlockNode) (db : LevelDB) (Htree : tree_ok root index) (Hdb : stored index db).

Lemma height_uint64 n : indexed index n → is_uint64 (bn_Height n).
Proof.
  intros Hn. pose proof (height_nonneg root index Htree n Hn). pose proof (to_bound _ _ Htree _ _ Hn) as Hb. cbn in Hb.
  ranges. lia.
Qed.

Lemma header_key_inj n m : indexed index n → indexed index m → header_key n = header_key m → n = m.
Proof.
  intros Hn Hm Hk. apply (indexed_inj index n m Hn Hm).
  exact (proj2 (calcBlockHeaderKey_inj _ _ _ _ (height_uint64 n Hn) (height_uint64 m Hm)
                  (sd_hash _ _ Hdb _ _ Hn) (sd_hash _ _ Hdb _ _ Hm) Hk)).
Qed.

Lemma entry_node e : ldb_headers db !! e.1 = Some e.2 →
  ∃ n, indexed index n ∧ e.1 = header_key n ∧ header_UnmarshalText e.2 = Ok (node_header n).
Proof.
  intros He. destruct (sd_node _ _ Hdb _ _ He) as (n & Hn & Hk). exists n. split_and!; [done..|].
  destruct (sd_text _ _ Hdb _ _ Hn) as (text & Ht & Hu). congruence.
Qed.

Lemma entries_nodes es : Forall (λ e, ldb_headers db !! e.1 = Some e.2) es → StronglySorted entry_le es →
  ∃ ns, es.*1 = header_key <$> ns ∧ Forall (indexed index) ns ∧
    Forall2 (λ text n, header_UnmarshalText text = Ok (node_header n)) es.*2 ns ∧
    StronglySorted (λ a b, bn_Height a <= bn_Height b) ns.
Proof.
  intros He Hs. induction Hs as [|e es Hs IH Hle]; [by exists []; repeat constructor|].
  apply Forall_cons in He as [He Hes]. destruct (IH Hes) as (ns & Hk & Hi & Ht & Hsn).
  destruct (entry_node e He) as (n & Hn & Hkn & Hun). exists (n :: ns).
  split_and!; [by rewrite !fmap_cons, Hkn, Hk|by constructor|by constructor|]. constructor; [done|].
  apply Forall_forall. intros m Hm. rewrite Forall_forall in Hi.
  assert (header_key m ∈ es.*1) as Hin by (rewrite Hk; by apply list_elem_of_fmap_2).
  apply list_elem_of_fmap in Hin as (e' & Hke' & Hin'). rewrite Forall_forall in Hle. specialize (Hle _ Hin').
  unfold entry_le in Hle. rewrite Hkn, <- Hke' in Hle.
  exact (header_keys_ordered _ _ _ _ (height_uint64 n Hn) (height_uint64 m (Hi m Hm)) Hle).
Qed.

(** The nodes in the order of the iteration *)
Lemma iteration_nodes : ∃ ns,
  Forall2 (λ text n, header_UnmarshalText text = Ok (node_header n)) (IteratorPrefix db) ns ∧
  Forall (indexed index) ns ∧ StronglySorted (λ a b, bn_Height a <= bn_Height b) ns ∧ NoDup ns ∧
  ∀ n, indexed index n → n ∈ ns.
Proof.
  set (es := merge_sort entry_le (map_to_list (ldb_headers db))).
  assert (es ≡ₚ map_to_list (ldb_headers db)) as Hperm by apply merge_sort_Permutation.
  destruct (entries_nodes es) as (ns & Hk & Hi & Ht & Hs).
  - apply Forall_forall. intros [k t]. rewrite Hperm. apply elem_of_map_to_list.
  - apply StronglySorted_merge_sort; apply _.
  - exists ns. split_and!; [done..| |].
    + eapply NoDup_fmap_1. rewrite <- Hk, Hperm. apply NoDup_fst_map_to_list.
    + intros n Hn. destruct (sd_text _ _ Hdb _ _ Hn) as (text & Htext & _).
      assert (header_key n ∈ es.*1) as Hin.
      { rewrite Hperm. apply list_elem_of_fmap. exists (header_key n, text). split; [done|]. by apply elem_of_map_to_list. }
      rewrite Hk in Hin. apply list_elem_of_fmap in Hin as (m & Hkm & Hm). rewrite Forall_forall in Hi.
      by rewrite (header_key_inj n m Hn (Hi m Hm) Hkm).
Qed.

(** What is loaded so far: the nodes below the remaining ones *)
Record loaded (last : option BlockNode) (bi : BlockIndex) (ns : list BlockNode) : Prop := {
  ld_index : bi_index bi ⊆ index;
  ld_main : bi_mainChain bi = [];
  ld_last : match last with None => bi_index bi = ∅ | Some l => indexed (bi_index bi) l end;
  ld_rest : ∀ n, indexed index n → indexed (bi_index bi) n ∨ n ∈ ns;
  ld_below : ∀ d n, indexed (bi_index bi) d → n ∈ ns → bn_Height d <= bn_Height n ∧ d ≠ n;
}.

(** The parent of the next node is found. *)
Lemma loaded_parent last bi n ns : loaded last bi (n :: ns) → indexed index n →
  StronglySorted (λ a b, bn_Height a <= bn_Height b) (n :: ns) →
  match last with
  | None => None
  | Some l => if bool_decide (bn_Hash l = bh_PreviousBlockHash (node_header n)) then Some l
              else GetNode (bh_PreviousBlockHash (node_header n)) bi
  end = bn_Parent n.
Proof.
  intros Hl Hn [Hs Hle]%StronglySorted_inv. rewrite Forall_forall in Hle.
  assert (∀ d, indexed (bi_index bi) d → indexed index d) as Hsub
    by (intros d Hd; eapply lookup_weaken; [exact Hd|apply Hl]).
  destruct (bn_Parent n) as [p|] eqn:Hp.
  - destruct (indexed_parent _ _ Htree n p Hn Hp) as (Hip & Hh & _).
    assert (indexed (bi_index bi) p) as Hpl.
    { destruct (ld_rest _ _ _ Hl p Hip) as [?|Hin]; [done|]. apply elem_of_cons in Hin as [->|Hin]; [lia|].
      specialize (Hle p Hin). cbn in Hle. lia. }
    destruct last as [l|]; [|pose proof (ld_last _ _ _ Hl) as He; unfold indexed in Hpl; cbn in He; rewrite He in Hpl; done].
    cbn [node_header bh_PreviousBlockHash]. rewrite Hp. case_bool_decide as Hc; [|done]. f_equal.
    apply (indexed_inj index); [apply Hsub, (ld_last _ _ _ Hl)|done|done].
  - destruct last as [l|]; [|done]. exfalso. pose proof (ld_last _ _ _ Hl) as Hil. cbn in Hil.
    destruct (ld_below _ _ _ Hl l n Hil ltac:(by left)) as [Hh Hne]. destruct (indexed_root _ _ Htree n Hn Hp) as [-> Hz].
    destruct (bn_Parent l) as [q|] eqn:Hq; [|by destruct (indexed_root _ _ Htree l (Hsub l Hil) Hq)].
    destruct (indexed_parent _ _ Htree l q (Hsub l Hil) Hq) as (Hiq & Hhq & _).
    pose proof (height_nonneg root index Htree q Hiq). lia.
Qed.

Lemma loaded_next last bi n ns : loaded last bi (n :: ns) → indexed index n → NoDup (n :: ns) →
  StronglySorted (λ a b, bn_Height a <= bn_Height b) (n :: ns) → loaded (Some n) (AddNode n bi) ns.
Proof.
  intros Hl Hn [Hnin _]%NoDup_cons [_ Hle]%StronglySorted_inv. rewrite Forall_forall in Hle.
  assert (∀ d, indexed (<[bn_Hash n := n]> (bi_index bi)) d ↔ d = n ∨ indexed (bi_index bi) d) as Hins.
  { intros d. unfold indexed. destruct (decide (bn_Hash d = bn_Hash n)) as [Hh|Hh].
    - rewrite Hh, lookup_insert_eq. split; [intros [= ->]; by left|]. intros [->|Hd]; [done|]. f_equal.
      apply (indexed_inj index n d Hn); [|done]. rewrite <- Hh in Hd. eapply lookup_weaken; [exact Hd|apply Hl].
    - rewrite lookup_insert_ne by done. split; [by right|]. by intros [->|?]. }
  split; cbn.
  - apply insert_subseteq_l; [exact Hn|apply Hl].
  - apply Hl.
  - apply Hins. by left.
  - intros m Hm. rewrite Hins. destruct (ld_rest _ _ _ Hl m Hm) as [?|Hin]; [auto|].
    apply elem_of_cons in Hin as [->|]; auto.
  - intros d m Hd Hm. apply Hins in Hd as [->|Hd]; [split; [by apply Hle|congruence]|].
    apply (ld_below _ _ _ Hl d m Hd). by right.
Qed.

Lemma load_nodes_index texts ns : Forall2 (λ text n, header_UnmarshalText text = Ok (node_header n)) texts ns →
  Forall (indexed index) ns → StronglySorted (λ a b, bn_Height a <= bn_Height b) ns → NoDup ns →
  ∀ last bi, loaded last bi ns → load_nodes Sum256 texts last bi = Ok (mkBlockIndex index []).
Proof.
  induction 1 as [|text n texts ns Hu Hf IH]; intros Hi Hs Hd last bi Hl; cbn [load_nodes].
  - assert (bi_index bi = index) as Heq.
    { apply map_eq. intros h. destruct (index !! h) as [n|] eqn:Hn.
      - pose proof (indexed_lookup _ _ Htree _ _ Hn) as Hin. destruct (ld_rest _ _ _ Hl n Hin) as [Hb|Hb]; [|by apply elem_of_nil in Hb].
        unfold indexed in Hb. by rewrite (to_hash _ _ Htree _ _ Hn) in Hb.
      - eapply lookup_weaken_None; [exact Hn|apply Hl]. }
    destruct bi as [i m]. pose proof (ld_main _ _ _ Hl) as Hm. cbn in Heq, Hm. by rewrite Heq, Hm.
  - apply Forall_cons in Hi as [Hn Hi]. rewrite Hu, (loaded_parent last bi n ns Hl Hn Hs).
    rewrite (sd_made _ _ Hdb _ _ Hn). apply IH; [done|by apply StronglySorted_inv in Hs as [? _]|by apply NoDup_cons in Hd as [_ ?]|].
    by eapply loaded_next.
Qed.

Lemma LoadBlockIndex_stored : LoadBlockIndex Sum256 db = Ok (mkBlockIndex index []).
Proof.
  destruct iteration_nodes as (ns & Hf & Hi & Hs & Hd & Hall). unfold LoadBlockIndex.
  apply (load_nodes_index _ ns); [done..|]. split; [apply map_empty_subseteq|done|done|by right; apply Hall|].
  intros d n Hn. unfold indexed in Hn. cbn in Hn. by rewrite lookup_empty in Hn.
Qed.
End restart.

(** Saving a block keeps the database and the index in step. *)
Lemma SaveBlock_stored root index db b ts db' n p : tree_ok root index → stored index db →
  SaveBlock Sum256 db b ts = (Ok tt, db') → wire_header (tb_BlockHeader b) →
  NewBlockNode Sum256 (tb_BlockHeader b) (Some p) = Ok n → indexed index p → index !! bn_Hash n = None → hash_ok (bn_Hash n) →
  bh_PreviousBlockHash (tb_BlockHeader b) = bn_Hash p → bh_Height (tb_BlockHeader b) = bn_Height p + 1 →
  stored (<[bn_Hash n := n]> index) db'.
Proof.
  intros Ht Hdb Hsave Hwire Hnode Hp Hnew Hok Hprev Hheight. pose proof (height_nonneg root index Ht p Hp) as Hp0.
  pose proof Hnode as Hmade. unfold NewBlockNode in Hnode. rewrite (proj2 (Z.eqb_neq _ _)) in Hnode by lia. apply Ok_inj in Hnode.
  assert (node_header n = tb_BlockHeader b) as Hnh.
  { rewrite <- Hnode. unfold node_header. cbn. destruct (tb_BlockHeader b). cbn in *. by rewrite Hprev. }
  assert (bn_Parent n = Some p) as Hpar by (by rewrite <- Hnode).
  assert (bn_Hash n = header_Hash Sum256 (tb_BlockHeader b)) as Hhash by (by rewrite <- Hnode).
  assert (bn_Height n = bh_Height (tb_BlockHeader b)) as Hh by (by rewrite <- Hnode). clear Hnode.
  unfold SaveBlock in Hsave. destruct (MarshalText Sum256 b) as [bb| | |]; try done.
  destruct (header_MarshalText _) as [bt| | |] eqn:Hbt; try done.
  apply (f_equal snd) in Hsave. cbn [snd] in Hsave. rewrite <- Hhash, <- Hh in Hsave. fold (header_key n) in Hsave.
  assert (∀ h x, index !! h = Some x → header_key x ≠ header_key n) as Hne.
  { intros h x Hx Hk. pose proof (indexed_lookup _ _ Ht _ _ Hx) as Hix. pose proof (height_uint64 root index Ht x Hix) as Hux.
    assert (is_uint64 (bn_Height n)) as Hun by (pose proof (to_bound _ _ Ht _ _ Hp) as Hb; cbn in Hb; rewrite Hh, Hheight; ranges; lia).
    destruct (calcBlockHeaderKey_inj _ _ _ _ Hux Hun (sd_hash _ _ Hdb _ _ Hix) Hok Hk) as [_ Heq].
    unfold indexed in Hix. congruence. }
  subst db'. split; cbn [ldb_headers].
  - apply map_Forall_insert_2; [done|apply Hdb].
  - intros h x [[<- <-]|[Hn Hx]]%lookup_insert_Some.
    + exists bt. rewrite lookup_insert_eq, Hnh. split; [done|]. by eapply header_text_roundtrip.
    + destruct (sd_text _ _ Hdb h x Hx) as (t & Htx & Hu). exists t. rewrite lookup_insert_ne; [done|].
      intros Hk. by apply (Hne h x Hx).
  - intros k t [[<- _]|[_ Hk]]%lookup_insert_Some.
    + exists n. split; [apply lookup_insert_eq|done].
    + destruct (sd_node _ _ Hdb k t Hk) as (x & Hx & ->). exists x. split; [by apply indexed_insert|done].
  - apply map_Forall_insert_2; [by rewrite Hnh, Hpar|apply Hdb].
Qed.

(** C26: the node finds its chain again.  When the headers in the database are
    those of the index, which saving blocks keeps, loading them in the order of
    their keys rebuilds the index node by node, parents first, and the stored
    best block gives the same main chain: after a restart the index and the
    best node are the ones before. *)
Theorem restart_restores_the_chain root index db best : tree_ok root index → stored index db → indexed index best →
  load_chain Sum256 (bn_Hash best) db = Ok (mkBlockIndex index (Some <$> path best), best).
Proof.
  intros Ht Hdb Hb. unfold load_chain. rewrite (LoadBlockIndex_stored root index db Ht Hdb). cbn [obind].
  unfold GetNode. cbn [bi_index]. rewrite Hb.
  by rewrite (SetMainChain_path root index Ht best best (mkBlockIndex index []) eq_refl Hb Hb (or_introl eq_refl)).
Qed.
End spec.
