(* ===== verification/ChainSetup.v ===== *)
(** * The chain with its validation

    [ValidateBlock] on the account database implements the interface that the
    chain expects.  Opening go-ethereum's database at a root and committing to
    it are the fields of [EvmDisk]. *)

From S2P Require Import Prelude GoSlice VmMachine Encoding Bc EntryHash TxMap TxValidation Difficulty BlockValidation Chain.
#[local] Open Scope Z_scope.
#[local] Set Warnings "-clear-no-such-hyp".

(** [evm_state.New] (none when the root is unknown), [Commit] and
    [TrieDB().Commit] *)
Class EvmDisk `{E : VmEnv} := {
  Disk : Type;
  evm_New : Disk → Hash → option StateDB;
  evm_Commit : Disk → StateDB → outcome chain_error unit * Disk;
}.

Section setup.
Context `{E : VmEnv} `{R : GoRange} {DB : BlockDB} {K : EvmDisk}.

(** The accounts on disk, the byte arrays of the machine, the clock, the
    configuration and the bounds of the validation *)
Record Validation := mkValidation {
  va_disk : Disk;
  va_heap : heap;
  va_now : Z;
  va_SupportBalanceInStateDB : bool;
  va_fuel : nat;
  va_rounds : nat;
}.

Definition with_heap (h : heap) (w : Validation) : Validation :=
  mkValidation (va_disk w) h (va_now w) (va_SupportBalanceInStateDB w) (va_fuel w) (va_rounds w).
Definition with_disk (d : Disk) (w : Validation) : Validation :=
  mkValidation d (va_heap w) (va_now w) (va_SupportBalanceInStateDB w) (va_fuel w) (va_rounds w).

(** [NewState] and [ValidateBlock] in [saveBlock] *)
Definition open_and_validate (w : Validation) (info : Z * Z * Z) (b : Block) (parent : BlockNode)
    : outcome chain_error (TransactionStatus * StateDB) * Validation :=
  match evm_New (va_disk w) (bc_StateRoot (bn_BlockCommitment parent)) with
  | None => (Err ErrState, w)
  | Some d =>
      let bs := mkBlockSubject (va_now w) info (va_SupportBalanceInStateDB w) (va_fuel w) (va_rounds w) in
      let '(o, st) := ValidateBlock bs b parent (va_heap w) d in
      (match o with
       | Ok _ => Ok (st_status st, st_db st)
       | Err _ => Err ErrBadBlock
       | Panic => Panic
       | Fuel => Fuel
       end, with_heap (st_heap st) w)
  end.

Definition commit_accounts (w : Validation) (d : StateDB) : outcome chain_error unit * Validation :=
  let '(o, disk) := evm_Commit (va_disk w) d in (o, with_disk disk w).

#[global] Instance validation_BlockValidator : BlockValidator := {
  World := Validation;
  Accounts := StateDB;
  validate := open_and_validate;
  commit := commit_accounts;
}.

Lemma ValidateBlockHeader_Ok Sum256 now b parent : ValidateBlockHeader Sum256 now b parent = Ok tt →
  bb_Height (blk_Header b) = uint64 (bn_Height parent + 1) ∧ bb_PreviousBlockId (blk_Header b) = bn_Hash parent.
Proof.
  unfold ValidateBlockHeader. destruct (_ <? _); [done|]. destruct (Z.eqb_spec (bb_Height (blk_Header b)) (uint64 (bn_Height parent + 1)));
    [|done]. cbn [negb]. destruct (CalcNextBits parent); [|done..]. destruct (negb (_ =? _)); [done|].
  case_bool_decide; [|done]. by auto.
Qed.

Lemma ValidateBlock_header bs b parent h d st : ValidateBlock bs b parent h d = (Ok tt, st) →
  ValidateBlockHeader sha3_Sum256 (bs_now bs) b parent = Ok tt.
Proof. unfold ValidateBlock. destruct (ValidateBlockHeader _ _ _ _) as [[]| | |]; by cbn. Qed.

#[global] Instance validation_BlockValidatorOk : BlockValidatorOk.
Proof.
  constructor. intros w info b parent r w'. cbn. unfold open_and_validate. destruct (evm_New _ _) as [d|]; [|done].
  destruct (ValidateBlock _ _ _ _ _) as [[[]| | |] st] eqn:Hv; [|done..]. intros _.
  eapply ValidateBlockHeader_Ok, ValidateBlock_header, Hv.
Qed.
End setup.
