(* ===== verification/ChainExamples.v ===== *)
(** * Concrete chains

    The chain with the leveldb store and the validation of this library, on
    the small ledger of the block examples: forks, a reorganisation, orphans,
    a restart, and orphans that crash the node. *)

From S2P Require Import Prelude GoSlice VmMachine Encoding Bc EntryHash Merkle TxMap Wire WireSpec.
From S2P Require Import TxValidation TxConservation UtxoView Difficulty BlockValidation BlockExamples.
From S2P Require Import TxPool BlockIndex Orphans Chain ChainSpec LevelDB LevelDBSpec ChainSetup.
From stdpp Require Import gmap.
#[local] Open Scope Z_scope.

#[local] Existing Instance ledger_env.
#[local] Existing Instance toy_range.
#[local] Existing Instance ledger_db.

#[local] Instance toy_disk : EvmDisk := {|
  Disk := unit;
  evm_New := λ _ _, Some tt;
  evm_Commit := λ _ _, (Ok tt, tt);
|}.

Definition genesis_header : BlockHeader :=
  mkHeader 1 0 zero 1000 0 (BigToCompact (2 ^ 256)) (mkCommitment zero zero zero).
Definition genesis_node : BlockNode :=
  mkNode None (header_Hash toy_sum genesis_header) InitialSeed (CalcWork (BigToCompact (2 ^ 256))) 1 0 1000 0
    (BigToCompact (2 ^ 256)) (mkCommitment zero zero zero).

Definition genesis_block : TypesBlock := mkTypesBlock genesis_header [].

#[local] Instance toy_store : Store := leveldb_Store toy_sum (λ _, genesis_block).
#[local] Instance toy_store_ok : StoreOk := leveldb_StoreOk toy_sum (λ _, genesis_block).

Definition db0 : LevelDB := (SaveBlock toy_sum empty_db genesis_block NewTransactionStatus).2.
Definition chain0 : Chain :=
  mkChain (mkBlockIndex {[ bn_Hash genesis_node := genesis_node ]} [Some genesis_node]) NewOrphanManage (NewTxPool 0)
    db0 genesis_node (mkValidation tt [[1]] 5000 false 6 1000).

(** A valid block with only a coinbase, after this header *)
Definition tagged_coinbase (tag : Z) : TxData :=
  mkTxData 1 100 0 [mkTxInput 1 (Some (CoinbaseInput [tag])) [] []] [toy_txout 750000000] [].
Definition block_on (prev : BlockHeader) (time tag : Z) : TypesBlock :=
  let td := tagged_coinbase tag in
  let tx := mapped_tx td in
  mkTypesBlock (mkHeader 1 (bh_Height prev + 1) (header_Hash toy_sum prev) time 0 (BigToCompact (2 ^ 256))
                  (mkCommitment (root_of (TxMerkleRoot toy_sum [tx]))
                     (root_of (TxStatusMerkleRoot toy_sum [mkTxVerifyResult false []])) zero))
    [mkTypesTx td tx].

Definition block1 : TypesBlock := block_on genesis_header 1013 1.
Definition rival1 : TypesBlock := block_on genesis_header 1014 2.
Definition rival2 : TypesBlock := block_on (tb_BlockHeader rival1) 1027 3.
Definition rival2' : TypesBlock := block_on (tb_BlockHeader rival1) 1028 4.

Definition run_chain (c : Chain) (events : list chain_event) : Chain :=
  foldl (λ c e, (chain_step toy_sum c e).2) c events.
Definition best_hash (c : Chain) : Hash := bn_Hash (c_bestNode c).

(** ** The first chain is consistent *)

Lemma genesis_tree : tree_ok genesis_node {[ bn_Hash genesis_node := genesis_node ]}.
Proof. split; try (by apply map_Forall_singleton); done. Qed.

Lemma chain0_ok : chain_ok toy_sum genesis_node chain0.
Proof.
  split; [exact genesis_tree| |reflexivity|apply map_Forall_empty].
  unfold indexed, nodes. cbn [chain0 c_index c_bestNode bi_index]. apply lookup_singleton_eq.
Qed.

Definition fork_events : list chain_event := [BlockArrives 0 block1; BlockArrives 0 rival1].
Definition forked_chain : Chain := run_chain chain0 fork_events.
Definition rival_node : BlockNode := default genesis_node (nodes forked_chain !! block_Hash toy_sum rival1).

Lemma forked_chain_ok : chain_ok toy_sum genesis_node forked_chain.
Proof. apply (ad_ok _ _ _ _ (chain_steps_advance toy_sum genesis_node fork_events chain0 chain0_ok)). Qed.

Lemma rival_node_indexed : indexed (nodes forked_chain) rival_node.
Proof. vm_compute. reflexivity. Qed.

(** Two rivals of the block that arrived first: the chain switches when the
    second one arrives. *)
Definition switch_events : list chain_event := fork_events ++ [BlockArrives 0 rival2].

Lemma best_chain_stays_consistent_witness :
  let c' := run_chain chain0 switch_events in
  (bool_decide (best_hash c' = block_Hash toy_sum rival2), InMainChain (block_Hash toy_sum block1) c') = (true, false) ∧
  advances toy_sum genesis_node chain0 c'.
Proof.
  split; [vm_compute; reflexivity|]. apply (best_chain_stays_consistent toy_sum genesis_node chain0 switch_events chain0_ok).
Defined.

Lemma reorganisation_switches_branches_witness :
  ∃ fork attach detach, calcReorganizeNodes rival_node forked_chain = Ok (attach, detach) ∧
    path rival_node = path fork ++ attach ∧ path (c_bestNode forked_chain) = path fork ++ rev detach ∧
    Forall (λ x, x ∉ path (c_bestNode forked_chain)) attach.
Proof.
  exact (reorganisation_switches_branches toy_sum genesis_node forked_chain rival_node forked_chain_ok rival_node_indexed).
Defined.

(** Orphan blocks can crash the node.  [delete] looks in the list of
    siblings for the pointer it is given, which is never one of those in the
    list, so when two orphans with the same parent expire their pointers stay
    behind; when the parent arrives, [Get] dereferences the missing orphan.
    Here two children of a block arrive before it.  If they are still held
    when the block arrives the chain adopts one of them; if they have expired
    the node panics. *)
Theorem expired_siblings_crash_the_node :
  let waiting := run_chain chain0 [BlockArrives 0 rival2; BlockArrives 0 rival2'] in
  let expired := run_chain waiting [OrphansExpire (orphanBlockTTL + 1)] in
  orphan_count expired = 0%nat ∧
  (chain_step toy_sum waiting (BlockArrives 0 rival1)).1 = Ok false ∧
  best_hash (run_chain waiting [BlockArrives 0 rival1]) = block_Hash toy_sum rival2 ∧
  (chain_step toy_sum expired (BlockArrives 0 rival1)).1 = Panic.
Proof. vm_compute. split_and!; reflexivity. Qed.

(** ** A restart *)

Definition node1 : BlockNode :=
  match NewBlockNode toy_sum (tb_BlockHeader block1) (Some genesis_node) with Ok n => n | _ => genesis_node end.
Definition db1 : LevelDB := (SaveBlock toy_sum db0 block1 NewTransactionStatus).2.

Lemma toy_hash_ok bh : hash_ok (header_Hash toy_sum bh).
Proof. apply hash_ok_NewHash; apply toy_sum_size. Qed.

Definition genesis_text : list Z := match header_MarshalText genesis_header with Ok t => t | _ => [] end.

Lemma db0_headers : ldb_headers db0 = {[ header_key genesis_node := genesis_text ]}.
Proof. vm_compute. reflexivity. Qed.

Lemma genesis_text_read : header_UnmarshalText genesis_text = Ok (node_header genesis_node).
Proof. vm_compute. reflexivity. Qed.

Lemma db0_stored : stored toy_sum {[ bn_Hash genesis_node := genesis_node ]} db0.
Proof.
  split.
  - apply map_Forall_singleton, toy_hash_ok.
  - apply map_Forall_singleton. exists genesis_text. rewrite db0_headers, lookup_singleton_eq.
    split; [reflexivity|exact genesis_text_read].
  - rewrite db0_headers. apply map_Forall_singleton. exists genesis_node. split; [apply lookup_singleton_eq|reflexivity].
  - apply map_Forall_singleton. reflexivity.
Qed.

Lemma block1_saved : SaveBlock toy_sum db0 block1 NewTransactionStatus = (Ok tt, db1).
Proof. vm_compute. reflexivity. Qed.
Lemma node1_made : NewBlockNode toy_sum (tb_BlockHeader block1) (Some genesis_node) = Ok node1.
Proof. vm_compute. reflexivity. Qed.
Lemma node1_new : ({[ bn_Hash genesis_node := genesis_node ]} : gmap Hash BlockNode) !! bn_Hash node1 = None.
Proof. vm_compute. reflexivity. Qed.
Lemma node1_facts : bn_Parent node1 = Some genesis_node ∧ bn_Height node1 = 1 ∧
  bn_WorkSum node1 = bn_WorkSum genesis_node + CalcWork (bn_Bits node1).
Proof. vm_compute. split_and!; reflexivity. Qed.

Definition index1 : gmap Hash BlockNode := <[bn_Hash node1 := node1]> {[ bn_Hash genesis_node := genesis_node ]}.

Lemma index1_tree : tree_ok genesis_node index1.
Proof.
  destruct node1_facts as (Hp & Hh & Hw). apply (tree_ok_AddNode genesis_node _ node1 genesis_node genesis_tree node1_new Hp).
  - apply lookup_singleton_eq.
  - rewrite Hh. reflexivity.
  - rewrite Hh. lia.
  - exact Hw.
Qed.

Lemma block1_wire : wire_header (tb_BlockHeader block1).
Proof.
  split_and!; first [vm_compute; congruence | split; split; vm_compute; congruence].
Qed.

Lemma block1_prev : bh_PreviousBlockHash (tb_BlockHeader block1) = bn_Hash genesis_node.
Proof. reflexivity. Qed.

Lemma index1_stored : stored toy_sum index1 db1.
Proof.
  eapply (SaveBlock_stored toy_sum genesis_node _ db0 block1 _ db1 node1 genesis_node genesis_tree db0_stored block1_saved
            block1_wire node1_made); [apply lookup_singleton_eq|exact node1_new| |exact block1_prev|reflexivity].
  rewrite <- (Ok_inj _ _ node1_made). apply toy_hash_ok.
Qed.

Lemma restart_restores_the_chain_witness :
  load_chain toy_sum (bn_Hash node1) db1 = Ok (mkBlockIndex index1 (Some <$> path node1), node1).
Proof.
  apply (restart_restores_the_chain toy_sum genesis_node index1 db1 node1 index1_tree index1_stored).
  apply lookup_insert_eq.
Defined.

(** ** Saving orphans ends *)

(** A store that keeps nothing and a validation of the header alone *)
Definition plain_store : Store := {|
  StoreState := unit;
  store_GetBlock := λ _ _, Err ErrStore;
  store_GetTransactionStatus := λ _ _, Err ErrStore;
  store_GetTransactionsUtxo := λ _ v _, Ok v;
  store_SaveBlock := λ s b _, (if bh_Height (tb_BlockHeader b) <? 2 ^ 63 then Ok tt else Err ErrStore, s);
  store_SaveChainStatus := λ s _ _, (Ok tt, s);
|}.
Lemma plain_store_ok : @StoreOk plain_store.
Proof. constructor. intros [] b ts []. cbn. by destruct (Z.ltb_spec (bh_Height (tb_BlockHeader b)) (2 ^ 63)). Qed.

Definition plain_validator : BlockValidator := {|
  World := unit;
  Accounts := unit;
  validate := λ w _ b p,
    (if bool_decide (bb_Height (blk_Header b) = uint64 (bn_Height p + 1) ∧ bb_PreviousBlockId (blk_Header b) = bn_Hash p)
     then Ok (NewTransactionStatus, tt) else Err ErrBadBlock, w);
  commit := λ w _, (Ok tt, w);
|}.
Lemma plain_validator_ok : @BlockValidatorOk plain_validator.
Proof. constructor. intros [] info b p r []. cbn. by case_bool_decide. Qed.

Definition plain_chain : @Chain plain_store plain_validator :=
  @mkChain plain_store plain_validator
    (mkBlockIndex {[ bn_Hash genesis_node := genesis_node ]} [Some genesis_node]) NewOrphanManage (NewTxPool 0) tt genesis_node tt.

Lemma plain_chain_ok : @chain_ok toy_sum plain_store plain_validator genesis_node plain_chain.
Proof.
  split; [exact genesis_tree| |reflexivity|apply map_Forall_empty].
  unfold indexed, nodes. cbn [plain_chain c_index c_bestNode bi_index]. apply lookup_singleton_eq.
Qed.

Lemma plain_save_answers b (c : @Chain plain_store plain_validator) :
  (@saveBlock toy_sum plain_store plain_validator b c).1 ≠ Fuel.
Proof.
  unfold saveBlock, cbind, deref, lift, in_world, in_store, modify. destruct (GetNode _ _) as [p|]; [|done]. cbn [validate plain_validator].
  case_bool_decide; [|done]. cbn [store_SaveBlock plain_store fst snd]. destruct (_ <? _); [|done].
  cbn [commit plain_validator]. unfold NewBlockNode. by destruct (_ =? _).
Qed.

(** Two orphans in a line wait for the block that has just been saved. *)
Definition far2 : TypesBlock := block_on (tb_BlockHeader rival2) 1040 5.
Definition orphaned_chain : @Chain plain_store plain_validator :=
  foldl (λ c b, (@processBlock toy_sum plain_store plain_validator 0 b c).2) plain_chain [far2; rival2].
Definition waiting_chain : @Chain plain_store plain_validator :=
  (@saveBlock toy_sum plain_store plain_validator rival1 orphaned_chain).2.

Lemma rival1_new : @nodes plain_store plain_validator orphaned_chain !! block_Hash toy_sum rival1 = None.
Proof. vm_compute. reflexivity. Qed.

Lemma waiting_chain_ok : @chain_ok toy_sum plain_store plain_validator genesis_node waiting_chain.
Proof.
  pose proof plain_store_ok. pose proof plain_validator_ok.
  refine (gr_ok _ _ _ _ (proj1 (saveBlock_grows toy_sum genesis_node rival1 orphaned_chain _ rival1_new))).
  apply (processBlock_advances toy_sum genesis_node 0 rival2), (processBlock_advances toy_sum genesis_node 0 far2), plain_chain_ok.
Qed.

Lemma saving_orphans_ends_witness :
  orphan_count waiting_chain = 2%nat ∧
  (@saveSubBlock toy_sum plain_store plain_validator (sub_fuel waiting_chain) rival1 waiting_chain).1 ≠ Fuel.
Proof.
  split; [vm_compute; reflexivity|].
  apply (@saving_orphans_ends toy_sum plain_store plain_store_ok plain_validator plain_validator_ok
           genesis_node waiting_chain rival1 3 plain_save_answers waiting_chain_ok).
  vm_compute. lia.
Defined.
