(* ===== verification/Mining.v ===== *)
(** * Mining ([mining], [core/txbuilder/builder.go], [protocol/tx.go])

    The builder of transactions, the coinbase transaction and the template of
    the next block; solving a template; the pool of templates that outside
    miners work on; and the validation of a submitted transaction.

    [time.Now], [rand.Uint64] and the order in which [sort.Sort] leaves equal
    elements are arguments.  The account manager appears only through the
    program and the arbitrary data it gives for a coinbase. *)

From S2P Require Import Prelude GoSlice VmProgram VmMachine Encoding Bc EntryHash Merkle StdPrograms TxMap Wire.
From S2P Require Import TxValidation UtxoView Difficulty BlockValidation TxPool BlockIndex Orphans Chain ChainSetup.
From stdpp Require Import gmap sorting.
#[local] Open Scope Z_scope.
#[local] Open Scope go_scope.

(** ** Building transactions ([builder.go]) *)

Inductive mining_error :=
| ErrChain (e : chain_error)
| ErrBadAmount
| ErrCallback
| ErrBadRefData
| ErrProgram
| ErrArbitraryOversize
| ErrRoot
| ErrCoinbaseTx (e : val_error).

Record SigningInstruction {W : Type} := mkSigningInstruction {
  si_Position : Z;
  si_WitnessComponents : option (list W);
}.
Arguments SigningInstruction : clear implicits.

(** A callback is what running it answers.  Rollbacks act on the reservations
    of the account manager. *)
Record TemplateBuilder {W : Type} := mkTemplateBuilder {
  tb_base : option TxData;
  tb_inputs : list TxInput;
  tb_outputs : list TxOutput;
  tb_signingInstructions : list (SigningInstruction W);
  tb_minTime : Z;
  tb_maxTime : Z;
  tb_timeRange : Z;
  tb_referenceData : list Z;
  tb_callbacks : list (outcome mining_error unit);
}.
Arguments TemplateBuilder : clear implicits.

Record Template {W : Type} := mkTemplate {
  tpl_Transaction : TypesTx;
  tpl_SigningInstructions : list (SigningInstruction W);
}.
Arguments Template : clear implicits.

Definition amount_of (o : TxOutput) : Z := aa_Amount (oc_AssetAmount (to_OutputCommitment o)).

Section builder.
Context (Sum256 : list Z → list Z) `{R : GoRange} {W : Type}.

Definition NewBuilder (maxTime : Z) : TemplateBuilder W := mkTemplateBuilder W None [] [] [] 0 maxTime 0 [] [].

(** An input without a typed input has no type to ask for. *)
Definition AddInput (i : TxInput) (s : SigningInstruction W) (b : TemplateBuilder W)
    : outcome mining_error (TemplateBuilder W) :=
  let add := mkTemplateBuilder W (tb_base b) (tb_inputs b ++ [i]) (tb_outputs b) (tb_signingInstructions b ++ [s])
               (tb_minTime b) (tb_maxTime b) (tb_timeRange b) (tb_referenceData b) (tb_callbacks b) in
  match ti_TypedInput i with
  | None => Panic
  | Some (CoinbaseInput _) => Ok add
  | Some _ => if MaxInt64 <? aa_Amount (AssetAmount_of Sum256 i) then Err ErrBadAmount else Ok add
  end.

Definition AddOutput (o : TxOutput) (b : TemplateBuilder W) : outcome mining_error (TemplateBuilder W) :=
  if MaxInt64 <? amount_of o then Err ErrBadAmount
  else Ok (mkTemplateBuilder W (tb_base b) (tb_inputs b) (tb_outputs b ++ [o]) (tb_signingInstructions b)
             (tb_minTime b) (tb_maxTime b) (tb_timeRange b) (tb_referenceData b) (tb_callbacks b)).

Definition with_times (lo hi : Z) (b : TemplateBuilder W) : TemplateBuilder W :=
  mkTemplateBuilder W (tb_base b) (tb_inputs b) (tb_outputs b) (tb_signingInstructions b) lo hi
    (tb_timeRange b) (tb_referenceData b) (tb_callbacks b).
Definition RestrictMinTime (t : Z) (b : TemplateBuilder W) : TemplateBuilder W :=
  if tb_minTime b <? t then with_times t (tb_maxTime b) b else b.
Definition RestrictMaxTime (t : Z) (b : TemplateBuilder W) : TemplateBuilder W :=
  if t <? tb_maxTime b then with_times (tb_minTime b) t b else b.

Definition OnBuild (f : outcome mining_error unit) (b : TemplateBuilder W) : TemplateBuilder W :=
  mkTemplateBuilder W (tb_base b) (tb_inputs b) (tb_outputs b) (tb_signingInstructions b) (tb_minTime b)
    (tb_maxTime b) (tb_timeRange b) (tb_referenceData b) (tb_callbacks b ++ [f]).

Definition clashes (old data : list Z) : bool := negb (len old =? 0) && negb (bool_decide (old = data)).
Definition setReferenceData (data : list Z) (b : TemplateBuilder W) : outcome mining_error (TemplateBuilder W) :=
  if match tb_base b with Some tx => clashes (td_ReferenceData tx) data | None => false end then Err ErrBadRefData
  else if clashes (tb_referenceData b) data then Err ErrBadRefData
  else Ok (mkTemplateBuilder W (tb_base b) (tb_inputs b) (tb_outputs b) (tb_signingInstructions b) (tb_minTime b)
             (tb_maxTime b) (tb_timeRange b) data (tb_callbacks b)).

Fixpoint run_callbacks (fs : list (outcome mining_error unit)) : outcome mining_error unit :=
  match fs with
  | [] => Ok tt
  | Ok _ :: rest => run_callbacks rest
  | o :: _ => o
  end.

(** The loop over the inputs; there is an instruction for every input, an
    index out of range otherwise. *)
Fixpoint add_built (ins : list TxInput) (instructions : list (SigningInstruction W)) (done : list TxInput)
    (signing : list (SigningInstruction W)) : outcome mining_error (list TxInput * list (SigningInstruction W)) :=
  match ins, instructions with
  | [], _ => Ok (done, signing)
  | i :: ins, s :: instructions =>
      let s := mkSigningInstruction W (uint32 (len done)) (Some (default [] (si_WitnessComponents s))) in
      add_built ins instructions (done ++ [i]) (signing ++ [s])
  | _ :: _, [] => Panic
  end.

Definition new_tx (data : TxData) : outcome mining_error TypesTx :=
  match NewTx Sum256 data with Ok t => Ok t | Err _ | Panic => Panic | Fuel => Fuel end.

Definition Build (b : TemplateBuilder W) : outcome mining_error (Template W * TxData) :=
  let? _ := run_callbacks (tb_callbacks b) in
  let tx := default (mkTxData 1 0 0 [] [] []) (tb_base b) in
  let? (inputs, signing) := add_built (tb_inputs b) (tb_signingInstructions b) (td_Inputs tx) [] in
  let tx := mkTxData (td_Version tx) (td_SerializedSize tx)
              (if tb_timeRange b =? 0 then td_TimeRange tx else tb_timeRange b)
              inputs (td_Outputs tx ++ tb_outputs b)
              (if 0 <? len (tb_referenceData b) then tb_referenceData b else td_ReferenceData tx) in
  let? t := new_tx tx in
  Ok (mkTemplate W t signing, tx).

(** ** The coinbase transaction ([mining.go]) *)

(** [strconv.FormatUint(n, 10)]: a 64-bit number has at most twenty digits *)
Fixpoint format_digits (fuel : nat) (n : Z) (acc : list Z) : list Z :=
  match fuel with
  | O => acc
  | S fuel => if n <? 10 then (48 + n) :: acc else format_digits fuel (n / 10) ((48 + n mod 10) :: acc)
  end.
Definition FormatUint (n : Z) : list Z := format_digits 20 n [].

(** What [createCoinbaseTx] asks the account manager for *)
Record AccountManager := mkAccountManager {
  am_GetCoinbaseControlProgram : outcome mining_error (list Z);
  am_GetCoinbaseArbitrary : list Z;
}.

(** [types.NewTxOutput] *)
Definition NewTxOutput (assetID : Hash) (amount : Z) (controlProgram : list Z) : TxOutput :=
  mkTxOutput 1 (mkOutputCommitment (mkAssetAmount (Some assetID) amount) 1 controlProgram) [].
Definition NewCoinbaseInput (arbitrary : list Z) : TxInput := mkTxInput 1 (Some (CoinbaseInput arbitrary)) [] [].

Definition coinbase_script (am : option AccountManager) : outcome mining_error (list Z) :=
  match am with
  | None => match DefaultCoinbaseProgram with Ok p => Ok p | Err _ => Err ErrProgram | Panic => Panic | Fuel => Fuel end
  | Some m => am_GetCoinbaseControlProgram m
  end.
Definition coinbase_arbitrary (am : option AccountManager) (blockHeight : Z) : list Z :=
  0 :: FormatUint blockHeight ++ match am with None => [] | Some m => am_GetCoinbaseArbitrary m end.

Definition createCoinbaseTx (now : Z) (am : option AccountManager) (amount blockHeight : Z)
    : outcome mining_error TypesTx :=
  let amount := uint64 (amount + BlockSubsidy blockHeight) in
  let arbitrary := coinbase_arbitrary am blockHeight in
  let? script := coinbase_script am in
  if CoinbaseArbitrarySizeLimit <? len arbitrary then Err ErrArbitraryOversize
  else
    let? b := AddInput (NewCoinbaseInput arbitrary) (mkSigningInstruction W 0 None) (NewBuilder now) in
    let? b := AddOutput (NewTxOutput NativeAsset amount script) b in
    let? (_, txData) := Build b in
    let? byteData := match tx_MarshalText Sum256 txData with
                     | Ok t => Ok t | Err _ => Err ErrRoot | Panic => Panic | Fuel => Fuel end in
    new_tx (mkTxData (td_Version txData) (uint64 (len byteData)) (td_TimeRange txData) (td_Inputs txData)
              (td_Outputs txData) (td_ReferenceData txData)).
End builder.

(** ** The template of a block *)

(** [sort.Sort(byTime(txs))]: the order of transactions that were added in the
    same second is not determined *)
Class GoSort := go_sort : list TxDesc → list TxDesc.
Definition added_second (d : TxDesc) : Z := ds_Added d / 1000000000.
Definition by_time (a b : TxDesc) : Prop := added_second a <= added_second b.
Class GoSortOk `{GoSort} : Prop := {
  go_sort_perm l : go_sort l ≡ₚ l;
  go_sort_sorted l : Sorted by_time (go_sort l);
}.

Section template.
Context `{E : VmEnv} `{R : GoRange} {DB : BlockDB} {K : EvmDisk} `{S : Store} `{GS : GoSort}.

Abbreviation zero_hash := (mkHash 0 0 0 0).

(** The variables of the loop: [mi_txs] is [b.Transactions] without its first
    slot, which waits for the coinbase *)
Record MiningState := mkMining {
  mi_view : UtxoViewpoint;
  mi_pool : TxPool;
  mi_status : TransactionStatus;
  mi_txs : list TypesTx;
  mi_gasUsed : Z;
  mi_txFee : Z;
  mi_heap : heap;
  mi_db : StateDB;
}.

(** A transaction that is passed over leaves the pool *)
Definition skip_tx (now : Z) (id : Hash) (view : UtxoViewpoint) (h : heap) (db : StateDB) (st : MiningState) : MiningState :=
  mkMining view (RemoveTransaction now id (mi_pool st)) (mi_status st) (mi_txs st) (mi_gasUsed st) (mi_txFee st) h db.

(** One round of the loop: whether the loop goes on *)
Definition mine_tx (now : Z) (c : Chain) (bcBlock : Block) (txDesc : TxDesc) (st : MiningState)
    : outcome mining_error bool * MiningState :=
  let w := c_world c in
  let tx := tt_Tx (ds_Tx txDesc) in
  let i := Datatypes.S (length (mi_txs st)) in
  match store_GetTransactionsUtxo (c_store c) (mi_view st) [tx] with
  | Err _ => (Ok true, skip_tx now (tx_ID tx) (mi_view st) (mi_heap st) (mi_db st) st)
  | Panic => (Panic, st)
  | Fuel => (Fuel, st)
  | Ok view =>
      let db := db_Prepare (mi_db st) (tx_ID tx) zero_hash (Z.of_nat i) in
      let sj := mkSubject tx bcBlock false (BestBlockInfo c) (va_SupportBalanceInStateDB w) (va_rounds w) in
      let '(err, vs) := ValidateTx (va_fuel w) sj (mi_heap st) db in
      let gasStatus := v_gas vs in
      let gasOnlyTx := match err with Err _ => true | _ => false end in
      let seen := mkMining view (mi_pool st) (mi_status st) (mi_txs st) (mi_gasUsed st) (mi_txFee st) (v_heap vs) (v_db vs) in
      match err with
      | Panic => (Panic, seen)
      | Fuel => (Fuel, seen)
      | Ok _ | Err _ =>
          if gasOnlyTx && negb (GasValid gasStatus) then
            (Ok true, skip_tx now (tx_ID tx) view (v_heap vs) (db_RevertToSnapshot (v_db vs) (mi_db st)) st)
          else if MaxBlockGas <? uint64 (mi_gasUsed st + uint64 (GasUsed gasStatus)) then (Ok false, seen)
          else
            match ApplyTransaction bcBlock tx gasOnlyTx view with
            | (Panic, _) => (Panic, seen)
            | (Fuel, _) => (Fuel, seen)
            | (Err _, view) =>
                (Ok true, skip_tx now (tx_ID tx) view (v_heap vs) (db_RevertToSnapshot (v_db vs) (mi_db st)) st)
            | (Ok _, view) =>
                let db := if gasOnlyTx then db_RevertToSnapshot (v_db vs) (mi_db st) else v_db vs in
                let db := db_Finalise db in
                let gasUsed := uint64 (mi_gasUsed st + uint64 (GasUsed gasStatus)) in
                (Ok (negb (gasUsed =? MaxBlockGas)),
                 mkMining view (mi_pool st) (record_result (mi_status st) i (db_GetLogs db (tx_ID tx)) gasOnlyTx)
                   (mi_txs st ++ [ds_Tx txDesc]) gasUsed (uint64 (mi_txFee st + ds_Fee txDesc)) (v_heap vs) db)
            end
      end
  end.

Fixpoint mine_txs (now : Z) (c : Chain) (bcBlock : Block) (txs : list TxDesc) (st : MiningState)
    : outcome mining_error unit * MiningState :=
  match txs with
  | [] => (Ok tt, st)
  | txDesc :: rest =>
      match mine_tx now c bcBlock txDesc st with
      | (Ok true, st) => mine_txs now c bcBlock rest st
      | (Ok false, st) => (Ok tt, st)
      | (Err e, st) => (Err e, st)
      | (Panic, st) => (Panic, st)
      | (Fuel, st) => (Fuel, st)
      end
  end.

(** The time of the template, [rnd] being [rand.Uint64()] *)
Definition template_time (now rnd : Z) (pre : BlockHeader) : Z :=
  let blockTime := uint64 (uint64 (now / 1000000000) + rnd mod TargetSecondsPerBlock) in
  if blockTime <? bh_Timestamp pre then bh_Timestamp pre else blockTime.

Definition template_block (height : Z) (txs : list Tx) : Block :=
  mkBlock (mkBcHeader 0 height zero_hash 0 zero_hash zero_hash zero_hash 0 0 None) zero_hash txs.

Definition start_mining (w : Validation) (txPool : TxPool) (db : StateDB) : MiningState :=
  mkMining ∅ txPool (match SetStatus NewTransactionStatus 0 false with Ok ts => ts | _ => NewTransactionStatus end)
    [] 0 0 (va_heap w) db.

Definition root_outcome (o : outcome unit Hash) : outcome mining_error Hash :=
  match o with Ok h => Ok h | Err _ => Err ErrRoot | Panic => Panic | Fuel => Fuel end.

(** After the loop: the coinbase, its effect on the balances, and the roots *)
Definition finish_template (now : Z) (am : option AccountManager) (c : Chain) (pre : BlockHeader) (bits time : Z)
    (st : MiningState) : outcome mining_error TypesBlock :=
  let w := c_world c in
  let height := uint64 (bh_Height pre + 1) in
  let? coinbase := createCoinbaseTx sha3_Sum256 (W := unit) now am (mi_txFee st) height in
  let? db :=
    (if va_SupportBalanceInStateDB w then
       let sj := mkSubject (tt_Tx coinbase) (template_block height [tt_Tx coinbase]) true (BestBlockInfo c) true (va_rounds w) in
       let '(err, vs) := ValidateTx (va_fuel w) sj (mi_heap st) (mi_db st) in
       match err with Ok _ => Ok (v_db vs) | Err e => Err (ErrCoinbaseTx e) | Panic => Panic | Fuel => Fuel end
     else Ok (mi_db st)) in
  let txs := coinbase :: mi_txs st in
  let? root := root_outcome (TxMerkleRoot sha3_Sum256 (tt_Tx <$> txs)) in
  let? status := root_outcome (TxStatusMerkleRoot sha3_Sum256 (VerifyStatus (mi_status st))) in
  Ok (mkTypesBlock (mkHeader 1 height (header_Hash sha3_Sum256 pre) time 0 bits
                      (mkCommitment root status (NewHash (db_IntermediateRoot db).1))) txs).

Definition chain_outcome {A} (o : outcome chain_error A) : outcome mining_error A :=
  match o with Ok a => Ok a | Err e => Err (ErrChain e) | Panic => Panic | Fuel => Fuel end.

(** The pool is the one the loop has removed transactions from. *)
Definition NewBlockTemplate (now rnd : Z) (am : option AccountManager) (c : Chain) (txPool : TxPool)
    : outcome mining_error TypesBlock * TxPool :=
  let w := c_world c in
  match BestBlockHeader c with
  | Ok pre =>
      match chain_CalcNextBits (header_Hash sha3_Sum256 pre) c with
      | Ok bits =>
          match evm_New (va_disk w) (bc_StateRoot (bh_BlockCommitment pre)) with
          | None => (Err (ErrChain ErrState), txPool)
          | Some db =>
              let bcBlock := template_block (uint64 (bh_Height pre + 1)) [] in
              match mine_txs now c bcBlock (go_sort (GetTransactions txPool)) (start_mining w txPool db) with
              | (Ok _, st) => (finish_template now am c pre bits (template_time now rnd pre) st, mi_pool st)
              | (Err e, st) => (Err e, mi_pool st)
              | (Panic, st) => (Panic, mi_pool st)
              | (Fuel, st) => (Fuel, mi_pool st)
              end
          end
      | Err e => (Err (ErrChain e), txPool)
      | Panic => (Panic, txPool)
      | Fuel => (Fuel, txPool)
      end
  | _ => (Panic, txPool)
  end.

(** ** Submitted transactions ([protocol/tx.go], [core/txbuilder/finalize.go]) *)

Inductive submit_error :=
| ErrTransactionIsInPool
| ErrOpenState
| ErrValidation (e : val_error)
| ErrExtTxFee
| ErrMarshal
| ErrPool (e : pool_error)
| ErrOrphanTx.

(** The cache of failures holds Go errors, nil included.  The answer is
    whether the transaction is acceptable, the height, the gas status and the
    error, both possibly nil; the byte arrays of the machine live in the chain. *)
Definition chain_ValidateTx (txID : HashPtr) (tx : TypesTx) (c : Chain) (cache : ErrCache (option submit_error))
    : outcome submit_error (bool * Z * option GasState * option submit_error)
      * Chain * ErrCache (option submit_error) :=
  let w := c_world c in
  let '(failed, cache) := IsTransactionInErrCache txID cache in
  if failed : bool then
    match GetErrCache txID cache with
    | (Some (Some e), cache) => (Ok (false, 0, None, Some e), c, AddErrCache txID (Some e) cache)
    | (_, cache) => (Panic, c, cache)
    end
  else if IsTransactionInPool (hp_hash txID) (c_txPool c) then
    (Ok (false, 0, None, Some ErrTransactionIsInPool), c, AddErrCache txID (Some ErrTransactionIsInPool) cache)
  else
    match BestBlockHeader c with
    | Ok bh =>
        let block := MapBlock sha3_Sum256 (mkTypesBlock bh []) in
        match evm_New (va_disk w) (bc_StateRoot (bh_BlockCommitment bh)) with
        | None => (Ok (false, 0, None, Some ErrOpenState), c, AddErrCache txID (Some ErrOpenState) cache)
        | Some db =>
            let db := db_Prepare db (tx_ID (tt_Tx tx)) zero_hash 0 in
            let sj := mkSubject (tt_Tx tx) block false (BestBlockInfo c) (va_SupportBalanceInStateDB w) (va_rounds w) in
            let '(err, vs) := ValidateTx (va_fuel w) sj (va_heap w) db in
            let c := with_world (with_heap (v_heap vs) w) c in
            match err with
            | Panic => (Panic, c, cache)
            | Fuel => (Fuel, c, cache)
            | Ok _ | Err _ =>
                let e := match err with Err e => Some (ErrValidation e) | _ => None end in
                if negb (GasValid (v_gas vs)) then
                  let cache := AddErrCache txID e cache in
                  (Ok (false, 0, Some (v_gas vs), e), c,
                   match e with Some _ => AddErrCache txID e cache | None => cache end)
                else (Ok (true, blk_Height block, Some (v_gas vs), e), c,
                      match e with Some _ => AddErrCache txID e cache | None => cache end)
            end
        end
    | _ => (Panic, c, cache)
    end.

(** [TxInput.AssetID]: the pointers of the commitments are dereferenced *)
Definition input_AssetID (t : TxInput) : outcome submit_error Hash :=
  match ti_TypedInput t with
  | Some (IssuanceInput _ _ _ _ _ _) | Some (SpendInput _ _ _) | Some (WithdrawalInput _ _ _ _ _) =>
      match aa_AssetId (AssetAmount_of sha3_Sum256 t) with Some a => Ok a | None => Panic end
  | _ => Ok zero_hash
  end.

(** [calculateTxFee]; reading the type of an input without one panics, and so
    does an output without an asset *)
Fixpoint native_input (ins : list TxInput) (acc : Z) : outcome submit_error Z :=
  match ins with
  | [] => Ok acc
  | i :: rest =>
      match ti_TypedInput i with
      | None => Panic
      | Some (CoinbaseInput _) => native_input rest acc
      | Some _ =>
          let? a := input_AssetID i in
          native_input rest (if bool_decide (a = NativeAsset)
                             then uint64 (acc + aa_Amount (AssetAmount_of sha3_Sum256 i)) else acc)
      end
  end.
Fixpoint native_output (outs : list TxOutput) (acc : Z) : outcome submit_error Z :=
  match outs with
  | [] => Ok acc
  | o :: rest =>
      match aa_AssetId (oc_AssetAmount (to_OutputCommitment o)) with
      | None => Panic
      | Some a => native_output rest (if bool_decide (a = NativeAsset) then uint64 (acc + amount_of o) else acc)
      end
  end.
Definition calculateTxFee (tx : TypesTx) : outcome submit_error Z :=
  let? i := native_input (td_Inputs (tt_TxData tx)) 0 in
  let? o := native_output (td_Outputs (tt_TxData tx)) 0 in
  Ok (uint64 (i - o)).

(** The size in the data and in the header, which is also an entry *)
Definition set_size (n : Z) (tx : TypesTx) : TypesTx :=
  let td := tt_TxData tx in
  let t := tt_Tx tx in
  let h := tx_Header t in
  let h := mkTxHeader (h_Version h) n (h_TimeRange h) (h_ResultIds h) (h_MuxId h) (h_Data h) in
  mkTypesTx (mkTxData (td_Version td) n (td_TimeRange td) (td_Inputs td) (td_Outputs td) (td_ReferenceData td))
    (mkTx h (tx_ID t) (alter (λ _, ETxHeader h) (tx_ID t) (Entries t)) (InputIDs t) (SpentOutputIDs t) (GasInputIDs t)).

(** [MaxGasAmount * VMGasRate * 25] *)
Definition maxTxFee : Z := MaxGasAmount * VMGasRate * 25.

(** The error of the validation is replaced by that of the pool, so that a
    transaction that only pays for its gas is submitted without one.  The
    returned transaction is the argument with its new size; the outputs on
    disk are what the pool looks at. *)
Definition FinalizeTx (now : Z) (utxos : gmap Hash UtxoEntry) (txID : HashPtr) (tx : TypesTx) (onlyValidate : bool)
    (c : Chain) (cache : ErrCache (option submit_error))
    : outcome submit_error unit * TypesTx * Chain * ErrCache (option submit_error) :=
  match calculateTxFee tx with
  | Ok fee =>
      if maxTxFee <? fee then (Err ErrExtTxFee, tx, c, cache)
      else match tx_MarshalText sha3_Sum256 (tt_TxData tx) with
      | Ok data =>
          let tx := set_size (uint64 (len data)) tx in
          match chain_ValidateTx txID tx c cache with
          | (Ok (true, height, Some gas, err), c, cache) =>
              if onlyValidate then (match err with Some e => Err e | None => Ok tt end, tx, c, cache)
              else
                let '(o, pool) := ProcessTransaction now utxos tx (bool_decide (is_Some err)) height (AssetValue gas) (c_txPool c) in
                (match o with
                 | Ok isOrphan => if isOrphan : bool then Err ErrOrphanTx else Ok tt
                 | Err e => Err (ErrPool e)
                 | Panic => Panic
                 | Fuel => Fuel
                 end, tx, with_pool pool c, cache)
          | (Ok (_, _, _, err), c, cache) => (match err with Some e => Err e | None => Ok tt end, tx, c, cache)
          | (Err e, c, cache) => (Err e, tx, c, cache)
          | (Panic, c, cache) => (Panic, tx, c, cache)
          | (Fuel, c, cache) => (Fuel, tx, c, cache)
          end
      | Err _ => (Err ErrMarshal, tx, c, cache)
      | Panic => (Panic, tx, c, cache)
      | Fuel => (Fuel, tx, c, cache)
      end
  | Err e => (Err e, tx, c, cache)
  | Panic => (Panic, tx, c, cache)
  | Fuel => (Fuel, tx, c, cache)
  end.

(** ** The processor miner ([cpuminer.go]) *)

(** What the [select] of a round finds: a request to quit, a tick of the clock
    (with the height of the chain at that time), or nothing *)
Inductive signal := SigQuit | SigTick (bestHeight : Z) | SigNone.

Definition set_nonce (i : Z) (h : BlockHeader) : BlockHeader :=
  mkHeader (bh_Version h) (bh_Height h) (bh_PreviousBlockHash h) (bh_Timestamp h) i (bh_Bits h) (bh_BlockCommitment h).

(** The loop over the nonces, which wraps around, with the header it leaves;
    it is still running when the signals are used up. *)
Fixpoint solve_loop (signals : list signal) (seed : Hash) (i : Z) (header : BlockHeader)
    : outcome unit (bool * BlockHeader) :=
  match signals with
  | [] => Fuel
  | s :: rest =>
      if match s with SigQuit => true | SigTick best => bh_Height header <=? best | SigNone => false end
      then Ok (false, header)
      else
        let header := set_nonce i header in
        if CheckProofOfWork sha3_Sum256 (header_Hash sha3_Sum256 header) seed (bh_Bits header) then Ok (true, header)
        else solve_loop rest seed (uint64 (i + 1)) header
  end.

Definition solveBlock (signals : list signal) (block : TypesBlock) (c : Chain) : outcome unit (bool * TypesBlock) :=
  match chain_CalcNextSeed (bh_PreviousBlockHash (tb_BlockHeader block)) c with
  | Ok seed =>
      match solve_loop signals seed 0 (tb_BlockHeader block) with
      | Ok (b, h) => Ok (b, mkTypesBlock h (tb_Transactions block))
      | Err e => Err e
      | Panic => Panic
      | Fuel => Fuel
      end
  | Err _ => Ok (false, block)
  | Panic => Panic
  | Fuel => Fuel
  end.

(** ** The pool of work ([miningpool.go]) *)

(** The hashes announced on [newBlockCh] are logged in order. *)
Record MiningPool := mkMiningPool {
  mp_block : option TypesBlock;
  mp_chain : Chain;
  mp_announced : list Hash;
}.

Definition generateBlock (now rnd : Z) (am : option AccountManager) (m : MiningPool) : outcome unit unit * MiningPool :=
  let c := mp_chain m in
  let '(o, pool) := NewBlockTemplate now rnd am c (c_txPool c) in
  let c := with_pool pool c in
  match o with
  | Ok b => (Ok tt, mkMiningPool (Some b) c (mp_announced m))
  | Err _ => (Ok tt, mkMiningPool (mp_block m) c (mp_announced m))
  | Panic => (Panic, mkMiningPool (mp_block m) c (mp_announced m))
  | Fuel => (Fuel, mkMiningPool (mp_block m) c (mp_announced m))
  end.

Inductive work_error := ErrNoWork | ErrWorkChanged | ErrWorkProcess (e : chain_error) | ErrWorkOrphan.

Definition GetWork (m : MiningPool) : outcome work_error BlockHeader :=
  match mp_block m with Some b => Ok (tb_BlockHeader b) | None => Err ErrNoWork end.

(** The block that is processed is the template with the nonce and the time of
    the submitted header. *)
Definition solved_block (bh : BlockHeader) (b : TypesBlock) : TypesBlock :=
  let h := tb_BlockHeader b in
  mkTypesBlock (mkHeader (bh_Version h) (bh_Height h) (bh_PreviousBlockHash h) (bh_Timestamp bh) (bh_Nonce bh)
                  (bh_Bits h) (bh_BlockCommitment h)) (tb_Transactions b).

Definition submitWork (now : Z) (bh : BlockHeader) (m : MiningPool) : outcome work_error unit * MiningPool :=
  match mp_block m with
  | None => (Err ErrWorkChanged, m)
  | Some b =>
      if negb (bool_decide (bh_PreviousBlockHash bh = bh_PreviousBlockHash (tb_BlockHeader b))) then (Err ErrWorkChanged, m)
      else
        let b := solved_block bh b in
        let '(o, c) := processBlock sha3_Sum256 now b (mp_chain m) in
        match o with
        | Ok false => (Ok tt, mkMiningPool (Some b) c (mp_announced m ++ [header_Hash sha3_Sum256 bh]))
        | Ok true => (Err ErrWorkOrphan, mkMiningPool (Some b) c (mp_announced m))
        | Err e => (Err (ErrWorkProcess e), mkMiningPool (Some b) c (mp_announced m))
        | Panic => (Panic, mkMiningPool (Some b) c (mp_announced m))
        | Fuel => (Fuel, mkMiningPool (Some b) c (mp_announced m))
        end
  end.
End template.
