(* ===== verification/MiningSpec.v ===== *)
(** * What a block template promises

    The transactions of a template come from the pool, the oldest first, spend
    no output twice and stay in the pool; the coinbase pays the subsidy and
    their fees; the header extends the best block and commits to them.  A
    template that has been solved passes the validation of its header, unless
    the chain has seen a higher version. *)

From S2P Require Import Prelude GoSlice VmProgram VmMachine Encoding Bc EntryHash Merkle StdPrograms TxMap Wire.
From S2P Require Import TxValidation UtxoView Difficulty BlockValidation BlockSpec TxPool TxPoolSpec BlockIndex Orphans.
From S2P Require Import Chain ChainSpec ChainSetup LevelDB Mining.
From stdpp Require Import gmap sorting.
#[local] Set Warnings "-clear-no-such-hyp".
#[local] Open Scope Z_scope.
#[local] Open Scope go_scope.

(** ** Views in which outputs stay spent *)

Definition spent_in (v : UtxoViewpoint) (id : Hash) : Prop := ∃ e, v !! id = Some e ∧ Spent e = true.

Lemma apply_inputs_spent h tx sf id ids : ∀ v, spent_in v id → spent_in (apply_inputs h tx sf ids v).2 id.
Proof.
  induction ids as [|a ids IH]; intros v Hs; cbn [apply_inputs]; [done|].
  destruct (tx_Output tx a); [|done..]. destruct (nil_asset _ _); [done|]. destruct (skipped _ _); [by apply IH|].
  destruct (v !! a) as [e|] eqn:He; [|done]. destruct (Spent e) eqn:Hse; [done|]. destruct (_ && _); [done|].
  apply IH. destruct (decide (id = a)) as [->|Hne].
  - eexists. by rewrite lookup_insert_eq.
  - destruct Hs as (e' & ? & ?). exists e'. by rewrite lookup_insert_ne.
Qed.

Lemma set_results_no_error en tx sf ids : ∀ v e v', set_results en tx sf ids v ≠ (Err e, v').
Proof.
  induction ids as [|a ids IH]; intros v e v'; cbn [set_results]; [done|].
  destruct (tx_Output tx a); [destruct (nil_asset _ _); [done|]|..]; apply IH.
Qed.

(** A transaction that is refused may have marked inputs, but frees none. *)
Lemma ApplyTransaction_refused blk tx sf v e v' id :
  ApplyTransaction blk tx sf v = (Err e, v') → spent_in v id → spent_in v' id.
Proof.
  unfold ApplyTransaction. intros Ha Hs. pose proof (apply_inputs_spent (blk_Height blk) tx sf id (SpentOutputIDs tx) v Hs) as Hi.
  destruct (apply_inputs _ _ _ _ _) as [[[]|e'| |] v1]; try done.
  - by apply set_results_no_error in Ha.
  - by injection Ha as <- <-.
Qed.

(** A chosen transaction, with whether it only pays for its gas *)
Definition tx_of (p : TxDesc * bool) : Tx := tt_Tx (ds_Tx p.1).
Definition tx_spends (p : TxDesc * bool) : list Hash := counted (tx_of p) p.2 (SpentOutputIDs (tx_of p)).
Definition tx_creates (p : TxDesc * bool) : list Hash := counted (tx_of p) p.2 (ResultIds (tx_of p)).
Definition all_spends (ps : list (TxDesc * bool)) : list Hash := mjoin (tx_spends <$> ps).

Definition all_creates (ps : list (TxDesc * bool)) : list Hash := mjoin (tx_creates <$> ps).

Lemma all_spends_snoc ps p : all_spends (ps ++ [p]) = all_spends ps ++ tx_spends p.
Proof. unfold all_spends. rewrite fmap_app, join_app. cbn. by rewrite app_nil_r. Qed.
Lemma all_creates_snoc ps p : all_creates (ps ++ [p]) = all_creates ps ++ tx_creates p.
Proof. unfold all_creates. rewrite fmap_app, join_app. cbn. by rewrite app_nil_r. Qed.

(** Not known to be spent: unspent in the view, or not loaded yet *)
Definition open_in (v : UtxoViewpoint) (id : Hash) : bool :=
  match v !! id with Some e => negb (Spent e) | None => true end.

Lemma open_in_spent v id : open_in v id = false ↔ spent_in v id.
Proof.
  unfold open_in, spent_in. destruct (v !! id) as [e|]; [|naive_solver]. rewrite negb_false_iff. naive_solver.
Qed.

(** What the view promises of the transactions chosen so far: an output is
    spent once, and once more for each time that they create it. *)
Definition spent_once (v : UtxoViewpoint) (ps : list (TxDesc * bool)) : Prop :=
  ∀ id, occurrences id (all_spends ps) + one_if (open_in v id) <= 1 + occurrences id (all_creates ps).

Lemma spent_once_choose blk v v' ps p : ApplyTransaction blk (tx_of p) p.2 v = (Ok tt, v') →
  spent_once v ps → spent_once v' (ps ++ [p]).
Proof.
  intros (_ & Hn & Hf & Hv)%ApplyTransaction_iff Hs id. specialize (Hs id). specialize (Hv id).
  rewrite all_spends_snoc, all_creates_snoc, !occurrences_app.
  pose proof (occurrences_nonneg id (tx_creates p)). unfold applied in Hv.
  change (counted (tx_of p) p.2 (ResultIds (tx_of p))) with (tx_creates p) in *.
  change (counted (tx_of p) p.2 (SpentOutputIDs (tx_of p))) with (tx_spends p) in *.
  assert (occurrences id (tx_spends p) <= one_if (open_in v id)) as Hle.
  { destruct (decide (id ∈ tx_spends p)) as [Hin|Hni].
    - rewrite Forall_forall in Hf. destruct (Hf id Hin) as (e & He & Hsp & _). unfold open_in. rewrite He, Hsp.
      by apply occurrences_NoDup.
    - rewrite occurrences_in in Hni. destruct (open_in v id); cbn; lia. }
  unfold open_in at 1. rewrite Hv. case_decide as HR.
  { apply occurrences_in in HR. cbn. lia. }
  case_decide as HS.
  - rewrite Forall_forall in Hf. destruct (Hf id HS) as (e & -> & _). cbn [fmap option_fmap option_map SpendOutput Spent negb one_if]. lia.
  - rewrite occurrences_in in HS. fold (open_in v id). lia.
Qed.

Lemma spent_once_mono v v' ps : (∀ id, spent_in v id → spent_in v' id) → spent_once v ps → spent_once v' ps.
Proof.
  intros Hv Hs id. specialize (Hs id). specialize (Hv id). rewrite <- !open_in_spent in Hv.
  destruct (open_in v id), (open_in v' id); cbn [one_if] in *; lia || by specialize (Hv eq_refl).
Qed.

(** ** The loop over the pool *)

(** Loading outputs into a view keeps what is there. *)
Class StoreLoads `{Store} : Prop := {
  loads_keep s v txs v' : store_GetTransactionsUtxo s v txs = Ok v' → ∀ id e, v !! id = Some e → v' !! id = Some e;
}.

Lemma load_utxo_keeps db v i id e : v !! id = Some e → load_utxo db v i !! id = Some e.
Proof.
  intros He. unfold load_utxo, HasUtxo. case_bool_decide as Hi; [done|]. destruct (db !! i); [|done].
  destruct (decide (id = i)) as [->|?]; [|by rewrite lookup_insert_ne]. destruct Hi. by eexists.
Qed.
Lemma fold_left_keeps {A B} (P : A → Prop) (f : A → B → A) l : (∀ a b, P a → P (f a b)) → ∀ a, P a → P (fold_left f l a).
Proof. intros Hf. induction l as [|b l IH]; intros a Ha; [done|]. apply IH, Hf, Ha. Qed.
#[global] Instance leveldb_loads Sum256 genesis `{GoRange} : @StoreLoads (leveldb_Store Sum256 genesis).
Proof.
  constructor. intros s v txs v' [= <-] id e He. unfold getTransactionsUtxo.
  apply (fold_left_keeps (λ v, v !! id = Some e)); [|done]. intros v0 tx Hv0.
  apply (fold_left_keeps (λ v, v !! id = Some e)); [|done]. intros. by apply load_utxo_keeps.
Qed.

Section loop.
Context `{E : VmEnv} `{R : GoRange} {ROk : GoRangeOk} {DB : BlockDB} {K : EvmDisk} `{S : Store} {L : StoreLoads}.
Context (results : Hash → list Hash) (now : Z) (c : Chain) (blk : Block).

Definition desc_ID (d : TxDesc) : Hash := tt_ID (ds_Tx d).

(** What a round leaves alone when it passes over a transaction *)
Record passed (st st' : MiningState) : Prop := {
  pa_status : mi_status st' = mi_status st;
  pa_txs : mi_txs st' = mi_txs st;
  pa_gas : mi_gasUsed st' = mi_gasUsed st;
  pa_fee : mi_txFee st' = mi_txFee st;
  pa_spent id : spent_in (mi_view st) id → spent_in (mi_view st') id;
}.

(** What it does with one that it takes *)
Record took (d : TxDesc) (gasOnly : bool) (st st' : MiningState) : Prop := {
  tk_status : ∃ logs, mi_status st' = record_result (mi_status st) (Datatypes.S (length (mi_txs st))) logs gasOnly;
  tk_txs : mi_txs st' = mi_txs st ++ [ds_Tx d];
  tk_pool : mi_pool st' = mi_pool st;
  tk_gas : mi_gasUsed st' <= MaxBlockGas;
  tk_fee : mi_txFee st' = uint64 (mi_txFee st + ds_Fee d);
  tk_view : ∃ v, ApplyTransaction blk (tt_Tx (ds_Tx d)) gasOnly v = (Ok tt, mi_view st')
                 ∧ ∀ id, spent_in (mi_view st) id → spent_in v id;
}.

Lemma mine_tx_cases d st go st' : mine_tx now c blk d st = (Ok go, st') →
  (passed st st' ∧ (mi_pool st' = mi_pool st ∨ mi_pool st' = RemoveTransaction now (desc_ID d) (mi_pool st)))
  ∨ ∃ gasOnly, took d gasOnly st st'.
Proof.
  unfold mine_tx. destruct (store_GetTransactionsUtxo _ _ _) as [v|e| |] eqn:Hl; [|..|done|done].
  2: { intros [= <- <-]. left. split; [by split|by right]. }
  assert (∀ id, spent_in (mi_view st) id → spent_in v id) as Hv.
  { intros id (e & He & Hs). exists e. split; [|done]. by eapply loads_keep. }
  destruct (ValidateTx _ _ _ _) as [err vs]. destruct err as [[]|e| |]; [| |done|done]; cbn [andb negb].
  all: repeat match goal with |- context [if ?b then _ else _] => destruct b eqn:? end.
  all: try (intros [= <- <-]; left; split; [by split|by auto]).
  all: destruct (ApplyTransaction _ _ _ _) as [[[]|er| |] v'] eqn:Ha; try done; intros [= <- <-].
  all: try (left; split; [split; try done; cbn; eauto using ApplyTransaction_refused|by right]).
  all: right; eexists; split; cbn [mi_status mi_txs mi_pool mi_gasUsed mi_txFee mi_view]; eauto; by apply Z.ltb_ge.
Qed.

(** The state after some transactions of the pool [pool0] were seen and [ps]
    chosen among them *)
Definition fees (ps : list (TxDesc * bool)) : Z := foldr (λ p n, ds_Fee p.1 + n) 0 ps.
Lemma fees_snoc ps p : fees (ps ++ [p]) = fees ps + ds_Fee p.1.
Proof. induction ps as [|q ps IH]; cbn; [lia|]. unfold fees in IH. rewrite IH. lia. Qed.

Record mined (pool0 : TxPool) (seen : list TxDesc) (st : MiningState) (ps : list (TxDesc * bool)) : Prop := {
  md_chosen : ps.*1 `sublist_of` seen;
  md_txs : mi_txs st = (λ p, ds_Tx p.1) <$> ps;
  md_status : StatusFail <$> VerifyStatus (mi_status st) = false :: ps.*2;
  md_gas : mi_gasUsed st <= MaxBlockGas;
  md_fee : mi_txFee st = uint64 (fees ps);
  md_pool : tp_pool (mi_pool st) ⊆ tp_pool pool0;
  md_pool_ok : pool_ok results (mi_pool st);
  md_kept : ∀ h d, tp_pool pool0 !! h = Some d → d ∉ seen ∨ d ∈ ps.*1 → tp_pool (mi_pool st) !! h = Some d;
  md_spent : spent_once (mi_view st) ps;
}.

Context (pool0 : TxPool).

Lemma mined_pass seen d st st' ps : d ∉ seen → tp_pool pool0 !! desc_ID d = Some d → mined pool0 seen st ps → passed st st' →
  mi_pool st' = mi_pool st ∨ mi_pool st' = RemoveTransaction now (desc_ID d) (mi_pool st) → mined pool0 (seen ++ [d]) st' ps.
Proof.
  intros Hnew Hd [Hch Htx Hstat Hgas Hfee Hpool Hok Hkept Hsp] [Ps Pt Pg Pf Pv] Hp.
  assert (d ∉ ps.*1) as Hdp. { intros Hin. apply Hnew. by eapply elem_of_sublist. }
  split; rewrite ?Ps, ?Pt, ?Pg, ?Pf; try done.
  - by apply sublist_inserts_r.
  - destruct Hp as [->| ->]; [done|]. unfold RemoveTransaction. destruct (tp_pool (mi_pool st) !! _); [|done]. cbn.
    etransitivity; [apply delete_subseteq|done].
  - destruct Hp as [->| ->]; [done|]. by apply RemoveTransaction_ok.
  - intros h d' Hh Hd'. assert (d' ≠ d) as Hne by set_solver.
    assert (tp_pool (mi_pool st) !! h = Some d') as Hl by (apply Hkept; set_solver).
    destruct Hp as [->| ->]; [done|]. unfold RemoveTransaction. destruct (tp_pool (mi_pool st) !! desc_ID d); [|done]. cbn.
    rewrite lookup_delete_ne; [done|]. intros <-. congruence.
  - by eapply spent_once_mono.
Qed.

Lemma mined_take seen d b st st' ps : d ∉ seen → mined pool0 seen st ps → took d b st st' →
  mined pool0 (seen ++ [d]) st' (ps ++ [(d, b)]).
Proof.
  intros Hnew [Hch Htx Hstat Hgas Hfee Hpool Hok Hkept Hsp] [[logs Ts] Tt Tp Tg Tf (v & Tv & Hv)].
  split; rewrite ?Ts, ?Tt, ?Tp, ?Tf; try done.
  - rewrite fmap_app. by apply sublist_app.
  - by rewrite fmap_app, Htx.
  - assert (length (VerifyStatus (mi_status st)) = Datatypes.S (length (mi_txs st))) as Hlen.
    { rewrite <- (length_fmap StatusFail), Hstat, Htx. cbn. by rewrite !length_fmap. }
    rewrite (record_result_next _ _ logs b Hlen), !fmap_app, Hstat. done.
  - rewrite fees_snoc, Hfee. cbn [fst]. unfold uint64, wrapU. by rewrite Zplus_mod_idemp_l.
  - intros h d' Hh Hd'. apply Hkept; [done|]. rewrite fmap_app, !elem_of_app in Hd'. cbn in Hd'.
    destruct Hd' as [Hn|[Hin|Hin]]; [left; set_solver|by right|]. apply list_elem_of_singleton in Hin as ->. by left.
  - apply (spent_once_choose blk v _ ps (d, b)); [done|]. by eapply spent_once_mono.
Qed.

Lemma mined_weaken seen rest st ps : mined pool0 seen st ps → mined pool0 (seen ++ rest) st ps.
Proof.
  intros [Hch Htx Hstat Hgas Hfee Hpool Hok Hkept Hsp]. split; try done; [by apply sublist_inserts_r|].
  intros h d Hh Hd. apply Hkept; [done|]. set_solver.
Qed.

Lemma mine_txs_mined txs : ∀ seen st ps st', NoDup (seen ++ txs) → (∀ d, d ∈ txs → tp_pool pool0 !! desc_ID d = Some d) →
  mined pool0 seen st ps → mine_txs now c blk txs st = (Ok tt, st') → ∃ ps', mined pool0 (seen ++ txs) st' ps'.
Proof.
  induction txs as [|d txs IH]; intros seen st ps st' Hnd Hin Hm; cbn [mine_txs].
  { intros [= <-]. exists ps. by rewrite app_nil_r. }
  assert (d ∉ seen) as Hnew. { apply NoDup_app in Hnd as (_ & Hn & _). intros Hs. apply (Hn d Hs). constructor. }
  destruct (mine_tx _ _ _ _ _) as [[go| | |] st1] eqn:H1; [|done..].
  assert (∃ ps1, mined pool0 (seen ++ [d]) st1 ps1) as [ps1 Hm1].
  { apply mine_tx_cases in H1 as [[Hp Hpool]|[b Ht]].
    - exists ps. eapply mined_pass; try done. apply Hin. constructor.
    - eexists. by eapply mined_take. }
  rewrite (cons_middle d seen txs), app_assoc in Hnd |- *. destruct go; intros Hrest.
  - eapply IH; try done. intros d' Hd'. apply Hin. by constructor.
  - injection Hrest as <-. eauto using mined_weaken.
Qed.

Lemma mined_start w db : pool_ok results pool0 → mined pool0 [] (start_mining w pool0 db) [].
Proof.
  intros Hok. split; done.
Qed.
End loop.

(** ** The coinbase transaction *)

Section coinbase.
Context (Sum256 : list Z → list Z) `{R : GoRange}.

(** The coinbase has one input, that names the height, and one output, that
    pays the fees and the subsidy. *)
Lemma createCoinbaseTx_Ok {W} now am amount height t : createCoinbaseTx Sum256 (W := W) now am amount height = Ok t →
  ∃ script, coinbase_script am = Ok script
  ∧ td_Version (tt_TxData t) = 1
  ∧ td_Inputs (tt_TxData t) = [NewCoinbaseInput (coinbase_arbitrary am height)]
  ∧ td_Outputs (tt_TxData t) = [NewTxOutput NativeAsset (uint64 (amount + BlockSubsidy height)) script]
  ∧ uint64 (amount + BlockSubsidy height) <= MaxInt64
  ∧ len (coinbase_arbitrary am height) <= CoinbaseArbitrarySizeLimit
  ∧ MapTx Sum256 (tt_TxData t) = Ok (tt_Tx t).
Proof.
  unfold createCoinbaseTx. destruct (coinbase_script am) as [script| | |]; [|done..]. cbn [obind].
  destruct (Z.ltb_spec CoinbaseArbitrarySizeLimit (len (coinbase_arbitrary am height))); [done|].
  unfold AddInput. cbn [obind NewCoinbaseInput ti_TypedInput]. unfold AddOutput.
  destruct (Z.ltb_spec MaxInt64 (amount_of (NewTxOutput NativeAsset (uint64 (amount + BlockSubsidy height)) script))) as [|Ha]; [done|].
  cbn. unfold new_tx, NewTx at 1. destruct (MapTx Sum256 _) as [t1| | |]; [|done..]. cbn.
  destruct (tx_MarshalText _ _) as [text| | |]; [|done..]. cbn. unfold NewTx.
  destruct (MapTx Sum256 _) as [t2| | |] eqn:Hm; [|done..]. intros [= <-]. exists script. by split_and!.
Qed.

(** [FormatUint] writes the number down. *)
Definition dec_value (ds : list Z) : Z := foldl (λ a d, 10 * a + (d - 48)) 0 ds.
Lemma format_digits_value fuel : ∀ n acc, 0 <= n < 10 ^ Z.of_nat fuel →
  ∃ ds, format_digits fuel n acc = ds ++ acc ∧ dec_value ds = n.
Proof.
  induction fuel as [|fuel IH]; intros n acc Hn; cbn [format_digits]; [exists []; cbn in *; split; [done|lia]|].
  rewrite Nat2Z.inj_succ, Z.pow_succ_r in Hn by lia. destruct (Z.ltb_spec n 10).
  - exists [48 + n]. split; [done|]. unfold dec_value. cbn. lia.
  - destruct (IH (n / 10) ((48 + n mod 10) :: acc)) as (ds & -> & Hd).
    { split; [apply Z.div_pos; lia|apply Z.div_lt_upper_bound; lia]. }
    exists (ds ++ [48 + n mod 10]). split; [by rewrite <- app_assoc|]. unfold dec_value in *. rewrite foldl_app, Hd. cbn.
    pose proof (Z.div_mod n 10 ltac:(lia)). lia.
Qed.

Lemma FormatUint_value n : is_uint64 n → dec_value (FormatUint n) = n.
Proof.
  intros Hn. unfold FormatUint. destruct (format_digits_value 20 n []) as (ds & -> & Hd).
  { unfold is_uint64 in Hn. change (10 ^ Z.of_nat 20) with 100000000000000000000. lia. }
  by rewrite app_nil_r.
Qed.

(** The height keeps the coinbases of different blocks apart. *)
Lemma coinbase_arbitrary_inj am h1 h2 : is_uint64 h1 → is_uint64 h2 →
  coinbase_arbitrary am h1 = coinbase_arbitrary am h2 → h1 = h2.
Proof.
  unfold coinbase_arbitrary. intros H1 H2 [= He]. apply app_inv_tail in He.
  by rewrite <- (FormatUint_value h1 H1), He, FormatUint_value.
Qed.
End coinbase.

(** ** Templates *)

Section template.
Context `{E : VmEnv} `{R : GoRange} {ROk : GoRangeOk} {DB : BlockDB} {K : EvmDisk} `{S : Store} {L : StoreLoads}.
Context `{GS : GoSort} {GOk : GoSortOk}.
Context (results : Hash → list Hash) (root : BlockNode).

(** What a template [b] made on the chain [c] from [pool] is, with what it
    leaves of the pool *)
Record template_ok (now rnd : Z) (am : option AccountManager) (c : Chain) (pool pool' : TxPool) (b : TypesBlock)
    (coinbase : TypesTx) (ps : list (TxDesc * bool)) : Prop := {
  tp_txs : tb_Transactions b = coinbase :: ((λ p, ds_Tx p.1) <$> ps);
  tp_oldest : ps.*1 `sublist_of` go_sort (GetTransactions pool);
  tp_sorted : Sorted by_time (go_sort (GetTransactions pool));
  tp_from_pool : ∀ p, p ∈ ps → tp_pool pool !! desc_ID p.1 = Some p.1 ∧ tp_pool pool' !! desc_ID p.1 = Some p.1;
  tp_pool_less : tp_pool pool' ⊆ tp_pool pool ∧ pool_ok results pool';
  tp_no_double_spend : ∀ id, occurrences id (all_spends ps) <= 1 + occurrences id (all_creates ps);
  tp_reward : ∃ script, coinbase_script am = Ok script ∧ td_Outputs (tt_TxData coinbase)
    = [NewTxOutput NativeAsset (uint64 (fees ps + BlockSubsidy (bn_Height (c_bestNode c) + 1))) script];
  tp_coinbase : td_Inputs (tt_TxData coinbase) = [NewCoinbaseInput (coinbase_arbitrary am (bn_Height (c_bestNode c) + 1))]
    ∧ MapTx sha3_Sum256 (tt_TxData coinbase) = Ok (tt_Tx coinbase);
  tp_version : bh_Version (tb_BlockHeader b) = 1;
  tp_height : bh_Height (tb_BlockHeader b) = bn_Height (c_bestNode c) + 1;
  tp_previous : bh_PreviousBlockHash (tb_BlockHeader b) = header_Hash sha3_Sum256 (node_header (c_bestNode c));
  tp_time : bn_Timestamp (c_bestNode c) <= bh_Timestamp (tb_BlockHeader b);
  tp_bits : chain_CalcNextBits (bh_PreviousBlockHash (tb_BlockHeader b)) c = Ok (bh_Bits (tb_BlockHeader b));
  tp_root : TxMerkleRoot sha3_Sum256 (tt_Tx <$> tb_Transactions b)
    = Ok (bc_TransactionsMerkleRoot (bh_BlockCommitment (tb_BlockHeader b)));
  tp_status : ∃ vs, TxStatusMerkleRoot sha3_Sum256 vs = Ok (bc_TransactionStatusHash (bh_BlockCommitment (tb_BlockHeader b)))
    ∧ StatusFail <$> vs = false :: ps.*2;
}.

Lemma next_height c : chain_ok sha3_Sum256 root c →
  uint64 (bn_Height (c_bestNode c) + 1) = bn_Height (c_bestNode c) + 1 ∧ is_uint64 (bn_Height (c_bestNode c) + 1).
Proof.
  intros Hc. pose proof (height_nonneg _ _ (co_tree _ _ _ Hc) _ (co_best _ _ _ Hc)).
  pose proof (to_bound _ _ (co_tree _ _ _ Hc) _ _ (co_best _ _ _ Hc)) as Hb. cbn in Hb.
  split; [rewrite uint64_id; [done|]|]; unfold is_uint64; lia.
Qed.

Lemma pool_in_order pool : pool_ok results pool →
  NoDup (go_sort (GetTransactions pool)) ∧ ∀ d, d ∈ go_sort (GetTransactions pool) → tp_pool pool !! desc_ID d = Some d.
Proof.
  intros Hp. assert (GetTransactions pool ≡ₚ (map_to_list (tp_pool pool)).*2) as Hg.
  { unfold GetTransactions. by rewrite (go_range_perm _ (tp_pool pool)). }
  assert (∀ h d, (h, d) ∈ map_to_list (tp_pool pool) → desc_ID d = h) as Hid.
  { intros h d Hd%elem_of_map_to_list. by apply (po_pool _ _ Hp h d). }
  split.
  - rewrite go_sort_perm, Hg. apply NoDup_fmap_2_strong; [|apply NoDup_map_to_list].
    intros [h1 d1] [h2 d2] H1 H2. cbn. intros <-. by rewrite <- (Hid _ _ H1), <- (Hid _ _ H2).
  - intros d. rewrite go_sort_perm, Hg. intros ([h d'] & -> & Hd)%list_elem_of_fmap. cbn.
    rewrite (Hid _ _ Hd). by apply elem_of_map_to_list.
Qed.

Lemma NewBlockTemplate_ok now rnd am c pool b pool' : chain_ok sha3_Sum256 root c → pool_ok results pool →
  NewBlockTemplate now rnd am c pool = (Ok b, pool') → ∃ coinbase ps, template_ok now rnd am c pool pool' b coinbase ps.
Proof.
  intros Hc Hp. unfold NewBlockTemplate. rewrite (best_header _ _ c Hc). set (best := c_bestNode c).
  destruct (chain_CalcNextBits _ c) as [bits| | |] eqn:Hbits; [|done..].
  destruct (evm_New _ _) as [db|]; [|done]. destruct (pool_in_order pool Hp) as [Hnd Hin].
  destruct (mine_txs _ _ _ _ _) as [[[]| | |] st] eqn:Hm; [|done..].
  destruct (mine_txs_mined results now c _ pool _ [] _ [] _ Hnd Hin (mined_start results pool _ _ Hp) Hm) as [ps Hps].
  intros [= Hf <-]. unfold finish_template in Hf.
  change (bh_Height (node_header best)) with (bn_Height best) in Hf.
  pose proof (proj1 (next_height c Hc)) as Hh. fold best in Hh. rewrite Hh in Hf.
  destruct (createCoinbaseTx _ _ _ _ _) as [coinbase| | |] eqn:Hcb; [|done..]. cbn [obind] in Hf.
  destruct (createCoinbaseTx_Ok _ _ _ _ _ _ Hcb) as (script & Hs & _ & Hins & Houts & _ & _ & Hmap).
  match type of Hf with obind ?m _ = _ => destruct m as [db'| | |]; [|done..] end. cbn [obind] in Hf.
  unfold root_outcome in Hf. destruct (TxMerkleRoot _ _) as [r1| | |] eqn:Hr1; [|done..]. cbn [obind] in Hf.
  destruct (TxStatusMerkleRoot _ _) as [r2| | |] eqn:Hr2; [|done..]. injection Hf as <-. exists coinbase, ps.
  destruct Hps as [Hch Htx Hstat Hgas Hfee Hpool Hok Hkept Hsp]. rewrite Htx in *.
  split; cbn; try done.
  - apply go_sort_sorted.
  - intros p Hpp. assert (p.1 ∈ ps.*1) as H1 by (apply list_elem_of_fmap; eauto).
    assert (tp_pool pool !! desc_ID p.1 = Some p.1) as H2 by (by apply Hin, (elem_of_sublist _ _ _ H1)).
    split; [done|]. apply Hkept; auto.
  - intros id. specialize (Hsp id). destruct (open_in _ id); cbn [one_if] in Hsp; lia.
  - exists script. split; [done|]. rewrite Houts, Hfee. unfold uint64, wrapU. by rewrite Zplus_mod_idemp_l.
  - unfold template_time. destruct (Z.ltb_spec (uint64 (uint64 (now / 1000000000) + rnd mod TargetSecondsPerBlock))
      (bh_Timestamp (node_header best))) as [?|Hle]; [done|exact Hle].
  - eauto.
Qed.

(** ** Solving *)

#[local] Strategy 1000 [CheckProofOfWork header_Hash checkBlockTime].

Definition solves (seed : Hash) (h : BlockHeader) (n : Z) : bool :=
  CheckProofOfWork sha3_Sum256 (header_Hash sha3_Sum256 (set_nonce n h)) seed (bh_Bits h).

Lemma set_nonce_twice n i h : set_nonce n (set_nonce i h) = set_nonce n h.
Proof. reflexivity. Qed.
Lemma set_nonce_bits n h : bh_Bits (set_nonce n h) = bh_Bits h.
Proof. reflexivity. Qed.
Lemma set_nonce_time n h : bh_Timestamp (set_nonce n h) = bh_Timestamp h.
Proof. reflexivity. Qed.
Lemma solves_nonce seed n i h : solves seed (set_nonce i h) n = solves seed h n.
Proof. unfold solves. rewrite set_nonce_twice. reflexivity. Qed.

Lemma solve_loop_sound seed signals : ∀ i h h', solve_loop signals seed i h = Ok (true, h') →
  ∃ n, h' = set_nonce n h ∧ solves seed h n = true.
Proof.
  induction signals as [|s signals IH]; intros i h h'; cbn [solve_loop]; [done|].
  destruct s; [done| |]; try (destruct (_ <=? _); [done|]).
  all: destruct (CheckProofOfWork _ _ _ _) eqn:Hp; [intros [= <-]; exists i; split; [reflexivity|exact Hp]|].
  all: intros (n & -> & Hn)%IH; exists n; rewrite solves_nonce in Hn; split; [apply set_nonce_twice|exact Hn].
Qed.

Lemma solve_loop_step seed i h rest : solve_loop (SigNone :: rest) seed i h
  = if solves seed h i then Ok (true, set_nonce i h) else solve_loop rest seed (uint64 (i + 1)) (set_nonce i h).
Proof. unfold solves. cbn [solve_loop]. rewrite set_nonce_bits. reflexivity. Qed.

(** Undisturbed, the loop stops at the first nonce that solves the block. *)
Lemma solve_loop_complete seed k : ∀ i h rest, 0 <= i → i + Z.of_nat k <= MaxUint64 →
  solves seed h (i + Z.of_nat k) = true →
  ∃ n, i <= n <= i + Z.of_nat k
       ∧ solve_loop (replicate (Datatypes.S k) SigNone ++ rest) seed i h = Ok (true, set_nonce n h).
Proof.
  induction k as [|k IH]; intros i h rest Hi Hb Hs; rewrite replicate_S, <- app_comm_cons, solve_loop_step.
  - rewrite Z.add_0_r in *. rewrite Hs. exists i. split; [clear; lia|reflexivity].
  - destruct (solves seed h i) eqn:Hp; [exists i; split; [clear; lia|reflexivity]|]. clear Hp.
    assert (0 <= i + 1 ∧ i + 1 + Z.of_nat k <= MaxUint64) as [Hi1 Hb1] by (clear - Hi Hb; lia).
    replace (i + Z.of_nat (Datatypes.S k)) with (i + 1 + Z.of_nat k) in Hs by (clear; lia).
    rewrite uint64_id by (clear - Hi1 Hb1; unfold is_uint64; lia).
    destruct (IH (i + 1) (set_nonce i h) rest Hi1 Hb1) as (n & Hn & He); [rewrite solves_nonce; exact Hs|].
    exists n. split; [clear - Hn; lia|]. rewrite set_nonce_twice in He. exact He.
Qed.

Section solved.
Context (c : Chain) (Hc : chain_ok sha3_Sum256 root c).
Context (Hhash : header_Hash sha3_Sum256 (node_header (c_bestNode c)) = bn_Hash (c_bestNode c)).

Lemma best_by_hash : GetNode (header_Hash sha3_Sum256 (node_header (c_bestNode c))) (c_index c) = Some (c_bestNode c).
Proof. rewrite Hhash. exact (co_best _ _ _ Hc). Qed.

Lemma template_header_valid now rnd am pool pool' b coinbase ps h clock :
  template_ok now rnd am c pool pool' b coinbase ps →
  bh_Version h = bh_Version (tb_BlockHeader b) → bh_Height h = bh_Height (tb_BlockHeader b) →
  bh_PreviousBlockHash h = bh_PreviousBlockHash (tb_BlockHeader b) → bh_Bits h = bh_Bits (tb_BlockHeader b) →
  ValidateBlockHeader sha3_Sum256 clock (MapBlock sha3_Sum256 (mkTypesBlock h (tb_Transactions b))) (c_bestNode c)
  = (if 1 <? bn_Version (c_bestNode c) then Err errVersionRegression
     else match checkBlockTime clock (bh_Timestamp h) (c_bestNode c) with
          | Some e => Err e
          | None => if CheckProofOfWork sha3_Sum256 (header_Hash sha3_Sum256 h) (CalcNextSeed (c_bestNode c)) (bh_Bits h)
                    then Ok tt else Err errWorkProof
          end).
Proof.
  intros Ht Hv Hh Hp Hb. unfold ValidateBlockHeader. cbn. rewrite Hv, Hh, Hp, Hb, (tp_version _ _ _ _ _ _ _ _ _ Ht).
  destruct (1 <? _); [done|]. rewrite (tp_height _ _ _ _ _ _ _ _ _ Ht), (proj1 (next_height c Hc)), Z.eqb_refl. cbn.
  pose proof (tp_bits _ _ _ _ _ _ _ _ _ Ht) as Hbits. rewrite (tp_previous _ _ _ _ _ _ _ _ _ Ht) in *.
  unfold chain_CalcNextBits in Hbits. rewrite best_by_hash in Hbits.
  destruct (CalcNextBits _) as [bits| | |]; [|done..]. injection Hbits as ->. rewrite Z.eqb_refl. cbn.
  rewrite Hhash, bool_decide_eq_true_2 by done. done.
Qed.

(** A template that the miner has solved: nothing but the nonce has changed,
    and its header is valid as far as the clock and the version allow. *)
Lemma solved_template_valid now rnd am pool pool' b coinbase ps signals b' clock :
  template_ok now rnd am c pool pool' b coinbase ps → solveBlock signals b c = Ok (true, b') →
  tb_Transactions b' = tb_Transactions b
  ∧ bh_BlockCommitment (tb_BlockHeader b') = bh_BlockCommitment (tb_BlockHeader b)
  ∧ ValidateBlockHeader sha3_Sum256 clock (MapBlock sha3_Sum256 b') (c_bestNode c)
    = if 1 <? bn_Version (c_bestNode c) then Err errVersionRegression
      else match checkBlockTime clock (bh_Timestamp (tb_BlockHeader b)) (c_bestNode c) with Some e => Err e | None => Ok tt end.
Proof.
  intros Ht. unfold solveBlock, chain_CalcNextSeed. rewrite (tp_previous _ _ _ _ _ _ _ _ _ Ht), best_by_hash.
  destruct (solve_loop _ _ _ _) as [[[] h']| | |] eqn:Hl; intros [= <-]. apply solve_loop_sound in Hl as (n & -> & Hn).
  split; [reflexivity|]. split; [reflexivity|].
  rewrite (template_header_valid _ _ _ _ _ _ _ _ _ clock Ht) by reflexivity. unfold solves in Hn.
  rewrite set_nonce_bits, set_nonce_time, Hn. reflexivity.
Qed.

(** Whatever nonce and time are put into the template, the version decides. *)
Lemma version_decides now rnd am pool pool' b coinbase ps bh bs h d :
  template_ok now rnd am c pool pool' b coinbase ps → 1 < bn_Version (c_bestNode c) →
  (ValidateBlock bs (MapBlock sha3_Sum256 (solved_block bh b)) (c_bestNode c) h d).1 = Err (ErrHeader errVersionRegression).
Proof.
  intros Ht Hv. unfold ValidateBlock, solved_block.
  rewrite (template_header_valid _ _ _ _ _ _ _ _ _ _ Ht) by reflexivity. by rewrite (proj2 (Z.ltb_lt _ _) Hv).
Qed.
End solved.

(** C32: a template extends the best block.  When the chain keeps its
    invariant [chain_ok] and the pool its own [pool_ok], the transactions of every
    template that is made are some of the pool's, sorted by the second in which
    they arrived, after a coinbase that pays the subsidy and the sum of their fees
    (as a uint64) to the miner's program; they spend an output once, and once
    more for each time that they create it; they stay in the pool, which stays
    well formed and gains nothing; the header has the height, parent,
    difficulty and roots that validation asks for. *)
Theorem templates_extend_the_best_block now rnd am c pool b pool' : chain_ok sha3_Sum256 root c → pool_ok results pool →
  NewBlockTemplate now rnd am c pool = (Ok b, pool') → ∃ coinbase ps, template_ok now rnd am c pool pool' b coinbase ps.
Proof. apply NewBlockTemplate_ok. Qed.

(** A template that the miner solves has a valid header: the verdict on it
    depends on the clock and on the version of the best block only, and is
    positive unless the time is out of bounds or the chain has seen a higher
    version.  Undisturbed, the miner finds the first nonce there is. *)
Theorem solved_templates_have_valid_headers now rnd am c pool b pool' : chain_ok sha3_Sum256 root c → pool_ok results pool →
  header_Hash sha3_Sum256 (node_header (c_bestNode c)) = bn_Hash (c_bestNode c) →
  NewBlockTemplate now rnd am c pool = (Ok b, pool') →
  (∀ signals b' clock, solveBlock signals b c = Ok (true, b') →
     tb_Transactions b' = tb_Transactions b
     ∧ bh_BlockCommitment (tb_BlockHeader b') = bh_BlockCommitment (tb_BlockHeader b)
     ∧ ValidateBlockHeader sha3_Sum256 clock (MapBlock sha3_Sum256 b') (c_bestNode c)
       = if 1 <? bn_Version (c_bestNode c) then Err errVersionRegression
         else match checkBlockTime clock (bh_Timestamp (tb_BlockHeader b)) (c_bestNode c) with Some e => Err e | None => Ok tt end)
  ∧ ∀ k rest, Z.of_nat k <= MaxUint64 → solves (CalcNextSeed (c_bestNode c)) (tb_BlockHeader b) (Z.of_nat k) = true →
      ∃ b', solveBlock (replicate (Datatypes.S k) SigNone ++ rest) b c = Ok (true, b')
            ∧ 0 <= bh_Nonce (tb_BlockHeader b') <= Z.of_nat k.
Proof.
  intros Hc Hp Hhash Hb. destruct (NewBlockTemplate_ok _ _ _ _ _ _ _ Hc Hp Hb) as (coinbase & ps & Ht). split.
  - intros signals b' clock. exact (solved_template_valid c Hc Hhash _ _ _ _ _ _ _ _ signals b' clock Ht).
  - intros k rest Hk Hs. unfold solveBlock, chain_CalcNextSeed.
    rewrite (tp_previous _ _ _ _ _ _ _ _ _ Ht), (best_by_hash c Hc Hhash).
    destruct (solve_loop_complete (CalcNextSeed (c_bestNode c)) k 0 (tb_BlockHeader b) rest) as (n & Hn & ->); [done..|].
    eexists. split; [reflexivity|exact Hn].
Qed.

(** One block with a version above 1 stops every miner of this program.
    Validation accepts any version that does not fall, templates always have
    version 1: once the best block has a higher one, no nonce, no time and no
    state of the accounts make a template acceptable. *)
Theorem higher_version_stops_the_miners now rnd am c pool b pool' : chain_ok sha3_Sum256 root c → pool_ok results pool →
  header_Hash sha3_Sum256 (node_header (c_bestNode c)) = bn_Hash (c_bestNode c) →
  1 < bn_Version (c_bestNode c) → NewBlockTemplate now rnd am c pool = (Ok b, pool') →
  ∀ bh bs h d,
    (ValidateBlock bs (MapBlock sha3_Sum256 (solved_block bh b)) (c_bestNode c) h d).1 = Err (ErrHeader errVersionRegression).
Proof.
  intros Hc Hp Hhash Hv Hb bh bs h d. destruct (NewBlockTemplate_ok _ _ _ _ _ _ _ Hc Hp Hb) as (coinbase & ps & Ht).
  by eapply version_decides.
Qed.
End template.
