(* ===== verification/MiningExamples.v ===== *)
(** * Mining on the small ledger

    A parent and a child transaction wait in the pool: the template holds both
    when the parent comes first; when they arrived in the same second the child
    may come first and is thrown away.  A block with a higher version stops the
    miners.  The size that submitting a transaction records is not the size
    that other nodes read. *)

From S2P Require Import Prelude GoSlice VmProgram VmMachine Encoding Bc EntryHash Merkle StdPrograms TxMap Wire.
From S2P Require Import TxValidation TxConservation UtxoView Difficulty BlockValidation BlockExamples TxPool TxPoolSpec BlockIndex.
From S2P Require Import Orphans Chain ChainSpec LevelDB ChainSetup ChainExamples Mining MiningSpec.
From stdpp Require Import gmap sorting.
#[local] Open Scope Z_scope.

#[local] Existing Instance ledger_env.
#[local] Existing Instance toy_range.
#[local] Existing Instance toy_range_ok.
#[local] Existing Instance ledger_db.
#[local] Existing Instance toy_disk.
#[local] Existing Instance toy_store.

(** ** Two ways to sort that both respect the time *)

#[local] Instance by_time_dec : RelDecision by_time := λ a b, Z_le_dec (added_second a) (added_second b).
#[local] Instance by_time_total : Total by_time.
Proof. intros a b. unfold by_time. lia. Qed.

Definition sort_forth : GoSort := λ l, merge_sort by_time l.
Definition sort_back : GoSort := λ l, merge_sort by_time (rev l).

Lemma sort_forth_ok : @GoSortOk sort_forth.
Proof.
  constructor; intros l; unfold go_sort, sort_forth; [apply merge_sort_Permutation|apply Sorted_merge_sort, _].
Qed.
Lemma sort_back_ok : @GoSortOk sort_back.
Proof.
  constructor; intros l; unfold go_sort, sort_back; [|apply Sorted_merge_sort, _].
  rewrite merge_sort_Permutation. symmetry. apply Permutation_rev.
Qed.

(** ** A parent and its child in the pool *)

Definition mapped_types (td : TxData) : TypesTx := mkTypesTx td (mapped_tx td).

(** An input that spends this output of a transaction *)
Definition spend_of (tx : Tx) (i : nat) : TxInput :=
  match tx_Output tx (default NativeAsset (ResultIds tx !! i)) with
  | Ok o =>
      match out_Source o with
      | Some s => mkTxInput 1 (Some (SpendInput [] [] (mkSpendCommitment (default (toy_native 0) (vs_Value s))
                    (default NativeAsset (vs_Ref s)) (vs_Position s) 1 (pr_Code (out_ControlProgram o))))) [] []
      | None => toy_spend 0
      end
  | _ => toy_spend 0
  end.

Definition parent_tx : TypesTx := mapped_types toy_payment.
Definition child_tx : TypesTx :=
  mapped_types (mkTxData 1 100 0 [spend_of (tt_Tx parent_tx) 0] [toy_txout 4000000] []).

(** The output that the parent spends is on disk. *)
Definition disk_utxos : gmap Hash UtxoEntry :=
  list_to_map ((λ id, (id, NewUtxoEntry false 0 false)) <$> SpentOutputIDs (tt_Tx parent_tx)).
Definition mining_chain : Chain :=
  with_store (mkLevelDB (ldb_blocks db0) (ldb_headers db0) (ldb_status db0) disk_utxos (ldb_state db0)) chain0.

Definition second : Z := 1000000000.
Definition family_pool : TxPool :=
  let p1 := (ProcessTransaction (1001 * second) disk_utxos parent_tx false 0 3000000 (NewTxPool 0)).2 in
  (ProcessTransaction (1001 * second + 7) disk_utxos child_tx false 0 2000000 p1).2.

Definition template_with (s : GoSort) : outcome mining_error TypesBlock * TxPool :=
  @NewBlockTemplate _ _ _ _ _ s (1002 * second) 5 None mining_chain family_pool.
Definition template_ids (o : outcome mining_error TypesBlock) : list Hash :=
  match o with Ok b => tt_ID <$> tail (tb_Transactions b) | _ => [] end.


(** ** The pool is well formed *)

Definition family_results (h : Hash) : list Hash :=
  if bool_decide (h = tt_ID parent_tx) then tt_ResultIds parent_tx else tt_ResultIds child_tx.

Lemma family_pool_ok : pool_ok family_results family_pool.
Proof.
  unfold family_pool. apply ProcessTransaction_ok.
  - unfold tx_ok, family_results. rewrite bool_decide_eq_false_2; [done|]. vm_compute. congruence.
  - apply ProcessTransaction_ok; [|apply NewTxPool_ok]. unfold tx_ok, family_results. by rewrite bool_decide_eq_true_2.
Qed.

Lemma other_store_ok s (c : Chain) : chain_ok toy_sum genesis_node c → chain_ok toy_sum genesis_node (with_store s c).
Proof. intros [Ht Hb Hm Ho]. split; [exact Ht|exact Hb|exact Hm|exact Ho]. Qed.
Lemma mining_chain_ok : chain_ok toy_sum genesis_node mining_chain.
Proof. apply other_store_ok, chain0_ok. Qed.

Definition made {X B} (d : X) (p : outcome mining_error X * B) : X := match p.1 with Ok x => x | _ => d end.
Lemma made_Ok {X B} (d : X) (p : outcome mining_error X * B) :
  match p.1 with Ok _ => true | _ => false end = true → p = (Ok (made d p), p.2).
Proof. by destruct p as [[]]. Qed.

Definition family_template : TypesBlock := made genesis_block (template_with sort_forth).
Lemma family_template_made : template_with sort_forth = (Ok family_template, (template_with sort_forth).2).
Proof. apply made_Ok. vm_compute. reflexivity. Qed.

Lemma templates_extend_the_best_block_witness :
  template_ids (Ok family_template) = [tt_ID parent_tx; tt_ID child_tx]
  ∧ ∃ coinbase ps, template_ok (GS := sort_forth) family_results (1002 * second) 5 None mining_chain family_pool
      (template_with sort_forth).2 family_template coinbase ps.
Proof.
  split; [vm_compute; reflexivity|].
  exact (templates_extend_the_best_block (GOk := sort_forth_ok) family_results genesis_node (1002 * second) 5 None mining_chain
    family_pool family_template _ mining_chain_ok family_pool_ok family_template_made).
Defined.

(** A transaction can be thrown out of the pool because its parent arrived
    in the same second.  The pool is sorted by whole seconds, and the sort may
    leave transactions of the same second in any order; a child that comes
    before its parent finds its input missing and is removed from the pool.
    Both sorts here keep to the contract; with one the template has both
    transactions, with the other it has the parent and the child is lost. *)
Theorem same_second_child_is_lost :
  @GoSortOk sort_forth ∧ @GoSortOk sort_back
  ∧ template_ids (template_with sort_forth).1 = [tt_ID parent_tx; tt_ID child_tx]
  ∧ template_ids (template_with sort_back).1 = [tt_ID parent_tx]
  ∧ IsTransactionInPool (tt_ID child_tx) family_pool = true
  ∧ IsTransactionInPool (tt_ID child_tx) (template_with sort_forth).2 = true
  ∧ IsTransactionInPool (tt_ID child_tx) (template_with sort_back).2 = false.
Proof.
  split; [exact sort_forth_ok|]. split; [exact sort_back_ok|]. vm_compute. split_and!; reflexivity.
Qed.

(** ** A higher version *)

#[local] Existing Instance sort_forth.
#[local] Existing Instance sort_forth_ok.

Lemma genesis_hash :
  header_Hash sha3_Sum256 (node_header (c_bestNode mining_chain)) = bn_Hash (c_bestNode mining_chain).
Proof. vm_compute. reflexivity. Qed.
Lemma family_template_solves :
  solves (CalcNextSeed (c_bestNode mining_chain)) (tb_BlockHeader family_template) (Z.of_nat 0) = true.
Proof. vm_compute. reflexivity. Qed.
Lemma family_template_time : (if 1 <? bn_Version (c_bestNode mining_chain) then Err errVersionRegression
  else match checkBlockTime 1002 (bh_Timestamp (tb_BlockHeader family_template)) (c_bestNode mining_chain) with
       | Some e => Err e
       | None => Ok tt
       end) = Ok tt.
Proof. vm_compute. reflexivity. Qed.

(** Every hash solves the blocks of the small ledger. *)
Lemma solved_templates_have_valid_headers_witness :
  ∃ b', solveBlock (replicate 1 SigNone ++ []) family_template mining_chain = Ok (true, b')
        ∧ ValidateBlockHeader sha3_Sum256 1002 (MapBlock sha3_Sum256 b') (c_bestNode mining_chain) = Ok tt.
Proof.
  destruct (solved_templates_have_valid_headers (GOk := sort_forth_ok) family_results genesis_node (1002 * second) 5 None mining_chain
    family_pool family_template (template_with sort_forth).2 mining_chain_ok family_pool_ok genesis_hash family_template_made) as [Hv Hs].
  destruct (Hs 0%nat [] ltac:(lia) family_template_solves) as (b' & Hb' & _). exists b'. split; [exact Hb'|].
  destruct (Hv _ _ 1002 Hb') as (_ & _ & He). rewrite He. exact family_template_time.
Defined.

(** A valid block of version 2, and the chain that has adopted it *)
Definition version2_block : TypesBlock :=
  let h := tb_BlockHeader block1 in
  mkTypesBlock (mkHeader 2 (bh_Height h) (bh_PreviousBlockHash h) (bh_Timestamp h) (bh_Nonce h) (bh_Bits h)
                  (bh_BlockCommitment h)) (tb_Transactions block1).
Definition version2_chain : Chain := run_chain chain0 [BlockArrives 0 version2_block].
Definition version2_template : TypesBlock :=
  made genesis_block (NewBlockTemplate (1020 * second) 5 None version2_chain (NewTxPool 0)).

Lemma version2_chain_ok : chain_ok toy_sum genesis_node version2_chain.
Proof. apply (ad_ok _ _ _ _ (chain_steps_advance toy_sum genesis_node [BlockArrives 0 version2_block] chain0 chain0_ok)). Qed.

Lemma version2_template_made : NewBlockTemplate (1020 * second) 5 None version2_chain (NewTxPool 0)
  = (Ok version2_template, (NewBlockTemplate (1020 * second) 5 None version2_chain (NewTxPool 0)).2).
Proof. apply made_Ok. vm_compute. reflexivity. Qed.

Lemma higher_version_stops_the_miners_witness :
  best_hash version2_chain = block_Hash toy_sum version2_block ∧
  ∀ bh bs h d, (ValidateBlock bs (MapBlock toy_sum (solved_block bh version2_template)) (c_bestNode version2_chain) h d).1
    = Err (ErrHeader errVersionRegression).
Proof.
  split; [vm_compute; reflexivity|].
  apply (higher_version_stops_the_miners family_results genesis_node (1020 * second) 5 None version2_chain (NewTxPool 0)
    version2_template (NewBlockTemplate (1020 * second) 5 None version2_chain (NewTxPool 0)).2
    version2_chain_ok (NewTxPool_ok _ _)).
  - vm_compute. reflexivity.
  - vm_compute. reflexivity.
  - exact version2_template_made.
Defined.

(** ** Sizes *)

(** The text of a transaction is twice as long as its bytes, and its length is
    what [FinalizeTx] and [createCoinbaseTx] record as the size. *)
Lemma text_twice_as_long td bs text : writeTo toy_sum td = Ok bs → tx_MarshalText toy_sum td = Ok text →
  len text = 2 * len bs.
Proof.
  unfold tx_MarshalText. intros -> [= <-]. unfold hex_Encode, len. clear td.
  induction bs as [|b bs IH]; [done|]. cbn [fmap list_fmap concat]. rewrite length_app. cbn. lia.
Qed.

Definition other_asset (n : Z) : AssetAmount := mkAssetAmount (Some (mkHash 7 7 7 7)) n.
Definition two_asset_td (change : Z) : TxData :=
  mkTxData 1 0 0
    [toy_spend 10000000;
     mkTxInput 1 (Some (SpendInput [] [] (mkSpendCommitment (other_asset 5) (mkHash 8 8 8 8) 0 1 [OP_TRUE]))) [] []]
    [toy_txout change; mkTxOutput 1 (mkOutputCommitment (other_asset 5) 1 [OP_TRUE]) []] [].

Definition two_utxos : gmap Hash UtxoEntry :=
  list_to_map ((λ id, (id, NewUtxoEntry false 0 false)) <$> SpentOutputIDs (mapped_tx (two_asset_td 1))).
Definition two_chain : Chain :=
  with_store (mkLevelDB (ldb_blocks db0) (ldb_headers db0) (ldb_status db0) two_utxos (ldb_state db0)) chain0.

#[local] Existing Instance sort_forth.

Definition underpaid_tx : TypesTx := mapped_types (two_asset_td 9901600).
Definition submission := FinalizeTx 0 two_utxos (mkHashPtr 1 (tt_ID underpaid_tx)) underpaid_tx false two_chain (@nil _).
Definition submitted_chain : Chain := submission.1.2.
Definition own_template : outcome mining_error TypesBlock := (NewBlockTemplate (1002 * second) 5 None submitted_chain (c_txPool submitted_chain)).1.
Definition own_block : TypesBlock :=
  match own_template with
  | Ok b => match solveBlock [SigNone] b submitted_chain with Ok (_, b') => b' | _ => genesis_block end
  | _ => genesis_block
  end.
(** The block as another node reads it *)
Definition sent_block : TypesBlock :=
  match MarshalText toy_sum own_block with
  | Ok text => match UnmarshalText toy_sum text with Ok b => b | _ => genesis_block end
  | _ => genesis_block
  end.

(** A node can mine a block that it accepts and every other node rejects.
    A transaction with two assets is submitted with a fee that pays for its
    size and its programs.  The submitting node records the length of the
    hexadecimal text as its size, twice the real one, and so finds that only
    the gas can be paid; it reports success, mines the transaction with a
    failed status, and adopts the block.  The other nodes read the real size,
    find the transaction valid, and reject the block over its status root. *)
Theorem doubled_size_forks_the_miner_off :
  submission.1.1.1 = Ok tt
  ∧ best_hash (processBlock toy_sum 0 own_block submitted_chain).2 = block_Hash toy_sum own_block
  ∧ (MarshalText toy_sum own_block = MarshalText toy_sum sent_block
     ∧ block_Hash toy_sum sent_block = block_Hash toy_sum own_block)
  ∧ ((λ t, td_SerializedSize (tt_TxData t)) <$> tb_Transactions own_block) = [112; 480]
  ∧ ((λ t, td_SerializedSize (tt_TxData t)) <$> tb_Transactions sent_block) = [56; 240]
  ∧ (processBlock toy_sum 0 own_block submitted_chain).1 = Ok false
  ∧ (processBlock toy_sum 0 sent_block two_chain).1 = Err ErrBadBlock.
Proof. vm_compute. split_and!; reflexivity. Qed.
