(* ===== verification/NetPeer.v ===== *)
(** * Peers of the network

    net/netsync/peer.go: what a node remembers about each peer, its score of
    misbehaviour (net/p2p/trust/banscore.go), and the set of peers with its
    broadcasts.  The messages (net/netsync/message.go) are values: the coding
    of go-wire and the JSON around the texts of [Wire] are left out, and a
    message whose content does not decode carries nothing.  The connections
    are a class: which sends are taken, and what arrives in answer. *)

From stdpp Require Import gmap.
From S2P Require Import Prelude Encoding Bc EntryHash Merkle TxMap Wire Orphans.
#[local] Open Scope Z_scope.
#[local] Open Scope go_scope.

(** ** Messages ([message.go]) *)

Definition PeerID : Type := list Z.

Inductive NetMsg :=
| GetBlockMessage (height : Z) (hash : Hash)
| BlockMessage (block : TypesBlock)
| GetHeadersMessage (locator : list Hash) (stopHash : Hash)
| HeadersMessage (headers : option (list BlockHeader))
| GetBlocksMessage (locator : list Hash) (stopHash : Hash)
| BlocksMessage (blocks : option (list TypesBlock))
| StatusRequestMessage
| StatusResponseMessage (height : Z) (hash genesisHash : Hash)
| TransactionMessage (tx : option TypesTx)
| MineBlockMessage (block : option TypesBlock)
| FilterLoadMessage (addresses : list (list Z))
| FilterAddMessage (address : list Z)
| FilterClearMessage
| GetMerkleBlockMessage (height : Z) (hash : Hash)
| MerkleBlockMessage (header : BlockHeader) (txHashes : list Hash) (txs : list TypesTx)
    (statusHashes : list Hash) (statuses : list TxVerifyResult) (flags : list Z).

(** [TrySend] may depend on all that was sent before.  What arrives on the
    three channels of the block keeper after a request, until its timer
    fires, is listed with the sender of each message. *)
Class Network := {
  accepts : list (PeerID * NetMsg) → PeerID → NetMsg → bool;
  block_arrivals : list (PeerID * NetMsg) → list (PeerID * TypesBlock);
  blocks_arrivals : list (PeerID * NetMsg) → list (PeerID * list TypesBlock);
  headers_arrivals : list (PeerID * NetMsg) → list (PeerID * list BlockHeader);
}.

(** ** Service flags ([consensus/server_flag.go]) *)

Definition SFFullNode : Z := 1.
Definition SFFastSync : Z := 2.
Definition SFSPV : Z := 4.
Definition DefaultServices : Z := Z.lor (Z.lor SFFullNode SFFastSync) SFSPV.
Definition IsEnable (f checkFlag : Z) : bool := Z.land f checkFlag =? checkFlag.

(** ** The ban score ([banscore.go]) *)

(** The float64 operations that the decaying part uses, [math.Exp] and the
    constant [lambda] among them *)
Class GoFloat := {
  float64 : Type;
  f_of_int : Z → float64;
  f_add : float64 → float64 → float64;
  f_mul : float64 → float64 → float64;
  f_lt : float64 → float64 → bool;
  f_exp : float64 → float64;
  f_lambda : float64;
  f_to_uint64 : float64 → Z;
}.
Class GoFloatOk `{GoFloat} : Prop := f_zero : f_to_uint64 (f_of_int 0) = 0.

(** The order in which Go iterates over a map with peers as keys *)
Class GoRangePeers := go_range_peers : ∀ V, gmap PeerID V → list (PeerID * V).
Arguments go_range_peers {_ V} m.
Class GoRangePeersOk `{GoRangePeers} : Prop :=
  go_range_peers_perm : ∀ V (m : gmap PeerID V), go_range_peers m ≡ₚ map_to_list m.

Section peer.
Context `{F : GoFloat}.

Definition Lifetime : Z := 1800.

(** The table holds what the expression below gives. *)
Definition decayFactor (t : Z) : float64 := f_exp (f_mul (f_mul (f_of_int (-1)) (f_of_int t)) f_lambda).

Record DynamicBanScore := mkBanScore { bs_lastUnix : Z; bs_transient : float64; bs_persistent : Z }.
Definition zero_score : DynamicBanScore := mkBanScore 0 (f_of_int 0) 0.

Definition score_int (t : Z) (s : DynamicBanScore) : Z :=
  let dt := int64 (t - bs_lastUnix s) in
  if f_lt (bs_transient s) (f_of_int 1) || (dt <? 0) || (Lifetime <? dt) then bs_persistent s
  else uint64 (bs_persistent s + f_to_uint64 (f_mul (bs_transient s) (decayFactor dt))).

Definition increase (persistent transient tu : Z) (s : DynamicBanScore) : Z * DynamicBanScore :=
  let p := uint64 (bs_persistent s + persistent) in
  let dt := int64 (tu - bs_lastUnix s) in
  let s :=
    if 0 <? transient then
      let kept := if Lifetime <? dt then f_of_int 0
                  else if f_lt (f_of_int 1) (bs_transient s) && (0 <? dt) then f_mul (bs_transient s) (decayFactor dt)
                  else bs_transient s in
      mkBanScore tu (f_add kept (f_of_int transient)) p
    else mkBanScore (bs_lastUnix s) (bs_transient s) p in
  (uint64 (p + f_to_uint64 (bs_transient s)), s).

(** ** A peer *)

Definition maxKnownTxs : Z := 32768.
Definition maxKnownBlocks : Z := 1024.
Definition defaultBanThreshold : Z := 100.
Definition maxFilterAddressSize : Z := 50.
Definition maxFilterAddressCount : Z := 1000.

(** [Set.Pop] of the package set takes some element. *)
Class SetPop := set_pop : gset Hash → option Hash.
Class SetPopOk `{SetPop} : Prop := set_pop_elem : ∀ s, s ≠ ∅ → ∃ x, set_pop s = Some x ∧ x ∈ s.
Context `{SP : SetPop}.

(** The connection, [BasePeer] *)
Record BasePeer := mkBasePeer { bp_ID : PeerID; bp_Addr : list Z; bp_ServiceFlag : Z }.

Record peer := mkPeer {
  p_base : BasePeer;
  p_services : Z;
  p_height : Z;
  p_hash : Hash;
  p_banScore : DynamicBanScore;
  p_knownTxs : gset Hash;
  p_knownBlocks : gset Hash;
  p_filterAdds : gset (list Z);
}.

Definition newPeer (height : Z) (hash : Hash) (b : BasePeer) : peer :=
  mkPeer b (bp_ServiceFlag b) height hash zero_score ∅ ∅ ∅.

Definition with_score (s : DynamicBanScore) (p : peer) : peer :=
  mkPeer (p_base p) (p_services p) (p_height p) (p_hash p) s (p_knownTxs p) (p_knownBlocks p) (p_filterAdds p).
Definition with_knownTxs (s : gset Hash) (p : peer) : peer :=
  mkPeer (p_base p) (p_services p) (p_height p) (p_hash p) (p_banScore p) s (p_knownBlocks p) (p_filterAdds p).
Definition with_knownBlocks (s : gset Hash) (p : peer) : peer :=
  mkPeer (p_base p) (p_services p) (p_height p) (p_hash p) (p_banScore p) (p_knownTxs p) s (p_filterAdds p).
Definition with_filter (s : gset (list Z)) (p : peer) : peer :=
  mkPeer (p_base p) (p_services p) (p_height p) (p_hash p) (p_banScore p) (p_knownTxs p) (p_knownBlocks p) s.

Definition peer_addBanScore (now persistent transient : Z) (p : peer) : bool * peer :=
  let '(score, s) := increase persistent transient now (p_banScore p) in
  (defaultBanThreshold <? score, with_score s p).

Definition addFilterAddress (address : list Z) (p : peer) : peer :=
  if maxFilterAddressCount <=? Z.of_nat (size (p_filterAdds p)) then p
  else if maxFilterAddressSize <? len address then p
  else with_filter ({[address]} ∪ p_filterAdds p) p.
Definition addFilterAddresses (addresses : list (list Z)) (p : peer) : peer :=
  foldl (λ p a, addFilterAddress a p) (with_filter ∅ p) addresses.

Definition spends_filtered (p : peer) (i : TxInput) : bool :=
  match ti_TypedInput i with
  | Some (SpendInput _ _ sc) => bool_decide (sc_ControlProgram sc ∈ p_filterAdds p)
  | _ => false
  end.
Definition isRelatedTx (tx : TypesTx) (p : peer) : bool :=
  existsb (spends_filtered p) (td_Inputs (tt_TxData tx))
  || existsb (λ o, bool_decide (oc_ControlProgram (to_OutputCommitment o) ∈ p_filterAdds p)) (td_Outputs (tt_TxData tx)).

(** The status of each related transaction is looked up by its position. *)
Fixpoint getRelatedTxAndStatus (txs : list TypesTx) (statuses : list TxVerifyResult) (p : peer)
    : outcome unit (list TypesTx * list TxVerifyResult) :=
  match txs with
  | [] => Ok ([], [])
  | tx :: txs =>
      if isRelatedTx tx p then
        match statuses with
        | [] => Panic
        | s :: ss => let? r := getRelatedTxAndStatus txs ss p in Ok (tx :: r.1, s :: r.2)
        end
      else getRelatedTxAndStatus txs (tail statuses) p
  end.

Definition isSPVNode (p : peer) : bool := negb (IsEnable (p_services p) SFFullNode).

(** Make room below [limit], one element at a time *)
Fixpoint pop_until (fuel : nat) (limit : Z) (s : gset Hash) : gset Hash :=
  match fuel with
  | O => s
  | S fuel =>
      if limit <=? Z.of_nat (size s)
      then match set_pop s with Some x => pop_until fuel limit (s ∖ {[x]}) | None => s end
      else s
  end.
Definition mark (limit : Z) (hash : Hash) (s : gset Hash) : gset Hash := {[hash]} ∪ pop_until (S (size s)) limit s.
Definition markBlock (hash : Hash) (p : peer) : peer := with_knownBlocks (mark maxKnownBlocks hash (p_knownBlocks p)) p.
Definition markTransaction (hash : Hash) (p : peer) : peer := with_knownTxs (mark maxKnownTxs hash (p_knownTxs p)) p.
Definition setStatus (height : Z) (hash : Hash) (p : peer) : peer :=
  mkPeer (p_base p) (p_services p) height hash (p_banScore p) (p_knownTxs p) (p_knownBlocks p) (p_filterAdds p).

(** ** The set of peers *)

(** The calls to the switch, which bans addresses and closes connections, and
    the messages sent are recorded, in order. *)
Record peerSet := mkPeerSet {
  ps_peers : gmap PeerID peer;
  ps_banned : list (list Z);
  ps_stopped : list PeerID;
  ps_sent : list (PeerID * NetMsg);
}.

Context `{RP : GoRangePeers} `{N : Network} (Sum256 : list Z → list Z).

Definition with_peers (m : gmap PeerID peer) (ps : peerSet) : peerSet :=
  mkPeerSet m (ps_banned ps) (ps_stopped ps) (ps_sent ps).
(** Through a pointer to the peer; one that was removed is not seen again. *)
Definition update_peer (id : PeerID) (f : peer → peer) (ps : peerSet) : peerSet := with_peers (alter f id (ps_peers ps)) ps.
Definition getPeer (id : PeerID) (ps : peerSet) : option peer := ps_peers ps !! id.

Definition TrySend (id : PeerID) (msg : NetMsg) (ps : peerSet) : bool * peerSet :=
  if accepts (ps_sent ps) id msg
  then (true, mkPeerSet (ps_peers ps) (ps_banned ps) (ps_stopped ps) (ps_sent ps ++ [(id, msg)]))
  else (false, ps).

Definition removePeer (id : PeerID) (ps : peerSet) : peerSet :=
  mkPeerSet (delete id (ps_peers ps)) (ps_banned ps) (ps_stopped ps ++ [id]) (ps_sent ps).

Definition addBanScore (now : Z) (id : PeerID) (persistent transient : Z) (ps : peerSet) : peerSet :=
  match getPeer id ps with
  | None => ps
  | Some p =>
      let '(ban, p') := peer_addBanScore now persistent transient p in
      let ps := update_peer id (λ _, p') ps in
      if ban : bool
      then removePeer id (mkPeerSet (ps_peers ps) (ps_banned ps ++ [bp_Addr (p_base p)]) (ps_stopped ps) (ps_sent ps))
      else ps
  end.

Definition addPeer (b : BasePeer) (height : Z) (hash : Hash) (ps : peerSet) : peerSet :=
  match ps_peers ps !! bp_ID b with
  | None => with_peers (<[bp_ID b := newPeer height hash b]> (ps_peers ps)) ps
  | Some _ => ps
  end.

Definition better (flag : Z) (best : option (PeerID * peer)) (q : PeerID * peer) : option (PeerID * peer) :=
  if negb (IsEnable (p_services q.2) flag) then best
  else match best with
       | None => Some q
       | Some b => if p_height b.2 <? p_height q.2 then Some q else best
       end.
Definition bestPeer (flag : Z) (ps : peerSet) : option (PeerID * peer) :=
  foldl (better flag) None (go_range_peers (ps_peers ps)).

Definition peersWithoutBlock (hash : Hash) (ps : peerSet) : list (PeerID * peer) :=
  filter (λ q, hash ∉ p_knownBlocks q.2) (go_range_peers (ps_peers ps)).
Definition peersWithoutTx (hash : Hash) (ps : peerSet) : list (PeerID * peer) :=
  filter (λ q, hash ∉ p_knownTxs q.2) (go_range_peers (ps_peers ps)).

(** Send to each of the peers, and drop those that do not take the message *)
Definition send_each (msg : NetMsg) (sent : peer → peer) (qs : list (PeerID * peer)) (ps : peerSet) : peerSet :=
  foldl (λ ps q, match TrySend q.1 msg ps with
                 | (true, ps) => update_peer q.1 sent ps
                 | (false, ps) => removePeer q.1 ps
                 end) ps qs.

(** A block that cannot be written is an error; a nil block panics. *)
Definition broadcastMinedBlock (block : option TypesBlock) (ps : peerSet) : outcome enc_error unit * peerSet :=
  match block with
  | None => (Panic, ps)
  | Some block =>
      match MarshalText Sum256 block with
      | Ok _ =>
          let hash := block_Hash Sum256 block in
          let qs := filter (λ q, isSPVNode q.2 = false) (peersWithoutBlock hash ps) in
          (Ok tt, send_each (MineBlockMessage (Some block)) (markBlock hash) qs ps)
      | Err e => (Err e, ps)
      | Panic => (Panic, ps)
      | Fuel => (Fuel, ps)
      end
  end.

Definition NewStatusResponseMessage (header : BlockHeader) (genesisHash : Hash) : NetMsg :=
  StatusResponseMessage (bh_Height header) (header_Hash Sum256 header) genesisHash.
Definition broadcastNewStatus (bestBlock : option TypesBlock) (genesisBlock : TypesBlock) (ps : peerSet)
    : outcome enc_error unit * peerSet :=
  match bestBlock with
  | None => (Panic, ps)
  | Some b =>
      (Ok tt, send_each (NewStatusResponseMessage (tb_BlockHeader b) (block_Hash Sum256 genesisBlock)) id
                (go_range_peers (ps_peers ps)) ps)
  end.

Definition broadcastTx (tx : TypesTx) (ps : peerSet) : outcome enc_error unit * peerSet :=
  match tx_MarshalText Sum256 (tt_TxData tx) with
  | Ok _ =>
      let id := tx_ID (tt_Tx tx) in
      let qs := filter (λ q, isSPVNode q.2 && negb (isRelatedTx tx q.2) = false) (peersWithoutTx id ps) in
      (Ok tt, send_each (TransactionMessage (Some tx)) (markTransaction id) qs ps)
  | Err e => (Err e, ps)
  | Panic => (Panic, ps)
  | Fuel => (Fuel, ps)
  end.

(** ** Sending to one peer *)

(** The answer is whether the connection took the message. *)
Definition know_block (b : TypesBlock) (p : peer) : peer :=
  with_knownBlocks ({[block_Hash Sum256 b]} ∪ p_knownBlocks p) p.
Definition sendBlock (id : PeerID) (block : TypesBlock) (ps : peerSet) : outcome enc_error bool * peerSet :=
  match MarshalText Sum256 block with
  | Ok _ =>
      match TrySend id (BlockMessage block) ps with
      | (true, ps) => (Ok true, update_peer id (know_block block) ps)
      | (false, ps) => (Ok false, ps)
      end
  | Err e => (Err e, ps)
  | Panic => (Panic, ps)
  | Fuel => (Fuel, ps)
  end.

Fixpoint marshal_all {A} (write : A → outcome enc_error (list Z)) (l : list A) : outcome enc_error unit :=
  match l with [] => Ok tt | a :: l => let? _ := write a in marshal_all write l end.

Definition sendBlocks (id : PeerID) (blocks : list TypesBlock) (ps : peerSet) : outcome enc_error bool * peerSet :=
  match marshal_all (MarshalText Sum256) blocks with
  | Ok _ =>
      match TrySend id (BlocksMessage (Some blocks)) ps with
      | (true, ps) => (Ok true, foldl (λ ps b, update_peer id (know_block b) ps) ps blocks)
      | (false, ps) => (Ok false, ps)
      end
  | Err e => (Err e, ps)
  | Panic => (Panic, ps)
  | Fuel => (Fuel, ps)
  end.

Definition sendMerkleBlock (id : PeerID) (p : peer) (block : TypesBlock) (txStatuses : TransactionStatus) (ps : peerSet)
    : outcome unit bool * peerSet :=
  let txs := tb_Transactions block in
  let msg : outcome unit NetMsg :=
    let? _ := (match header_writeTo SerBlockHeader (tb_BlockHeader block) with Ok _ => Ok tt | Err _ => Err tt | Panic => Panic | Fuel => Fuel end) in
    let? related := getRelatedTxAndStatus txs (VerifyStatus txStatuses) p in
    let? proof := GetTxMerkleTreeProof Sum256 (tt_Tx <$> txs) (tt_Tx <$> related.1) in
    let? statusHashes := GetStatusMerkleTreeProof Sum256 (VerifyStatus txStatuses) proof.2 in
    Ok (MerkleBlockMessage (tb_BlockHeader block) proof.1 related.1 statusHashes related.2 proof.2) in
  match msg with
  | Ok msg => let '(ok, ps) := TrySend id msg ps in (Ok ok, ps)
  | Err _ => (Err tt, ps)
  | Panic => (Panic, ps)
  | Fuel => (Fuel, ps)
  end.

(** The transactions that the peer knows are left out; the first that the
    connection does not take ends the sending. *)
Fixpoint sendTransactions (id : PeerID) (p : peer) (txs : list TypesTx) (ps : peerSet) : outcome enc_error bool * peerSet :=
  match txs with
  | [] => (Ok true, ps)
  | tx :: txs =>
      if isSPVNode p && negb (isRelatedTx tx p) then sendTransactions id p txs ps
      else match tx_MarshalText Sum256 (tt_TxData tx) with
      | Ok _ =>
          if bool_decide (tx_ID (tt_Tx tx) ∈ p_knownTxs p) then sendTransactions id p txs ps
          else match TrySend id (TransactionMessage (Some tx)) ps with
               | (false, ps) => (Ok false, ps)
               | (true, ps) =>
                   let p := with_knownTxs ({[tx_ID (tt_Tx tx)]} ∪ p_knownTxs p) p in
                   sendTransactions id p txs (update_peer id (λ _, p) ps)
               end
      | Err e => (Err e, ps)
      | Panic => (Panic, ps)
      | Fuel => (Fuel, ps)
      end
  end.

Definition errorHandler (now : Z) (misbehaved : bool) (id : PeerID) (ps : peerSet) : peerSet :=
  if misbehaved then addBanScore now id 20 0 ps else removePeer id ps.
End peer.
