(* ===== verification/NetSync.v ===== *)
(** * Synchronisation with the network

    net/netsync: the block keeper, which fetches blocks from the best peer
    (block_keeper.go), the fetcher of announced blocks (block_fetcher.go), the
    feed of transactions to new peers (tx_keeper.go) and the handlers of
    messages (handle.go).  The chain is the Go interface [Chain] of handle.go,
    the class [NetChain]; [NetChainSpec] makes the chain of [Chain] one. *)

From stdpp Require Import gmap.
From S2P Require Import Prelude Encoding Bc EntryHash Merkle TxMap Wire Orphans NetPeer.
#[local] Open Scope Z_scope.
#[local] Open Scope go_scope.

(** [netsync.Chain]; the errors of the chain are only compared with nil.
    [ValidateTx] answers whether the transaction is acceptable, the height, the
    fee when there is a gas status, and whether there is an error.  The last
    two are the feed and the contents of the pool. *)
Class NetChain := {
  ChainState : Type;
  nc_BestBlockHeader : ChainState → outcome unit BlockHeader;
  nc_BestBlockHeight : ChainState → Z;
  nc_GetBlockByHash : Hash → ChainState → outcome unit TypesBlock;
  nc_GetBlockByHeight : Z → ChainState → outcome unit TypesBlock;
  nc_GetHeaderByHash : Hash → ChainState → outcome unit BlockHeader;
  nc_GetHeaderByHeight : Z → ChainState → outcome unit BlockHeader;
  nc_GetTransactionStatus : Hash → ChainState → outcome unit TransactionStatus;
  nc_InMainChain : Hash → ChainState → bool;
  nc_ProcessBlock : Z → TypesBlock → ChainState → outcome unit bool * ChainState;
  nc_ValidateTx : TypesTx → ChainState → outcome unit (bool * Z * option Z * bool) * ChainState;
  nc_ProcessTransaction : Z → TypesTx → bool → Z → Z → ChainState → outcome unit bool * ChainState;
  nc_take_new_txs : ChainState → list TypesTx * ChainState;
  nc_GetTransactions : ChainState → list TypesTx;
}.

Record Checkpoint := mkCheckpoint { cp_Height : Z; cp_Hash : Hash }.

Inductive sync_error :=
| errAppendHeaders
| errRequestTimeout
| errPeerDropped
| errPeerMisbehave
| errHigherThanCheckpoint
| errChain.

(** A queue ordered by priority (the package prque): [pop] takes an item of
    the highest priority. *)
Class Prque := prque_pop : ∀ A, list (Z * A) → option (A * list (Z * A)).
Arguments prque_pop {_ A} q.
Class PrqueOk `{Prque} : Prop := prque_pop_max : ∀ A (q : list (Z * A)), q ≠ [] →
  ∃ p a q', prque_pop q = Some (a, q') ∧ q ≡ₚ (p, a) :: q' ∧ Forall (λ x, x.1 <= p) q'.

Section netsync.
Context `{F : GoFloat} `{SP : SetPop} `{RP : GoRangePeers} `{N : Network} (Sum256 : list Z → list Z).
Context `{NC : NetChain} `{PQ : Prque} (Checkpoints : list Checkpoint).

Record SyncManager := mkSyncManager {
  sm_chain : ChainState;
  sm_peers : peerSet;
  sm_genesisHash : Hash;
  sm_syncPeer : PeerID;
  sm_blockProcessCh : list (PeerID * TypesBlock);
  sm_blocksProcessCh : list (PeerID * list TypesBlock);
  sm_headersProcessCh : list (PeerID * list BlockHeader);
  sm_headerList : list BlockHeader;
  sm_queue : list (Z * (PeerID * TypesBlock));
  sm_msgSet : gmap Hash (PeerID * TypesBlock);
}.

Definition with_chain (c : ChainState) (m : SyncManager) : SyncManager :=
  mkSyncManager c (sm_peers m) (sm_genesisHash m) (sm_syncPeer m) (sm_blockProcessCh m) (sm_blocksProcessCh m)
    (sm_headersProcessCh m) (sm_headerList m) (sm_queue m) (sm_msgSet m).
Definition with_peerSet (p : peerSet) (m : SyncManager) : SyncManager :=
  mkSyncManager (sm_chain m) p (sm_genesisHash m) (sm_syncPeer m) (sm_blockProcessCh m) (sm_blocksProcessCh m)
    (sm_headersProcessCh m) (sm_headerList m) (sm_queue m) (sm_msgSet m).
Definition with_syncPeer (i : PeerID) (m : SyncManager) : SyncManager :=
  mkSyncManager (sm_chain m) (sm_peers m) (sm_genesisHash m) i (sm_blockProcessCh m) (sm_blocksProcessCh m)
    (sm_headersProcessCh m) (sm_headerList m) (sm_queue m) (sm_msgSet m).
Definition with_blockCh (q : list (PeerID * TypesBlock)) (m : SyncManager) : SyncManager :=
  mkSyncManager (sm_chain m) (sm_peers m) (sm_genesisHash m) (sm_syncPeer m) q (sm_blocksProcessCh m)
    (sm_headersProcessCh m) (sm_headerList m) (sm_queue m) (sm_msgSet m).
Definition with_blocksCh (q : list (PeerID * list TypesBlock)) (m : SyncManager) : SyncManager :=
  mkSyncManager (sm_chain m) (sm_peers m) (sm_genesisHash m) (sm_syncPeer m) (sm_blockProcessCh m) q
    (sm_headersProcessCh m) (sm_headerList m) (sm_queue m) (sm_msgSet m).
Definition with_headersCh (q : list (PeerID * list BlockHeader)) (m : SyncManager) : SyncManager :=
  mkSyncManager (sm_chain m) (sm_peers m) (sm_genesisHash m) (sm_syncPeer m) (sm_blockProcessCh m) (sm_blocksProcessCh m)
    q (sm_headerList m) (sm_queue m) (sm_msgSet m).
Definition with_headers (l : list BlockHeader) (m : SyncManager) : SyncManager :=
  mkSyncManager (sm_chain m) (sm_peers m) (sm_genesisHash m) (sm_syncPeer m) (sm_blockProcessCh m) (sm_blocksProcessCh m)
    (sm_headersProcessCh m) l (sm_queue m) (sm_msgSet m).
Definition with_fetcher (q : list (Z * (PeerID * TypesBlock))) (s : gmap Hash (PeerID * TypesBlock)) (m : SyncManager)
    : SyncManager :=
  mkSyncManager (sm_chain m) (sm_peers m) (sm_genesisHash m) (sm_syncPeer m) (sm_blockProcessCh m) (sm_blocksProcessCh m)
    (sm_headersProcessCh m) (sm_headerList m) q s.

Definition of_chain {A} (o : outcome unit A) : outcome sync_error A :=
  match o with Ok a => Ok a | Err _ => Err errChain | Panic => Panic | Fuel => Fuel end.

(** ** The block keeper ([block_keeper.go]) *)

Definition maxBlockPerMsg : Z := 128.
Definition maxBlockHeadersPerMsg : Z := 2048.

(** Headers are appended until one does not follow its predecessor. *)
Fixpoint appendHeaderList (headers headerList : list BlockHeader) : outcome sync_error unit * list BlockHeader :=
  match headers with
  | [] => (Ok tt, headerList)
  | header :: headers =>
      match last headerList with
      | None => (Panic, headerList)
      | Some prevHeader =>
          if bool_decide (header_Hash Sum256 prevHeader = bh_PreviousBlockHash header)
          then appendHeaderList headers (headerList ++ [header])
          else (Err errAppendHeaders, headerList)
      end
  end.

(** One step down per round for nine hashes, then twice as many each time *)
Fixpoint locator_loop (fuel : nat) (c : ChainState) (header : BlockHeader) (step : Z) (locator : list Hash)
    : outcome unit (list Hash) :=
  match fuel with
  | O => Fuel
  | S fuel =>
      let locator := locator ++ [header_Hash Sum256 header] in
      if bh_Height header =? 0 then Ok locator
      else
        match nc_GetHeaderByHeight (if bh_Height header <? step then 0 else uint64 (bh_Height header - step)) c with
        | Ok header => locator_loop fuel c header (if 9 <=? len locator then uint64 (step * 2) else step) locator
        | Err _ => Ok locator
        | Panic => Panic
        | Fuel => Fuel
        end
  end.
Definition blockLocator (c : ChainState) : outcome unit (list Hash) :=
  let? header := nc_BestBlockHeader c in locator_loop 80 c header 1 [].

(** The header after which a peer continues: the first of its locator on the
    main chain, or the first block *)
Fixpoint locate_start (c : ChainState) (locator : list Hash) (startHeader : BlockHeader) : outcome unit BlockHeader :=
  match locator with
  | [] => Ok startHeader
  | hash :: locator =>
      match nc_GetHeaderByHash hash c with
      | Ok header => if nc_InMainChain (header_Hash Sum256 header) c then Ok header else locate_start c locator startHeader
      | Err _ => locate_start c locator startHeader
      | Panic => Panic
      | Fuel => Fuel
      end
  end.
Fixpoint headers_from (c : ChainState) (height : Z) (n : nat) : outcome unit (list BlockHeader) :=
  match n with
  | O => Ok []
  | S n =>
      let? header := nc_GetHeaderByHeight (uint64 height) c in
      let? rest := headers_from c (height + 1) n in
      Ok (header :: rest)
  end.
Definition locateHeaders (c : ChainState) (locator : list Hash) (stopHash : Hash) : outcome unit (list BlockHeader) :=
  let? stopHeader := nc_GetHeaderByHash stopHash c in
  let? first := nc_GetHeaderByHeight 0 c in
  let? startHeader := locate_start c locator first in
  let totalHeaders := uint64 (bh_Height stopHeader - bh_Height startHeader) in
  let totalHeaders := if maxBlockHeadersPerMsg <? totalHeaders then maxBlockHeadersPerMsg else totalHeaders in
  headers_from c (bh_Height startHeader + 1) (Z.to_nat totalHeaders).

Fixpoint blocks_of (c : ChainState) (headers : list BlockHeader) : outcome unit (list TypesBlock) :=
  match headers with
  | [] => Ok []
  | header :: headers =>
      let? block := nc_GetBlockByHash (header_Hash Sum256 header) c in
      let? blocks := blocks_of c headers in
      Ok (block :: blocks)
  end.
Definition locateBlocks (c : ChainState) (locator : list Hash) (stopHash : Hash) : outcome unit (list TypesBlock) :=
  let? headers := locateHeaders c locator stopHash in
  blocks_of c (take (Z.to_nat maxBlockPerMsg) headers).

(** From the last checkpoint down to the first that is above the height *)
Fixpoint next_from (height : Z) (below : list Checkpoint) (next : Checkpoint) : Checkpoint :=
  match below with
  | [] => next
  | cp :: below => if cp_Height cp <=? height then next else next_from height below cp
  end.
Definition nextCheckpoint (c : ChainState) : outcome unit (option Checkpoint) :=
  let? header := nc_BestBlockHeader c in
  match rev Checkpoints with
  | [] => Ok None
  | cp :: below => if cp_Height cp <=? bh_Height header then Ok None else Ok (Some (next_from (bh_Height header) below cp))
  end.

Definition resetHeaderState (m : SyncManager) : outcome sync_error SyncManager :=
  let? header := of_chain (nc_BestBlockHeader (sm_chain m)) in
  let? cp := of_chain (nextCheckpoint (sm_chain m)) in
  Ok (with_headers (match cp with Some _ => [header] | None => [] end) m).

(** The first message of the peer on a channel that passes [test]; those
    before it are dropped.  No message means that the timer fired. *)
Fixpoint first_from {A} (id : PeerID) (test : A → bool) (q : list (PeerID * A)) : option A * list (PeerID * A) :=
  match q with
  | [] => (None, [])
  | (i, a) :: q => if bool_decide (i = id) && test a then (Some a, q) else first_from id test q
  end.
Definition answer {A} (a : option A) : outcome sync_error A :=
  match a with Some a => Ok a | None => Err errRequestTimeout end.

Definition requireHeaders (locator : list Hash) (stopHash : Hash) (m : SyncManager)
    : outcome sync_error (list BlockHeader) * SyncManager :=
  match TrySend (sm_syncPeer m) (GetHeadersMessage locator stopHash) (sm_peers m) with
  | (false, ps) => (Err errPeerDropped, with_peerSet ps m)
  | (true, ps) =>
      let '(r, q) := first_from (sm_syncPeer m) (λ _, true) (sm_headersProcessCh m ++ headers_arrivals (ps_sent ps)) in
      (answer r, with_headersCh q (with_peerSet ps m))
  end.
Definition requireBlocks (locator : list Hash) (stopHash : Hash) (m : SyncManager)
    : outcome sync_error (list TypesBlock) * SyncManager :=
  match TrySend (sm_syncPeer m) (GetBlocksMessage locator stopHash) (sm_peers m) with
  | (false, ps) => (Err errPeerDropped, with_peerSet ps m)
  | (true, ps) =>
      let '(r, q) := first_from (sm_syncPeer m) (λ _, true) (sm_blocksProcessCh m ++ blocks_arrivals (ps_sent ps)) in
      (answer r, with_blocksCh q (with_peerSet ps m))
  end.
Definition requireBlock (height : Z) (m : SyncManager) : outcome sync_error TypesBlock * SyncManager :=
  match TrySend (sm_syncPeer m) (GetBlockMessage height (mkHash 0 0 0 0)) (sm_peers m) with
  | (false, ps) => (Err errPeerDropped, with_peerSet ps m)
  | (true, ps) =>
      let '(r, q) := first_from (sm_syncPeer m) (λ b, bh_Height (tb_BlockHeader b) =? height)
                       (sm_blockProcessCh m ++ block_arrivals (ps_sent ps)) in
      (answer r, with_blockCh q (with_peerSet ps m))
  end.

(** The headers up to the checkpoint *)
Fixpoint fast_headers (fuel : nat) (checkPoint : Checkpoint) (m : SyncManager) : outcome sync_error unit * SyncManager :=
  match fuel with
  | O => (Fuel, m)
  | S fuel =>
      match last (sm_headerList m) with
      | None => (Panic, m)
      | Some lastHeader =>
          let lastHash := header_Hash Sum256 lastHeader in
          if bool_decide (lastHash = cp_Hash checkPoint) then (Ok tt, m)
          else if cp_Height checkPoint <=? bh_Height lastHeader then (Err errPeerMisbehave, m)
          else match requireHeaders [lastHash] (cp_Hash checkPoint) m with
          | (Ok [], m) => (Err errPeerMisbehave, m)
          | (Ok headers, m) =>
              match appendHeaderList headers (sm_headerList m) with
              | (Ok _, l) => fast_headers fuel checkPoint (with_headers l m)
              | (o, l) => (o, with_headers l m)
              end
          | (Err e, m) => (Err e, m)
          | (Panic, m) => (Panic, m)
          | (Fuel, m) => (Fuel, m)
          end
      end
  end.

(** The blocks of one answer against the headers that follow [fastHeader] *)
Fixpoint fast_process (now : Z) (blocks : list TypesBlock) (next : list BlockHeader) (m : SyncManager)
    : outcome sync_error (list BlockHeader) * SyncManager :=
  match blocks with
  | [] => (Ok next, m)
  | block :: blocks =>
      match next with
      | [] => (Err errHigherThanCheckpoint, m)
      | fastHeader :: next =>
          if bool_decide (block_Hash Sum256 block = header_Hash Sum256 fastHeader) then
            match nc_ProcessBlock now block (sm_chain m) with
            | (Ok _, c) => fast_process now blocks next (with_chain c m)
            | (Err _, c) => (Err errChain, with_chain c m)
            | (Panic, c) => (Panic, with_chain c m)
            | (Fuel, c) => (Fuel, with_chain c m)
            end
          else (Err errPeerMisbehave, m)
      end
  end.
Fixpoint fast_blocks (fuel : nat) (now : Z) (checkPoint : Checkpoint) (next : list BlockHeader) (m : SyncManager)
    : outcome sync_error unit * SyncManager :=
  match fuel with
  | O => (Fuel, m)
  | S fuel =>
      if negb (nc_BestBlockHeight (sm_chain m) <? cp_Height checkPoint) then (Ok tt, m)
      else match of_chain (blockLocator (sm_chain m)) with
      | Ok locator =>
          match requireBlocks locator (cp_Hash checkPoint) m with
          | (Ok [], m) => (Err errPeerMisbehave, m)
          | (Ok blocks, m) =>
              match fast_process now blocks next m with
              | (Ok next, m) => fast_blocks fuel now checkPoint next m
              | (Err e, m) => (Err e, m)
              | (Panic, m) => (Panic, m)
              | (Fuel, m) => (Fuel, m)
              end
          | (Err e, m) => (Err e, m)
          | (Panic, m) => (Panic, m)
          | (Fuel, m) => (Fuel, m)
          end
      | Err e => (Err e, m)
      | Panic => (Panic, m)
      | Fuel => (Fuel, m)
      end
  end.
Definition fastBlockSync (fuel : nat) (now : Z) (checkPoint : Checkpoint) (m : SyncManager)
    : outcome sync_error unit * SyncManager :=
  match resetHeaderState m with
  | Ok m =>
      match fast_headers fuel checkPoint m with
      | (Ok _, m) => fast_blocks fuel now checkPoint (tail (sm_headerList m)) m
      | r => r
      end
  | Err e => (Err e, m)
  | Panic => (Panic, m)
  | Fuel => (Fuel, m)
  end.

(** Block by block; while the answer is an orphan, the block below it *)
Fixpoint regular_loop (fuel : nat) (now wantHeight i : Z) (m : SyncManager) : outcome sync_error unit * SyncManager :=
  match fuel with
  | O => (Fuel, m)
  | S fuel =>
      if wantHeight <? i then (Ok tt, m)
      else match requireBlock i m with
      | (Ok block, m) =>
          match nc_ProcessBlock now block (sm_chain m) with
          | (Ok isOrphan, c) =>
              let m := with_chain c m in
              regular_loop fuel now wantHeight
                (if isOrphan : bool then uint64 (i - 1) else uint64 (nc_BestBlockHeight c + 1)) m
          | (Err _, c) => (Err errChain, with_chain c m)
          | (Panic, c) => (Panic, with_chain c m)
          | (Fuel, c) => (Fuel, with_chain c m)
          end
      | (Err e, m) => (Err e, m)
      | (Panic, m) => (Panic, m)
      | (Fuel, m) => (Fuel, m)
      end
  end.
Definition regularBlockSync (fuel : nat) (now wantHeight : Z) (m : SyncManager) : outcome sync_error unit * SyncManager :=
  regular_loop fuel now wantHeight (uint64 (nc_BestBlockHeight (sm_chain m) + 1)) m.

(** The end of a synchronisation: whether there is something new to tell *)
Definition sync_result (now : Z) (id : PeerID) (r : outcome sync_error unit * SyncManager)
    : outcome sync_error bool * SyncManager :=
  match r with
  | (Ok _, m) => (Ok true, m)
  | (Err e, m) =>
      (Ok false, with_peerSet (errorHandler now (match e with errPeerMisbehave => true | _ => false end) id (sm_peers m)) m)
  | (Panic, m) => (Panic, m)
  | (Fuel, m) => (Fuel, m)
  end.

Definition startSync (fuel : nat) (now : Z) (m : SyncManager) : outcome sync_error bool * SyncManager :=
  match nextCheckpoint (sm_chain m) with
  | Ok checkPoint =>
      let regular :=
        let blockHeight := nc_BestBlockHeight (sm_chain m) in
        match bestPeer SFFullNode (sm_peers m) with
        | Some (id, p) =>
            if blockHeight <? p_height p then
              let targetHeight := uint64 (blockHeight + maxBlockPerMsg) in
              let targetHeight := if p_height p <? targetHeight then p_height p else targetHeight in
              sync_result now id (regularBlockSync fuel now targetHeight (with_syncPeer id m))
            else (Ok false, m)
        | None => (Ok false, m)
        end in
      match bestPeer (Z.lor SFFastSync SFFullNode) (sm_peers m), checkPoint with
      | Some (id, p), Some cp =>
          if cp_Height cp <=? p_height p
          then sync_result now id (fastBlockSync fuel now cp (with_syncPeer id m))
          else regular
      | _, _ => regular
      end
  | Err _ => (Panic, m)
  | Panic => (Panic, m)
  | Fuel => (Fuel, m)
  end.

(** One round of the worker.  A best block that cannot be read leaves a nil
    block, which the broadcast dereferences. *)
Definition syncWorker (fuel : nat) (now : Z) (genesisBlock : TypesBlock) (m : SyncManager)
    : outcome sync_error unit * SyncManager :=
  match startSync fuel now m with
  | (Ok true, m) =>
      match nc_GetBlockByHeight (nc_BestBlockHeight (sm_chain m)) (sm_chain m) with
      | Panic => (Panic, m)
      | Fuel => (Fuel, m)
      | o =>
          let block := match o with Ok b => Some b | _ => None end in
          match broadcastMinedBlock Sum256 block (sm_peers m) with
          | (Panic, ps) => (Panic, with_peerSet ps m)
          | (Fuel, ps) => (Fuel, with_peerSet ps m)
          | (_, ps) =>
              let '(o, ps) := broadcastNewStatus Sum256 block genesisBlock ps in
              (match o with Panic => Panic | Fuel => Fuel | _ => Ok tt end, with_peerSet ps m)
          end
      end
  | (Ok false, m) => (Ok tt, m)
  | (Err e, m) => (Err e, m)
  | (Panic, m) => (Panic, m)
  | (Fuel, m) => (Fuel, m)
  end.
End netsync.
