(* ===== verification/NetHandle.v ===== *)
(** * Handlers of network messages

    net/netsync: the fetcher of announced blocks (block_fetcher.go), the feed
    of transactions to new peers (tx_keeper.go) and the handlers of the
    messages (handle.go), with the loops that broadcast new transactions and
    mined blocks.  Each definition is one turn of its goroutine. *)

From stdpp Require Import gmap.
From S2P Require Import Prelude Encoding Bc EntryHash Merkle TxMap Wire Orphans NetPeer NetSync.
#[local] Open Scope Z_scope.
#[local] Open Scope go_scope.

Section handlers.
Context `{F : GoFloat} `{SP : SetPop} `{RP : GoRangePeers} `{N : Network} (Sum256 : list Z → list Z).
Context `{NC : NetChain} `{PQ : Prque}.

(** ** Announced blocks ([block_fetcher.go]) *)

Definition maxBlockDistance : Z := 64.
Definition maxMsgSetSize : Z := 128.

(** The conversion to float32: 24 significant bits, ties to even *)
Definition float32_of (n : Z) : Z :=
  let e := Z.max 0 (Z.log2 n - 23) in
  let q := n / 2 ^ e in
  let r := n mod 2 ^ e in
  let q := if (2 ^ e <? 2 * r) || ((2 * r =? 2 ^ e) && Z.odd q && (0 <? e)) then q + 1 else q in
  q * 2 ^ e.
Definition priority (b : TypesBlock) : Z := - float32_of (bh_Height (tb_BlockHeader b)).

Definition fetcher_add (msg : PeerID * TypesBlock) (m : SyncManager) : SyncManager :=
  let bestHeight := nc_BestBlockHeight (sm_chain m) in
  let height := bh_Height (tb_BlockHeader msg.2) in
  if (maxMsgSetSize <? Z.of_nat (size (sm_msgSet m))) || (height <? bestHeight) || (maxBlockDistance <? height - bestHeight)
  then m
  else
    let blockHash := block_Hash Sum256 msg.2 in
    match sm_msgSet m !! blockHash with
    | Some _ => m
    | None => with_fetcher ((priority msg.2, msg) :: sm_queue m) (<[blockHash := msg]> (sm_msgSet m)) m
    end.

Definition fetcher_insert (now : Z) (msg : PeerID * TypesBlock) (m : SyncManager) : outcome unit SyncManager :=
  match nc_ProcessBlock now msg.2 (sm_chain m) with
  | (Ok _, c) =>
      let m := with_chain c m in
      match broadcastMinedBlock Sum256 (Some msg.2) (sm_peers m) with
      | (Ok _, ps) | (Err _, ps) => Ok (with_peerSet ps m)
      | (Panic, _) => Panic
      | (Fuel, _) => Fuel
      end
  | (Err _, c) => Ok (with_peerSet (addBanScore now msg.1 20 0 (sm_peers m)) (with_chain c m))
  | (Panic, _) => Panic
  | (Fuel, _) => Fuel
  end.

(** The blocks up to one above the height at the start of the turn *)
Fixpoint fetcher_drain (fuel : nat) (now height : Z) (m : SyncManager) : outcome unit SyncManager :=
  match fuel with
  | O => Fuel
  | S fuel =>
      match prque_pop (sm_queue m) with
      | None => Ok m
      | Some (msg, q) =>
          if uint64 (height + 1) <? bh_Height (tb_BlockHeader msg.2)
          then Ok (with_fetcher ((priority msg.2, msg) :: q) (sm_msgSet m) m)
          else
            let? m := fetcher_insert now msg (with_fetcher q (sm_msgSet m) m) in
            fetcher_drain fuel now height
              (with_fetcher (sm_queue m) (delete (block_Hash Sum256 msg.2) (sm_msgSet m)) m)
      end
  end.
Definition blockProcessor (now : Z) (msg : PeerID * TypesBlock) (m : SyncManager) : outcome unit SyncManager :=
  let? m := fetcher_drain (S (length (sm_queue m))) now (nc_BestBlockHeight (sm_chain m)) m in
  Ok (fetcher_add msg m).

(** ** Transactions for new peers ([tx_keeper.go]) *)

Definition txSyncPackSize : Z := 102400.

Record TxSync := mkTxSync { ts_pending : gmap PeerID (list TypesTx); ts_sending : bool }.

(** At least one transaction, more while the pack is below its size *)
Fixpoint pack (txs : list TypesTx) (totalSize : Z) : list TypesTx :=
  match txs with
  | [] => []
  | tx :: txs =>
      if totalSize <? txSyncPackSize
      then tx :: pack txs (uint64 (totalSize + td_SerializedSize (tt_TxData tx))) else []
  end.

(** The answer is the pack that is sent in the background, if any. *)
Definition tx_send (id : PeerID) (txs : list TypesTx) (ps : peerSet) (s : TxSync) : option (list TypesTx) * TxSync :=
  match getPeer id ps with
  | None => (None, mkTxSync (delete id (ts_pending s)) (ts_sending s))
  | Some _ =>
      let sendTxs := pack txs 0 in
      (Some sendTxs,
       mkTxSync (if (length txs =? length sendTxs)%nat then delete id (ts_pending s)
                 else <[id := drop (length sendTxs) txs]> (ts_pending s)) true)
  end.

Definition tx_pick (rnd : Z) (s : TxSync) : option (PeerID * list TypesTx) :=
  go_range_peers (ts_pending s) !! Z.to_nat (rnd mod Z.of_nat (size (ts_pending s))).

(** [txSyncCh] *)
Definition tx_arrives (id : PeerID) (txs : list TypesTx) (ps : peerSet) (s : TxSync)
    : option (PeerID * list TypesTx) * TxSync :=
  let s := mkTxSync (<[id := txs]> (ts_pending s)) (ts_sending s) in
  if ts_sending s then (None, s)
  else let '(p, s) := tx_send id txs ps s in (pair id <$> p, s).
(** [done] *)
Definition tx_done (rnd : Z) (ps : peerSet) (s : TxSync) : option (PeerID * list TypesTx) * TxSync :=
  let s := mkTxSync (ts_pending s) false in
  match tx_pick rnd s with
  | None => (None, s)
  | Some (id, txs) => let '(p, s) := tx_send id txs ps s in (pair id <$> p, s)
  end.
(** The sending itself, to the peer that [tx_send] found *)
Definition tx_background (id : PeerID) (p : peer) (txs : list TypesTx) (ps : peerSet) : outcome enc_error unit * peerSet :=
  match sendTransactions Sum256 id p txs ps with
  | (Ok true, ps) => (Ok tt, ps)
  | (Ok false, ps) => (Ok tt, removePeer id ps)
  | (Err e, ps) => (Err e, removePeer id ps)
  | (Panic, ps) => (Panic, ps)
  | (Fuel, ps) => (Fuel, ps)
  end.
Definition syncTransactions (m : SyncManager) : option (list TypesTx) :=
  match nc_GetTransactions (sm_chain m) with [] => None | txs => Some txs end.

(** ** Handlers ([handle.go]) *)

Definition maxBlockchainResponseSize : Z := 22020098.

Definition find_block (height : Z) (hash : Hash) (c : ChainState) : outcome unit TypesBlock :=
  if negb (height =? 0) then nc_GetBlockByHeight height c else nc_GetBlockByHash hash c.

(** After an attempt to send: the peer is dropped unless the message was taken. *)
Definition after_send {E} (id : PeerID) (r : outcome E bool * peerSet) (m : SyncManager) : outcome unit SyncManager :=
  match r with
  | (Ok true, ps) => Ok (with_peerSet ps m)
  | (Ok false, ps) | (Err _, ps) => Ok (with_peerSet (removePeer id ps) m)
  | (Panic, _) => Panic
  | (Fuel, _) => Fuel
  end.

Definition handleGetBlockMsg (id : PeerID) (height : Z) (hash : Hash) (m : SyncManager) : outcome unit SyncManager :=
  match find_block height hash (sm_chain m) with
  | Ok block => after_send id (sendBlock Sum256 id block (sm_peers m)) m
  | Err _ => Ok m
  | Panic => Panic
  | Fuel => Fuel
  end.

(** Blocks while their texts fit half of a response *)
Fixpoint fit_blocks (blocks : list TypesBlock) (totalSize : Z) : outcome unit (list TypesBlock) :=
  match blocks with
  | [] => Ok []
  | block :: blocks =>
      match MarshalText Sum256 block with
      | Ok raw =>
          if maxBlockchainResponseSize / 2 <? totalSize + len raw then Ok []
          else let? rest := fit_blocks blocks (totalSize + len raw) in Ok (block :: rest)
      | Err _ => fit_blocks blocks totalSize
      | Panic => Panic
      | Fuel => Fuel
      end
  end.
Definition handleGetBlocksMsg (id : PeerID) (locator : list Hash) (stopHash : Hash) (m : SyncManager) : outcome unit SyncManager :=
  match locateBlocks Sum256 (sm_chain m) locator stopHash with
  | Ok [] | Err _ => Ok m
  | Ok blocks =>
      let? sendBlocks' := fit_blocks blocks 0 in
      after_send id (sendBlocks Sum256 id sendBlocks' (sm_peers m)) m
  | Panic => Panic
  | Fuel => Fuel
  end.
Definition handleGetHeadersMsg (id : PeerID) (locator : list Hash) (stopHash : Hash) (m : SyncManager) : outcome unit SyncManager :=
  match locateHeaders Sum256 (sm_chain m) locator stopHash with
  | Ok [] | Err _ => Ok m
  | Ok headers =>
      let r := match marshal_all (header_writeTo SerBlockHeader) headers with
               | Ok _ => let '(ok, ps) := TrySend id (HeadersMessage (Some headers)) (sm_peers m) in (Ok ok, ps)
               | Err e => (Err e, sm_peers m)
               | Panic => (Panic, sm_peers m)
               | Fuel => (Fuel, sm_peers m)
               end in
      after_send id r m
  | Panic => Panic
  | Fuel => Fuel
  end.
Definition handleGetMerkleBlockMsg (id : PeerID) (p : peer) (height : Z) (hash : Hash) (m : SyncManager)
    : outcome unit SyncManager :=
  match find_block height hash (sm_chain m) with
  | Ok block =>
      match nc_GetTransactionStatus (block_Hash Sum256 block) (sm_chain m) with
      | Ok txStatus =>
          match sendMerkleBlock Sum256 id p block txStatus (sm_peers m) with
          | (Err _, ps) => Ok (with_peerSet ps m)
          | r => after_send id r m
          end
      | Err _ => Ok m
      | Panic => Panic
      | Fuel => Fuel
      end
  | Err _ => Ok m
  | Panic => Panic
  | Fuel => Fuel
  end.

(** The announced block goes to the fetcher's channel. *)
Definition handleMineBlockMsg (id : PeerID) (block : option TypesBlock) (m : SyncManager)
    : option (PeerID * TypesBlock) * SyncManager :=
  match block with
  | None => (None, m)
  | Some block =>
      let hash := block_Hash Sum256 block in
      (Some (id, block),
       with_peerSet (update_peer id (λ p, setStatus (bh_Height (tb_BlockHeader block)) hash (markBlock hash p)) (sm_peers m)) m)
  end.

(** A first block that cannot be read is dereferenced. *)
Definition handleStatusRequestMsg (id : PeerID) (m : SyncManager) : outcome unit SyncManager :=
  let? bestHeader := nc_BestBlockHeader (sm_chain m) in
  match nc_GetBlockByHeight 0 (sm_chain m) with
  | Ok genesisBlock =>
      let msg := NewStatusResponseMessage Sum256 bestHeader (block_Hash Sum256 genesisBlock) in
      match TrySend id msg (sm_peers m) with
      | (true, ps) => Ok (with_peerSet ps m)
      | (false, ps) => Ok (with_peerSet (removePeer id ps) m)
      end
  | Err _ | Panic => Panic
  | Fuel => Fuel
  end.
Definition handleStatusResponseMsg (b : BasePeer) (height : Z) (hash genesisHash : Hash) (m : SyncManager) : SyncManager :=
  match getPeer (bp_ID b) (sm_peers m) with
  | Some _ => with_peerSet (update_peer (bp_ID b) (setStatus height hash) (sm_peers m)) m
  | None => if bool_decide (sm_genesisHash m = genesisHash) then with_peerSet (addPeer b height hash (sm_peers m)) m else m
  end.

(** A failure costs the sender ten points.  [ProcessTransaction] replaces the
    error of the validation. *)
Definition handleTransactionMsg (now : Z) (id : PeerID) (tx : option TypesTx) (m : SyncManager) : outcome unit SyncManager :=
  match tx with
  | None => Ok (with_peerSet (addBanScore now id 0 10 (sm_peers m)) m)
  | Some tx =>
      let finish (err isOrphan : bool) (m : SyncManager) :=
        if err && negb isOrphan then with_peerSet (addBanScore now id 10 0 (sm_peers m)) m else m in
      match nc_ValidateTx tx (sm_chain m) with
      | (Ok (acceptable, height, gasStatus, err), c) =>
          let m := with_chain c m in
          if acceptable : bool then
            match gasStatus with
            | None => Panic
            | Some fee =>
                match nc_ProcessTransaction now tx err height fee c with
                | (Ok isOrphan, c) => Ok (finish false isOrphan (with_chain c m))
                | (Err _, c) => Ok (finish true false (with_chain c m))
                | (Panic, _) => Panic
                | (Fuel, _) => Fuel
                end
            end
          else Ok (finish err false m)
      | (Err _, _) | (Panic, _) => Panic
      | (Fuel, _) => Fuel
      end
  end.

Definition map_peer (id : PeerID) (f : peer → peer) (m : SyncManager) : SyncManager :=
  with_peerSet (update_peer id f (sm_peers m)) m.

(** Only the status messages are heard from an unknown peer.  The first
    component is an announced block for the fetcher. *)
Definition processMsg (now : Z) (b : BasePeer) (msg : NetMsg) (m : SyncManager)
    : outcome unit (option (PeerID * TypesBlock) * SyncManager) :=
  let id := bp_ID b in
  let plain (o : outcome unit SyncManager) := let? m := o in Ok (None, m) in
  match msg, getPeer id (sm_peers m) with
  | StatusRequestMessage, _ => plain (handleStatusRequestMsg id m)
  | StatusResponseMessage height hash genesisHash, _ => Ok (None, handleStatusResponseMsg b height hash genesisHash m)
  | _, None => Ok (None, m)
  | GetBlockMessage height hash, _ => plain (handleGetBlockMsg id height hash m)
  | BlockMessage block, _ => Ok (None, with_blockCh (sm_blockProcessCh m ++ [(id, block)]) m)
  | TransactionMessage tx, _ => plain (handleTransactionMsg now id tx m)
  | MineBlockMessage block, _ => Ok (handleMineBlockMsg id block m)
  | GetHeadersMessage locator stopHash, _ => plain (handleGetHeadersMsg id locator stopHash m)
  | HeadersMessage (Some headers), _ => Ok (None, with_headersCh (sm_headersProcessCh m ++ [(id, headers)]) m)
  | GetBlocksMessage locator stopHash, _ => plain (handleGetBlocksMsg id locator stopHash m)
  | BlocksMessage (Some blocks), _ => Ok (None, with_blocksCh (sm_blocksProcessCh m ++ [(id, blocks)]) m)
  | FilterLoadMessage addresses, _ => Ok (None, map_peer id (addFilterAddresses addresses) m)
  | FilterAddMessage address, _ => Ok (None, map_peer id (addFilterAddress address) m)
  | FilterClearMessage, _ => Ok (None, map_peer id (with_filter ∅) m)
  | GetMerkleBlockMessage height hash, Some p => plain (handleGetMerkleBlockMsg id p height hash m)
  | HeadersMessage None, _ | BlocksMessage None, _ | MerkleBlockMessage _ _ _ _ _ _, _ => Ok (None, m)
  end.

(** ** Broadcasts *)

(** The pool's feed goes to all peers that are not known to have the
    transaction ([newPoolTxListener] of node.go and [txBroadcastLoop]). *)
Fixpoint broadcast_all (txs : list TypesTx) (ps : peerSet) : outcome enc_error unit * peerSet :=
  match txs with
  | [] => (Ok tt, ps)
  | tx :: txs =>
      match broadcastTx Sum256 tx ps with
      | (Ok _, ps) => broadcast_all txs ps
      | r => r
      end
  end.
Definition txBroadcastLoop (m : SyncManager) : outcome enc_error unit * SyncManager :=
  let '(txs, c) := nc_take_new_txs (sm_chain m) in
  let '(o, ps) := broadcast_all txs (sm_peers m) in
  (o, with_peerSet ps (with_chain c m)).

(** The loop ends at the first error, which is then the answer. *)
Definition minedBroadcastLoop (blockHash : Hash) (m : SyncManager) : outcome unit unit * SyncManager :=
  match nc_GetBlockByHash blockHash (sm_chain m) with
  | Ok block =>
      let '(o, ps) := broadcastMinedBlock Sum256 (Some block) (sm_peers m) in
      (match o with Ok _ => Ok tt | Err _ => Err tt | Panic => Panic | Fuel => Fuel end, with_peerSet ps m)
  | Err _ => (Err tt, m)
  | Panic => (Panic, m)
  | Fuel => (Fuel, m)
  end.

Definition IsCaughtUp (m : SyncManager) : bool :=
  match bestPeer SFFullNode (sm_peers m) with
  | None => true
  | Some (_, p) => p_height p <=? nc_BestBlockHeight (sm_chain m)
  end.
Definition StopPeer (id : PeerID) (m : SyncManager) : outcome unit SyncManager :=
  match getPeer id (sm_peers m) with
  | None => Err tt
  | Some _ => Ok (with_peerSet (removePeer id (sm_peers m)) m)
  end.
End handlers.
