(* ===== verification/NetSyncSpec.v ===== *)
(** * What synchronisation achieves

    The chain is seen through [NetChainOk]: its main chain is a list of linked
    headers, and the operations of the interface read that list.  Against it:
    a peer serves the headers that were asked for, and the headers of an honest
    peer are complete; the blocks that a fast synchronisation processes lead to
    the checkpoint whatever the peer does; a block locator ends, at the first
    block. *)

From stdpp Require Import gmap sorting.
From S2P Require Import Prelude Encoding Bc EntryHash TxMap Wire Orphans NetPeer NetSync.
#[local] Open Scope Z_scope.
#[local] Open Scope go_scope.
#[local] Set Default Goal Selector "!".
#[local] Set Warnings "-clear-no-such-hyp".

Class NetChainOk (Sum256 : list Z → list Z) `{NC : NetChain} (good : ChainState → Prop)
    (main : ChainState → list BlockHeader) : Prop := {
  nk_best c : good c → ∃ h, last (main c) = Some h ∧ nc_BestBlockHeader c = Ok h ∧ nc_BestBlockHeight c = bh_Height h;
  nk_height c i h : good c → main c !! i = Some h → bh_Height h = Z.of_nat i;
  nk_by_height c i : good c → Z.of_nat i < 2 ^ 63 →
    nc_GetHeaderByHeight (Z.of_nat i) c = match main c !! i with Some h => Ok h | None => Err tt end;
  nk_by_hash c h : good c → h ∈ main c →
    nc_GetHeaderByHash (header_Hash Sum256 h) c = Ok h ∧ nc_InMainChain (header_Hash Sum256 h) c = true;
  nk_off_main c x : good c → (∀ h, h ∈ main c → header_Hash Sum256 h ≠ x) →
    nc_GetHeaderByHash x c = Err tt ∨
    ∃ h, nc_GetHeaderByHash x c = Ok h ∧ nc_InMainChain (header_Hash Sum256 h) c = false;
  nk_linked c i h h' : good c → main c !! i = Some h → main c !! S i = Some h' →
    bh_PreviousBlockHash h' = header_Hash Sum256 h;
  nk_short c : good c → Z.of_nat (length (main c)) <= 2 ^ 63;
}.

Section spec.
Context (Sum256 : list Z → list Z) `{NC : NetChain} (good : ChainState → Prop) (main : ChainState → list BlockHeader).
Context {NK : NetChainOk Sum256 good main}.

(** ** The main chain *)

Lemma main_first c : good c → ∃ h, main c !! 0%nat = Some h ∧ nc_GetHeaderByHeight 0 c = Ok h.
Proof.
  intros Hc. destruct (nk_best c Hc) as (b & Hb & _). assert (0 < length (main c))%nat as Hl.
  { destruct (main c); [done|cbn; lia]. }
  destruct (lookup_lt_is_Some_2 _ _ Hl) as [h Hh]. exists h. split; [done|].
  change (nc_GetHeaderByHeight (Z.of_nat 0) c = Ok h). by rewrite nk_by_height, Hh by (done || lia).
Qed.

Lemma main_inj c i j h : good c → main c !! i = Some h → main c !! j = Some h → i = j.
Proof. intros Hc Hi Hj. apply nk_height in Hi, Hj; [lia|done..]. Qed.

(** The hash tells the headers of the main chain apart. *)
Lemma main_hash_inj c i j h h' : good c → main c !! i = Some h → main c !! j = Some h' →
  header_Hash Sum256 h = header_Hash Sum256 h' → i = j.
Proof.
  intros Hc Hi Hj Hh. destruct (nk_by_hash c h Hc (list_elem_of_lookup_2 _ _ _ Hi)) as [H1 _].
  destruct (nk_by_hash c h' Hc (list_elem_of_lookup_2 _ _ _ Hj)) as [H2 _].
  rewrite Hh, H2 in H1. injection H1 as ->. by eapply main_inj.
Qed.

Lemma headers_from_main c n : ∀ i, good c → (i + n <= length (main c))%nat →
  headers_from c (Z.of_nat i) n = Ok (take n (drop i (main c))).
Proof.
  induction n as [|n IH]; intros i Hc Hl; [done|]. cbn [headers_from]. pose proof (nk_short c Hc).
  rewrite uint64_id by (ranges; lia). rewrite nk_by_height by (done || lia).
  destruct (lookup_lt_is_Some_2 (main c) i ltac:(lia)) as [h Hh]. rewrite Hh. cbn [obind].
  replace (Z.of_nat i + 1) with (Z.of_nat (S i)) by lia. rewrite IH by (done || lia). cbn [obind].
  by rewrite (drop_S _ _ _ Hh).
Qed.

(** ** Serving headers *)

(** What a peer answers to a locator whose first known hash is at [i]: the
    headers after it up to the one that was named, at most as many as a message
    takes *)
Definition segment (c : ChainState) (i j : nat) : list BlockHeader := take (j - i) (drop (S i) (main c)).

Lemma locate_start_found c pre h post first : good c → h ∈ main c →
  Forall (λ x, ∀ g, g ∈ main c → header_Hash Sum256 g ≠ x) pre →
  locate_start Sum256 c (pre ++ header_Hash Sum256 h :: post) first = Ok h.
Proof.
  intros Hc Hh Hpre. induction Hpre as [|x pre Hx _ IH]; cbn [app locate_start].
  - destruct (nk_by_hash c h Hc Hh) as [-> ->]. done.
  - destruct (nk_off_main c x Hc Hx) as [->|(g & -> & ->)]; exact IH.
Qed.

Lemma locate_start_missing c locator first : good c →
  Forall (λ x, ∀ g, g ∈ main c → header_Hash Sum256 g ≠ x) locator → locate_start Sum256 c locator first = Ok first.
Proof.
  intros Hc. induction 1 as [|x pre Hx _ IH]; [done|]. cbn [locate_start].
  destruct (nk_off_main c x Hc Hx) as [->|(g & -> & ->)]; exact IH.
Qed.

(** The answer after a start at [i], up to the header at [j] *)
Lemma locateHeaders_from c locator i j hi hj : good c → main c !! i = Some hi → main c !! j = Some hj → (i <= j)%nat →
  (∀ first, main c !! 0%nat = Some first → locate_start Sum256 c locator first = Ok hi) →
  locateHeaders Sum256 c locator (header_Hash Sum256 hj) = Ok (take 2048 (segment c i j)).
Proof.
  intros Hc Hi Hj Hle Hstart. unfold locateHeaders. pose proof (nk_short c Hc) as Hs. pose proof (lookup_lt_Some _ _ _ Hj) as Hlj.
  destruct (nk_by_hash c hj Hc (list_elem_of_lookup_2 _ _ _ Hj)) as [-> _]. cbn [obind].
  destruct (main_first c Hc) as (f & Hf & ->). cbn [obind]. rewrite (Hstart f Hf). cbn [obind].
  rewrite (nk_height c j hj Hc Hj), (nk_height c i hi Hc Hi). rewrite uint64_id by (ranges; lia).
  replace (Z.of_nat i + 1) with (Z.of_nat (S i)) by lia. unfold segment. rewrite take_take.
  unfold maxBlockHeadersPerMsg. destruct (Z.ltb_spec 2048 (Z.of_nat j - Z.of_nat i)) as [Hb|Hb].
  - rewrite headers_from_main by (done || lia). do 2 f_equal. lia.
  - rewrite headers_from_main by (done || lia). do 2 f_equal. lia.
Qed.

Lemma segment_lookup c i j k : segment c i j !! k = if decide (k < j - i)%nat then main c !! (S i + k)%nat else None.
Proof.
  unfold segment. case_decide.
  - rewrite lookup_take_lt by done. by rewrite lookup_drop.
  - by rewrite lookup_take_ge by lia.
Qed.

(** ** The list of headers *)

Definition linked (l : list BlockHeader) : Prop :=
  ∀ i h h', l !! i = Some h → l !! S i = Some h' → bh_PreviousBlockHash h' = header_Hash Sum256 h.

Lemma linked_snoc l p h : linked l → last l = Some p → header_Hash Sum256 p = bh_PreviousBlockHash h → linked (l ++ [h]).
Proof.
  intros Hl Hp Hh i x y Hx Hy. apply lookup_app_Some in Hy as [Hy|[Hge Hy]].
  - apply (Hl i); [|done]. rewrite lookup_app_l in Hx; [done|]. apply lookup_lt_Some in Hy. lia.
  - apply list_lookup_singleton_Some in Hy as [Hz <-]. rewrite last_lookup in Hp.
    rewrite lookup_app_l in Hx by lia. replace (pred (length l)) with i in Hp by lia. congruence.
Qed.

Lemma appendHeaderList_keeps hs : ∀ l o l', appendHeaderList Sum256 hs l = (o, l') → linked l →
  linked l' ∧ ∃ pre, l' = l ++ pre ∧ (o = Ok tt → pre = hs).
Proof.
  induction hs as [|h hs IH]; intros l o l' Ha Hl; cbn [appendHeaderList] in Ha.
  - injection Ha as <- <-. split; [done|]. exists []. by rewrite app_nil_r.
  - destruct (last l) as [p|] eqn:Hp; [|injection Ha as <- <-; split; [done|]; exists []; by rewrite app_nil_r].
    case_bool_decide as Hh; [|injection Ha as <- <-; split; [done|]; exists []; by rewrite app_nil_r].
    destruct (IH _ _ _ Ha (linked_snoc _ _ _ Hl Hp Hh)) as (Hl' & pre & -> & Hpre).
    split; [done|]. exists (h :: pre). rewrite <- app_assoc. split; [done|]. intros Ho. by rewrite (Hpre Ho).
Qed.

Lemma appendHeaderList_takes hs : ∀ l p, last l = Some p → linked (p :: hs) → appendHeaderList Sum256 hs l = (Ok tt, l ++ hs).
Proof.
  induction hs as [|h hs IH]; intros l p Hp Hl; cbn [appendHeaderList]; [by rewrite app_nil_r|].
  rewrite Hp, bool_decide_eq_true_2 by (symmetry; exact (Hl 0%nat p h eq_refl eq_refl)).
  rewrite (IH (l ++ [h]) h); [by rewrite <- app_assoc|by rewrite last_snoc|].
  intros i x y. exact (Hl (S i) x y).
Qed.

Lemma linked_segment c i j h n : good c → main c !! i = Some h → linked (h :: take n (segment c i j)).
Proof.
  intros Hc Hi k x y Hx Hy.
  assert (∀ k z, (h :: take n (segment c i j)) !! k = Some z → main c !! (i + k)%nat = Some z) as Hin.
  { intros [|q] z Hz; cbn in Hz; [by rewrite Nat.add_0_r; injection Hz as <-|].
    apply lookup_take_Some in Hz as [Hz _]. rewrite segment_lookup in Hz. case_decide; [|done].
    by replace (i + S q)%nat with (S i + q)%nat by lia. }
  apply Hin in Hx, Hy. replace (i + S k)%nat with (S (i + k)) in Hy by lia. by eapply nk_linked.
Qed.
End spec.

(** ** An honest peer *)

Section honest.
Context `{F : GoFloat} `{SP : SetPop} `{RP : GoRangePeers} `{N : Network} (Sum256 : list Z → list Z).
Context `{NC : NetChain} (good : ChainState → Prop) (main : ChainState → list BlockHeader).
Context {NK : NetChainOk Sum256 good main}.

(** The connection takes every request for headers, and what arrives from the
    peer before the timer fires is the answer of its chain, one message, among
    the messages of others. *)
Record honest_headers (id : PeerID) (server : ChainState) : Prop := {
  hh_accepts sent locator stop : accepts sent id (GetHeadersMessage locator stop) = true;
  hh_answers sent locator stop hs : locateHeaders Sum256 server locator stop = Ok hs → hs ≠ [] →
    filter (λ x, x.1 = id) (headers_arrivals (sent ++ [(id, GetHeadersMessage locator stop)])) = [(id, hs)];
}.

Lemma first_from_filter {A} id test (q : list (PeerID * A)) a r : filter (λ x, x.1 = id) q = (id, a) :: r → test a = true →
  ∃ q', first_from id test q = (Some a, q') ∧ filter (λ x, x.1 = id) q' = r.
Proof.
  intros Hf Ht. revert Hf. induction q as [|[i b] q IH]; cbn [first_from]; [done|]. rewrite filter_cons. cbn [fst]. case_decide as Hi.
  - subst i. intros [= -> <-]. rewrite bool_decide_eq_true_2, Ht by done. by exists q.
  - intros Hq. rewrite bool_decide_eq_false_2 by done. exact (IH Hq).
Qed.

Lemma requireHeaders_honest id server m locator stop hs : honest_headers id server → sm_syncPeer m = id →
  filter (λ x, x.1 = id) (sm_headersProcessCh m) = [] → locateHeaders Sum256 server locator stop = Ok hs → hs ≠ [] →
  ∃ m', requireHeaders locator stop m = (Ok hs, m') ∧ sm_syncPeer m' = id ∧
    filter (λ x, x.1 = id) (sm_headersProcessCh m') = [] ∧ sm_headerList m' = sm_headerList m ∧ sm_chain m' = sm_chain m ∧
    ps_peers (sm_peers m') = ps_peers (sm_peers m).
Proof.
  intros Hh Hid Hq Hl Hne. unfold requireHeaders, TrySend. rewrite Hid, (hh_accepts _ _ Hh). cbn [ps_sent].
  destruct (first_from_filter id (λ _, true) (sm_headersProcessCh m ++ headers_arrivals (ps_sent (sm_peers m) ++ [(id, GetHeadersMessage locator stop)])) hs [])
    as (q' & -> & Hq'); [|done|]. { rewrite filter_app, Hq. by apply (hh_answers _ _ Hh). }
  eexists. split; [done|]. by split_and!.
Qed.

(** ** A block that does not move the best chain *)

(** The connection takes the requests for a block, and the peer answers each
    with the same block. *)
Record repeats_block (id : PeerID) (b : TypesBlock) : Prop := {
  rb_accepts sent height : accepts sent id (GetBlockMessage height (mkHash 0 0 0 0)) = true;
  rb_answers sent : filter (λ x, x.1 = id)
    (block_arrivals (sent ++ [(id, GetBlockMessage (bh_Height (tb_BlockHeader b)) (mkHash 0 0 0 0))])) = [(id, b)];
}.

Lemma requireBlock_repeated id b m : repeats_block id b → sm_syncPeer m = id →
  filter (λ x, x.1 = id) (sm_blockProcessCh m) = [] →
  ∃ m', requireBlock (bh_Height (tb_BlockHeader b)) m = (Ok b, m') ∧ sm_syncPeer m' = id ∧
    filter (λ x, x.1 = id) (sm_blockProcessCh m') = [] ∧ sm_chain m' = sm_chain m.
Proof.
  intros Hr Hid Hq. unfold requireBlock, TrySend. rewrite Hid, (rb_accepts _ _ Hr). cbn [ps_sent].
  destruct (first_from_filter id (λ x, bh_Height (tb_BlockHeader x) =? bh_Height (tb_BlockHeader b))
    (sm_blockProcessCh m ++ block_arrivals (ps_sent (sm_peers m)
       ++ [(id, GetBlockMessage (bh_Height (tb_BlockHeader b)) (mkHash 0 0 0 0))])) b []) as (q' & -> & Hq').
  - rewrite filter_app, Hq. by apply (rb_answers _ _ Hr).
  - apply Z.eqb_refl.
  - eexists. split; [done|]. by split_and!.
Qed.

Lemma regular_loop_stalls now want id b c : repeats_block id b → nc_ProcessBlock now b c = (Ok false, c) →
  bh_Height (tb_BlockHeader b) = uint64 (nc_BestBlockHeight c + 1) → bh_Height (tb_BlockHeader b) <= want →
  ∀ fuel m, sm_syncPeer m = id → filter (λ x, x.1 = id) (sm_blockProcessCh m) = [] → sm_chain m = c →
  ∃ m', regular_loop fuel now want (bh_Height (tb_BlockHeader b)) m = (Fuel, m') ∧ sm_chain m' = c.
Proof.
  intros Hr Hp Hh Hw fuel. induction fuel as [|fuel IH]; intros m Hid Hq Hc; cbn [regular_loop]; [by exists m|].
  rewrite (proj2 (Z.ltb_ge _ _)) by done. destruct (requireBlock_repeated id b m Hr Hid Hq) as (m1 & -> & Hid1 & Hq1 & Hc1).
  rewrite Hc1, Hc, Hp, <- Hh. by apply IH.
Qed.

(** The rounds that are left take the rest of the headers in packs. *)
Lemma fast_headers_honest id server j hj : honest_headers id server → good server → main server !! j = Some hj →
  ∀ fuel m i hi, sm_syncPeer m = id → filter (λ x, x.1 = id) (sm_headersProcessCh m) = [] →
  last (sm_headerList m) = Some hi → main server !! i = Some hi → (i <= j)%nat → (j - i <= 2048 * fuel)%nat →
  ∃ m', fast_headers Sum256 (S fuel) (mkCheckpoint (Z.of_nat j) (header_Hash Sum256 hj)) m = (Ok tt, m') ∧
    sm_headerList m' = sm_headerList m ++ segment main server i j ∧ sm_chain m' = sm_chain m ∧ sm_syncPeer m' = id ∧
    ps_peers (sm_peers m') = ps_peers (sm_peers m).
Proof.
  intros Hh Hs Hj fuel. induction fuel as [|fuel IH]; intros m i hi Hid Hq Hlast Hi Hle Hf.
  - assert (i = j) as -> by lia. cbn [fast_headers cp_Hash]. rewrite Hlast. replace hi with hj by congruence.
    rewrite bool_decide_eq_true_2 by done. exists m. unfold segment. by rewrite Nat.sub_diag, app_nil_r.
  - remember (S fuel) as rounds eqn:Er. cbn [fast_headers cp_Hash cp_Height]. rewrite Hlast. case_bool_decide as Heq.
    { pose proof (main_hash_inj Sum256 good main server i j hi hj Hs Hi Hj Heq) as ->.
      exists m. unfold segment. by rewrite Nat.sub_diag, app_nil_r. }
    assert (i ≠ j) as Hne by (intros ->; congruence).
    rewrite (nk_height server i hi Hs Hi), (proj2 (Z.leb_gt _ _)) by lia. pose proof (lookup_lt_Some _ _ _ Hj) as Hlj.
    assert (length (segment main server i j) = j - i)%nat as Hlen.
    { unfold segment. rewrite length_take, length_drop. lia. }
    assert (locateHeaders Sum256 server [header_Hash Sum256 hi] (header_Hash Sum256 hj)
            = Ok (take 2048 (segment main server i j))) as Hloc.
    { apply (locateHeaders_from Sum256 good main server _ i j hi hj); [done..|]. intros first _.
      apply (locate_start_found Sum256 good main server []); [done| |done]. by eapply list_elem_of_lookup_2. }
    remember (take 2048 (segment main server i j)) as hs eqn:Ehs.
    assert (length hs = Nat.min 2048 (j - i)) as Hlhs by (rewrite Ehs, length_take; lia).
    assert (hs ≠ []) as Hnil by (intros ->; cbn [length] in Hlhs; lia).
    destruct (requireHeaders_honest id server m _ _ hs Hh Hid Hq Hloc Hnil) as (m1 & -> & Hid1 & Hq1 & Hl1 & Hc1 & Hp1).
    destruct hs as [|h0 hs0]; [done|]. rewrite Hl1. set (hs := h0 :: hs0) in *.
    rewrite (appendHeaderList_takes Sum256 hs _ hi Hlast) by (rewrite Ehs; by eapply linked_segment).
    clearbody hs. remember (length hs) as k eqn:Ek.
    destruct (lookup_lt_is_Some_2 (main server) (i + k)%nat ltac:(lia)) as [hk Hk].
    destruct (IH (with_headers (sm_headerList m ++ hs) m1) (i + k)%nat hk) as (m' & Hm' & Hl' & Hc' & Hid' & Hp'); [done..| |done|lia|lia|].
    { cbn [sm_headerList with_headers]. rewrite last_lookup, length_app, <- Ek.
      replace (pred (length (sm_headerList m) + k)) with (length (sm_headerList m) + pred k)%nat by lia.
      rewrite lookup_app_r by lia. replace (_ + pred k - _)%nat with (pred k) by lia.
      rewrite Ehs, lookup_take_lt by lia. rewrite segment_lookup. rewrite decide_True by lia.
      by replace (S i + pred k)%nat with (i + k)%nat by lia. }
    rewrite Hm'. exists m'. split; [done|]. cbn in Hl', Hc', Hp'. rewrite Hl', Hc', Hp', Hp1.
    split_and!; [|done..]. rewrite <- app_assoc. f_equal. rewrite Ehs. unfold segment in *.
    rewrite <- (take_drop 2048 (take (j - i) _)) at 2. f_equal.
    rewrite skipn_firstn_comm, drop_drop. destruct (decide (j - i <= 2048)%nat).
    + replace (j - (i + k))%nat with 0%nat by lia. replace (j - i - 2048)%nat with 0%nat by lia. done.
    + replace k with 2048%nat by lia. replace (j - (i + 2048))%nat with (j - i - 2048)%nat by lia.
      by replace (S (i + 2048)) with (S i + 2048)%nat by lia.
Qed.
End honest.

(** ** The block locator *)

Section locator.
Context (Sum256 : list Z → list Z) `{NC : NetChain} (good : ChainState → Prop) (main : ChainState → list BlockHeader).
Context {NK : NetChainOk Sum256 good main}.

(** Headers of the main chain whose heights fall to the first block *)
Inductive descent (c : ChainState) : nat → list BlockHeader → Prop :=
| descent_first h : main c !! 0%nat = Some h → descent c 0 [h]
| descent_below i j h hs : main c !! i = Some h → (j < i)%nat → descent c j hs → descent c i (h :: hs).

Lemma main_below c i j h : good c → main c !! i = Some h → (j <= i)%nat →
  ∃ g, main c !! j = Some g ∧ nc_GetHeaderByHeight (Z.of_nat j) c = Ok g.
Proof.
  intros Hc Hi Hj. pose proof (lookup_lt_Some _ _ _ Hi). destruct (lookup_lt_is_Some_2 (main c) j ltac:(lia)) as [g Hg].
  exists g. split; [done|]. pose proof (nk_short c Hc). by rewrite nk_by_height, Hg by (done || lia).
Qed.

(** One round from the header at [i]: at the first block it ends, elsewhere it
    goes on at a lower header. *)
Lemma locator_round c fuel i h s l : good c → main c !! i = Some h → 1 <= s < 2 ^ 64 →
  let l' := l ++ [header_Hash Sum256 h] in
  (i = 0%nat ∧ locator_loop Sum256 (S fuel) c h s l = Ok l') ∨
  ∃ j g, (j < i)%nat ∧ Z.of_nat j = Z.max 0 (Z.of_nat i - s) ∧ main c !! j = Some g ∧
    locator_loop Sum256 (S fuel) c h s l
    = locator_loop Sum256 fuel c g (if 9 <=? len l' then uint64 (s * 2) else s) l'.
Proof.
  intros Hc Hi Hs l'. cbn [locator_loop]. fold l'. rewrite (nk_height c i h Hc Hi). pose proof (nk_short c Hc).
  pose proof (lookup_lt_Some _ _ _ Hi). destruct (Z.eqb_spec (Z.of_nat i) 0) as [Hz|Hz]; [left; split; [lia|done]|].
  right. destruct (main_below c i (Z.to_nat (Z.max 0 (Z.of_nat i - s))) h Hc Hi ltac:(lia)) as (g & Hg & Hr).
  rewrite Z2Nat.id in Hr by lia. exists (Z.to_nat (Z.max 0 (Z.of_nat i - s))), g.
  split_and!; [lia|by rewrite Z2Nat.id by lia|done|].
  destruct (Z.ltb_spec (Z.of_nat i) s) as [Hlt|Hge].
  - rewrite Z.max_l in Hr by lia. by rewrite Hr.
  - rewrite Z.max_r in Hr by lia. by rewrite uint64_id, Hr by (ranges; lia).
Qed.

(** While the steps double, [n] rounds come from 2^(n-1)-1 steps above. *)
Lemma locator_doubling c : good c → ∀ n i h s l, main c !! i = Some h → 1 <= s < 2 ^ 64 → (8 <= length l)%nat →
  Z.of_nat i <= s * (2 ^ Z.of_nat n - 1) →
  ∃ hs, locator_loop Sum256 (S n) c h s l = Ok (l ++ (header_Hash Sum256 <$> hs)) ∧ descent c i hs ∧ (length hs <= S n)%nat.
Proof.
  intros Hc n. induction n as [|n IH]; intros i h s l Hi Hs Hl Hn;
    (match goal with |- context [locator_loop _ (S ?f)] =>
       destruct (locator_round c f i h s l Hc Hi Hs) as [[-> ->]|(j & g & Hj & Ej & Hg & ->)] end;
     [exists [h]; split_and!; [done|by constructor|cbn; lia]|]).
  - cbn in Hn. lia.
  - assert (8 <= length (l ++ [header_Hash Sum256 h]))%nat as Hl' by (rewrite length_app; lia).
    rewrite (proj2 (Z.leb_le _ _)) by (unfold len; rewrite length_app; cbn; lia).
    rewrite Nat2Z.inj_succ, Z.pow_succ_r in Hn by lia. pose proof (nk_short c Hc). pose proof (lookup_lt_Some _ _ _ Hi).
    pose proof (Z.pow_pos_nonneg 2 (Z.of_nat n) ltac:(lia) ltac:(lia)).
    destruct (decide (2 * s < 2 ^ 64)) as [Hd|Hd].
    + rewrite uint64_id by (ranges; lia).
      destruct (IH j g (s * 2) (l ++ [header_Hash Sum256 h]) Hg ltac:(lia) Hl' ltac:(nia)) as (hs & -> & Hd' & Hlen).
      exists (h :: hs). split_and!; [by rewrite <- app_assoc|by econstructor|cbn; lia].
    + assert (j = 0%nat) as -> by lia. destruct n as [|n]; cbn [locator_loop].
      all: rewrite (nk_height c 0 g Hc Hg); cbn [Z.of_nat Z.eqb]; exists [h; g].
      all: split_and!; [by rewrite <- app_assoc|apply (descent_below c i 0%nat); [done|lia|by constructor]|cbn; lia].
Qed.

(** Before that, one step per round *)
Lemma locator_single c : good c → ∀ k n i h l, main c !! i = Some h → (k + length l = 8)%nat →
  Z.of_nat i <= Z.of_nat k + (2 ^ Z.of_nat n - 1) →
  ∃ hs, locator_loop Sum256 (k + S n) c h 1 l = Ok (l ++ (header_Hash Sum256 <$> hs)) ∧ descent c i hs ∧
    (length hs <= k + S n)%nat.
Proof.
  intros Hc k. induction k as [|k IH]; intros n i h l Hi Hk Hn.
  - apply locator_doubling; [done..|lia|cbn in Hk; lia|lia].
  - cbn [Nat.add]. destruct (locator_round c (k + S n) i h 1 l Hc Hi ltac:(lia)) as [[-> ->]|(j & g & Hj & Ej & Hg & ->)].
    { exists [h]. split_and!; [done|by constructor|cbn; lia]. }
    rewrite (proj2 (Z.leb_gt _ _)) by (unfold len; rewrite length_app; cbn; lia).
    destruct (IH n j g (l ++ [header_Hash Sum256 h]) Hg) as (hs & -> & Hd & Hlen); [rewrite length_app; cbn; lia|lia|].
    exists (h :: hs). split_and!; [by rewrite <- app_assoc|by econstructor|cbn; lia].
Qed.

Lemma locator_fuel c n : ∀ k h s l r, locator_loop Sum256 n c h s l = Ok r → locator_loop Sum256 (n + k) c h s l = Ok r.
Proof.
  induction n as [|n IH]; intros k h s l r; [done|]. cbn [Nat.add locator_loop]. destruct (_ =? 0); [done|].
  destruct (nc_GetHeaderByHeight _ c); [apply IH|done..].
Qed.
End locator.

(** ** Any peer *)

Section safety.
Context `{F : GoFloat} `{SP : SetPop} `{RP : GoRangePeers} `{N : Network} (Sum256 : list Z → list Z).
Context `{NC : NetChain} (Checkpoints : list Checkpoint).

Definition run_blocks (now : Z) (blocks : list TypesBlock) (c : ChainState) : ChainState :=
  foldl (λ c b, (nc_ProcessBlock now b c).2) c blocks.

Lemma requireHeaders_keeps locator stop m o m' : requireHeaders locator stop m = (o, m') →
  sm_chain m' = sm_chain m ∧ sm_headerList m' = sm_headerList m.
Proof.
  unfold requireHeaders. destruct (TrySend _ _ _) as [[] ps]; [destruct (first_from _ _ _)|]; intros [= <- <-]; done.
Qed.
Lemma requireBlocks_keeps locator stop m o m' : requireBlocks locator stop m = (o, m') →
  sm_chain m' = sm_chain m ∧ sm_headerList m' = sm_headerList m.
Proof.
  unfold requireBlocks. destruct (TrySend _ _ _) as [[] ps]; [destruct (first_from _ _ _)|]; intros [= <- <-]; done.
Qed.

(** Nothing was processed. *)
#[local] Ltac stops Hr := injection Hr as <- <-; exists []; split_and!; [done..|apply prefix_nil|done].

Definition ends_at (x : Hash) (l : list BlockHeader) : Prop := ∃ h, last l = Some h ∧ header_Hash Sum256 h = x.

Lemma fast_headers_keeps cp fuel : ∀ m o m', fast_headers Sum256 fuel cp m = (o, m') → linked Sum256 (sm_headerList m) →
  sm_chain m' = sm_chain m ∧ linked Sum256 (sm_headerList m') ∧ sm_headerList m `prefix_of` sm_headerList m' ∧
  (o = Ok tt → ends_at (cp_Hash cp) (sm_headerList m')).
Proof.
  induction fuel as [|fuel IH]; intros m o m' Hr Hl; cbn [fast_headers] in Hr; [by simplify_eq|].
  destruct (last (sm_headerList m)) as [h|] eqn:Hh; [|by simplify_eq].
  case_bool_decide as Hcp; [simplify_eq; split_and!; [done..|by exists h]|].
  destruct (_ <=? _); [by simplify_eq|]. destruct (requireHeaders _ _ m) as [r m1] eqn:Hq.
  destruct (requireHeaders_keeps _ _ _ _ _ Hq) as [Hc1 Hl1]. rewrite <- Hc1, <- Hl1 in *.
  destruct r as [[|h0 hs]| | |]; [by simplify_eq| |by simplify_eq..].
  destruct (appendHeaderList Sum256 (h0 :: hs) (sm_headerList m1)) as [a l] eqn:Ha.
  destruct (appendHeaderList_keeps Sum256 _ _ _ _ Ha Hl) as (Hl' & pre & -> & _).
  destruct a as [[]| | |]; [|simplify_eq; split_and!; [done..|apply prefix_app_r; done|done]..].
  destruct (IH _ _ _ Hr Hl') as (Hc' & Hl2 & Hp & Ho). split_and!; [done..| |done].
  etransitivity; [|exact Hp]. by apply prefix_app_r.
Qed.

Lemma fast_process_keeps now blocks : ∀ next m o m', fast_process Sum256 now blocks next m = (o, m') →
  ∃ bs, sm_chain m' = run_blocks now bs (sm_chain m) ∧ sm_headerList m' = sm_headerList m ∧
    (block_Hash Sum256 <$> bs) `prefix_of` (header_Hash Sum256 <$> next) ∧
    ∀ next', o = Ok next' → header_Hash Sum256 <$> next = (block_Hash Sum256 <$> bs) ++ (header_Hash Sum256 <$> next').
Proof.
  induction blocks as [|b blocks IH]; intros next m o m' Hr; cbn [fast_process] in Hr.
  - injection Hr as <- <-. exists []. split_and!; [done..|apply prefix_nil|]. by intros next' [= ->].
  - destruct next as [|h next]; [stops Hr|].
    case_bool_decide as Hb; [|stops Hr].
    destruct (nc_ProcessBlock now b (sm_chain m)) as [r c] eqn:Hp.
    assert (run_blocks now [b] (sm_chain m) = c) as Hrun by (cbn; by rewrite Hp).
    destruct r as [orphan| | |];
      [|injection Hr as <- <-; exists [b]; split_and!; [done..|rewrite fmap_cons, Hb; apply prefix_cons, prefix_nil|done]..].
    destruct (IH _ _ _ _ Hr) as (bs & Hc & Hl & Hpre & Hn). exists (b :: bs). split_and!; [|done| |].
    + rewrite Hc. cbn. by rewrite Hp.
    + rewrite !fmap_cons, Hb. by apply prefix_cons.
    + intros next' Ho. by rewrite !fmap_cons, Hb, (Hn next' Ho).
Qed.

Lemma run_blocks_app now a b c : run_blocks now (a ++ b) c = run_blocks now b (run_blocks now a c).
Proof. apply foldl_app. Qed.

Lemma fast_blocks_keeps now cp fuel : ∀ next m o m', fast_blocks Sum256 fuel now cp next m = (o, m') →
  ∃ bs, sm_chain m' = run_blocks now bs (sm_chain m) ∧ sm_headerList m' = sm_headerList m ∧
    (block_Hash Sum256 <$> bs) `prefix_of` (header_Hash Sum256 <$> next) ∧
    (o = Ok tt → cp_Height cp <= nc_BestBlockHeight (sm_chain m')).
Proof.
  induction fuel as [|fuel IH]; intros next m o m' Hr; cbn [fast_blocks] in Hr.
  { stops Hr. }
  destruct (Z.ltb_spec (nc_BestBlockHeight (sm_chain m)) (cp_Height cp)) as [Hlt|Hge]; cbn [negb] in Hr.
  2: stops Hr.
  destruct (of_chain (blockLocator Sum256 (sm_chain m))) as [loc| | |];
    [|stops Hr..].
  destruct (requireBlocks loc _ m) as [r m1] eqn:Hq. destruct (requireBlocks_keeps _ _ _ _ _ Hq) as [Hc1 Hl1].
  rewrite <- Hc1, <- Hl1 in *.
  destruct r as [[|b bs]| | |]; [stops Hr| |stops Hr..].
  destruct (fast_process Sum256 now (b :: bs) next m1) as [p m2] eqn:Hp.
  destruct (fast_process_keeps _ _ _ _ _ _ Hp) as (ds & Hc2 & Hl2 & Hpre & Hn).
  destruct p as [next'| | |]; [|injection Hr as <- <-; by exists ds..].
  destruct (IH _ _ _ _ Hr) as (es & Hc3 & Hl3 & Hpre3 & Ho). exists (ds ++ es). split_and!; [|congruence| |done].
  - by rewrite run_blocks_app, <- Hc2.
  - rewrite (Hn next' eq_refl), fmap_app. by apply prefix_app.
Qed.
End safety.

(** ** Claims *)

Section claims.
Context `{F : GoFloat} `{SP : SetPop} `{RP : GoRangePeers} `{N : Network} (Sum256 : list Z → list Z).
Context `{NC : NetChain} (Checkpoints : list Checkpoint).

Lemma nextCheckpoint_above c cp best : nc_BestBlockHeader c = Ok best → nextCheckpoint Checkpoints c = Ok (Some cp) →
  bh_Height best < cp_Height cp.
Proof.
  intros Hb. unfold nextCheckpoint. rewrite Hb. cbn [obind]. destruct (rev Checkpoints) as [|x below]; [done|].
  destruct (Z.leb_spec (cp_Height x) (bh_Height best)) as [|Hx]; [done|]. intros [= <-]. revert x Hx.
  induction below as [|y below IH]; intros x Hx; [done|]. cbn [next_from].
  destruct (Z.leb_spec (cp_Height y) (bh_Height best)); [done|]. by apply IH.
Qed.

Lemma resetHeaderState_best m cp best : nc_BestBlockHeader (sm_chain m) = Ok best →
  nextCheckpoint Checkpoints (sm_chain m) = Ok (Some cp) → resetHeaderState Checkpoints m = Ok (with_headers [best] m).
Proof. intros Hb Hn. unfold resetHeaderState. by rewrite Hb, Hn. Qed.

Lemma linked_one h : linked Sum256 [h].
Proof. intros [|i] x y; done. Qed.

(** C39: a fast synchronisation follows the checkpoint, whatever the peer
    sends and however it ends, started on a chain whose best header can be read
    and which has a checkpoint above it.  The blocks that it hands to the chain are, in
    order, blocks of a list of headers that starts at the best block, in which
    each header names its predecessor by its hash; no block is handed over
    before that list has reached the checkpoint.  When it succeeds, the best
    block is at least as high as the checkpoint. *)
Theorem fast_sync_follows_the_checkpoint fuel now cp cp0 best m o m' :
  nc_BestBlockHeader (sm_chain m) = Ok best → nextCheckpoint Checkpoints (sm_chain m) = Ok (Some cp0) →
  fastBlockSync Sum256 Checkpoints fuel now cp m = (o, m') →
  ∃ blocks, sm_chain m' = run_blocks now blocks (sm_chain m) ∧
    linked Sum256 (sm_headerList m') ∧ head (sm_headerList m') = Some best ∧
    (block_Hash Sum256 <$> blocks) `prefix_of` (header_Hash Sum256 <$> tail (sm_headerList m')) ∧
    (blocks ≠ [] → ends_at Sum256 (cp_Hash cp) (sm_headerList m')) ∧
    (o = Ok tt → cp_Height cp <= nc_BestBlockHeight (sm_chain m')).
Proof.
  intros Hb Hn. unfold fastBlockSync. rewrite (resetHeaderState_best m cp0 best Hb Hn).
  destruct (fast_headers Sum256 fuel cp _) as [r m1] eqn:Hf.
  destruct (fast_headers_keeps Sum256 cp fuel _ _ _ Hf (linked_one best)) as (Hc1 & Hl1 & [rest Hp] & Hends).
  cbn in Hc1, Hp. assert (head (sm_headerList m1) = Some best) as Hh by (by rewrite Hp).
  destruct r as [[]| | |]; [|intros [= <- <-]; exists []; split_and!; [done..|apply prefix_nil|done|done]..].
  intros Hr. destruct (fast_blocks_keeps Sum256 now cp fuel _ _ _ _ Hr) as (bs & Hc & -> & Hpre & Ho).
  exists bs. rewrite <- Hc1. split_and!; [done..|intros _; by apply Hends|done].
Qed.

Context (good : ChainState → Prop) (main : ChainState → list BlockHeader) {NK : NetChainOk Sum256 good main}.

(** From an honest peer the headers are complete.  When the best block of
    the node is on the main chain of the peer and the checkpoint above it, the
    first half of a fast synchronisation succeeds, in one round for every 2048
    headers and one more: the list then holds exactly the peer's headers from
    the best block to the checkpoint.  The chain is not touched. *)
Theorem honest_peers_complete_the_headers fuel server id m i j best hj :
  honest_headers Sum256 id server → good server → sm_syncPeer m = id →
  filter (λ x, x.1 = id) (sm_headersProcessCh m) = [] → sm_headerList m = [best] →
  main server !! i = Some best → main server !! j = Some hj → (i <= j)%nat → (j - i <= 2048 * fuel)%nat →
  ∃ m', fast_headers Sum256 (S fuel) (mkCheckpoint (Z.of_nat j) (header_Hash Sum256 hj)) m = (Ok tt, m') ∧
    sm_headerList m' = take (S (j - i)) (drop i (main server)) ∧ sm_chain m' = sm_chain m.
Proof.
  intros Hh Hs Hid Hq Hl Hi Hj Hle Hf.
  destruct (fast_headers_honest Sum256 good main id server j hj Hh Hs Hj fuel m i best) as (m' & Hm & Hl' & Hc & _);
    [done|done|by rewrite Hl|done|done|done|].
  exists m'. split_and!; [done| |done]. by rewrite Hl', Hl, (drop_S _ _ _ Hi).
Qed.

(** A node whose best block is not on the main chain of the network never
    gets past a checkpoint.  It asks for the headers after its best block; an
    honest peer does not know that block and answers from the first block on;
    the answer does not fit and the node drops the peer.  Its chain stays as it
    was, so the next round with the next honest peer ends in the same way. *)
Theorem fork_below_the_checkpoint_drops_honest_peers fuel now server id p cp m best j hj :
  honest_headers Sum256 id server → good server → good (sm_chain m) → last (main (sm_chain m)) = Some best →
  nextCheckpoint Checkpoints (sm_chain m) = Ok (Some cp) →
  main server !! j = Some hj → cp = mkCheckpoint (Z.of_nat j) (header_Hash Sum256 hj) →
  (∀ h, h ∈ main server → header_Hash Sum256 h ≠ header_Hash Sum256 best) →
  bestPeer (Z.lor SFFastSync SFFullNode) (sm_peers m) = Some (id, p) → cp_Height cp <= p_height p →
  filter (λ x, x.1 = id) (sm_headersProcessCh m) = [] →
  ∃ m', startSync Sum256 Checkpoints (S fuel) now m = (Ok false, m') ∧ sm_chain m' = sm_chain m ∧
    ps_peers (sm_peers m') = delete id (ps_peers (sm_peers m)).
Proof.
  intros Hh Hs Hm Hlast Hn Hj -> Hoff Hp Hph Hq. destruct (nk_best _ Hm) as (b & Hb & Hbest & _).
  assert (b = best) as -> by congruence. pose proof (nextCheckpoint_above _ _ _ Hbest Hn) as Hab. cbn in Hab.
  rewrite last_lookup in Hlast. pose proof (nk_height _ _ _ Hm Hlast) as Hbh.
  unfold startSync. rewrite Hn, Hp. cbn [cp_Height]. rewrite (proj2 (Z.leb_le _ _)) by exact Hph.
  unfold fastBlockSync. rewrite (resetHeaderState_best (with_syncPeer id m) _ best Hbest Hn). cbn [fast_headers].
  cbn [sm_headerList with_headers last cp_Hash cp_Height].
  rewrite bool_decide_eq_false_2 by (intros He; eapply Hoff; [by eapply list_elem_of_lookup_2|done]).
  rewrite (proj2 (Z.leb_gt _ _)) by lia. destruct (main_first Sum256 good main server Hs) as (f & Hf & _).
  pose proof (lookup_lt_Some _ _ _ Hj) as Hlj.
  assert (locateHeaders Sum256 server [header_Hash Sum256 best] (header_Hash Sum256 hj)
          = Ok (take 2048 (segment main server 0 j))) as Hloc.
  { apply (locateHeaders_from Sum256 good main server _ 0 j f hj); [done..|lia|]. intros first Hfirst.
    rewrite Hf in Hfirst. injection Hfirst as <-. apply (locate_start_missing Sum256 good main); [done|]. by constructor. }
  destruct (lookup_lt_is_Some_2 (main server) 1 ltac:(lia)) as [h1 Hh1].
  assert (∃ hs, take 2048 (segment main server 0 j) = h1 :: hs) as [hs Hhs].
  { unfold segment. rewrite (drop_S _ _ _ Hh1). destruct (j - 0)%nat as [|k] eqn:Hk; [lia|]. by eexists. }
  rewrite Hhs in Hloc.
  destruct (requireHeaders_honest Sum256 id server (with_headers [best] (with_syncPeer id m)) _ _ _ Hh eq_refl Hq Hloc)
    as (m1 & -> & Hid1 & Hq1 & Hl1 & Hc1 & Hp1); [done|]. cbn in Hl1. rewrite Hl1. cbn [appendHeaderList last].
  rewrite bool_decide_eq_false_2.
  - eexists. split; [done|]. cbn. rewrite Hc1, Hp1. done.
  - rewrite (nk_linked _ _ _ _ Hs Hf Hh1). intros He. apply (Hoff f); [by eapply list_elem_of_lookup_2|exact (eq_sym He)].
Qed.

(** A block locator ends.  For every main chain it is the hashes of
    headers of that chain whose heights fall strictly, from the best block to
    the first block, and it has at most ten more than the binary logarithm of
    the height of them. *)
Theorem block_locator_reaches_the_first_block c : good c →
  ∃ hs, blockLocator Sum256 c = Ok (header_Hash Sum256 <$> hs) ∧
    descent main c (pred (length (main c))) hs ∧
    Z.of_nat (length hs) <= 10 + Z.log2 (nc_BestBlockHeight c).
Proof.
  intros Hc. destruct (nk_best c Hc) as (b & Hb & Hbest & Hbh). rewrite last_lookup in Hb.
  unfold blockLocator. rewrite Hbest, Hbh, (nk_height c _ b Hc Hb). cbn [obind]. set (i := pred (length (main c))) in *.
  pose proof (nk_short c Hc). pose proof (lookup_lt_Some _ _ _ Hb).
  set (n := Z.to_nat (Z.log2 (Z.of_nat i) + 1)). pose proof (Z.log2_nonneg (Z.of_nat i)).
  assert (Z.of_nat n <= 64) as Hn64.
  { unfold n. rewrite Z2Nat.id by lia. assert (Z.log2 (Z.of_nat i) <= Z.log2 (2 ^ 63)) by (apply Z.log2_le_mono; lia).
    rewrite Z.log2_pow2 in * by lia. lia. }
  destruct (locator_single Sum256 good main c Hc 8 n i b [] Hb) as (hs & Hr & Hd & Hl); [done| |].
  { assert (Z.of_nat i <= 2 ^ Z.of_nat n - 1); [|lia]. unfold n. rewrite Z2Nat.id by lia.
    destruct (decide (i = 0%nat)) as [->|Hne]; [done|].
    pose proof (Z.log2_spec (Z.of_nat i) ltac:(lia)) as [_ Hlt]. rewrite Z.add_1_r. lia. }
  exists hs. split_and!; [|done|unfold n in Hl; lia].
  apply (locator_fuel Sum256 c (8 + S n) (80 - (8 + S n))) in Hr. by replace (8 + S n + (80 - (8 + S n)))%nat with 80%nat in Hr by lia.
Qed.
End claims.
