(* ===== verification/NetRelay.v ===== *)
(** * Two honest nodes that relay transactions

    A node sends each new transaction of its pool to its peers.  The receiver
    does not remember whom it got the transaction from, so its own broadcast
    returns it to the sender ([handleTransactionMsg] and [broadcastTx] of
    net/netsync), for whom a transaction of its pool is an error of the peer. *)

From stdpp Require Import gmap.
From S2P Require Import Prelude Encoding Bc EntryHash TxMap Wire NetPeer NetSync NetHandle.
#[local] Open Scope Z_scope.
#[local] Open Scope go_scope.
#[local] Set Default Goal Selector "!".
#[local] Set Warnings "-clear-no-such-hyp".

(** What a chain promises about the transactions of its pool: validating one
    again fails, without a fee, and leaves the pool as it is. *)
Class PoolLaws `{NC : NetChain} (pooled : TypesTx → ChainState → Prop) : Prop :=
  pooled_fails : ∀ tx c, pooled tx c → ∃ h g c', nc_ValidateTx tx c = (Ok (false, h, g, true), c') ∧
    ∀ tx', pooled tx' c → pooled tx' c'.

Section relay.
Context `{F : GoFloat} {FOk : GoFloatOk} `{SP : SetPop} `{RP : GoRangePeers} {RPOk : GoRangePeersOk}.
Context `{N : Network} (Sum256 : list Z → list Z) `{NC : NetChain}.
Context (now : Z) (A B : BasePeer).

(** ** The exchange *)

(** The messages to [id] that were sent since *)
Definition new_to (id : PeerID) (before after : peerSet) : list NetMsg :=
  snd <$> filter (λ x, x.1 = id) (drop (length (ps_sent before)) (ps_sent after)).

Fixpoint deliver (from : BasePeer) (msgs : list NetMsg) (m : SyncManager) : outcome unit SyncManager :=
  match msgs with
  | [] => Ok m
  | msg :: msgs => let? r := processMsg Sum256 now from msg m in deliver from msgs r.2
  end.

(** A transaction that is new in the pool of the first node: it is broadcast,
    the second node handles what it gets and broadcasts what is new in its
    pool, and the first node handles what comes back. *)
Definition relay (tx : TypesTx) (nodes : SyncManager * SyncManager) : outcome unit (SyncManager * SyncManager) :=
  let '(a, b) := nodes in
  match broadcastTx Sum256 tx (sm_peers a) with
  | (Ok _, psa) =>
      let? b1 := deliver A (new_to (bp_ID B) (sm_peers a) psa) b in
      match txBroadcastLoop Sum256 b1 with
      | (Ok _, b2) =>
          let? a2 := deliver B (new_to (bp_ID A) (sm_peers b1) (sm_peers b2)) (with_peerSet psa a) in
          Ok (a2, b2)
      | (Err _, _) => Err tt
      | (Panic, _) => Panic
      | (Fuel, _) => Fuel
      end
  | (Err _, _) => Err tt
  | (Panic, _) => Panic
  | (Fuel, _) => Fuel
  end.
Fixpoint relay_all (txs : list TypesTx) (nodes : SyncManager * SyncManager) : outcome unit (SyncManager * SyncManager) :=
  match txs with
  | [] => Ok nodes
  | tx :: txs => let? nodes := relay tx nodes in relay_all txs nodes
  end.

(** The chain accepts each of the transactions as new and announces it. *)
Inductive takes : list TypesTx → ChainState → Prop :=
| takes_nil c : takes [] c
| takes_cons tx txs c h fee err c1 c2 c3 :
    nc_ValidateTx tx c = (Ok (true, h, Some fee, err), c1) →
    nc_ProcessTransaction now tx err h fee c1 = (Ok false, c2) →
    nc_take_new_txs c2 = ([tx], c3) →
    takes txs c3 → takes (tx :: txs) c.

(** ** One peer that is not known to have the transaction *)

Lemma range_one (id : PeerID) (p : peer) : go_range_peers {[id := p]} = [(id, p)].
Proof.
  pose proof (go_range_peers_perm _ ({[id := p]} : gmap PeerID peer)) as Hp.
  rewrite map_to_list_singleton in Hp. by apply Permutation_singleton_r in Hp.
Qed.

Lemma pop_until_subseteq fuel limit s : pop_until fuel limit s ⊆ s.
Proof.
  revert s. induction fuel as [|fuel IH]; intros s; [done|]. cbn [pop_until]. destruct (_ <=? _); [|done].
  destruct (set_pop s); [|done]. etransitivity; [apply IH|set_solver].
Qed.

Lemma mark_unknown limit x y s : x ≠ y → y ∉ s → y ∉ mark limit x s.
Proof. intros Hne Hy. unfold mark. pose proof (pop_until_subseteq (S (size s)) limit s). set_solver. Qed.

(** A node with one peer, a full node, in good standing *)
Record sees (base : BasePeer) (points : Z) (unknown : list TypesTx) (ps : peerSet) (p : peer) : Prop := {
  se_peers : ps_peers ps = {[bp_ID base := p]};
  se_base : p_base p = base;
  se_full : IsEnable (p_services p) SFFullNode = true;
  se_persistent : bs_persistent (p_banScore p) = points;
  se_transient : bs_transient (p_banScore p) = f_of_int 0;
  se_unknown : Forall (λ tx, tx_ID (tt_Tx tx) ∉ p_knownTxs p) unknown;
}.

Context (Haccepts : ∀ sent id tx, accepts sent id (TransactionMessage (Some tx)) = true).

Lemma broadcast_to_one base points tx txs ps p bs : sees base points (tx :: txs) ps p →
  tx_MarshalText Sum256 (tt_TxData tx) = Ok bs → NoDup (tx_ID ∘ tt_Tx <$> tx :: txs) →
  ∃ ps' p', broadcastTx Sum256 tx ps = (Ok tt, ps') ∧ sees base points txs ps' p' ∧
    ps_sent ps' = ps_sent ps ++ [(bp_ID base, TransactionMessage (Some tx))] ∧ ps_banned ps' = ps_banned ps.
Proof.
  intros [Hp Hb Hf Hpt Htr Hu] Hm Hnd. apply Forall_cons in Hu as [Hx Hu]. cbn in Hnd. apply NoDup_cons in Hnd as [Hn _].
  unfold broadcastTx. rewrite Hm. unfold peersWithoutTx. rewrite Hp, range_one.
  rewrite !filter_cons_True by first [exact Hx|cbn; unfold isSPVNode; by rewrite Hf]. rewrite !filter_nil.
  cbn [send_each foldl]. unfold TrySend. rewrite Haccepts. cbn [fst].
  eexists _, (markTransaction (tx_ID (tt_Tx tx)) p). split_and!; [done| |done..].
  split; try done.
  - cbn [update_peer with_peers ps_peers fst]. rewrite Hp. apply alter_singleton_eq.
  - cbn. rewrite Forall_forall in Hu |- *. intros t Ht. apply mark_unknown; [|by apply Hu].
    intros He. apply Hn. rewrite He. apply (list_elem_of_fmap_2 (tx_ID ∘ tt_Tx) txs t Ht).
Qed.

(** ** Handling a transaction *)

(** From a stranger of the pool: it is accepted, and announced. *)
Lemma handle_taken base tx m p h fee err c1 c2 : getPeer (bp_ID base) (sm_peers m) = Some p →
  nc_ValidateTx tx (sm_chain m) = (Ok (true, h, Some fee, err), c1) →
  nc_ProcessTransaction now tx err h fee c1 = (Ok false, c2) →
  deliver base [TransactionMessage (Some tx)] m = Ok (with_chain c2 m).
Proof.
  intros Hp Hv Ht. cbn [deliver]. unfold processMsg. rewrite Hp. cbn [handleTransactionMsg]. by rewrite Hv, Ht.
Qed.

(** Of one's own pool: it costs the sender ten points. *)
Lemma handle_pooled pooled {PL : PoolLaws pooled} base tx m p : getPeer (bp_ID base) (sm_peers m) = Some p →
  pooled tx (sm_chain m) →
  ∃ c, deliver base [TransactionMessage (Some tx)] m
       = Ok (with_peerSet (addBanScore now (bp_ID base) 10 0 (sm_peers m)) (with_chain c m)) ∧
    ∀ tx', pooled tx' (sm_chain m) → pooled tx' c.
Proof.
  intros Hp Hpool. destruct (pooled_fails _ _ Hpool) as (h & g & c & Hv & Hk). exists c. split; [|done].
  cbn [deliver]. unfold processMsg. rewrite Hp. cbn [handleTransactionMsg]. by rewrite Hv.
Qed.

Lemma ban_points base points txs ps p : sees base points txs ps p → 0 <= points < 1000 →
  peer_addBanScore now 10 0 p
  = (100 <? points + 10, with_score (mkBanScore (bs_lastUnix (p_banScore p)) (f_of_int 0) (points + 10)) p).
Proof.
  intros [_ _ _ Hpt Htr _] Hr. unfold peer_addBanScore, increase. cbn [Z.ltb Z.compare bs_transient bs_persistent]. rewrite Hpt, Htr, f_zero.
  rewrite (uint64_id (points + 10)) by (ranges; lia). rewrite Z.add_0_r, uint64_id by (ranges; lia). done.
Qed.

(** Below the threshold the peer stays, above it it is banned. *)
Lemma addBanScore_sees base points txs ps p : sees base points txs ps p → 0 <= points <= 90 →
  ∃ p', sees base (points + 10) txs (addBanScore now (bp_ID base) 10 0 ps) p' ∧
    ps_sent (addBanScore now (bp_ID base) 10 0 ps) = ps_sent ps ∧
    ps_banned (addBanScore now (bp_ID base) 10 0 ps) = ps_banned ps.
Proof.
  intros Hs Hr. unfold addBanScore, getPeer. rewrite (se_peers _ _ _ _ _ Hs), lookup_singleton_eq.
  rewrite (ban_points _ _ _ _ _ Hs) by lia. rewrite (proj2 (Z.ltb_ge _ _)) by lia.
  exists (with_score (mkBanScore (bs_lastUnix (p_banScore p)) (f_of_int 0) (points + 10)) p).
  destruct Hs as [Hp Hb Hf Hpt Htr Hu]. split; [|done]. split; try done.
  cbn [update_peer with_peers ps_peers]. by rewrite Hp, alter_singleton_eq.
Qed.

Lemma addBanScore_bans base points txs ps p : sees base points txs ps p → points = 100 →
  getPeer (bp_ID base) (addBanScore now (bp_ID base) 10 0 ps) = None ∧
  ps_banned (addBanScore now (bp_ID base) 10 0 ps) = ps_banned ps ++ [bp_Addr base].
Proof.
  intros Hs ->. unfold addBanScore, getPeer. rewrite (se_peers _ _ _ _ _ Hs), lookup_singleton_eq.
  rewrite (ban_points _ _ _ _ _ Hs) by lia. cbn [Z.ltb Z.compare Z.add Pos.compare Pos.compare_cont Pos.add].
  rewrite (se_base _ _ _ _ _ Hs). split; [|done]. cbn [removePeer ps_peers]. apply lookup_delete_eq.
Qed.

(** ** A round *)

Lemma new_to_one id msg ps ps' : ps_sent ps' = ps_sent ps ++ [(id, msg)] → new_to id ps ps' = [msg].
Proof. intros He. unfold new_to. rewrite He, drop_app_length. by rewrite filter_cons_True. Qed.

Lemma sees_getPeer base points txs ps p : sees base points txs ps p → getPeer (bp_ID base) ps = Some p.
Proof. intros Hs. unfold getPeer. by rewrite (se_peers _ _ _ _ _ Hs), lookup_singleton_eq. Qed.

(** What a transaction leaves behind: the sender has taken points from the
    receiver for returning it. *)
Lemma relay_round pooled {PL : PoolLaws pooled} tx txs a b p q points points' bs :
  sees B points (tx :: txs) (sm_peers a) p → sees A points' (tx :: txs) (sm_peers b) q →
  tx_MarshalText Sum256 (tt_TxData tx) = Ok bs → NoDup (tx_ID ∘ tt_Tx <$> tx :: txs) →
  pooled tx (sm_chain a) → takes (tx :: txs) (sm_chain b) →
  ∃ psa p' c b' q', relay tx (a, b) = Ok (with_peerSet (addBanScore now (bp_ID B) 10 0 psa) (with_chain c a), b') ∧
    sees B points txs psa p' ∧ ps_banned psa = ps_banned (sm_peers a) ∧
    sees A points' txs (sm_peers b') q' ∧ takes txs (sm_chain b') ∧
    ∀ tx', pooled tx' (sm_chain a) → pooled tx' c.
Proof.
  intros Ha Hb Hm Hnd Hpool Ht. inversion Ht as [|? ? ? h fee err c1 c2 c3 Hv Hpt Hfeed Ht']; subst.
  destruct (broadcast_to_one _ _ _ _ _ _ _ Ha Hm Hnd) as (psa & p' & Hbr & Ha' & Hsent & Hban).
  destruct (broadcast_to_one _ _ _ _ _ _ _ Hb Hm Hnd) as (psb & q' & Hbr' & Hb' & Hsent' & _).
  unfold relay. rewrite Hbr, (new_to_one _ _ _ _ Hsent), (handle_taken A tx b q h fee err c1 c2 (sees_getPeer _ _ _ _ _ Hb) Hv Hpt).
  cbn [obind]. unfold txBroadcastLoop. cbn [sm_chain with_chain]. rewrite Hfeed. cbn [broadcast_all sm_peers with_chain].
  rewrite Hbr'. cbn [sm_peers with_peerSet with_chain]. rewrite (new_to_one _ _ _ _ Hsent').
  destruct (handle_pooled pooled B tx (with_peerSet psa a) p' (sees_getPeer _ _ _ _ _ Ha') Hpool) as (c & -> & Hk).
  cbn [obind]. eexists psa, p', c, _, q'. by split_and!.
Qed.

(** Up to ten transactions later the peer is still there. *)
Lemma relay_rounds pooled {PL : PoolLaws pooled} tx txs : ∀ pre a b p q k, sees B (10 * k) (pre ++ tx :: txs) (sm_peers a) p →
  sees A 0 (pre ++ tx :: txs) (sm_peers b) q → 0 <= k → k + Z.of_nat (length pre) = 10 →
  Forall (λ tx, ∃ text, tx_MarshalText Sum256 (tt_TxData tx) = Ok text) (pre ++ tx :: txs) →
  NoDup (tx_ID ∘ tt_Tx <$> pre ++ tx :: txs) →
  Forall (λ tx, pooled tx (sm_chain a)) (pre ++ tx :: txs) → takes (pre ++ tx :: txs) (sm_chain b) →
  ∃ a' b', relay_all (pre ++ [tx]) (a, b) = Ok (a', b') ∧ getPeer (bp_ID B) (sm_peers a') = None ∧
    ps_banned (sm_peers a') = ps_banned (sm_peers a) ++ [bp_Addr B].
Proof.
  induction pre as [|t pre IH]; intros a b p q k Ha Hb Hk Hsum Hm Hnd Hpool Ht; cbn [app] in *;
    apply Forall_cons in Hm as [[raw Hraw] Hm]; apply Forall_cons in Hpool as [Hp Hpool].
  - destruct (relay_round pooled _ _ a b p q _ _ _ Ha Hb Hraw Hnd Hp Ht) as (psa & p' & c & b' & q' & Hr & Ha' & Hban & _).
    cbn [relay_all]. rewrite Hr. cbn [obind]. eexists _, _. split; [done|]. rewrite <- Hban.
    apply (addBanScore_bans B _ _ _ _ Ha'). cbn in Hsum. lia.
  - destruct (relay_round pooled _ _ a b p q _ _ _ Ha Hb Hraw Hnd Hp Ht) as (psa & p' & c & b' & q' & Hr & Ha' & Hban & Hb' & Ht' & Hk').
    cbn [relay_all]. rewrite Hr. cbn [obind length] in *.
    destruct (addBanScore_sees B _ _ _ _ Ha' ltac:(lia)) as (p2 & Ha2 & _ & Hban2).
    destruct (IH (with_peerSet (addBanScore now (bp_ID B) 10 0 psa) (with_chain c a)) b' p2 q' (k + 1))
      as (a' & b2 & Hr2 & Hgone & Hbanned); [by replace (10 * (k + 1)) with (10 * k + 10) by lia|done|lia|lia|done| | |done|].
    + by apply NoDup_cons in Hnd as [_ Hnd].
    + cbn. eapply Forall_impl; [exact Hpool|]. done.
    + exists a', b2. split_and!; [done..|]. rewrite Hbanned. cbn. by rewrite Hban2, Hban.
Qed.
End relay.

(** ** The feed of transactions to new peers *)

Section feed.
Context `{RP : GoRangePeers}.

(** A pack is a prefix of what is pending, and not empty. *)
Lemma pack_prefix txs size : pack txs size `prefix_of` txs.
Proof.
  revert size. induction txs as [|tx txs IH]; intros size; [done|]. cbn [pack].
  destruct (_ <? _); [by apply prefix_cons|apply prefix_nil].
Qed.
Lemma pack_nonempty tx txs : pack (tx :: txs) 0 ≠ [].
Proof. done. Qed.

(** What is sent and what stays pending are together what was pending. *)
Lemma tx_send_splits `{F : GoFloat} id txs ps s p sent s' : getPeer id ps = Some p → tx_send id txs ps s = (Some sent, s') →
  txs = sent ++ default [] (ts_pending s' !! id) ∧ ts_sending s' = true.
Proof.
  intros Hp. unfold tx_send. rewrite Hp. intros [= <- <-]. split; [|done]. cbn. destruct (pack_prefix txs 0) as [rest Hr].
  destruct (Nat.eqb_spec (length txs) (length (pack txs 0))) as [He|He].
  - rewrite lookup_delete_eq. cbn. rewrite app_nil_r. rewrite Hr in He at 1. rewrite length_app in He.
    destruct rest; [by rewrite app_nil_r in Hr|cbn in He; lia].
  - rewrite lookup_insert_eq. cbn. assert (drop (length (pack txs 0)) txs = rest) as ->; [|exact Hr].
    rewrite Hr at 2. apply drop_app_length.
Qed.

(** When the peer that is picked has left, nothing is sent, and the feed waits
    for the next peer to connect although others are pending. *)
Lemma departed_peer_stalls_the_feed `{F : GoFloat} rnd ps s id txs : tx_pick rnd s = Some (id, txs) → getPeer id ps = None →
  tx_done rnd ps s = (None, mkTxSync (delete id (ts_pending s)) false).
Proof.
  intros Hp Hg. unfold tx_done. assert (tx_pick rnd (mkTxSync (ts_pending s) false) = tx_pick rnd s) as -> by done.
  rewrite Hp. unfold tx_send. by rewrite Hg.
Qed.
End feed.

(** Two honest nodes ban each other over ordinary traffic.  Eleven
    transactions that are new to both, sent by the one and accepted by the
    other, and the sender has banned the address of the receiver and dropped
    the connection: the receiver returned each of them, and each time the
    sender took ten points from it for sending a transaction of its pool. *)
Theorem relaying_bans_the_honest_receiver `{F : GoFloat} {FOk : GoFloatOk} `{SP : SetPop} `{RP : GoRangePeers}
    {RPOk : GoRangePeersOk} `{N : Network} Sum256 `{NC : NetChain} pooled {PL : PoolLaws pooled} now A B hA hB xA xB txs a b :
  (∀ sent id tx, accepts sent id (TransactionMessage (Some tx)) = true) →
  ps_peers (sm_peers a) = {[bp_ID B := newPeer hB xB B]} → ps_peers (sm_peers b) = {[bp_ID A := newPeer hA xA A]} →
  bp_ServiceFlag A = DefaultServices → bp_ServiceFlag B = DefaultServices →
  length txs = 11%nat → NoDup (tx_ID ∘ tt_Tx <$> txs) →
  Forall (λ tx, ∃ text, tx_MarshalText Sum256 (tt_TxData tx) = Ok text) txs →
  Forall (λ tx, pooled tx (sm_chain a)) txs → takes now txs (sm_chain b) →
  ∃ a' b', relay_all Sum256 now A B txs (a, b) = Ok (a', b') ∧ getPeer (bp_ID B) (sm_peers a') = None ∧
    ps_banned (sm_peers a') = ps_banned (sm_peers a) ++ [bp_Addr B].
Proof.
  intros Hacc Ha Hb HfA HfB Hl Hnd Hm Hpool Ht. destruct (exists_last (l := txs)) as (pre & tx & ->); [by intros ->|].
  rewrite length_app in Hl. cbn in Hl.
  assert (∀ base h x l ps, bp_ServiceFlag base = DefaultServices → ps_peers ps = {[bp_ID base := newPeer h x base]} →
            sees base 0 l ps (newPeer h x base)) as Hsees.
  { intros base h x l ps Hfl Hps. split; [done|done|cbn; by rewrite Hfl|done|done|].
    apply Forall_forall. intros t _. apply not_elem_of_empty. }
  eapply (relay_rounds Sum256 now A B Hacc pooled tx [] pre a b _ _ 0); [by apply Hsees|by apply Hsees|done|lia|done..].
Qed.
