(* ===== verification/NetNode.v ===== *)
(** * The chain behind the network

    The chain of [Chain], with the pool, the cache of failures and the outputs
    on disk, implements the interface of net/netsync: [NetChain] and its laws
    [NetChainOk] and [PoolLaws].  What a node does not get from its peers: a
    longer branch with less work keeps [regularBlockSync] busy for ever. *)

From stdpp Require Import gmap.
From S2P Require Import Prelude VmMachine Encoding Bc EntryHash TxMap Wire TxValidation UtxoView Difficulty.
From S2P Require Import BlockValidation TxPool BlockIndex Orphans Chain ChainSpec ChainSetup Mining.
From S2P Require Import NetPeer NetSync NetSyncSpec NetHandle NetRelay.
#[local] Open Scope Z_scope.
#[local] Open Scope go_scope.
#[local] Set Default Goal Selector "!".
#[local] Set Warnings "-clear-no-such-hyp".

(** ** Nodes stand for their headers *)

Section hashed.
Context (Sum256 : list Z → list Z) `{S : Store} `{V : BlockValidator} {VOk : BlockValidatorOk} `{R : GoRange}.

(** The hash of each node is the hash of the header that it stands for. *)
Definition hashed (c : @Chain S V) : Prop :=
  map_Forall (λ _ n, header_Hash Sum256 (node_header n) = bn_Hash n) (nodes c).
Definition keeps {A} (m : C A) : Prop := ∀ c, hashed c → hashed (m c).2.

Lemma hash_keeps_bind {A B} (m : C A) (k : A → C B) : keeps m → (∀ a, keeps (k a)) → keeps (cbind m k).
Proof. intros Hm Hk c Hc. specialize (Hm c Hc). unfold cbind. destruct (m c) as [[a| | |] c']; [by apply Hk|done..]. Qed.
Lemma hash_keeps_lift {A} (o : @Chain S V → outcome chain_error A) : keeps (lift o).
Proof. by intros c. Qed.
Lemma hash_keeps_deref {A} (o : @Chain S V → option A) : keeps (deref o).
Proof. by intros c. Qed.
Lemma hash_keeps_ret {A} (a : A) : keeps (ret a).
Proof. by intros c. Qed.
Lemma hash_keeps_modify f : (∀ c, nodes (f c) = nodes c) → keeps (modify f).
Proof. intros Hf c Hc. unfold hashed. cbn. by rewrite Hf. Qed.
Lemma hash_keeps_in_store f : keeps (in_store f).
Proof. intros c Hc. unfold in_store. by destruct (f (c_store c)). Qed.
Lemma hash_keeps_in_world {A} (f : World → outcome chain_error A * World) : keeps (in_world f).
Proof. intros c Hc. unfold in_world. by destruct (f (c_world c)). Qed.
#[local] Hint Resolve hash_keeps_bind hash_keeps_lift hash_keeps_deref hash_keeps_ret hash_keeps_in_store hash_keeps_in_world : core.

(** A new node is made from a header that names its parent. *)
Lemma saveBlock_hashed b : keeps (saveBlock Sum256 b).
Proof.
  intros c Hc. unfold saveBlock. change (wp (saveBlock Sum256 b) (λ _, hashed) c). unfold saveBlock.
  apply cwp_bind, cwp_lift. destruct (GetNode _ _) as [p|]; [|done]. apply cwp_bind, cwp_lift.
  apply cwp_bind, wp_in_world. intros o w Hv. destruct o as [[ts acc]| | |]; [|done..]. cbn [fst snd].
  destruct (validate_header _ _ _ _ _ _ Hv) as [_ Hprev].
  match goal with |- wp ?m _ ?c1 => assert (keeps m) as Hk; [|exact (Hk c1 Hc)] end.
  apply hash_keeps_bind; [done|]. intros _. apply hash_keeps_bind; [done|]. intros _.
  apply hash_keeps_bind; [by apply hash_keeps_modify|]. intros _.
  intros c1 Hc1. unfold cbind, lift, NewBlockNode.
  destruct (bh_Height (tb_BlockHeader b) =? 0); cbn [no_error modify snd]; apply map_Forall_insert_2; try done.
  all: cbn in Hprev |- *; unfold node_header; cbn; rewrite <- Hprev; by destruct (tb_BlockHeader b).
Qed.

Lemma save_orphans_hashed sub : (∀ b, keeps (sub b)) → ∀ ps b, keeps (save_orphans Sum256 sub ps b).
Proof.
  intros Hsub ps. induction ps as [|p ps IH]; intros b; [apply hash_keeps_ret|]. cbn [save_orphans]. apply hash_keeps_bind; [done|].
  intros ob c Hc. pose proof (saveBlock_hashed ob c Hc) as Hs. destruct (saveBlock Sum256 ob c) as [[[]| | |] c1]; [|by apply IH|done..].
  apply hash_keeps_bind; [apply Hsub|intros; apply IH|done].
Qed.

Lemma saveSubBlock_hashed fuel : ∀ b, keeps (saveSubBlock Sum256 fuel b).
Proof.
  induction fuel as [|fuel IH]; intros b c Hc; cbn [saveSubBlock]; destruct (GetPrevOrphans _ _); try done.
  by apply save_orphans_hashed.
Qed.

Lemma setState_hashed n view : keeps (setState n view).
Proof.
  apply hash_keeps_bind; [done|]. intros _ c Hc. unfold cbind, lift.
  destruct (SetMainChain n (c_index c)) as [i| | |] eqn:Hi; [|done..]. cbn. unfold SetMainChain in Hi.
  destruct (set_main _ _); [|done..]. by injection Hi as <-.
Qed.

Lemma connectBlock_hashed now b : keeps (connectBlock Sum256 now b).
Proof.
  unfold connectBlock. repeat (apply hash_keeps_bind; [by eauto using setState_hashed|intros ?]). by apply hash_keeps_modify.
Qed.

Lemma each_node_hashed f ns : ∀ view, keeps (each_node Sum256 f ns view).
Proof. intros view c Hc. by rewrite each_node_reads. Qed.

Lemma reorganizeChain_hashed n : keeps (chain_reorganizeChain Sum256 n).
Proof.
  unfold chain_reorganizeChain. do 3 (apply hash_keeps_bind; [by eauto using each_node_hashed|intros ?]).
  apply setState_hashed.
Qed.

Lemma processBlock_hashed now b : keeps (processBlock Sum256 now b).
Proof.
  intros c Hc. unfold processBlock. destruct (BlockExist _ c); [done|]. destruct (GetNode _ _); [|done].
  apply hash_keeps_bind; [apply saveBlock_hashed| |done]. intros _. apply hash_keeps_bind.
  { intros c1 Hc1. by apply saveSubBlock_hashed. }
  intros best. apply hash_keeps_bind; [done|]. intros n c1 Hc1. destruct (same_node _ _); [|destruct (_ && _); [|done]].
  - apply hash_keeps_bind; [apply connectBlock_hashed|done..].
  - apply hash_keeps_bind; [apply reorganizeChain_hashed|done..].
Qed.
End hashed.

Section node.
Context `{E : VmEnv} `{R : GoRange} {DB : BlockDB} {K : EvmDisk} `{S : Store}.
(** The unspent outputs that the pool finds in the store *)
Context (disk : StoreState → gmap Hash UtxoEntry).

(** A transaction that arrives is a new object, whose identifier has a new
    address. *)
Record NodeChain := mkNodeChain {
  nd_chain : Chain;
  nd_cache : ErrCache (option submit_error);
  nd_next : Z;
}.

Definition no_reason {X A} (o : outcome X A) : outcome unit A :=
  match o with Ok a => Ok a | Err _ => Err tt | Panic => Panic | Fuel => Fuel end.

Definition node_ProcessBlock (now : Z) (b : TypesBlock) (c : NodeChain) : outcome unit bool * NodeChain :=
  let '(o, ch) := processBlock sha3_Sum256 now b (nd_chain c) in (no_reason o, mkNodeChain ch (nd_cache c) (nd_next c)).
Definition node_ValidateTx (tx : TypesTx) (c : NodeChain) : outcome unit (bool * Z * option Z * bool) * NodeChain :=
  let '(o, ch, cache) := chain_ValidateTx (mkHashPtr (nd_next c) (tt_ID tx)) tx (nd_chain c) (nd_cache c) in
  (let? r := no_reason o in
   let '(acceptable, height, gas, err) := r in Ok (acceptable, height, AssetValue <$> gas, bool_decide (is_Some err)),
   mkNodeChain ch cache (nd_next c + 1)).
Definition node_ProcessTransaction (now : Z) (tx : TypesTx) (statusFail : bool) (height fee : Z) (c : NodeChain)
    : outcome unit bool * NodeChain :=
  let ch := nd_chain c in
  let '(o, pool) := ProcessTransaction now (disk (c_store ch)) tx statusFail height fee (c_txPool ch) in
  (no_reason o, mkNodeChain (with_pool pool ch) (nd_cache c) (nd_next c)).

(** The pool's channel, read to its end *)
Definition take_messages (p : TxPool) : list TypesTx * TxPool :=
  (omap (λ m, match m with MsgNewTx d => Some (ds_Tx d) | MsgRemoveTx _ => None end) (tp_msgs p),
   mkTxPool (tp_lastUpdated p) (tp_pool p) (tp_utxo p) (tp_orphans p) (tp_orphansByPrev p) []).

#[global] Instance node_NetChain : NetChain := {
  ChainState := NodeChain;
  nc_BestBlockHeader c := BestBlockHeader (nd_chain c);
  nc_BestBlockHeight c := BestBlockHeight (nd_chain c);
  nc_GetBlockByHash h c := no_reason (GetBlockByHash h (nd_chain c));
  nc_GetBlockByHeight z c := no_reason (GetBlockByHeight z (nd_chain c));
  nc_GetHeaderByHash h c := no_reason (GetHeaderByHash h (nd_chain c));
  nc_GetHeaderByHeight z c := no_reason (GetHeaderByHeight z (nd_chain c));
  nc_GetTransactionStatus h c := no_reason (store_GetTransactionStatus (c_store (nd_chain c)) h);
  nc_InMainChain h c := InMainChain h (nd_chain c);
  nc_ProcessBlock := node_ProcessBlock;
  nc_ValidateTx := node_ValidateTx;
  nc_ProcessTransaction := node_ProcessTransaction;
  nc_take_new_txs c :=
    let '(txs, p) := take_messages (c_txPool (nd_chain c)) in
    (txs, mkNodeChain (with_pool p (nd_chain c)) (nd_cache c) (nd_next c));
  nc_GetTransactions c := ds_Tx <$> GetTransactions (c_txPool (nd_chain c));
}.

(** ** The main chain *)

Context (root : BlockNode).

Record node_good (c : NodeChain) : Prop := {
  ng_ok : chain_ok sha3_Sum256 root (nd_chain c);
  ng_hash : hashed sha3_Sum256 (nd_chain c);
}.

(** Blocks that arrive keep it. *)
Lemma ProcessBlock_good {SOk : StoreOk} now b c : node_good c → node_good (nc_ProcessBlock now b c).2.
Proof.
  intros [Hc Hh]. pose proof (processBlock_advances sha3_Sum256 root now b (nd_chain c) Hc) as Ha.
  pose proof (processBlock_hashed sha3_Sum256 now b (nd_chain c) Hh) as Hh'. cbn. unfold node_ProcessBlock, wp in *.
  destruct (processBlock _ _ _ _) as [o ch]. split; [|done]. by destruct Ha.
Qed.

Definition node_main (c : NodeChain) : list BlockHeader := node_header <$> path (c_bestNode (nd_chain c)).

Lemma main_node c i h : node_good c → node_main c !! i = Some h → ∃ n, h = node_header n ∧
  path (c_bestNode (nd_chain c)) !! i = Some n ∧ indexed (nodes (nd_chain c)) n ∧ Z.of_nat i = bn_Height n ∧
  header_Hash sha3_Sum256 h = bn_Hash n.
Proof.
  intros [Hc Hh] Hi. apply list_lookup_fmap_Some in Hi as (n & -> & Hn).
  destruct (path_prefix _ _ (co_tree _ _ _ Hc) _ _ _ (co_best _ _ _ Hc) Hn) as (Hin & Hz & _).
  exists n. split_and!; [done..|]. exact (Hh _ _ Hin).
Qed.

Lemma path_follows c i n n' : node_good c → path (c_bestNode (nd_chain c)) !! i = Some n →
  path (c_bestNode (nd_chain c)) !! Datatypes.S i = Some n' → bn_Parent n' = Some n.
Proof.
  intros [Hc _] Hn Hn'. pose proof (co_tree _ _ _ Hc) as Ht. pose proof (co_best _ _ _ Hc) as Hb.
  destruct (path_prefix _ _ Ht _ _ _ Hb Hn') as (Hi' & Hz & Hp'). destruct (bn_Parent n') as [p|] eqn:Hpar.
  - rewrite (path_child n' p Hpar), (take_S_r _ _ _ Hn') in Hp'. apply app_inj_tail in Hp' as [Hp _]. f_equal.
    destruct (indexed_parent _ _ Ht n' p Hi' Hpar) as (Hip & Hhp & _).
    assert (last (path p) = last (take (Datatypes.S i) (path (c_bestNode (nd_chain c))))) as Hl by (by rewrite Hp).
    rewrite last_path, (take_S_r _ _ _ Hn), last_snoc in Hl. congruence.
  - destruct (indexed_root _ _ Ht n' Hi' Hpar). lia.
Qed.

#[global] Instance node_NetChainOk : NetChainOk sha3_Sum256 node_good node_main.
Proof.
  split.
  - intros c Hg. exists (node_header (c_bestNode (nd_chain c))). unfold node_main. rewrite fmap_last, last_path.
    split_and!; [done|exact (best_header _ _ _ (ng_ok _ Hg))|done].
  - intros c i h Hg Hi. destruct (main_node c i h Hg Hi) as (n & -> & _ & _ & -> & _). done.
  - intros c i Hg Hlt. cbn. unfold GetHeaderByHeight, NodeByHeight, nodeByHeight, node_main.
    rewrite (co_main _ _ _ (ng_ok _ Hg)), length_fmap, !list_lookup_fmap, Nat2Z.id.
    destruct (Z.leb_spec (Z.of_nat (length (path (c_bestNode (nd_chain c))))) (Z.of_nat i)).
    + by rewrite (lookup_ge_None_2 (path _)) by lia.
    + by destruct (path _ !! i).
  - intros c h Hg [i Hi]%list_elem_of_lookup. destruct (main_node c i h Hg Hi) as (n & -> & Hn & Hin & _ & ->). cbn.
    unfold GetHeaderByHash, GetNode. fold (nodes (nd_chain c)). rewrite Hin. split; [done|].
    apply (InMainChain_path _ _ _ _ (ng_ok _ Hg) Hin). by eapply list_elem_of_lookup_2.
  - intros c x Hg Hoff. cbn. unfold GetHeaderByHash, GetNode. fold (nodes (nd_chain c)).
    destruct (nodes (nd_chain c) !! x) as [n|] eqn:Hn; [|by left]. right. exists (node_header n). split; [done|].
    pose proof (co_tree _ _ _ (ng_ok _ Hg)) as Ht. pose proof (indexed_lookup _ _ Ht _ _ Hn) as Hin.
    rewrite (ng_hash _ Hg _ _ Hn). apply not_true_is_false. intros Hm%(InMainChain_path _ _ _ _ (ng_ok _ Hg) Hin).
    apply (Hoff (node_header n)); [by apply list_elem_of_fmap_2|]. rewrite (ng_hash _ Hg _ _ Hn). exact (to_hash _ _ Ht _ _ Hn).
  - intros c i h h' Hg Hi Hi'. destruct (main_node c i h Hg Hi) as (n & -> & Hn & _ & _ & ->).
    destruct (main_node c _ h' Hg Hi') as (n' & -> & Hn' & _). cbn. by rewrite (path_follows c i n n' Hg Hn Hn').
  - intros c [Hc _]. unfold node_main. rewrite length_fmap. pose proof (co_tree _ _ _ Hc) as Ht.
    pose proof (co_best _ _ _ Hc) as Hb. rewrite (length_path _ _ Ht _ Hb). pose proof (to_bound _ _ Ht _ _ Hb) as Hlt.
    cbn in Hlt. lia.
Qed.

(** ** A longer branch with less work *)

Lemma known_block now b n c : node_good c → nodes (nd_chain c) !! block_Hash sha3_Sum256 b = Some n →
  nc_ProcessBlock now b c = (Ok false, c).
Proof.
  intros [Hc _] Hn. cbn. unfold node_ProcessBlock, processBlock, BlockExist, index_BlockExist. fold (nodes (nd_chain c)).
  rewrite Hn, bool_decide_eq_true_2 by done. cbn [orb]. destruct c as [ch cache next]. cbn in *. do 2 f_equal.
  apply bool_decide_eq_false_2. intros [o Ho]. destruct (co_orphans _ _ _ Hc _ _ Ho). congruence.
Qed.

(** A longer branch with less work keeps a node busy for ever.  A peer
    is chosen by its height.  Where its block above the best block is known
    and has not become the best block, for want of work, it answers the
    request for that height with that block, which changes nothing, and the
    node asks again: the synchronisation never returns. *)
Theorem lighter_branch_stalls_the_sync `{F : GoFloat} `{SP : SetPop} `{RP : GoRangePeers} `{N : Network} fuel now want id b n m :
  repeats_block id b → node_good (sm_chain m) → nodes (nd_chain (sm_chain m)) !! block_Hash sha3_Sum256 b = Some n →
  bh_Height (tb_BlockHeader b) = BestBlockHeight (nd_chain (sm_chain m)) + 1 →
  bh_Height (tb_BlockHeader b) <= want → sm_syncPeer m = id → filter (λ x, x.1 = id) (sm_blockProcessCh m) = [] →
  ∃ m', regularBlockSync fuel now want m = (Fuel, m') ∧ sm_chain m' = sm_chain m.
Proof.
  intros Hr Hg Hn Hh Hw Hid Hq. pose proof (co_tree _ _ _ (ng_ok _ Hg)) as Ht. pose proof (co_best _ _ _ (ng_ok _ Hg)) as Hb.
  pose proof (height_nonneg _ _ Ht _ Hb). pose proof (to_bound _ _ Ht _ _ Hb) as Hlt. cbn in Hlt.
  assert (uint64 (nc_BestBlockHeight (sm_chain m) + 1) = bh_Height (tb_BlockHeader b)) as Hu.
  { rewrite uint64_id; [by rewrite Hh|]. cbn. unfold BestBlockHeight. ranges. lia. }
  unfold regularBlockSync. rewrite Hu.
  apply (regular_loop_stalls now want id b (sm_chain m)); try done. by apply (known_block now b n).
Qed.

(** ** The pool *)

(** The transaction waits in the pool, and no address of the cache is new. *)
Definition node_pooled (tx : TypesTx) (c : NodeChain) : Prop :=
  IsTransactionInPool (tt_ID tx) (c_txPool (nd_chain c)) = true ∧ Forall (λ e, e.1 < nd_next c) (nd_cache c).

#[global] Instance node_PoolLaws : PoolLaws node_pooled.
Proof.
  intros tx c [Hp Hf]. cbn. unfold node_ValidateTx, chain_ValidateTx, IsTransactionInErrCache, lru_Get. cbn [hp_addr hp_hash].
  assert (lru_find (nd_next c) (nd_cache c) = None) as ->.
  { apply lru_find_None. intros [e [He Hin]]%list_elem_of_fmap. rewrite Forall_forall in Hf. specialize (Hf _ Hin). lia. }
  rewrite bool_decide_eq_false_2 by (by intros [? ?]). rewrite Hp. eexists _, _, _. split; [done|].
  intros tx' [Hp' _]. split; [done|]. cbn [nd_cache nd_next]. apply lru_Add_Forall; [cbn; lia|].
  eapply Forall_impl; [exact Hf|]. cbn. intros. lia.
Qed.

(** A pool without orphans whose feed has been read announces a transaction
    that it accepts, and nothing else. *)
Definition quiet (c : NodeChain) : Prop :=
  tp_orphansByPrev (c_txPool (nd_chain c)) = ∅ ∧ tp_msgs (c_txPool (nd_chain c)) = [].

Lemma addRely_empty ids q : addRely ids ∅ q = (∅, q).
Proof. induction ids as [|id ids IH]; [done|]. cbn [addRely]. by rewrite lookup_empty. Qed.

Lemma ProcessTransaction_announces now db tx sf h fee tp tp' : tp_orphansByPrev tp = ∅ → tp_msgs tp = [] →
  ProcessTransaction now db tx sf h fee tp = (Ok false, tp') → (take_messages tp').1 = [tx] ∧ tp_orphansByPrev tp' = ∅.
Proof.
  intros Ho Hm. unfold ProcessTransaction. destruct (checkOrphanUtxos db tx tp); [|by destruct (addOrphan _ _ _ _) as [[]]].
  unfold addTransaction. destruct (_ <=? _); [done|]. cbn [ds_Tx]. destruct (add_outputs _ _ _ _) as [[[]| | |] utxo]; [|done..].
  unfold processOrphans, rely. cbn [tp_orphansByPrev ds_Tx]. rewrite Ho, addRely_empty. cbn [process_queue].
  intros [= <-]. unfold take_messages. cbn. by rewrite Hm.
Qed.

Lemma ValidateTx_pool tx c o c' : nc_ValidateTx tx c = (o, c') → c_txPool (nd_chain c') = c_txPool (nd_chain c).
Proof.
  cbn. unfold node_ValidateTx, chain_ValidateTx. destruct (IsTransactionInErrCache _ _) as [[] cache].
  { destruct (GetErrCache _ _) as [[[]|] ?]; intros [= <- <-]; done. }
  destruct (IsTransactionInPool _ _); [intros [= <- <-]; done|]. destruct (BestBlockHeader _); [|intros [= <- <-]; done..].
  destruct (evm_New _ _); [|intros [= <- <-]; done]. destruct (ValidateTx _ _ _ _) as [[] vs]; try (intros [= <- <-]; done).
  all: destruct (negb _); intros [= <- <-]; done.
Qed.

Lemma accepted_announced now tx c h fee err c1 c2 : quiet c → nc_ValidateTx tx c = (Ok (true, h, Some fee, err), c1) →
  nc_ProcessTransaction now tx err h fee c1 = (Ok false, c2) → ∃ c3, nc_take_new_txs c2 = ([tx], c3) ∧ quiet c3.
Proof.
  intros [Ho Hm] Hv Hp. apply ValidateTx_pool in Hv. cbn in Hp. unfold node_ProcessTransaction in Hp.
  destruct (ProcessTransaction _ _ _ _ _ _ _) as [[] tp] eqn:Ht; try done. injection Hp as -> <-.
  destruct (ProcessTransaction_announces _ _ _ _ _ _ _ _ (eq_trans (f_equal _ Hv) Ho) (eq_trans (f_equal _ Hv) Hm) Ht) as [Hf He].
  cbn. cbn in Hf. rewrite Hf. eexists. split; [done|]. split; [exact He|done].
Qed.

(** Whether the chain accepts the transactions, one after the other *)
Fixpoint accepts_all (now : Z) (txs : list TypesTx) (c : NodeChain) : bool * NodeChain :=
  match txs with
  | [] => (true, c)
  | tx :: txs =>
      match nc_ValidateTx tx c with
      | (Ok (true, h, Some fee, err), c1) =>
          match nc_ProcessTransaction now tx err h fee c1 with
          | (Ok false, c2) => accepts_all now txs (nc_take_new_txs c2).2
          | (_, c2) => (false, c2)
          end
      | (_, c1) => (false, c1)
      end
  end.

Lemma accepts_all_takes now txs : ∀ c, quiet c → (accepts_all now txs c).1 = true → takes now txs c.
Proof.
  induction txs as [|tx txs IH]; intros c Hq Ha; [constructor|]. cbn [accepts_all] in Ha.
  destruct (nc_ValidateTx (NetChain := node_NetChain) tx c) as [[[[[[] h] [fee|]] err]| | |] c1] eqn:Hv; try done.
  destruct (nc_ProcessTransaction (NetChain := node_NetChain) now tx err h fee c1) as [[[]| | |] c2] eqn:Hp; try done.
  destruct (accepted_announced now tx c h fee err c1 c2 Hq Hv Hp) as (c3 & Hf & Hq3). rewrite Hf in Ha.
  econstructor; [exact Hv|exact Hp|exact Hf|]. by apply IH.
Qed.
End node.
