(* ===== verification/NetExamples.v ===== *)
(** * Concrete nodes on a network

    The nodes of the chain examples, connected: a synchronisation up to a
    checkpoint, a node on the wrong side of a fork, a block that never becomes
    the best one, and two nodes that relay transactions. *)

From stdpp Require Import gmap.
From S2P Require Import Prelude GoSlice VmMachine Encoding Bc EntryHash Merkle TxMap Wire TxValidation TxConservation.
From S2P Require Import UtxoView Difficulty BlockValidation BlockExamples TxPool BlockIndex Orphans Chain ChainSpec.
From S2P Require Import LevelDB LevelDBSpec ChainSetup ChainExamples Mining.
From S2P Require Import NetPeer NetSync NetSyncSpec NetHandle NetRelay NetNode.
#[local] Open Scope Z_scope.

#[local] Existing Instance ledger_env.
#[local] Existing Instance toy_range.
#[local] Existing Instance ledger_db.
#[local] Existing Instance toy_disk.
#[local] Existing Instance toy_store.
#[local] Existing Instance toy_store_ok.

#[local] Instance toy_float : GoFloat := {|
  float64 := Z;
  f_of_int := λ z, z;
  f_add := Z.add;
  f_mul := Z.mul;
  f_lt := Z.ltb;
  f_exp := λ _, 1;
  f_lambda := 0;
  f_to_uint64 := uint64;
|}.
#[local] Instance toy_float_ok : GoFloatOk.
Proof. reflexivity. Qed.
#[local] Instance toy_pop : SetPop := λ s, head (elements s).
#[local] Instance toy_range_peers : GoRangePeers := λ V m, map_to_list m.
#[local] Instance toy_range_peers_ok : GoRangePeersOk.
Proof. intros V m. reflexivity. Qed.

(** ** Chains of three nodes *)

#[local] Instance toy_net_chain : NetChain := node_NetChain (λ _, ∅).

Definition arrive (b : TypesBlock) (c : NodeChain) : NodeChain := (nc_ProcessBlock 0 b c).2.
Definition nd0 : NodeChain := mkNodeChain chain0 [] 0.
(** The network, and a node that has mined a block of its own *)
Definition server : NodeChain := arrive rival2 (arrive rival1 nd0).
Definition strayed : NodeChain := arrive block1 nd0.

Lemma nd0_good : node_good genesis_node nd0.
Proof.
  split; [exact chain0_ok|]. unfold hashed, nodes. cbn [nd0 nd_chain chain0 c_index bi_index].
  apply map_Forall_singleton. vm_compute. reflexivity.
Qed.
Lemma server_good : node_good genesis_node server.
Proof.
  exact (ProcessBlock_good (λ _, ∅) genesis_node 0 rival2 _ (ProcessBlock_good (λ _, ∅) genesis_node 0 rival1 nd0 nd0_good)).
Qed.
Lemma strayed_good : node_good genesis_node strayed.
Proof. exact (ProcessBlock_good (λ _, ∅) genesis_node 0 block1 nd0 nd0_good). Qed.

#[local] Instance toy_net_ok : NetChainOk (NC := toy_net_chain) toy_sum (node_good genesis_node) node_main :=
  node_NetChainOk (λ _, ∅) genesis_node.

Definition checkpoint : Checkpoint := mkCheckpoint 2 (block_Hash toy_sum rival2).

(** ** A peer that answers from its chain *)

Definition one_answer {A} (id : PeerID) (o : outcome unit A) : list (PeerID * A) :=
  match o with Ok a => [(id, a)] | _ => [] end.
Definition answer_headers (id : PeerID) (msg : NetMsg) : list (PeerID * list BlockHeader) :=
  match msg with
  | GetHeadersMessage locator stop =>
      one_answer id (locateHeaders (NC := toy_net_chain) toy_sum server locator stop)
  | _ => []
  end.
Definition answer_blocks (id : PeerID) (msg : NetMsg) : list (PeerID * list TypesBlock) :=
  match msg with
  | GetBlocksMessage locator stop =>
      one_answer id (locateBlocks (NC := toy_net_chain) toy_sum server locator stop)
  | _ => []
  end.
(** A request for a block is answered with the same block every time. *)
Definition answer_block (id : PeerID) (msg : NetMsg) : list (PeerID * TypesBlock) :=
  match msg with GetBlockMessage _ _ => [(id, block1)] | _ => [] end.
Definition answered {A} (f : PeerID → NetMsg → list A) (sent : list (PeerID * NetMsg)) : list A :=
  match last sent with Some (id, msg) => f id msg | None => [] end.

#[local] Instance toy_network : Network := {|
  accepts := λ _ _ _, true;
  block_arrivals := answered answer_block;
  blocks_arrivals := answered answer_blocks;
  headers_arrivals := answered answer_headers;
|}.

Definition far : BasePeer := mkBasePeer [7] [1; 2; 3] DefaultServices.
Definition far_peer : peer := newPeer 2 (block_Hash toy_sum rival2) far.

Lemma far_honest : honest_headers toy_sum (bp_ID far) server.
Proof.
  split; [reflexivity|]. intros sent locator stop hs Hl _. cbn [headers_arrivals toy_network]. unfold answered.
  rewrite last_snoc. cbn [answer_headers]. rewrite Hl. reflexivity.
Qed.

Definition manager (c : NodeChain) : SyncManager :=
  mkSyncManager c (mkPeerSet {[bp_ID far := far_peer]} [] [] []) (block_Hash toy_sum genesis_block) (bp_ID far)
    [] [] [] [] [] ∅.

(** ** Synchronisation *)

Lemma fast_sync_follows_the_checkpoint_witness :
  let r := fastBlockSync toy_sum [checkpoint] 5 0 checkpoint (manager nd0) in
  (r.1 = Ok tt ∧ BestBlockHash (nd_chain (sm_chain r.2)) = block_Hash toy_sum rival2) ∧
  ∃ blocks, sm_chain r.2 = run_blocks 0 blocks nd0 ∧
    linked toy_sum (sm_headerList r.2) ∧ head (sm_headerList r.2) = Some genesis_header ∧
    (block_Hash toy_sum <$> blocks) `prefix_of` (header_Hash toy_sum <$> tail (sm_headerList r.2)) ∧
    (blocks ≠ [] → ends_at toy_sum (cp_Hash checkpoint) (sm_headerList r.2)) ∧
    (r.1 = Ok tt → cp_Height checkpoint <= nc_BestBlockHeight (sm_chain r.2)).
Proof.
  intros r. split; [vm_compute; split; reflexivity|].
  apply (fast_sync_follows_the_checkpoint toy_sum [checkpoint] 5 0 checkpoint checkpoint genesis_header (manager nd0) r.1 r.2);
    [vm_compute; reflexivity|vm_compute; reflexivity|apply surjective_pairing].
Defined.

Lemma honest_peers_complete_the_headers_witness :
  ∃ m', fast_headers toy_sum 2 (mkCheckpoint (Z.of_nat 2) (header_Hash toy_sum (tb_BlockHeader rival2)))
          (with_headers [genesis_header] (manager nd0)) = (Ok tt, m') ∧
    sm_headerList m' = take 3 (drop 0 (node_main server)) ∧ sm_chain m' = nd0.
Proof.
  apply (honest_peers_complete_the_headers (NC := toy_net_chain) toy_sum (node_good genesis_node) node_main 1 server (bp_ID far)
           (with_headers [genesis_header] (manager nd0)) 0 2 genesis_header (tb_BlockHeader rival2));
    [exact far_honest|exact server_good|reflexivity|reflexivity|reflexivity|vm_compute; reflexivity|vm_compute; reflexivity|lia|lia].
Defined.

Lemma far_best : bestPeer (Z.lor SFFastSync SFFullNode) (mkPeerSet {[bp_ID far := far_peer]} [] [] []) = Some (bp_ID far, far_peer).
Proof. unfold bestPeer. cbn [ps_peers]. rewrite (range_one (bp_ID far) far_peer). reflexivity. Qed.

Lemma none_hashed (l : list BlockHeader) x : existsb (λ h, bool_decide (header_Hash toy_sum h = x)) l = false →
  ∀ h, h ∈ l → header_Hash toy_sum h ≠ x.
Proof.
  intros Hl h Hh He. apply not_true_iff_false in Hl. apply Hl, existsb_exists. exists h.
  split; [by apply list_elem_of_In|by apply bool_decide_eq_true_2].
Qed.

Lemma fork_below_the_checkpoint_drops_honest_peers_witness :
  (BestBlockHeight (nd_chain server), BestBlockHeight (nd_chain strayed)) = (2, 1) ∧
  ∃ m', startSync toy_sum [checkpoint] 1 0 (manager strayed) = (Ok false, m') ∧ sm_chain m' = strayed ∧
    ps_peers (sm_peers m') = delete (bp_ID far) {[bp_ID far := far_peer]}.
Proof.
  split; [vm_compute; reflexivity|].
  refine (fork_below_the_checkpoint_drops_honest_peers (NC := toy_net_chain) toy_sum [checkpoint] (node_good genesis_node)
           node_main 0 0 server (bp_ID far) far_peer checkpoint (manager strayed) (tb_BlockHeader block1) 2
           (tb_BlockHeader rival2) far_honest server_good strayed_good _ _ _ _ _ _ _ _).
  - vm_compute. reflexivity.
  - vm_compute. reflexivity.
  - vm_compute. reflexivity.
  - reflexivity.
  - apply none_hashed. vm_compute. reflexivity.
  - exact far_best.
  - vm_compute. discriminate.
  - reflexivity.
Defined.

Definition option_of {A} (o : outcome unit A) : option A := match o with Ok a => Some a | _ => None end.
Lemma block_locator_reaches_the_first_block_witness :
  length <$> option_of (blockLocator (NC := toy_net_chain) toy_sum server) = Some 3%nat ∧
  ∃ hs, blockLocator toy_sum server = Ok (header_Hash toy_sum <$> hs) ∧
    descent node_main server (pred (length (node_main server))) hs ∧
    Z.of_nat (length hs) <= 10 + Z.log2 (nc_BestBlockHeight server).
Proof.
  split; [vm_compute; reflexivity|].
  exact (block_locator_reaches_the_first_block (NC := toy_net_chain) toy_sum (node_good genesis_node) node_main server server_good).
Defined.

(** ** A block that is known but not the best *)

(** The node after blocks that were saved but could not be connected *)
Definition unconnect (c : NodeChain) : NodeChain :=
  mkNodeChain (with_best genesis_node (with_index (mkBlockIndex (nodes (nd_chain c)) [Some genesis_node]) (nd_chain c))) [] 0.

Lemma unconnect_good c : node_good genesis_node c → indexed (nodes (nd_chain c)) genesis_node →
  node_good genesis_node (unconnect c).
Proof.
  intros [[Ht Hb Hm Ho] Hh] Hg. split; [|exact Hh]. split; [exact Ht|exact Hg|reflexivity|exact Ho].
Qed.

Definition unconnected : NodeChain := unconnect strayed.
Lemma unconnected_good : node_good genesis_node unconnected.
Proof. apply unconnect_good; [exact strayed_good|]. vm_compute. reflexivity. Qed.

Lemma lighter_branch_stalls_the_sync_witness :
  ∃ m', regularBlockSync 1000 0 5 (manager unconnected) = (Fuel, m') ∧ sm_chain m' = unconnected.
Proof.
  apply (lighter_branch_stalls_the_sync (λ _, ∅) genesis_node 1000 0 5 (bp_ID far) block1
           (default genesis_node (nodes (nd_chain unconnected) !! block_Hash toy_sum block1)) (manager unconnected));
    [|exact unconnected_good|vm_compute; reflexivity|vm_compute; reflexivity|vm_compute; discriminate|reflexivity|reflexivity].
  split; [reflexivity|]. intros sent. cbn [block_arrivals toy_network]. unfold answered. rewrite last_snoc. reflexivity.
Defined.

(** ** Two nodes that relay transactions *)

(** Eleven payments of the same output; the pool takes them all. *)
Definition payment (i : nat) : TypesTx :=
  let td := mkTxData 1 100 0 [toy_spend 10000000] [toy_txout (7000000 - Z.of_nat i)] [] in mkTypesTx td (mapped_tx td).
Definition payments : list TypesTx := payment <$> seq 0 11.
Definition paid_utxos : gmap Hash UtxoEntry :=
  list_to_map ((λ id, (id, NewUtxoEntry false 0 false)) <$> SpentOutputIDs (tt_Tx (payment 0))).
Definition paid0 : NodeChain :=
  mkNodeChain (with_store (mkLevelDB (ldb_blocks db0) (ldb_headers db0) (ldb_status db0) paid_utxos (ldb_state db0)) chain0) [] 0.

#[local] Instance paid_net_chain : NetChain := node_NetChain ldb_utxo.
#[local] Instance paid_pool_laws : PoolLaws (NC := paid_net_chain) node_pooled := node_PoolLaws ldb_utxo.

Fixpoint distinct (l : list Hash) : bool :=
  match l with [] => true | x :: l => negb (existsb (λ y, bool_decide (y = x)) l) && distinct l end.
Lemma distinct_NoDup l : distinct l = true → NoDup l.
Proof.
  induction l as [|x l IH]; [by constructor|]. cbn [distinct]. intros [Hx Hl]%andb_true_iff. constructor; [|by apply IH].
  intros Hin. apply negb_true_iff, not_true_iff_false in Hx. apply Hx, existsb_exists. exists x.
  split; [by apply list_elem_of_In|by apply bool_decide_eq_true_2].
Qed.

Definition sender_chain : NodeChain := (accepts_all ldb_utxo 0 payments paid0).2.
Definition pooled_b (c : NodeChain) (tx : TypesTx) : bool := IsTransactionInPool (tt_ID tx) (c_txPool (nd_chain c)).
Definition writable_b (tx : TypesTx) : bool := match tx_MarshalText toy_sum (tt_TxData tx) with Ok _ => true | _ => false end.

Definition node_A : BasePeer := mkBasePeer [65] [10] DefaultServices.
Definition node_B : BasePeer := mkBasePeer [66] [20] DefaultServices.
Definition node_with (c : NodeChain) (other : BasePeer) : SyncManager (NC := paid_net_chain) :=
  mkSyncManager (NC := paid_net_chain) c (mkPeerSet {[bp_ID other := newPeer 0 zero other]} [] [] []) zero (bp_ID other)
    [] [] [] [] [] ∅.

Lemma all_pooled c txs : Forall (λ e, e.1 < nd_next c) (nd_cache c) → forallb (pooled_b c) txs = true →
  Forall (λ tx, node_pooled tx c) txs.
Proof.
  intros Hc Hp. apply Forall_forall. intros tx Htx. split; [|exact Hc]. rewrite forallb_forall in Hp. by apply Hp, list_elem_of_In.
Qed.
Lemma payments_pooled : Forall (λ tx, node_pooled tx sender_chain) payments.
Proof. apply all_pooled; [vm_compute; constructor|vm_compute; reflexivity]. Qed.

Lemma all_writable txs : forallb writable_b txs = true →
  Forall (λ tx, ∃ text, tx_MarshalText toy_sum (tt_TxData tx) = Ok text) txs.
Proof.
  intros Hp. apply Forall_forall. intros tx Htx. rewrite forallb_forall in Hp. specialize (Hp tx ltac:(by apply list_elem_of_In)).
  unfold writable_b in Hp. destruct (tx_MarshalText _ _) as [text| | |]; [by exists text|done..].
Qed.
Lemma payments_writable : Forall (λ tx, ∃ text, tx_MarshalText toy_sum (tt_TxData tx) = Ok text) payments.
Proof. apply all_writable. vm_compute. reflexivity. Qed.

Lemma payments_taken : takes (NC := paid_net_chain) 0 payments paid0.
Proof. apply (accepts_all_takes (S := toy_store) ldb_utxo); [split; reflexivity|vm_compute; reflexivity]. Qed.

Lemma relaying_bans_the_honest_receiver_witness :
  ∃ a' b', relay_all toy_sum 0 node_A node_B payments (node_with sender_chain node_B, node_with paid0 node_A) = Ok (a', b') ∧
    getPeer (bp_ID node_B) (sm_peers a') = None ∧ ps_banned (sm_peers a') = [] ++ [bp_Addr node_B].
Proof.
  refine (relaying_bans_the_honest_receiver (NC := paid_net_chain) toy_sum node_pooled 0 node_A node_B 0 0 zero zero payments
           (node_with sender_chain node_B) (node_with paid0 node_A) _ _ _ _ _ _ _ payments_writable payments_pooled
           payments_taken); try reflexivity.
  apply distinct_NoDup. vm_compute. reflexivity.
Defined.
